(* ===== verification/_CoqProject ===== *)
-Q . S2P
Prelude.v
BTreeSet.v
Frame.v
Authorization.v
AuthSpec.v
AuthProofs.v
AuthInvariants.v
AuthTheorems.v
AuthTests.v
AuthNetwork.v
Network.v
AuthCommute.v
Template.v
Str.v
Num.v
Scale.v
Json.v
Effects.v
Offchain.v
Client.v
ClientProofs.v
ClientIndex.v
ClientWorker.v
ClientJson.v
ClientCost.v
Runtime.v
System.v
Timed.v
Delivery.v
Pallets.v
Limits.v
Fees.v
TemplateMock.v
Extrinsic.v
RuntimeApi.v
ChainSpec.v
Substrate.v
Rpc.v
Service.v
ServiceTheorems.v
PeerId.v
Command.v
