(* ===== verification/Prelude.v ===== *)
(** * Verification of the Supra client

    ** The program

    The repository is a Substrate node.  Its own logic is in three pallets and
    in what composes them:

    - authorization/src/lib.rs, the node authorization pallet: the well known
      nodes of the network, the owner of each node, the additional connections
      of each node, and an off-chain worker that hands the authorized peers of
      the local node to the network layer;
    - client/src/lib.rs, the light client pallet: a dispatchable leaves a
      request in the off-chain index of its block; the worker of that block
      fetches the price of Ether under a storage lock, posts a transaction with
      it to an Ethereum node and submits the price on chain as an unsigned
      transaction;
    - pallets/template/src/lib.rs, a proof-of-existence pallet;
    - runtime/src/lib.rs composes the pallets and offers the runtime's
      interface, and node/src/chain_spec.rs builds the genesis they start from;
    - node/src/service.rs assembles and starts a full or a light node and
      publishes a record in the network's hash table; node/src/rpc.rs extends
      its RPC; node/src/command.rs and cli.rs choose the chain specification and
      what to run; node/src/supra_subcommands.rs prints the identifier of a key.

    ** The files

    - Prelude: results, the state and error monad of the dispatchables, the
      discipline "verify first, write last", Rust's [Default] and [Ord].
    - BTreeSet: the sorted sets of the standard library.
    - Frame: what the pallets use of FRAME (origins, storage values and maps)
      as classes of operations and of laws, with a concrete instance [Mock].
    - Authorization (module [Auth]): the authorization pallet.  A storage item
      is a field of [Store]; a dispatchable [f] of the source is the definition
      [f] in the monad [M], which keeps what was written before an error;
      [dispatch] is the generated [Call] dispatcher; [offchain_worker] and
      [get_authorized_nodes] are as in the source.  AuthSpec is its
      specification over finite sets and maps: states, guards with their errors
      and a transition relation.  AuthProofs has the refinement, AuthInvariants
      the invariant and the facts on transitions, AuthTheorems the properties.
      AuthTests executes the pallet's own tests on the model, and AuthNetwork
      reads the links of the network off the history of the chain.  Network runs
      the off-chain workers of all nodes beside the chain, in any order; AuthCommute
      is about the order of the calls within a block.
    - Template (module [Poe]): the proof-of-existence pallet and its properties;
      TemplateMock: the mock runtime of its tests.
    - Str, Num: what the client uses of Rust's strings and numbers: UTF-8,
      hexadecimal, [f32] parsing with its rounding, the cast to [u32].
    - Scale, Json: interfaces to the SCALE codec and to serde_json with the laws
      that are relied on, what is serialised and what is read, derived
      deserialisers, and concrete instances.
    - Effects: programs over a signature of calls to an environment, their traces
      whatever is answered, bounds on the calls they make, partial executions and
      execution against a concrete environment, which may leave a call without an
      answer.  Off-chain workers and the node
      are such programs.  Offchain: the signature of the off-chain host and what
      can be observed of a worker.
    - Client (module [Client]): the light client pallet, function by function.
      ClientProofs describes the traces of each part of its worker; ClientIndex
      has the properties of the dispatchables, of the index and of unsigned
      validation, ClientWorker those of the worker, ClientCost when it ends and what
      it costs, ClientJson when requests can be serialised and printed.
    - Runtime, RuntimeApi, ChainSpec: the composition of the pallets, the
      runtime's interface and the two chain specifications.
    - Pallets: the list of pallets with the parts in use; Limits: the widths of the
      constants, the limits of a block and the weights of the calls; Fees: what a
      call costs; Extrinsic: signed, unsigned and sudo extrinsics over Substrate's
      check.
    - System: blocks, the off-chain database, the pool and any number of workers
      as one step relation, in which a worker makes one call at a time.  Timed
      adds a clock and expiring locks; Delivery drives a worker to its end.
    - Substrate: the signature of the libraries a node is assembled from, with
      opaque handles, and a concrete environment.  Rpc, Service, PeerId, Command:
      the files of node/src of these names (PeerId is supra_subcommands.rs), each
      function as a program; ServiceTheorems has the properties of the service.

    ** What the theorems show

    - C1 to C4: the authorization dispatchables refine the specification in both
      directions (the exact error of the first guard that fails, or the specified
      state and event); its invariant holds in every reachable storage; a failed
      call changes nothing.
    - C8: what the node signs itself passes the runtime's check.
    - C5, C7, C37: who may change owners, connections, claims and well known
      nodes: for one call, over runs of the whole runtime, and for extrinsics,
      down to the signature they carry.
    - C6: the links between nodes after any history of calls.  C9: with the
      workers of all nodes, whom each node accepts at any time, and that the network
      is the one of the chain once the workers have run.  C11: calls of owners about
      different nodes commute, whatever the order a block has them in.  C10, C13:
      swaps and self connections; AuthTheorems also has resets, the worker's action
      on every branch, round trips of claims and connections and the exact limits of
      the checks.
    - C39: how many calls fit into a block ([Fees.fee_range] bounds what each of
      them costs).
    - C17, C18: the results of the proof-of-existence pallet on every branch
      and the safety of a claim over any run.
    - C20, C29: from a call of the light client to the worker of its block, and
      which unsigned calls the pool accepts.
    - C21 to C25: over every trace, whatever the host answers: the lock is
      respected and released, a submitted price was posted and answered before,
      failures publish nothing, requests are bounded and have deadlines, panics
      come only from the gas estimation.  C30: without the lock only the cached
      price is published.  C36: a refused gas estimation does end in a panic.
    - C26: a worker ends after a bounded number of calls, or waits for a response
      body, which the source reads without a deadline; its time is bounded but for
      that of the bodies.
    - C27, C28: the calldata is well formed and denotes the price.
    - C32: when the world outside answers, a signed request ends in exactly the
      fetched price on chain, within 18 calls of the worker.
    - C12, C38, C33: for the concurrent system, a price on chain goes back to a
      signed request and a posted and answered transaction, workers exclude each
      other from the critical section while no lock expires, and only a slow
      response body can let two in; [Timed.slow_body_breaks_exclusion] is a run in
      which it does, and [System.forged_price] shows why C12 asks that the pool
      takes no unsigned call from elsewhere.
    - C40, C34, C35: what a full and a light node start, in which order and
      with which keys, and the record a full node publishes.
    - C14 to C16, C19, C31: the chain specification of every identifier, what
      each sub-command may do, when a remote keystore is refused, the output of
      decode-public-key, and when the program waits for a node.

    ** Bounds and fuel

    Lists, strings, storage and traces are unbounded.  UTF-8 validation runs on
    fuel equal to the length of the input, which is enough because each step
    consumes a byte ([Str.utf8_scan_fuel]).  A [u32] has at most 8 hexadecimal
    digits, which [to_hex] produces; a decimal [u64] has at most 20.  Workers
    and nodes are inductive programs, which end when their calls are answered; C26
    says when a worker may not be, and C32 drives one for the 18 calls it makes at
    most, where the reading of a body, however many pieces it comes in, is one.
    Machine integers are [Z] with their width written out where it matters: the cast to [u32] saturates, the length
    of a vector fits 32 bits to be encodable, the [usize] subtraction of the
    padding panics below zero.

    ** What is not modelled

    Logging, the code the macros of FRAME generate (the encoding of calls and of
    the storage among it).  FRAME, the SCALE codec, serde_json, the off-chain host, key
    derivation, hexadecimal and base 58 and the services of Substrate are
    libraries: they are parameters, with their documented behaviour as named laws
    where a theorem needs it, and concrete instances in the witnesses.  The
    calls of Substrate's pallets in the runtime (sudo and balances among them) are
    opaque, and the types that configure them, the withdrawal of fees, the parsing of
    command line options, build scripts, the tests and the benchmark of the
    proof-of-existence pallet, which do not compile, and the block of new_light
    under the feature light-client, whose names are not defined, are left out.
    Events are kept in every block; FRAME drops those of block zero.  In System the
    calls of a worker and the executions of runtime calls are atomic, and a block's
    worker may start at any time.

    ** Possible extensions

    Network and System run the workers of one pallet each; a system with both, over
    the extrinsics of Extrinsic, would need no new definition of the pallets. *)

(** ** Shared vocabulary

    Results and the dispatch monad, the traits of Rust the models use, and
    generic lemmas. *)

From stdpp Require Export prelude gmap.
From Stdlib Require Export Init.Byte.
From Stdlib Require Import Strings.Byte NArith.

(** ** Notations and hint databases of the development *)

Create HintDb btree.
Create HintDb effects.

Declare Scope supra_scope.
Delimit Scope supra_scope with supra.

(** [Vec<u8>] of the sources. *)
Abbreviation bytes := (list byte).

(** ** Results and the dispatch monad *)

(** Rust's [Result<A, E>]. *)
Inductive result (A E : Type) : Type :=
| Ok (a : A)
| Err (e : E).
Arguments Ok {A E} a.
Arguments Err {A E} e.

Definition map_err {A E F} (f : E -> F) (r : result A E) : result A F :=
  match r with Ok a => Ok a | Err e => Err (f e) end.

Definition is_ok {A E} (r : result A E) : bool :=
  match r with Ok _ => true | Err _ => false end.

(** Code that reads and writes a storage [S] and may fail with [E].  The
    storage is returned on the error path too: a dispatchable is not rolled
    back by the language, so "an error leaves the storage unchanged" is a
    theorem about the handler and not a feature of the monad. *)
Definition M (S E A : Type) : Type := S -> result A E * S.

Definition ret {S E A} (a : A) : M S E A := fun s => (Ok a, s).
Definition throw {S E A} (e : E) : M S E A := fun s => (Err e, s).
Definition bind {S E A B} (m : M S E A) (k : A -> M S E B) : M S E B :=
  fun s => match m s with
           | (Ok a, s') => k a s'
           | (Err e, s') => (Err e, s')
           end.

(** Read the storage through [f], and replace the storage by [f] of it. *)
Definition gets {S E A} (f : S -> A) : M S E A := fun s => (Ok (f s), s).
Definition modify {S E} (f : S -> S) : M S E unit := fun s => (Ok tt, f s).

(** The [ensure!] macro. *)
Definition ensure {S E} (b : bool) (e : E) : M S E unit :=
  if b then ret tt else throw e.

(** The [?] operator on a [Result]. *)
Definition try_ {S E A} (r : result A E) : M S E A := fun s => (r, s).

Notation "'let!' x := m 'in' k" := (bind m (fun x => k))
  (at level 10, x name, m at level 100, k at level 200) : supra_scope.
Notation "'run!' m 'in' k" := (bind m (fun _ => k))
  (at level 10, m at level 100, k at level 200) : supra_scope.

(** How the primitives run in front of a continuation. *)
Section run.
Context {S E A B : Type}.
Implicit Types (s : S) (e : E).

Lemma bind_try (r : result A E) (k : A -> M S E B) s :
  bind (try_ r) k s = match r with Ok a => k a s | Err e => (Err e, s) end.
Proof. by destruct r. Qed.

Lemma bind_ensure b e (k : unit -> M S E B) s :
  bind (ensure b e) k s = if b then k tt s else (Err e, s).
Proof. by destruct b. Qed.

Lemma bind_gets (f : S -> A) (k : A -> M S E B) s : bind (gets f) k s = k (f s) s.
Proof. done. Qed.

Lemma bind_modify (f : S -> S) (k : unit -> M S E B) s : bind (modify f) k s = k tt (f s).
Proof. done. Qed.

End run.

(** ** Verify first, write last

    The discipline of dispatchables that makes an error leave no trace: checks
    that only read, followed by writes that cannot fail. *)

Section discipline.
Context {S E : Type}.

Definition readonly {A} (m : M S E A) : Prop := forall s, snd (m s) = s.
Definition infallible {A} (m : M S E A) : Prop := forall s, exists a, fst (m s) = Ok a.
Definition noop_on_error {A} (m : M S E A) : Prop :=
  forall s e s', m s = (Err e, s') -> s' = s.

Lemma readonly_try {A} (r : result A E) : readonly (try_ r).
Proof. done. Qed.

Lemma readonly_ensure b (e : E) : readonly (ensure b e).
Proof. by destruct b. Qed.

Lemma readonly_gets {A} (f : S -> A) : readonly (gets f).
Proof. done. Qed.

Lemma readonly_bind {A B} (m : M S E A) (k : A -> M S E B) :
  readonly m -> (forall a, readonly (k a)) -> readonly (bind m k).
Proof.
  intros Hm Hk s. unfold bind. specialize (Hm s). destruct (m s) as [[a|e] s']; simpl in *; subst.
  - apply Hk.
  - done.
Qed.

Lemma infallible_ret {A} (a : A) : infallible (ret a).
Proof. by eexists. Qed.

Lemma infallible_modify (f : S -> S) : infallible (modify f).
Proof. by eexists. Qed.

Lemma infallible_bind {A B} (m : M S E A) (k : A -> M S E B) :
  infallible m -> (forall a, infallible (k a)) -> infallible (bind m k).
Proof.
  intros Hm Hk s. unfold bind. specialize (Hm s) as [a Ha].
  destruct (m s) as [r s']; simpl in *; subst. apply Hk.
Qed.

Lemma noop_infallible {A} (m : M S E A) : infallible m -> noop_on_error m.
Proof. intros Hm s e s' He. destruct (Hm s) as [a Ha]. by rewrite He in Ha. Qed.

Lemma noop_bind {A B} (m : M S E A) (k : A -> M S E B) :
  readonly m -> (forall a, noop_on_error (k a)) -> noop_on_error (bind m k).
Proof.
  intros Hm Hk s e s'. unfold bind. specialize (Hm s).
  destruct (m s) as [[a|e'] s'']; simpl in *; subst; [apply Hk|by intros [= _ ->]].
Qed.

Lemma noop_if {A} (b : bool) (m1 m2 : M S E A) :
  noop_on_error m1 -> noop_on_error m2 -> noop_on_error (if b then m1 else m2).
Proof. by destruct b. Qed.

End discipline.

#[export] Hint Resolve readonly_try readonly_ensure readonly_gets readonly_bind infallible_ret
  infallible_modify infallible_bind noop_if : effects.
#[export] Hint Resolve noop_bind | 20 : effects.
#[export] Hint Resolve noop_infallible | 10 : effects.

(** ** Rust's [Default] and [Ord] traits *)

Class RDefault (A : Type) : Type := rdefault : A.

#[export] Instance list_rdefault {A} : RDefault (list A) := [].
#[export] Instance Z_rdefault : RDefault Z := 0%Z.
#[export] Instance prod_rdefault {A B} `{RDefault A, RDefault B} : RDefault (A * B) :=
  (rdefault, rdefault).

Class Ord (A : Type) : Type := cmp : A -> A -> comparison.

(** What a lawful [Ord] implementation promises to the ordered collections. *)
Class OrdLaws (A : Type) `{Ord A} : Prop := {
  cmp_lt_trans (a b c : A) : cmp a b = Lt -> cmp b c = Lt -> cmp a c = Lt;
  cmp_flip (a b : A) : CompOpp (cmp a b) = cmp b a;
  cmp_eq (a b : A) : cmp a b = Eq <-> a = b
}.

(** The strict order an [Ord] induces. *)
Definition lt_of {A} `{Ord A} (x y : A) : Prop := cmp x y = Lt.

Section ord_facts.
Context {A : Type} `{OrdLaws A}.
Implicit Types x y z : A.

Lemma cmp_refl x : cmp x x = Eq.
Proof. by apply cmp_eq. Qed.

Lemma cmp_gt_lt x y : cmp x y = Gt <-> cmp y x = Lt.
Proof. rewrite <-(cmp_flip x y). destruct (cmp x y); simpl; naive_solver. Qed.

#[export] Instance lt_of_strict : StrictOrder (lt_of (A:=A)).
Proof.
  split.
  - intros x Hx. unfold lt_of in Hx. rewrite cmp_refl in Hx. done.
  - intros x y z. apply cmp_lt_trans.
Qed.

#[export] Instance lt_of_dec : RelDecision (lt_of (A:=A)).
Proof. intros x y. unfold lt_of, Decision. decide equality. Defined.

Lemma lt_of_ne x y : lt_of x y -> x <> y.
Proof. intros Hlt ->. by apply (irreflexivity lt_of y) in Hlt. Qed.

End ord_facts.

(** [u8] ordered by value, and [Vec<T>] ordered lexicographically. *)
#[export] Instance byte_ord : Ord byte := fun x y => N.compare (to_N x) (to_N y).

#[export] Instance list_ord {A} `{Ord A} : Ord (list A) :=
  fix lexicographic k l :=
    match k with
    | [] => match l with [] => Eq | _ => Lt end
    | a :: k' =>
        match l with
        | [] => Gt
        | b :: l' => match cmp a b with Eq => lexicographic k' l' | c => c end
        end
    end.

Lemma byte_to_N_inj (x y : byte) : to_N x = to_N y -> x = y.
Proof. intros Hxy. pose proof (of_to_N x). pose proof (of_to_N y). congruence. Qed.

#[export] Instance byte_ord_laws : OrdLaws byte.
Proof.
  split; unfold cmp, byte_ord.
  - intros a b c. rewrite !N.compare_lt_iff. lia.
  - intros a b. symmetry. apply N.compare_antisym.
  - intros a b. rewrite N.compare_eq_iff. split; [apply byte_to_N_inj | by intros ->].
Qed.

#[export] Instance list_ord_laws {A} `{OrdLaws A} : OrdLaws (list A).
Proof.
  split.
  - intros k. induction k as [|a k IH]; intros [|b l] [|c m]; try done.
    cbn. destruct (cmp a b) eqn:Hab; destruct (cmp b c) eqn:Hbc; try done;
      rewrite ?cmp_eq in Hab; rewrite ?cmp_eq in Hbc; subst;
      rewrite ?cmp_refl, ?Hab, ?Hbc; try done.
    + apply IH.
    + by rewrite (cmp_lt_trans a b c).
  - intros k. induction k as [|a k IH]; intros [|b l]; try done.
    cbn. rewrite <-(cmp_flip a b). destruct (cmp a b); simpl; [apply IH | done..].
  - intros k. induction k as [|a k IH]; intros [|b l]; try done.
    cbn. destruct (cmp a b) eqn:Hab.
    + apply cmp_eq in Hab as ->. fold (cmp k l). rewrite IH. naive_solver.
    + split; [done|]. intros [= -> ->]. by rewrite cmp_refl in Hab.
    + split; [done|]. intros [= -> ->]. by rewrite cmp_refl in Hab.
Qed.

#[export] Instance byte_eq_dec : EqDecision byte := Byte.byte_eq_dec.
#[export] Program Instance byte_countable : Countable byte :=
  inj_countable to_N of_N _.
Next Obligation. intros x. apply of_to_N. Qed.

(** ** Integers *)

Lemma Z_ltb_bool_decide (x y : Z) `{!Decision (x < y)%Z} : (x <? y)%Z = bool_decide (x < y)%Z.
Proof. apply eq_true_iff_eq. by rewrite bool_decide_eq_true, Z.ltb_lt. Qed.

(** ** Options *)

Lemma bool_decide_is_Some {A} (x : option A) `{!Decision (is_Some x)} :
  bool_decide (is_Some x) = match x with Some _ => true | None => false end.
Proof. case_bool_decide as Hx; destruct x; try done. destruct Hx. by eexists. Qed.

(** ** Lists *)

Lemma filter_none {A} (P : A -> Prop) `{!forall x, Decision (P x)} l :
  Forall (fun x => ~ P x) l -> filter P l = [].
Proof. induction 1 as [|x l Hx _ IH]; [done|]. by rewrite filter_cons_False. Qed.
