(* ===== verification/BTreeSet.v ===== *)
(** * [BTreeSet<T>] of the Rust standard library

    The ordered set the authorization pallet keeps its nodes and connections
    in: the strictly ascending list of its elements, which is what iterating
    over the tree yields.  [contains], [insert], [remove], [len], [extend],
    [collect] and [Vec::from_iter] are executable; the lemmas relate each of
    them to the finite set of the elements ([to_set]) and show that the
    ascending order, the invariant [wf], is kept. *)

From stdpp Require Import prelude gmap sorting.
From S2P Require Import Prelude.

Module BTreeSet.
Section btree_set.
Context {A : Type} `{OrdLaws A}.
Implicit Types (x y : A) (s t : list A).

(** The ascending list of the elements: the state of the set. *)
Definition wf s : Prop := StronglySorted lt_of s.

Definition empty : list A := [].

Fixpoint contains s x : bool :=
  match s with
  | [] => false
  | y :: s' => match cmp x y with
               | Lt => false
               | Eq => true
               | Gt => contains s' x
               end
  end.

Fixpoint insert s x : list A :=
  match s with
  | [] => [x]
  | y :: s' => match cmp x y with
               | Lt => x :: y :: s'
               | Eq => y :: s'
               | Gt => y :: insert s' x
               end
  end.

Fixpoint remove s x : list A :=
  match s with
  | [] => []
  | y :: s' => match cmp x y with
               | Lt => y :: s'
               | Eq => s'
               | Gt => y :: remove s' x
               end
  end.

Definition len s : Z := Z.of_nat (length s).

(** [s.extend(xs)]: insert the items of an iterator one by one. *)
Definition extend s (xs : list A) : list A := foldl insert s xs.

(** [xs.collect::<BTreeSet<_>>()] *)
Definition collect (xs : list A) : list A := extend empty xs.

(** [Vec::from_iter(s)] *)
Definition to_vec s : list A := s.

(** ** Order *)

Lemma wf_nil : wf [].
Proof. constructor. Qed.

Lemma wf_cons y s : wf (y :: s) <-> wf s /\ Forall (lt_of y) s.
Proof. split; [apply StronglySorted_inv | intros []; by constructor]. Qed.

Lemma elem_of_insert s x y : y ∈ insert s x <-> y = x \/ y ∈ s.
Proof.
  induction s as [|z s IH]; simpl; [set_solver|].
  destruct (cmp x z) eqn:Hxz; [apply cmp_eq in Hxz; subst|..]; set_solver.
Qed.

Lemma insert_wf s x : wf s -> wf (insert s x).
Proof.
  induction s as [|y s IH]; simpl; [intros; repeat constructor|].
  rewrite wf_cons. intros [Hs Hy]. destruct (cmp x y) eqn:Hxy.
  - by apply wf_cons.
  - rewrite wf_cons, wf_cons. split; [done|]. constructor; [done|].
    eapply Forall_impl; [done|]. intros z ?. by apply (cmp_lt_trans x y z).
  - apply wf_cons. split; [auto|]. apply Forall_forall. intros z.
    rewrite elem_of_insert. intros [->|Hz]; [by apply cmp_gt_lt|].
    by apply (proj1 (Forall_forall _ _) Hy).
Qed.

(** Everything after [y] is above it, so a search below [y] can stop. *)
Lemma wf_below y s x : wf (y :: s) -> cmp x y = Lt -> x ∉ y :: s.
Proof.
  rewrite wf_cons, Forall_forall. intros [_ Hy] Hxy [->|Hx]%elem_of_cons.
  - by rewrite cmp_refl in Hxy.
  - specialize (Hy x Hx). apply cmp_gt_lt in Hxy. unfold lt_of in Hy. congruence.
Qed.

Lemma contains_spec s x : wf s -> contains s x = true <-> x ∈ s.
Proof.
  induction s as [|y s IH]; simpl; [set_solver|]. intros Hwf.
  pose proof Hwf as [Hs Hy]%wf_cons. destruct (cmp x y) eqn:Hxy.
  - apply cmp_eq in Hxy as ->. set_solver.
  - pose proof (wf_below y s x Hwf Hxy). naive_solver.
  - rewrite IH by done. rewrite elem_of_cons. split; [auto|].
    intros [->|?]; [by rewrite cmp_refl in Hxy | done].
Qed.

Lemma elem_of_remove s x y : wf s -> y ∈ remove s x <-> y ∈ s /\ y <> x.
Proof.
  induction s as [|z s IH]; simpl; [set_solver|]. intros Hwf.
  pose proof Hwf as [Hs Hz]%wf_cons. rewrite Forall_forall in Hz.
  destruct (cmp x z) eqn:Hxz.
  - apply cmp_eq in Hxz as ->. split.
    + intros Hy. split; [set_solver|]. apply not_eq_sym, lt_of_ne, Hz, Hy.
    + set_solver.
  - pose proof (wf_below z s x Hwf Hxz). set_solver.
  - rewrite elem_of_cons, IH by done. rewrite elem_of_cons.
    assert (z <> x) by (intros ->; by rewrite cmp_refl in Hxz). naive_solver.
Qed.

Lemma remove_wf s x : wf s -> wf (remove s x).
Proof.
  induction s as [|y s IH]; simpl; [done|].
  intros Hwf. pose proof Hwf as [Hs Hy]%wf_cons.
  destruct (cmp x y) eqn:Hxy; [done..|]. apply wf_cons. split; [auto|].
  apply Forall_forall. intros z [Hz _]%elem_of_remove; [|done].
  by apply (proj1 (Forall_forall _ _) Hy).
Qed.

Lemma wf_NoDup s : wf s -> NoDup s.
Proof.
  induction s as [|y s IH]; [constructor|]. rewrite wf_cons, Forall_forall.
  intros [Hs Hy]. constructor; [|auto]. intros Hin.
  by apply (lt_of_ne y y (Hy y Hin)).
Qed.

(** Two ordered sets with the same elements are the same list: the iteration
    order is determined by the contents. *)
Lemma wf_ext s t : wf s -> wf t -> (forall x, x ∈ s <-> x ∈ t) -> s = t.
Proof.
  revert t. induction s as [|y s IH]; intros [|z t] Hs Ht Hst; [done|set_solver..|].
  pose proof Hs as [Hs' Hy]%wf_cons. pose proof Ht as [Ht' Hz]%wf_cons.
  assert (Hyz : cmp y z = Eq).
  { destruct (cmp y z) eqn:E; [done|..].
    - by destruct (wf_below z t y Ht E); apply Hst; left.
    - apply cmp_gt_lt in E. by destruct (wf_below y s z Hs E); apply Hst; left. }
  apply cmp_eq in Hyz as <-. f_equal. apply IH; [done..|]. intros x.
  apply wf_NoDup in Hs, Ht. apply NoDup_cons in Hs as [Hs _], Ht as [Ht _].
  specialize (Hst x). set_solver.
Qed.

Lemma extend_wf s xs : wf s -> wf (extend s xs).
Proof. revert s. induction xs; simpl; auto using insert_wf. Qed.

Lemma elem_of_extend s xs x : x ∈ extend s xs <-> x ∈ s \/ x ∈ xs.
Proof.
  revert s. induction xs as [|y xs IH]; intros s; simpl; [set_solver|].
  rewrite IH, elem_of_insert, elem_of_cons. naive_solver.
Qed.

Lemma collect_wf xs : wf (collect xs).
Proof. apply extend_wf, wf_nil. Qed.

Lemma elem_of_collect xs x : x ∈ collect xs <-> x ∈ xs.
Proof. unfold collect, empty. rewrite elem_of_extend. set_solver. Qed.

Lemma length_insert_le s x : (length (insert s x) <= S (length s))%nat.
Proof. induction s; simpl; [lia|]. destruct (cmp x a); simpl; lia. Qed.

Lemma length_extend_le s xs : (length (extend s xs) <= length s + length xs)%nat.
Proof.
  revert s. induction xs as [|y xs IH]; intros s; simpl; [lia|].
  pose proof (IH (insert s y)). pose proof (length_insert_le s y).
  unfold extend in *. lia.
Qed.

End btree_set.

(** ** The finite set an ordered set stands for *)

Section to_set.
Context {A : Type} `{OrdLaws A} `{Countable A}.
Implicit Types (x y : A) (s t : list A).

Definition to_set s : gset A := list_to_set s.

Lemma elem_of_to_set s x : x ∈ to_set s <-> x ∈ s.
Proof. unfold to_set. set_solver. Qed.

Lemma to_set_insert s x : to_set (insert s x) = {[x]} ∪ to_set s.
Proof.
  apply set_eq. intros y. rewrite elem_of_union, elem_of_singleton, !elem_of_to_set.
  apply elem_of_insert.
Qed.

Lemma to_set_remove s x : wf s -> to_set (remove s x) = to_set s ∖ {[x]}.
Proof.
  intros Hs. apply set_eq. intros y.
  rewrite elem_of_difference, elem_of_singleton, !elem_of_to_set.
  by apply elem_of_remove.
Qed.

Lemma to_set_extend s xs : to_set (extend s xs) = to_set s ∪ list_to_set xs.
Proof.
  apply set_eq. intros y.
  rewrite elem_of_union, elem_of_list_to_set, !elem_of_to_set. apply elem_of_extend.
Qed.

Lemma to_set_collect xs : to_set (collect xs) = list_to_set xs.
Proof. unfold collect. rewrite to_set_extend. set_solver. Qed.

Lemma contains_to_set s x : wf s -> contains s x = bool_decide (x ∈ to_set s).
Proof.
  intros Hs. pose proof (contains_spec s x Hs) as Hc. case_bool_decide as Hx.
  - apply Hc. by apply elem_of_to_set.
  - destruct (contains s x); [|done]. destruct Hx. apply elem_of_to_set. by apply Hc.
Qed.

Lemma len_to_set s : wf s -> len s = Z.of_nat (size (to_set s)).
Proof.
  intros Hs%wf_NoDup. unfold len, to_set. by rewrite size_list_to_set.
Qed.

Lemma to_set_inj s t : wf s -> wf t -> to_set s = to_set t -> s = t.
Proof.
  intros Hs Ht Hst. apply wf_ext; [done..|]. intros x.
  by rewrite <-!elem_of_to_set, Hst.
Qed.

End to_set.

End BTreeSet.

#[export] Hint Resolve BTreeSet.wf_nil BTreeSet.insert_wf BTreeSet.remove_wf
  BTreeSet.extend_wf BTreeSet.collect_wf : btree.
#[export] Hint Extern 0 (OrdLaws _) => typeclasses eauto : btree.
