(* ===== verification/Frame.v ===== *)
(** * The FRAME services the pallets are written against

    The pallets of the repository call [frame_support] and [frame_system],
    which are not part of it.  Their services are interfaces here: a class of
    operations, over which the pallets are defined, and a class of laws, the
    documented behaviour the theorems rely on.  [Mock] instantiates both, with
    the origins of [frame_system::RawOrigin] and with finite maps as storage,
    the way the mock runtimes of the pallets' tests do. *)

From stdpp Require Import prelude gmap.
From S2P Require Import Prelude.

(** ** Errors a dispatchable returns *)

Variant BadOrigin := bad_origin.

Inductive DispatchError (E : Type) : Type :=
| DispatchBadOrigin
| DispatchModule (e : E).
Arguments DispatchBadOrigin {E}.
Arguments DispatchModule {E} e.

#[export] Instance DispatchError_eq_dec {E} `{EqDecision E} : EqDecision (DispatchError E).
Proof. solve_decision. Defined.

(** [?] on a [Result<_, BadOrigin>] and [ensure!] with an error of the pallet. *)
Definition try_origin {S E A} (r : result A BadOrigin) : M S (DispatchError E) A :=
  try_ (map_err (fun _ => DispatchBadOrigin) r).

Definition ensure_module {S E} (b : bool) (e : E) : M S (DispatchError E) unit :=
  ensure b (DispatchModule e).

Lemma bind_try_origin {S E A B} (r : result A BadOrigin)
    (k : A -> M S (DispatchError E) B) s :
  bind (try_origin r) k s =
    match r with Ok a => k a s | Err _ => (Err DispatchBadOrigin, s) end.
Proof. by destruct r. Qed.

Lemma bind_ensure_module {S E B} b (e : E) (k : unit -> M S (DispatchError E) B) s :
  bind (ensure_module b e) k s = if b then k tt s else (Err (DispatchModule e), s).
Proof. apply bind_ensure. Qed.

(** ** [frame_system] *)

(** The [EnsureOrigin] trait at a given origin type. *)
Record EnsureOrigin (O : Type) : Type := {
  eo_success : Type;
  ensure_origin : O -> result eo_success BadOrigin
}.
Arguments eo_success {O} _.
Arguments ensure_origin {O} _ _.

Class FrameSystem : Type := {
  AccountId : Type;
  AccountId_eq_dec :: EqDecision AccountId;
  AccountId_rdefault :: RDefault AccountId;
  BlockNumber : Type;
  BlockNumber_rdefault :: RDefault BlockNumber;
  Origin : Type;
  ensure_signed : Origin -> result AccountId BadOrigin;
  ensure_none : Origin -> result unit BadOrigin;
  EnsureRoot : EnsureOrigin Origin
}.

(** An origin is at most one of signed, unsigned and root. *)
Class FrameSystemLaws (F : FrameSystem) : Prop := {
  root_not_signed (o : Origin) x who :
    ensure_origin EnsureRoot o = Ok x -> ensure_signed o <> Ok who;
  none_not_signed (o : Origin) u who : ensure_none o = Ok u -> ensure_signed o <> Ok who;
  root_not_none (o : Origin) x u : ensure_origin EnsureRoot o = Ok x -> ensure_none o <> Ok u
}.

(** ** [frame_support::storage] *)

Class FrameStorage : Type := {
  StorageValue : Type -> Type;
  sv_get {V} `{RDefault V} : StorageValue V -> V;
  sv_put {V} : V -> StorageValue V -> StorageValue V;
  sv_absent {V} : StorageValue V;
  StorageMap (K V : Type) `{Countable K} : Type;
  sm_get {K V} `{Countable K} `{RDefault V} : StorageMap K V -> K -> V;
  sm_contains_key {K V} `{Countable K} : StorageMap K V -> K -> bool;
  sm_insert {K V} `{Countable K} : K -> V -> StorageMap K V -> StorageMap K V;
  sm_remove {K V} `{Countable K} : K -> StorageMap K V -> StorageMap K V;
  sm_swap {K V} `{Countable K} : K -> K -> StorageMap K V -> StorageMap K V;
  sm_absent {K V} `{Countable K} : StorageMap K V
}.

(** Exchange what two keys of a finite map hold, absence included. *)
Definition map_swap {K V} `{Countable K} (i j : K) (m : gmap K V) : gmap K V :=
  partial_alter (fun _ => m !! i) j (partial_alter (fun _ => m !! j) i m).

(** A storage map behaves as the finite map [sm_view] of its entries; a value
    query on an absent entry yields the default. *)
Class FrameStorageLaws (FS : FrameStorage) : Type := {
  sv_get_put {V} `{RDefault V} (v : V) sv : sv_get (sv_put v sv) = v;
  sv_get_absent {V} `{RDefault V} : sv_get (V:=V) sv_absent = rdefault;
  sm_view {K V} `{Countable K} : StorageMap K V -> gmap K V;
  sm_get_view {K V} `{Countable K} `{RDefault V} (m : StorageMap K V) k :
    sm_get m k = default rdefault (sm_view m !! k);
  sm_contains_key_view {K V} `{Countable K} (m : StorageMap K V) k :
    sm_contains_key m k = bool_decide (is_Some (sm_view m !! k));
  sm_insert_view {K V} `{Countable K} k v (m : StorageMap K V) :
    sm_view (sm_insert k v m) = <[k:=v]> (sm_view m);
  sm_remove_view {K V} `{Countable K} k (m : StorageMap K V) :
    sm_view (sm_remove k m) = delete k (sm_view m);
  sm_swap_view {K V} `{Countable K} k1 k2 (m : StorageMap K V) :
    sm_view (sm_swap k1 k2 m) = map_swap k1 k2 (sm_view m);
  sm_absent_view {K V} `{Countable K} : sm_view (K:=K) (V:=V) sm_absent = ∅
}.

(** ** Facts on swapping two entries *)

Section map_swap.
Context {K V : Type} `{Countable K}.
Implicit Types (m : gmap K V) (i j k : K).

Lemma lookup_map_swap m i j k :
  map_swap i j m !! k =
    if decide (k = i) then m !! j else if decide (k = j) then m !! i else m !! k.
Proof.
  unfold map_swap. destruct (decide (k = j)) as [->|Hj].
  - rewrite lookup_partial_alter_eq. case_decide; by subst.
  - rewrite lookup_partial_alter_ne by done. case_decide; subst.
    + by rewrite lookup_partial_alter_eq.
    + by rewrite lookup_partial_alter_ne.
Qed.

Lemma map_swap_involutive m i j : map_swap i j (map_swap i j m) = m.
Proof. apply map_eq. intros k. rewrite !lookup_map_swap. repeat case_decide; congruence. Qed.

Lemma map_swap_comm m i j : map_swap i j m = map_swap j i m.
Proof. apply map_eq. intros k. rewrite !lookup_map_swap. repeat case_decide; congruence. Qed.

Lemma map_Forall_map_swap (P : V -> Prop) m i j :
  map_Forall (fun _ => P) m -> map_Forall (fun _ => P) (map_swap i j m).
Proof. intros Hm k v. rewrite lookup_map_swap. repeat case_decide; apply Hm. Qed.

End map_swap.

Lemma fmap_map_swap {K V W} `{Countable K} (f : V -> W) (m : gmap K V) i j : f <$> map_swap i j m = map_swap i j (f <$> m).
Proof.
  apply map_eq. intros k. rewrite lookup_fmap, !lookup_map_swap, !lookup_fmap.
  by repeat case_decide.
Qed.

(** ** A concrete instance *)

Module Mock.

Inductive RawOrigin : Type :=
| Root
| Signed (who : Z)
| None_.

#[export] Instance mock_system : FrameSystem := {
  AccountId := Z;
  BlockNumber := Z;
  Origin := RawOrigin;
  ensure_signed o := match o with Signed who => Ok who | _ => Err bad_origin end;
  ensure_none o := match o with None_ => Ok tt | _ => Err bad_origin end;
  EnsureRoot := {|
    eo_success := unit;
    ensure_origin o := match o with Root => Ok tt | _ => Err bad_origin end
  |}
}.

(** [EnsureSignedBy<Who, u64>] *)
Definition EnsureSignedBy (who : Z) : EnsureOrigin RawOrigin := {|
  eo_success := Z;
  ensure_origin o :=
    match o with
    | Signed a => if bool_decide (a = who) then Ok a else Err bad_origin
    | _ => Err bad_origin
    end
|}.

#[export] Instance mock_system_laws : FrameSystemLaws mock_system.
Proof. split; intros []; naive_solver. Qed.

#[export] Instance mock_storage : FrameStorage := {
  StorageValue V := option V;
  sv_get V _ sv := default rdefault sv;
  sv_put V v _ := Some v;
  sv_absent V := None;
  StorageMap K V _ _ := gmap K V;
  sm_get K V _ _ _ m k := default rdefault (m !! k);
  sm_contains_key K V _ _ m k := match m !! k with Some _ => true | None => false end;
  sm_insert K V _ _ k v m := <[k:=v]> m;
  sm_remove K V _ _ k m := delete k m;
  sm_swap K V _ _ i j m := map_swap i j m;
  sm_absent K V _ _ := ∅
}.

#[export] Instance mock_storage_laws : FrameStorageLaws mock_storage.
Proof.
  refine {| sm_view K V _ _ (m : StorageMap K V) := (m : gmap K V) |}; try done.
  intros K V ?? m k. simpl. destruct (_ !! k) eqn:Hk; case_bool_decide as Hs; try done.
  destruct Hs. by eexists.
Defined.

End Mock.
