(* ===== verification/Authorization.v ===== *)
(** * The node authorization pallet (authorization/src/lib.rs)

    The pallet's configuration, storage, events, errors, dispatchables and
    off-chain worker, statement by statement.  The storage is abstract
    ([FrameStorage]); a dispatchable is a computation in the monad [M], which
    keeps what it wrote before an error. *)

From stdpp Require Import prelude gmap.
From S2P Require Import Prelude BTreeSet Frame.
Local Open Scope supra_scope.

Module Auth.

(** [sp_core::OpaquePeerId], a newtype of [Vec<u8>]. *)
Abbreviation PeerId := (list byte).

Abbreviation Weight := Z.

Variant DispatchClass := Normal | Operational.

Record WeightInfo : Type := {
  w_add_well_known_node : Weight;
  w_remove_well_known_node : Weight;
  w_swap_well_known_node : Weight;
  w_reset_well_known_nodes : Weight;
  w_claim_node : Weight;
  w_remove_claim : Weight;
  w_transfer_node : Weight;
  w_add_connections : Weight;
  w_remove_connections : Weight
}.

(** [impl WeightInfo for ()] *)
Definition unit_weights : WeightInfo := {|
  w_add_well_known_node := 50_000_000%Z;
  w_remove_well_known_node := 50_000_000%Z;
  w_swap_well_known_node := 50_000_000%Z;
  w_reset_well_known_nodes := 50_000_000%Z;
  w_claim_node := 50_000_000%Z;
  w_remove_claim := 50_000_000%Z;
  w_transfer_node := 50_000_000%Z;
  w_add_connections := 50_000_000%Z;
  w_remove_connections := 50_000_000%Z
|}.

(** [trait Config] *)
Class Config (F : FrameSystem) : Type := {
  MaxWellKnownNodes : Z;
  MaxPeerIdLength : Z;
  AddOrigin : EnsureOrigin Origin;
  RemoveOrigin : EnsureOrigin Origin;
  SwapOrigin : EnsureOrigin Origin;
  ResetOrigin : EnsureOrigin Origin;
  weights : WeightInfo
}.

Variant Error :=
| PeerIdTooLong
| TooManyNodes
| AlreadyJoined
| NotExist
| AlreadyClaimed
| NotClaimed
| NotOwner
| PermissionDenied.

#[export] Instance Error_eq_dec : EqDecision Error.
Proof. solve_decision. Defined.

Section pallet.
Context `{F : FrameSystem} `{FS : FrameStorage} `{!Config F}.
Implicit Types (node add_node remove_node : PeerId) (owner who sender : AccountId).

Inductive Event : Type :=
| NodeAdded (node : PeerId) (who : AccountId)
| NodeRemoved (node : PeerId)
| NodeSwapped (removed added : PeerId)
| NodesReset (nodes : list (PeerId * AccountId))
| NodeClaimed (node : PeerId) (who : AccountId)
| ClaimRemoved (node : PeerId) (who : AccountId)
| NodeTransferred (node : PeerId) (who : AccountId)
| ConnectionsAdded (node : PeerId) (connections : list PeerId)
| ConnectionsRemoved (node : PeerId) (connections : list PeerId).

(** The storage items of [decl_storage!], with the events deposited so far
    (oldest first). *)
Record Store : Type := {
  WellKnownNodes : StorageValue (list PeerId);
  Owners : StorageMap PeerId AccountId;
  AdditionalConnections : StorageMap PeerId (list PeerId);
  Events : list Event
}.

Definition D (A : Type) : Type := M Store (DispatchError Error) A.

(** ** Storage accesses *)

Definition WellKnownNodes_get : D (list PeerId) := gets (fun s => sv_get (WellKnownNodes s)).
Definition WellKnownNodes_put (nodes : list PeerId) : D unit :=
  modify (fun s => {| WellKnownNodes := sv_put nodes (WellKnownNodes s); Owners := Owners s;
                      AdditionalConnections := AdditionalConnections s; Events := Events s |}).

Definition on_Owners (f : StorageMap PeerId AccountId -> StorageMap PeerId AccountId) : D unit :=
  modify (fun s => {| WellKnownNodes := WellKnownNodes s; Owners := f (Owners s);
                      AdditionalConnections := AdditionalConnections s; Events := Events s |}).
Definition Owners_contains_key node : D bool := gets (fun s => sm_contains_key (Owners s) node).
Definition Owners_get node : D AccountId := gets (fun s => sm_get (Owners s) node).
Definition Owners_insert node owner : D unit := on_Owners (sm_insert node owner).
Definition Owners_remove node : D unit := on_Owners (sm_remove node).
Definition Owners_swap node1 node2 : D unit := on_Owners (sm_swap node1 node2).

Definition on_AdditionalConnections
    (f : StorageMap PeerId (list PeerId) -> StorageMap PeerId (list PeerId)) : D unit :=
  modify (fun s => {| WellKnownNodes := WellKnownNodes s; Owners := Owners s;
                      AdditionalConnections := f (AdditionalConnections s);
                      Events := Events s |}).
Definition AdditionalConnections_get node : D (list PeerId) :=
  gets (fun s => sm_get (AdditionalConnections s) node).
Definition AdditionalConnections_insert node (nodes : list PeerId) : D unit :=
  on_AdditionalConnections (sm_insert node nodes).
Definition AdditionalConnections_remove node : D unit :=
  on_AdditionalConnections (sm_remove node).
Definition AdditionalConnections_swap node1 node2 : D unit :=
  on_AdditionalConnections (sm_swap node1 node2).

Definition deposit_event (e : Event) : D unit :=
  modify (fun s => {| WellKnownNodes := WellKnownNodes s; Owners := Owners s;
                      AdditionalConnections := AdditionalConnections s;
                      Events := Events s ++ [e] |}).

(** [ensure!(node.0.len() < T::MaxPeerIdLength::get() as usize, PeerIdTooLong)] *)
Definition len_ok node : bool := (Z.of_nat (length node) <? MaxPeerIdLength)%Z.
Definition ensure_len node : D unit := ensure_module (len_ok node) PeerIdTooLong.

(** The two checks on [Owners] that four dispatchables open with. *)
Definition ensure_owner node sender : D unit :=
  let! claimed := Owners_contains_key node in
  run! ensure_module claimed NotClaimed in
  let! owner := Owners_get node in
  ensure_module (bool_decide (owner = sender)) NotOwner.

(** ** Helpers of [impl Module] *)

Fixpoint insert_owners (nodes : list (PeerId * AccountId)) : D unit :=
  match nodes with
  | [] => ret tt
  | (node, who) :: nodes' => run! Owners_insert node who in insert_owners nodes'
  end.

Definition initialize_nodes (nodes : list (PeerId * AccountId)) : D unit :=
  let peer_ids := BTreeSet.collect (map fst nodes) in
  run! WellKnownNodes_put peer_ids in
  insert_owners nodes.

Definition get_authorized_nodes node (s : Store) : list PeerId :=
  let nodes := sm_get (AdditionalConnections s) node in
  let well_known_nodes := sv_get (WellKnownNodes s) in
  let nodes :=
    if BTreeSet.contains well_known_nodes node
    then BTreeSet.extend nodes (BTreeSet.remove well_known_nodes node)
    else nodes in
  BTreeSet.to_vec nodes.

(** ** Dispatchables *)

Definition add_well_known_node (origin : Origin) node owner : D unit :=
  run! try_origin (ensure_origin AddOrigin origin) in
  run! ensure_len node in
  let! nodes := WellKnownNodes_get in
  run! ensure_module (BTreeSet.len nodes <? MaxWellKnownNodes)%Z TooManyNodes in
  run! ensure_module (negb (BTreeSet.contains nodes node)) AlreadyJoined in
  let nodes := BTreeSet.insert nodes node in
  run! WellKnownNodes_put nodes in
  run! Owners_insert node owner in
  deposit_event (NodeAdded node owner).

Definition remove_well_known_node (origin : Origin) node : D unit :=
  run! try_origin (ensure_origin RemoveOrigin origin) in
  run! ensure_len node in
  let! nodes := WellKnownNodes_get in
  run! ensure_module (BTreeSet.contains nodes node) NotExist in
  let nodes := BTreeSet.remove nodes node in
  run! WellKnownNodes_put nodes in
  run! Owners_remove node in
  run! AdditionalConnections_remove node in
  deposit_event (NodeRemoved node).

Definition swap_well_known_node (origin : Origin) (remove add : PeerId) : D unit :=
  run! try_origin (ensure_origin SwapOrigin origin) in
  run! ensure_len remove in
  run! ensure_len add in
  if bool_decide (remove = add) then ret tt else
  let! nodes := WellKnownNodes_get in
  run! ensure_module (BTreeSet.contains nodes remove) NotExist in
  run! ensure_module (negb (BTreeSet.contains nodes add)) AlreadyJoined in
  let nodes := BTreeSet.remove nodes remove in
  let nodes := BTreeSet.insert nodes add in
  run! WellKnownNodes_put nodes in
  run! Owners_swap remove add in
  run! AdditionalConnections_swap remove add in
  deposit_event (NodeSwapped remove add).

Definition reset_well_known_nodes (origin : Origin) (nodes : list (PeerId * AccountId)) : D unit :=
  run! try_origin (ensure_origin ResetOrigin origin) in
  run! ensure_module (Z.of_nat (length nodes) <? MaxWellKnownNodes)%Z TooManyNodes in
  run! initialize_nodes nodes in
  deposit_event (NodesReset nodes).

Definition claim_node (origin : Origin) node : D unit :=
  let! sender := try_origin (ensure_signed origin) in
  run! ensure_len node in
  let! claimed := Owners_contains_key node in
  run! ensure_module (negb claimed) AlreadyClaimed in
  run! Owners_insert node sender in
  deposit_event (NodeClaimed node sender).

Definition remove_claim (origin : Origin) node : D unit :=
  let! sender := try_origin (ensure_signed origin) in
  run! ensure_len node in
  run! ensure_owner node sender in
  let! nodes := WellKnownNodes_get in
  run! ensure_module (negb (BTreeSet.contains nodes node)) PermissionDenied in
  run! Owners_remove node in
  run! AdditionalConnections_remove node in
  deposit_event (ClaimRemoved node sender).

Definition transfer_node (origin : Origin) node owner : D unit :=
  let! sender := try_origin (ensure_signed origin) in
  run! ensure_len node in
  run! ensure_owner node sender in
  run! Owners_insert node owner in
  deposit_event (NodeTransferred node owner).

(** The loop of [add_connections]: the node itself is skipped. *)
Definition add_loop node (nodes connections : list PeerId) : list PeerId :=
  foldl (fun nodes add_node =>
           if bool_decide (add_node = node) then nodes else BTreeSet.insert nodes add_node)
        nodes connections.

Definition add_connections (origin : Origin) node (connections : list PeerId) : D unit :=
  let! sender := try_origin (ensure_signed origin) in
  run! ensure_len node in
  run! ensure_owner node sender in
  let! nodes := AdditionalConnections_get node in
  let nodes := add_loop node nodes connections in
  run! AdditionalConnections_insert node nodes in
  deposit_event (ConnectionsAdded node connections).

(** The loop of [remove_connections]. *)
Definition remove_loop (nodes connections : list PeerId) : list PeerId :=
  foldl BTreeSet.remove nodes connections.

Definition remove_connections (origin : Origin) node (connections : list PeerId) : D unit :=
  let! sender := try_origin (ensure_signed origin) in
  run! ensure_len node in
  run! ensure_owner node sender in
  let! nodes := AdditionalConnections_get node in
  let nodes := remove_loop nodes connections in
  run! AdditionalConnections_insert node nodes in
  deposit_event (ConnectionsRemoved node connections).

(** ** The [Call] enum of [decl_module!] *)

Inductive Call : Type :=
| Call_add_well_known_node (node : PeerId) (owner : AccountId)
| Call_remove_well_known_node (node : PeerId)
| Call_swap_well_known_node (remove add : PeerId)
| Call_reset_well_known_nodes (nodes : list (PeerId * AccountId))
| Call_claim_node (node : PeerId)
| Call_remove_claim (node : PeerId)
| Call_transfer_node (node : PeerId) (owner : AccountId)
| Call_add_connections (node : PeerId) (connections : list PeerId)
| Call_remove_connections (node : PeerId) (connections : list PeerId).

Definition dispatch (c : Call) (origin : Origin) : D unit :=
  match c with
  | Call_add_well_known_node node owner => add_well_known_node origin node owner
  | Call_remove_well_known_node node => remove_well_known_node origin node
  | Call_swap_well_known_node remove add => swap_well_known_node origin remove add
  | Call_reset_well_known_nodes nodes => reset_well_known_nodes origin nodes
  | Call_claim_node node => claim_node origin node
  | Call_remove_claim node => remove_claim origin node
  | Call_transfer_node node owner => transfer_node origin node owner
  | Call_add_connections node connections => add_connections origin node connections
  | Call_remove_connections node connections => remove_connections origin node connections
  end.

(** The [#[weight = ...]] attributes. *)
Definition call_weight (c : Call) : Weight * DispatchClass :=
  match c with
  | Call_add_well_known_node _ _ => (w_add_well_known_node weights, Operational)
  | Call_remove_well_known_node _ => (w_remove_well_known_node weights, Operational)
  | Call_swap_well_known_node _ _ => (w_swap_well_known_node weights, Operational)
  | Call_reset_well_known_nodes _ => (w_reset_well_known_nodes weights, Operational)
  | Call_claim_node _ => (w_claim_node weights, Normal)
  | Call_remove_claim _ => (w_remove_claim weights, Normal)
  | Call_transfer_node _ _ => (w_transfer_node weights, Normal)
  | Call_add_connections _ _ => (w_add_connections weights, Normal)
  | Call_remove_connections _ _ => (w_remove_connections weights, Normal)
  end.

(** ** Genesis *)

Definition absent_store : Store := {|
  WellKnownNodes := sv_absent;
  Owners := sm_absent;
  AdditionalConnections := sm_absent;
  Events := []
|}.

(** [add_extra_genesis]: [build] runs [initialize_nodes] on the configured nodes. *)
Definition genesis_build (nodes : list (PeerId * AccountId)) : Store :=
  snd (initialize_nodes nodes absent_store).

(** ** The off-chain worker *)

(** What the worker does to the host: log an error, or set the reserved peers. *)
Inductive WorkerAction : Type :=
| LogNetworkStateError (now : BlockNumber)
| LogDecodeError (now : BlockNumber)
| SetAuthorizedNodes (nodes : list PeerId) (authorized_only : bool).

(** [network_state] is what [sp_io::offchain::network_state()] returns (the
    [peer_id] of the state), [decode] the SCALE decoder of [Vec<u8>]. *)
Definition offchain_worker (network_state : result PeerId unit)
    (decode : bytes -> option bytes) (now : BlockNumber) (s : Store) : WorkerAction :=
  match network_state with
  | Err _ => LogNetworkStateError now
  | Ok peer_id =>
      let encoded_peer := peer_id in
      match decode encoded_peer with
      | None => LogDecodeError now
      | Some node => SetAuthorizedNodes (get_authorized_nodes node s) true
      end
  end.

End pallet.

End Auth.
