(* ===== verification/AuthSpec.v ===== *)
(** * What the authorization pallet promises

    An abstract specification of the pallet over finite sets and maps, with no
    storage, no order of writes and no lists: the state [State], the guards of
    each call with the error each stands for ([guards]) and the transitions
    ([step]).  The refinement lemmas show that the dispatchables of
    [Authorization] implement it through the abstraction function [view]. *)

From S2P Require Import Prelude BTreeSet Frame Authorization.
Import Auth.
Local Open Scope supra_scope.

Module AuthSpec.
Section spec.
Context `{F : FrameSystem} `{FS : FrameStorage} `{!Config F}.
Implicit Types (n r a : PeerId) (who owner : AccountId) (o : Origin).

Record State : Type := {
  wkn : gset PeerId;
  own : gmap PeerId AccountId;
  conn : gmap PeerId (gset PeerId)
}.

(** The connections of a node, none if it has no entry. *)
Definition conns_of (st : State) n : gset PeerId := default ∅ (conn st !! n).

Definition permits (eo : EnsureOrigin Origin) o : Prop := is_ok (ensure_origin eo o) = true.
Definition signed_by o who : Prop := ensure_signed o = Ok who.
Definition short n : Prop := (Z.of_nat (length n) < MaxPeerIdLength)%Z.

#[export] Instance short_dec n : Decision (short n).
Proof. unfold short. apply _. Defined.

(** Owners after writing the pairs in order: the last pair for a node wins. *)
Definition assign (nodes : list (PeerId * AccountId)) (m : gmap PeerId AccountId) :=
  foldl (fun m p => <[p.1 := p.2]> m) m nodes.

Inductive step (st : State) o : Call -> State -> Prop :=
| step_add n owner :
    permits AddOrigin o -> short n ->
    (Z.of_nat (size (wkn st)) < MaxWellKnownNodes)%Z -> n ∉ wkn st ->
    step st o (Call_add_well_known_node n owner)
      {| wkn := {[n]} ∪ wkn st; own := <[n := owner]> (own st); conn := conn st |}
| step_remove n :
    permits RemoveOrigin o -> short n -> n ∈ wkn st ->
    step st o (Call_remove_well_known_node n)
      {| wkn := wkn st ∖ {[n]}; own := delete n (own st); conn := delete n (conn st) |}
| step_swap_same n :
    permits SwapOrigin o -> short n ->
    step st o (Call_swap_well_known_node n n) st
| step_swap r a :
    permits SwapOrigin o -> short r -> short a -> r ∈ wkn st -> a ∉ wkn st ->
    step st o (Call_swap_well_known_node r a)
      {| wkn := {[a]} ∪ wkn st ∖ {[r]};
         own := map_swap r a (own st); conn := map_swap r a (conn st) |}
| step_reset nodes :
    permits ResetOrigin o -> (Z.of_nat (length nodes) < MaxWellKnownNodes)%Z ->
    step st o (Call_reset_well_known_nodes nodes)
      {| wkn := list_to_set nodes.*1; own := assign nodes (own st); conn := conn st |}
| step_claim n who :
    signed_by o who -> short n -> own st !! n = None ->
    step st o (Call_claim_node n)
      {| wkn := wkn st; own := <[n := who]> (own st); conn := conn st |}
| step_unclaim n who :
    signed_by o who -> short n -> own st !! n = Some who -> n ∉ wkn st ->
    step st o (Call_remove_claim n)
      {| wkn := wkn st; own := delete n (own st); conn := delete n (conn st) |}
| step_transfer n who owner :
    signed_by o who -> short n -> own st !! n = Some who ->
    step st o (Call_transfer_node n owner)
      {| wkn := wkn st; own := <[n := owner]> (own st); conn := conn st |}
| step_connect n who cs :
    signed_by o who -> short n -> own st !! n = Some who ->
    step st o (Call_add_connections n cs)
      {| wkn := wkn st; own := own st;
         conn := <[n := conns_of st n ∪ (list_to_set cs ∖ {[n]})]> (conn st) |}
| step_disconnect n who cs :
    signed_by o who -> short n -> own st !! n = Some who ->
    step st o (Call_remove_connections n cs)
      {| wkn := wkn st; own := own st;
         conn := <[n := conns_of st n ∖ list_to_set cs]> (conn st) |}.

(** ** The guards of each call, in the order they are checked *)

Definition origin_guard {A} (r : result A BadOrigin) : bool * DispatchError Error :=
  (is_ok r, DispatchBadOrigin).
Definition short_guard n := (bool_decide (short n), DispatchModule PeerIdTooLong).
Definition owner_guards (st : State) o n : list (bool * DispatchError Error) :=
  [origin_guard (ensure_signed o); short_guard n;
   (bool_decide (is_Some (own st !! n)), DispatchModule NotClaimed);
   (match ensure_signed o with
    | Ok who => bool_decide (own st !! n = Some who)
    | Err _ => false
    end, DispatchModule NotOwner)].

Definition guards (st : State) o (c : Call) : list (bool * DispatchError Error) :=
  match c with
  | Call_add_well_known_node n _ =>
      [origin_guard (ensure_origin AddOrigin o); short_guard n;
       (bool_decide (Z.of_nat (size (wkn st)) < MaxWellKnownNodes)%Z, DispatchModule TooManyNodes);
       (bool_decide (n ∉ wkn st), DispatchModule AlreadyJoined)]
  | Call_remove_well_known_node n =>
      [origin_guard (ensure_origin RemoveOrigin o); short_guard n;
       (bool_decide (n ∈ wkn st), DispatchModule NotExist)]
  | Call_swap_well_known_node r a =>
      [origin_guard (ensure_origin SwapOrigin o); short_guard r; short_guard a;
       (bool_decide (r = a \/ r ∈ wkn st), DispatchModule NotExist);
       (bool_decide (r = a \/ a ∉ wkn st), DispatchModule AlreadyJoined)]
  | Call_reset_well_known_nodes nodes =>
      [origin_guard (ensure_origin ResetOrigin o);
       (bool_decide (Z.of_nat (length nodes) < MaxWellKnownNodes)%Z, DispatchModule TooManyNodes)]
  | Call_claim_node n =>
      [origin_guard (ensure_signed o); short_guard n;
       (bool_decide (own st !! n = None), DispatchModule AlreadyClaimed)]
  | Call_remove_claim n =>
      owner_guards st o n ++ [(bool_decide (n ∉ wkn st), DispatchModule PermissionDenied)]
  | Call_transfer_node n _ | Call_add_connections n _ | Call_remove_connections n _ =>
      owner_guards st o n
  end.

(** The error of the first guard that does not hold. *)
Fixpoint first_failure {E} (gs : list (bool * E)) : result unit E :=
  match gs with
  | [] => Ok tt
  | (b, e) :: gs' => if b then first_failure gs' else Err e
  end.

(** The event a successful call deposits; swapping a node for itself is silent. *)
Definition emitted o (c : Call) : list Event :=
  let by_sender (f : AccountId -> Event) :=
    match ensure_signed o with Ok who => [f who] | Err _ => [] end in
  match c with
  | Call_add_well_known_node n owner => [NodeAdded n owner]
  | Call_remove_well_known_node n => [NodeRemoved n]
  | Call_swap_well_known_node r a => if bool_decide (r = a) then [] else [NodeSwapped r a]
  | Call_reset_well_known_nodes nodes => [NodesReset nodes]
  | Call_claim_node n => by_sender (NodeClaimed n)
  | Call_remove_claim n => by_sender (ClaimRemoved n)
  | Call_transfer_node n owner => [NodeTransferred n owner]
  | Call_add_connections n cs => [ConnectionsAdded n cs]
  | Call_remove_connections n cs => [ConnectionsRemoved n cs]
  end.

(** ** Abstraction of the storage *)

Context `{L : !FrameStorageLaws FS}.

Definition view (s : Store) : State := {|
  wkn := BTreeSet.to_set (sv_get (WellKnownNodes s));
  own := sm_view (Owners s);
  conn := BTreeSet.to_set <$> sm_view (AdditionalConnections s)
|}.

(** The stored sets are in ascending order. *)
Definition wf (s : Store) : Prop :=
  BTreeSet.wf (sv_get (WellKnownNodes s)) /\
  map_Forall (fun _ => BTreeSet.wf) (sm_view (AdditionalConnections s)).

(** What running call [c] from origin [o] in storage [s] has to yield: either
    the error of the first guard that fails and the storage untouched, or
    success in a state related by [step], with the events appended. *)
Definition implements (c : Call) o (s : Store) (p : result unit (DispatchError Error) * Store)
    : Prop :=
  fst p = first_failure (guards (view s) o c) /\
  match p with
  | (Err _, s') => s' = s
  | (Ok _, s') =>
      wf s' /\ step (view s) o c (view s') /\ Events s' = Events s ++ emitted o c
  end.

End spec.
End AuthSpec.
