(* ===== verification/AuthProofs.v ===== *)
(** * The authorization pallet implements its specification

    The refinement of [AuthSpec] by the dispatchables of [Authorization], and
    the functional behaviour of its loops. *)

From S2P Require Import Prelude BTreeSet Frame Authorization AuthSpec.
Import Auth AuthSpec.
Local Open Scope supra_scope.

Module AuthProofs.

(** ** Automation *)

(** Storage writes as [modify]. *)
Ltac unfold_writes :=
  unfold WellKnownNodes_put, Owners_insert, Owners_remove, Owners_swap, on_Owners,
    AdditionalConnections_insert, AdditionalConnections_remove, AdditionalConnections_swap,
    on_AdditionalConnections, deposit_event in *.

Section proofs.
Context `{F : FrameSystem} `{FS : FrameStorage} `{!Config F} `{L : !FrameStorageLaws FS}.
Implicit Types (n r a : PeerId) (who owner : AccountId) (o : Origin) (s : Store).

(** ** The storage seen through [view] *)

Lemma contains_wkn s n :
  wf s -> BTreeSet.contains (sv_get (WellKnownNodes s)) n = bool_decide (n ∈ wkn (view s)).
Proof. intros [Hs _]. by apply BTreeSet.contains_to_set. Qed.

Lemma len_wkn s :
  wf s -> BTreeSet.len (sv_get (WellKnownNodes s)) = Z.of_nat (size (wkn (view s))).
Proof. intros [Hs _]. by apply BTreeSet.len_to_set. Qed.

Lemma get_conns_wf s n : wf s -> BTreeSet.wf (sm_get (AdditionalConnections s) n).
Proof.
  intros [_ Hs]. rewrite sm_get_view. destruct (sm_view _ !! n) eqn:Hn; simpl.
  - by apply (Hs n).
  - apply BTreeSet.wf_nil.
Qed.

Lemma get_conns_view s n :
  BTreeSet.to_set (sm_get (AdditionalConnections s) n) = conns_of (view s) n.
Proof.
  unfold conns_of. simpl. rewrite sm_get_view, lookup_fmap.
  by destruct (sm_view _ !! n).
Qed.

(** ** Loops *)

Lemma add_loop_wf n nodes cs : BTreeSet.wf nodes -> BTreeSet.wf (add_loop n nodes cs).
Proof.
  unfold add_loop. revert nodes. induction cs; simpl; [done|].
  intros. case_bool_decide; auto with btree.
Qed.

Lemma add_loop_set n nodes cs :
  BTreeSet.to_set (add_loop n nodes cs) =
    BTreeSet.to_set nodes ∪ (list_to_set cs ∖ {[n]}).
Proof.
  unfold add_loop. revert nodes. induction cs as [|c cs IH]; intros nodes; simpl; [set_solver|].
  rewrite IH. case_bool_decide; subst; [set_solver|]. rewrite BTreeSet.to_set_insert. set_solver.
Qed.

Lemma remove_loop_wf nodes cs : BTreeSet.wf nodes -> BTreeSet.wf (remove_loop nodes cs).
Proof. unfold remove_loop. revert nodes. induction cs; simpl; auto with btree. Qed.

Lemma remove_loop_set nodes cs :
  BTreeSet.wf nodes ->
  BTreeSet.to_set (remove_loop nodes cs) = BTreeSet.to_set nodes ∖ list_to_set cs.
Proof.
  unfold remove_loop. revert nodes. induction cs as [|c cs IH]; intros nodes Hn; simpl; [set_solver|].
  rewrite IH by auto with btree. rewrite BTreeSet.to_set_remove by done. set_solver.
Qed.

(** The loop of [initialize_nodes] only writes owners, and cannot fail. *)
Lemma insert_owners_run nodes s :
  exists m, insert_owners nodes s =
    (Ok tt, {| WellKnownNodes := WellKnownNodes s; Owners := m;
               AdditionalConnections := AdditionalConnections s; Events := Events s |}) /\
    sm_view m = assign nodes (sm_view (Owners s)).
Proof.
  revert s. induction nodes as [|[n who] nodes IH]; intros s; simpl.
  - exists (Owners s). by destruct s.
  - unfold_writes. rewrite bind_modify. edestruct IH as (m & -> & Hm). exists m.
    split; [done|]. rewrite Hm. simpl. by rewrite sm_insert_view.
Qed.

Lemma initialize_nodes_run nodes s :
  exists m, initialize_nodes nodes s =
    (Ok tt, {| WellKnownNodes := sv_put (BTreeSet.collect nodes.*1) (WellKnownNodes s);
               Owners := m; AdditionalConnections := AdditionalConnections s;
               Events := Events s |}) /\
    sm_view m = assign nodes (sm_view (Owners s)).
Proof.
  unfold initialize_nodes. unfold_writes. rewrite bind_modify.
  edestruct insert_owners_run as (m & -> & Hm). by exists m.
Qed.

Lemma bind_ensure_owner {B} n who (k : unit -> D B) s :
  bind (ensure_owner n who) k s =
    match own (view s) !! n with
    | None => (Err (DispatchModule NotClaimed), s)
    | Some a => if bool_decide (a = who) then k tt s else (Err (DispatchModule NotOwner), s)
    end.
Proof.
  unfold ensure_owner, bind at 1, Owners_contains_key, Owners_get.
  rewrite bind_gets, bind_ensure_module, sm_contains_key_view. simpl.
  destruct (sm_view (Owners s) !! n) eqn:Hn; simpl; [|done].
  rewrite bind_gets, sm_get_view, Hn. unfold ensure_module, ensure. simpl.
  by case_bool_decide.
Qed.

Lemma bind_ensure_len {B} n (k : unit -> D B) s :
  bind (ensure_len n) k s =
    if bool_decide (short n) then k tt s else (Err (DispatchModule PeerIdTooLong), s).
Proof.
  unfold ensure_len. rewrite bind_ensure_module. unfold len_ok, short.
  by erewrite Z_ltb_bool_decide.
Qed.

End proofs.

(** Run a dispatchable up to its next guard, and split on that guard. *)
Ltac run_guard :=
  match goal with
  | |- context [bind (try_origin ?r) _ _] => rewrite bind_try_origin; destruct r eqn:?
  | |- context [bind (ensure_len _) _ _] => rewrite bind_ensure_len; case_bool_decide
  | |- context [bind (ensure_owner ?n _) _ ?s] =>
      rewrite bind_ensure_owner; destruct (own (view s) !! n) eqn:?; [case_bool_decide; subst|]
  | |- context [bind WellKnownNodes_get _ _] => unfold WellKnownNodes_get; rewrite bind_gets
  | |- context [bind (Owners_contains_key ?n) _ ?s] =>
      unfold Owners_contains_key; rewrite bind_gets, sm_contains_key_view;
      destruct (sm_view (Owners s) !! n) eqn:?; rewrite bool_decide_is_Some
  | |- context [bind (ensure_module (negb true) _) _ _] => rewrite bind_ensure_module
  | |- context [bind (ensure_module (negb false) _) _ _] => rewrite bind_ensure_module
  | |- context [bind (AdditionalConnections_get _) _ _] =>
      unfold AdditionalConnections_get; rewrite bind_gets
  | |- context [bind (ensure_module _ _) _ _] =>
      rewrite bind_ensure_module;
      rewrite ?contains_wkn, ?len_wkn by done;
      erewrite ?Z_ltb_bool_decide; case_bool_decide; simpl negb; cbv iota
  end.

(** Evaluate the guards of the specification under the facts in scope. *)
Ltac eval_guards :=
  unfold owner_guards, origin_guard, short_guard; cbn; rewrite ?bool_decide_is_Some;
  repeat match goal with
    | H : own _ !! _ = _ |- _ => cbn in H; rewrite H; clear H
    | H : ensure_signed _ = _ |- _ => rewrite ?H; clear H
    end; cbn;
  repeat (case_bool_decide; try tauto; cbn); try naive_solver.

(** Normal form of the storage after a sequence of writes. *)
Ltac eval_writes :=
  unfold_writes; rewrite ?bind_modify; unfold modify; cbn;
  rewrite ?sv_get_put, ?sm_insert_view, ?sm_remove_view, ?sm_swap_view, ?fmap_insert,
    ?fmap_delete, ?fmap_map_swap, ?BTreeSet.to_set_insert, ?add_loop_set, ?get_conns_view.

(** A guard of the code discharges a premise of [step]. *)
Ltac step_premise :=
  match goal with
  | H : ?x = Ok _ |- permits _ _ => unfold permits; by rewrite H
  | _ => first [done | eassumption]
  end.

(** Error branches of [implements]; the success branch is left. *)
Ltac run_guards :=
  unfold implements; simpl guards; repeat run_guard; try (split; [eval_guards|done]).

Ltac eval_events :=
  cbn; repeat match goal with H : ensure_signed _ = Ok _ |- _ => rewrite H end;
  rewrite ?bool_decide_false by done; done.

(** The success branch, split into order, transition and events. *)
Ltac run_handler :=
  intros Hs; run_guards; (split; [eval_guards|]); unfold_writes; rewrite ?bind_modify;
  unfold modify; (split; [split|split; [|eval_events]]);
  unfold view; eval_writes; destruct Hs.

Section implements.
Context `{F : FrameSystem} `{FS : FrameStorage} `{!Config F} `{L : !FrameStorageLaws FS}.
Implicit Types (n r a : PeerId) (who owner : AccountId) (o : Origin) (s : Store).

Lemma step_to (st st1 st2 : State) o c : step st o c st1 -> st1 = st2 -> step st o c st2.
Proof. by intros ? <-. Qed.

Lemma add_well_known_node_implements o n owner s :
  wf s -> implements (Call_add_well_known_node n owner) o s (add_well_known_node o n owner s).
Proof.
  unfold add_well_known_node. run_handler.
  - auto with btree.
  - done.
  - apply (step_add (view s)); step_premise.
Qed.

Lemma remove_well_known_node_implements o n s :
  wf s -> implements (Call_remove_well_known_node n) o s (remove_well_known_node o n s).
Proof.
  unfold remove_well_known_node. run_handler.
  - auto with btree.
  - by apply map_Forall_delete.
  - rewrite BTreeSet.to_set_remove by done. apply (step_remove (view s)); step_premise.
Qed.

Lemma swap_well_known_node_implements o r a s :
  wf s -> implements (Call_swap_well_known_node r a) o s (swap_well_known_node o r a s).
Proof.
  unfold swap_well_known_node. destruct (decide (r = a)) as [<-|Hne].
  - rewrite bool_decide_true by done. intros Hs. run_guards. split; [eval_guards|].
    cbn. rewrite bool_decide_true, app_nil_r by done. split; [done|split; [|done]].
    apply step_swap_same; step_premise.
  - rewrite bool_decide_false by done. run_handler.
    + auto with btree.
    + by apply map_Forall_map_swap.
    + rewrite BTreeSet.to_set_remove by done. apply (step_swap (view s)); step_premise.
Qed.

Lemma reset_well_known_nodes_implements o nodes s :
  wf s -> implements (Call_reset_well_known_nodes nodes) o s (reset_well_known_nodes o nodes s).
Proof.
  unfold reset_well_known_nodes. intros Hs. run_guards.
  destruct (initialize_nodes_run nodes s) as (m & Hrun & Hm).
  unfold bind. rewrite Hrun. unfold_writes. unfold modify.
  split; [eval_guards|]. split; [split|split; [|done]]; unfold view; eval_writes; destruct Hs.
  - auto with btree.
  - done.
  - rewrite Hm, BTreeSet.to_set_collect. apply (step_reset (view s)); step_premise.
Qed.

Lemma claim_node_implements o n s :
  wf s -> implements (Call_claim_node n) o s (claim_node o n s).
Proof.
  unfold claim_node. run_handler; [done..|].
  eapply (step_claim (view s)); step_premise.
Qed.

Lemma remove_claim_implements o n s :
  wf s -> implements (Call_remove_claim n) o s (remove_claim o n s).
Proof.
  unfold remove_claim. run_handler; [done|by apply map_Forall_delete|].
  eapply (step_unclaim (view s)); step_premise.
Qed.

Lemma transfer_node_implements o n owner s :
  wf s -> implements (Call_transfer_node n owner) o s (transfer_node o n owner s).
Proof.
  unfold transfer_node. run_handler; [done..|].
  eapply (step_transfer (view s)); step_premise.
Qed.

Lemma add_connections_implements o n cs s :
  wf s -> implements (Call_add_connections n cs) o s (add_connections o n cs s).
Proof.
  unfold add_connections. run_handler; [done|..].
  - apply map_Forall_insert_2; [|done]. by apply add_loop_wf, get_conns_wf.
  - eapply (step_connect (view s)); step_premise.
Qed.

Lemma remove_connections_implements o n cs s :
  wf s -> implements (Call_remove_connections n cs) o s (remove_connections o n cs s).
Proof.
  unfold remove_connections. run_handler; [done|..].
  - apply map_Forall_insert_2; [|done]. by apply remove_loop_wf, get_conns_wf.
  - rewrite remove_loop_set, get_conns_view by by apply get_conns_wf.
    eapply (step_disconnect (view s)); step_premise.
Qed.

(** The refinement, for every call. *)
Lemma dispatch_implements c o s : wf s -> implements c o s (dispatch c o s).
Proof.
  destruct c; simpl;
    auto using add_well_known_node_implements, remove_well_known_node_implements,
      swap_well_known_node_implements, reset_well_known_nodes_implements,
      claim_node_implements, remove_claim_implements, transfer_node_implements,
      add_connections_implements, remove_connections_implements.
Qed.

Lemma dispatch_sound c o s s' :
  wf s -> dispatch c o s = (Ok tt, s') ->
  wf s' /\ step (view s) o c (view s') /\ Events s' = Events s ++ emitted o c.
Proof. intros Hs Hd. destruct (dispatch_implements c o s Hs) as [_ Hi]. by rewrite Hd in Hi. Qed.

(** A transition of the specification means that no guard fails. *)
Lemma step_guards (st st' : State) o c :
  step st o c st' -> first_failure (guards st o c) = Ok tt.
Proof.
  destruct 1; simpl; unfold owner_guards, origin_guard, short_guard; simpl;
    repeat match goal with
      | H : permits _ _ |- _ => unfold permits in H; rewrite H; clear H
      | H : signed_by _ _ |- _ => unfold signed_by in H; rewrite H; clear H
      end; simpl;
    repeat (rewrite bool_decide_true by (try (by left); try (by right); eauto)); done.
Qed.

Lemma step_det (st st1 st2 : State) o c : step st o c st1 -> step st o c st2 -> st1 = st2.
Proof.
  destruct 1; inversion 1; subst; try done;
    repeat match goal with
      | H1 : signed_by o ?x, H2 : signed_by o ?y |- _ =>
          assert (x = y) as <- by (unfold signed_by in *; congruence); clear H2
      end; done.
Qed.

Lemma dispatch_complete c o s st' :
  wf s -> step (view s) o c st' ->
  exists s', dispatch c o s = (Ok tt, s') /\ view s' = st' /\ wf s'.
Proof.
  intros Hs Hst. destruct (dispatch_implements c o s Hs) as [Hr Hi].
  rewrite (step_guards _ _ _ _ Hst) in Hr. destruct (dispatch c o s) as [[[]|e] s']; [|done].
  destruct Hi as (Hwf & Hst' & _). exists s'. split; [done|]. split; [|done].
  eauto using step_det.
Qed.

(** ** Errors leave no trace, whatever the storage *)

Lemma infallible_insert_owners nodes : infallible (insert_owners nodes).
Proof. induction nodes as [|[n who] nodes IH]; simpl; unfold_writes; auto with effects. Qed.

Lemma dispatch_noop c o : noop_on_error (dispatch c o).
Proof.
  destruct c; simpl;
    unfold add_well_known_node, remove_well_known_node, swap_well_known_node,
      reset_well_known_nodes, claim_node, remove_claim, transfer_node, add_connections,
      remove_connections, ensure_owner, ensure_len, WellKnownNodes_get, Owners_contains_key,
      Owners_get, AdditionalConnections_get, initialize_nodes, ensure_module, try_origin;
    unfold_writes; auto 20 using infallible_insert_owners with effects.
Qed.

(** ** The genesis storage *)

Lemma genesis_view nodes :
  wf (genesis_build nodes) /\
  view (genesis_build nodes) =
    {| wkn := list_to_set nodes.*1; own := assign nodes ∅; conn := ∅ |}.
Proof.
  unfold genesis_build. destruct (initialize_nodes_run nodes absent_store) as (m & -> & Hm).
  unfold wf, view. simpl in *.
  rewrite sv_get_put, sm_absent_view, Hm, BTreeSet.to_set_collect, fmap_empty, sm_absent_view.
  split; [|done]. split; [auto with btree|]. apply map_Forall_empty.
Qed.

End implements.
End AuthProofs.
