(* ===== verification/AuthInvariants.v ===== *)
(** * Invariants and access control of the authorization pallet

    Properties of the transitions of [AuthSpec], and the states the pallet can
    reach from a genesis by any sequence of calls.  [AuthTheorems] carries
    them over to the dispatchables through the refinement. *)

From S2P Require Import Prelude BTreeSet Frame Authorization AuthSpec AuthProofs.
Import Auth AuthSpec AuthProofs.

Module AuthInvariants.

(** ** Sizes of finite sets *)

Section sizes.
Context {A : Type} `{Countable A}.
Implicit Types (X : gset A) (x : A).

Lemma size_insert_le x X : (size ({[x]} ∪ X) <= S (size X))%nat.
Proof.
  rewrite size_union_alt, size_singleton.
  assert (size (X ∖ {[x]}) <= size X)%nat by (apply subseteq_size; set_solver). lia.
Qed.

Lemma size_list_to_set_le (l : list A) : (size (list_to_set l : gset A) <= length l)%nat.
Proof.
  induction l as [|x l IH]; [by rewrite list_to_set_nil, size_empty|].
  rewrite list_to_set_cons. simpl length.
  pose proof (size_insert_le x (list_to_set l)). lia.
Qed.

Lemma size_replace_le x y X : x ∈ X -> (size ({[y]} ∪ X ∖ {[x]}) <= size X)%nat.
Proof.
  intros Hx. pose proof (size_insert_le y (X ∖ {[x]})) as Hle.
  rewrite (size_difference X {[x]}), size_singleton in Hle by set_solver.
  assert (size X <> 0)%nat by (rewrite size_non_empty_iff; set_solver). lia.
Qed.

End sizes.

Section invariants.
Context `{F : FrameSystem} `{FS : FrameStorage} `{!Config F}.
Implicit Types (n m r a : PeerId) (who owner : AccountId) (o : Origin) (st : State).

(** ** Owners written by a list of pairs *)

(** The owner the list gives to a node: that of its last occurrence. *)
Fixpoint last_owner n (nodes : list (PeerId * AccountId)) : option AccountId :=
  match nodes with
  | [] => None
  | (m, who) :: nodes' =>
      match last_owner n nodes' with
      | Some w => Some w
      | None => if bool_decide (m = n) then Some who else None
      end
  end.

Lemma lookup_assign (nodes : list (PeerId * AccountId)) (om : gmap PeerId AccountId) n :
  assign nodes om !! n =
    match last_owner n nodes with Some who => Some who | None => om !! n end.
Proof.
  unfold assign. revert om. induction nodes as [|[m who] nodes IH]; intros om; simpl; [done|].
  rewrite IH, lookup_insert. destruct (last_owner n nodes); [done|].
  repeat case_decide; case_bool_decide; done.
Qed.

Lemma last_owner_is_Some n (nodes : list (PeerId * AccountId)) : n ∈ nodes.*1 -> is_Some (last_owner n nodes).
Proof.
  induction nodes as [|[m who] nodes IH]; simpl; [set_solver|].
  rewrite elem_of_cons. intros Hn. destruct (last_owner n nodes) eqn:E; [by eexists|].
  case_bool_decide; [by eexists|]. destruct Hn as [->|Hn]; [done|].
  destruct (IH Hn) as [? Hx]. congruence.
Qed.

Lemma assign_is_Some (nodes : list (PeerId * AccountId)) (om : gmap PeerId AccountId) n :
  n ∈ nodes.*1 \/ is_Some (om !! n) -> is_Some (assign nodes om !! n).
Proof.
  rewrite lookup_assign. intros [Hn|Hn].
  - destruct (last_owner_is_Some n nodes Hn) as [? ->]. by eexists.
  - destruct (last_owner n nodes); [by eexists|done].
Qed.

(** ** The invariant *)

Record inv st : Prop := {
  inv_owned n : n ∈ wkn st -> is_Some (own st !! n);
  inv_connected n : is_Some (conn st !! n) -> is_Some (own st !! n);
  inv_size : (Z.of_nat (size (wkn st)) <= MaxWellKnownNodes)%Z
}.

Lemma step_owned st st' o c : inv st -> step st o c st' ->
  forall n, n ∈ wkn st' -> is_Some (own st' !! n).
Proof.
  intros [Hown Hconn _] Hst n Hn. destruct Hst; simpl in *.
  - rewrite lookup_insert. case_decide; [by eexists|]. apply Hown. set_solver.
  - rewrite lookup_delete_ne by set_solver. apply Hown. set_solver.
  - by apply Hown.
  - rewrite lookup_map_swap. repeat case_decide; apply Hown; set_solver.
  - apply assign_is_Some. left. by apply elem_of_list_to_set in Hn.
  - rewrite lookup_insert. case_decide; [by eexists|]. by apply Hown.
  - rewrite lookup_delete_ne by set_solver. by apply Hown.
  - rewrite lookup_insert. case_decide; [by eexists|]. by apply Hown.
  - by apply Hown.
  - by apply Hown.
Qed.

Lemma step_connected st st' o c : inv st -> step st o c st' ->
  forall n, is_Some (conn st' !! n) -> is_Some (own st' !! n).
Proof.
  intros [Hown Hconn _] Hst n Hn. destruct Hst; simpl in *; auto using assign_is_Some.
  - rewrite lookup_insert. case_decide; [by eexists|auto].
  - destruct (decide (n0 = n)) as [->|]; [rewrite lookup_delete_eq in Hn; by destruct Hn|].
    rewrite lookup_delete_ne in Hn by done. rewrite lookup_delete_ne by done. auto.
  - rewrite lookup_map_swap in Hn. rewrite lookup_map_swap. repeat case_decide; auto.
  - rewrite lookup_insert. case_decide; [by eexists|auto].
  - destruct (decide (n0 = n)) as [->|]; [rewrite lookup_delete_eq in Hn; by destruct Hn|].
    rewrite lookup_delete_ne in Hn by done. rewrite lookup_delete_ne by done. auto.
  - rewrite lookup_insert. case_decide; [by eexists|auto].
  - rewrite lookup_insert in Hn. case_decide; [subst; by eexists|auto].
  - rewrite lookup_insert in Hn. case_decide; [subst; by eexists|auto].
Qed.

Lemma step_size st st' o c : inv st -> step st o c st' ->
  (Z.of_nat (size (wkn st')) <= MaxWellKnownNodes)%Z.
Proof.
  intros [_ _ Hsize] Hst. destruct Hst; simpl; try done.
  - pose proof (size_insert_le n (wkn st)). lia.
  - assert (size (wkn st ∖ {[n]}) <= size (wkn st))%nat
      by (apply subseteq_size; set_solver). lia.
  - pose proof (size_replace_le r a (wkn st)). naive_solver lia.
  - pose proof (size_list_to_set_le nodes.*1) as Hle. rewrite length_fmap in Hle. lia.
Qed.

Lemma step_inv st st' o c : inv st -> step st o c st' -> inv st'.
Proof. intros Hi Hst. split; eauto using step_owned, step_connected, step_size. Qed.

(** ** Access control *)

(** The configured origin a call has to come from, if any. *)
Definition required_origin (c : Call) : option (EnsureOrigin Origin) :=
  match c with
  | Call_add_well_known_node _ _ => Some AddOrigin
  | Call_remove_well_known_node _ => Some RemoveOrigin
  | Call_swap_well_known_node _ _ => Some SwapOrigin
  | Call_reset_well_known_nodes _ => Some ResetOrigin
  | _ => None
  end.

Lemma step_operational st st' o c eo :
  step st o c st' -> required_origin c = Some eo -> permits eo o.
Proof. destruct 1; simpl; intros; by simplify_eq. Qed.

Lemma step_normal_signed st st' o c :
  step st o c st' -> required_origin c = None -> exists who, signed_by o who /\ wkn st' = wkn st.
Proof. destruct 1; simpl; naive_solver. Qed.

Lemma operational_required c :
  snd (call_weight c) = Operational <-> is_Some (required_origin c).
Proof. destruct c; simpl; split; intros Hc; try done; try (by eexists); by destruct Hc. Qed.

Lemma normal_required c : snd (call_weight c) = Normal -> required_origin c = None.
Proof. by destruct c. Qed.

(** Without a configured origin, a node changes hands only by its owner. *)
Lemma step_ownership st st' o c n owner :
  step st o c st' -> required_origin c = None ->
  own st !! n = Some owner -> own st' !! n <> Some owner -> signed_by o owner.
Proof.
  destruct 1; simpl; intros Hc Hn Hn'; try done.
  - rewrite lookup_insert in Hn'. case_decide; simplify_eq.
  - rewrite lookup_delete in Hn'. case_decide; simplify_eq; done.
  - rewrite lookup_insert in Hn'. case_decide; simplify_eq; done.
Qed.

(** ... and so do its additional connections. *)
Lemma step_connections st st' o c n :
  step st o c st' -> required_origin c = None -> conn st' !! n <> conn st !! n ->
  exists owner, own st !! n = Some owner /\ signed_by o owner.
Proof.
  destruct 1; simpl; intros Hc Hn'; try done.
  - rewrite lookup_delete in Hn'. case_decide; simplify_eq. by eexists.
  - rewrite lookup_insert in Hn'. case_decide; simplify_eq. by eexists.
  - rewrite lookup_insert in Hn'. case_decide; simplify_eq. by eexists.
Qed.

(** ** Self connections *)

(** No node lists itself among its additional connections. *)
Definition self_free st : Prop := forall n, n ∉ conns_of st n.

Lemma conns_of_insert st n m X w om :
  conns_of {| wkn := w; own := om; conn := <[n := X]> (conn st) |} m =
    if decide (n = m) then X else conns_of st m.
Proof. unfold conns_of. simpl. rewrite lookup_insert. by case_decide. Qed.

Lemma conns_of_delete st n m w om :
  conns_of {| wkn := w; own := om; conn := delete n (conn st) |} m =
    if decide (n = m) then ∅ else conns_of st m.
Proof. unfold conns_of. simpl. rewrite lookup_delete. by case_decide. Qed.

Lemma conns_of_swap st r a m w om :
  conns_of {| wkn := w; own := om; conn := map_swap r a (conn st) |} m =
    if decide (m = r) then conns_of st a
    else if decide (m = a) then conns_of st r else conns_of st m.
Proof. unfold conns_of. simpl. rewrite lookup_map_swap. by repeat case_decide. Qed.

Lemma step_self_free st st' o c :
  self_free st -> step st o c st' ->
  (forall r a, c <> Call_swap_well_known_node r a) -> self_free st'.
Proof.
  intros Hf Hst Hc m. pose proof (Hf m). destruct Hst; rewrite ?conns_of_insert, ?conns_of_delete;
    try case_decide; subst; try apply Hf; try set_solver; exfalso; by eapply Hc.
Qed.

Lemma step_swap_same_inv st st' o n : step st o (Call_swap_well_known_node n n) st' -> st' = st.
Proof. inversion 1; subst; done. Qed.

Lemma step_swap_self_free st st' o r a :
  self_free st -> r <> a -> step st o (Call_swap_well_known_node r a) st' ->
  self_free st' <-> ((a ∉ conns_of st r) /\ (r ∉ conns_of st a)).
Proof.
  intros Hf Hne Hst. inversion Hst; subst; [done|]. unfold self_free. split.
  - intros Hf'. pose proof (Hf' a) as Ha. pose proof (Hf' r) as Hr.
    rewrite conns_of_swap in Ha, Hr. by repeat case_decide.
  - intros [Ha Hr] m. rewrite conns_of_swap. repeat case_decide; subst; auto.
Qed.

(** ** Nodes with an identifier that is too long *)

Lemma step_long_stays st st' o c n :
  ~ short n -> n ∈ wkn st -> step st o c st' ->
  (forall nodes, c <> Call_reset_well_known_nodes nodes) -> n ∈ wkn st'.
Proof.
  intros Hlong Hn Hst Hc. destruct Hst; simpl; set_solver.
Qed.

(** ** Resets *)

Lemma step_reset_inv st st' o nodes :
  step st o (Call_reset_well_known_nodes nodes) st' ->
  wkn st' = list_to_set nodes.*1 /\
  (forall n, own st' !! n =
     match last_owner n nodes with Some who => Some who | None => own st !! n end) /\
  conn st' = conn st.
Proof. inversion 1; subst. split_and!; try done. intros n. apply lookup_assign. Qed.

(** ** Transitions that undo each other *)

Lemma step_swap_back st st' o r a :
  r <> a -> step st o (Call_swap_well_known_node r a) st' ->
  step st' o (Call_swap_well_known_node a r) st.
Proof.
  intros Hne Hst. inversion Hst; subst; [done|]. eapply step_to.
  - apply step_swap; simpl; try done; set_solver.
  - simpl. destruct st as [w ow co]; simpl in *. f_equal.
    + apply set_eq. intros p. destruct (decide (p = r)); set_solver.
    + rewrite (map_swap_comm _ a r). apply map_swap_involutive.
    + rewrite (map_swap_comm _ a r). apply map_swap_involutive.
Qed.

Lemma step_claim_back st st' o n :
  inv st -> step st o (Call_claim_node n) st' -> step st' o (Call_remove_claim n) st.
Proof.
  intros Hi Hst. inversion Hst as [| | | | |n' who Hwho Hshort Hn| | | |]; subst. eapply step_to.
  - eapply step_unclaim; simpl; [done..| |].
    + by rewrite lookup_insert_eq.
    + intros Hw. apply (inv_owned _ Hi) in Hw. rewrite Hn in Hw. by destruct Hw.
  - simpl. destruct st as [w ow co]; simpl in *. f_equal.
    + by apply delete_insert_id.
    + apply delete_id. destruct (co !! n) eqn:Hc; [|done].
      destruct (inv_connected _ Hi n) as [? Hx]; [by eexists|]. simpl in Hx. by rewrite Hn in Hx.
Qed.

Lemma step_connect_back st st' o n cs :
  step st o (Call_add_connections n cs) st' ->
  conns_of st' n = conns_of st n ∪ (list_to_set cs ∖ {[n]}) /\
  exists st2, step st' o (Call_remove_connections n cs) st2 /\
    conns_of st2 n = conns_of st n ∖ list_to_set cs.
Proof.
  intros Hst. inversion Hst; subst. rewrite conns_of_insert, decide_True by done.
  split; [done|]. eexists. split; [by eapply step_disconnect|].
  rewrite !conns_of_insert, !decide_True by done. set_solver.
Qed.

(** ** From transitions to dispatchables *)

Context `{L : !FrameStorageLaws FS}.

Lemma dispatch_cases c o s :
  wf s -> step (view s) o c (view (snd (dispatch c o s))) \/ snd (dispatch c o s) = s.
Proof.
  intros Hs. destruct (dispatch_implements c o s Hs) as [_ Himp].
  destruct (dispatch c o s) as [[u|e] s']; simpl; [left; naive_solver | by right].
Qed.

Lemma dispatch_refused c o s :
  wf s -> (forall st', ~ step (view s) o c st') -> is_ok (fst (dispatch c o s)) = false.
Proof.
  intros Hs Hno. destruct (dispatch c o s) as [[[]|e] s'] eqn:Hd; [|done].
  apply dispatch_sound in Hd as (_ & Hst & _); [|done]. by destruct (Hno _ Hst).
Qed.

Lemma authorized_wf n s : wf s -> BTreeSet.wf (get_authorized_nodes n s).
Proof.
  intros Hs. unfold get_authorized_nodes, BTreeSet.to_vec.
  case_match; eauto using get_conns_wf with btree.
Qed.

Lemma elem_of_authorized n s p :
  wf s ->
  p ∈ get_authorized_nodes n s <->
    p ∈ conns_of (view s) n \/ (n ∈ wkn (view s) /\ p ∈ wkn (view s) /\ p <> n).
Proof.
  intros Hs. unfold get_authorized_nodes, BTreeSet.to_vec. rewrite contains_wkn by done.
  rewrite <-get_conns_view. case_bool_decide as Hn; simpl in *;
    rewrite BTreeSet.elem_of_to_set in Hn; rewrite !BTreeSet.elem_of_to_set; [|naive_solver].
  rewrite BTreeSet.elem_of_extend, BTreeSet.elem_of_remove by apply Hs. naive_solver.
Qed.

(** ** Reachable storage *)

(** A chain started from the genesis configuration [nodes], after any sequence
    of calls from any origins, failed calls included. *)
Inductive reachable (nodes : list (PeerId * AccountId)) : Store -> Prop :=
| reachable_genesis : reachable nodes (genesis_build nodes)
| reachable_call s c o : reachable nodes s -> reachable nodes (snd (dispatch c o s)).

Lemma genesis_inv nodes :
  (Z.of_nat (length nodes) <= MaxWellKnownNodes)%Z -> inv (view (genesis_build nodes)).
Proof.
  intros Hlen. destruct (genesis_view nodes) as [_ ->]. split; simpl.
  - intros n Hn. apply assign_is_Some. left. by apply elem_of_list_to_set in Hn.
  - intros n [? Hn]. by rewrite lookup_empty in Hn.
  - pose proof (size_list_to_set_le nodes.*1) as Hle. rewrite length_fmap in Hle. lia.
Qed.

Lemma dispatch_inv c o s :
  wf s -> inv (view s) -> wf (snd (dispatch c o s)) /\ inv (view (snd (dispatch c o s))).
Proof.
  intros Hs Hi. destruct (dispatch_implements c o s Hs) as [_ Himp].
  destruct (dispatch c o s) as [[u|e] s']; simpl.
  - destruct Himp as (Hwf & Hst & _). eauto using step_inv.
  - by subst.
Qed.

Lemma reachable_inv nodes s :
  (Z.of_nat (length nodes) <= MaxWellKnownNodes)%Z -> reachable nodes s -> wf s /\ inv (view s).
Proof.
  intros Hlen. induction 1 as [|s c o _ [Hs Hi]].
  - split; [apply genesis_view | by apply genesis_inv].
  - by apply dispatch_inv.
Qed.

End invariants.
End AuthInvariants.
