(* ===== verification/AuthTheorems.v ===== *)
(** * Correctness of the authorization pallet

    The properties of the dispatchables and the off-chain worker of
    [Authorization], each with a witness in the configuration of the pallet's
    own tests (authorization/src/tests.rs). *)

From S2P Require Import Prelude BTreeSet Frame Authorization AuthSpec AuthProofs AuthInvariants.
Import Auth AuthSpec AuthProofs AuthInvariants.

Module AuthTheorems.

(** ** The configuration of the tests *)

Module Test.
Import Mock.

#[export] Instance test_config : Config mock_system := {
  MaxWellKnownNodes := 4;
  MaxPeerIdLength := 2;
  AddOrigin := EnsureSignedBy 1;
  RemoveOrigin := EnsureSignedBy 2;
  SwapOrigin := EnsureSignedBy 3;
  ResetOrigin := EnsureSignedBy 4;
  weights := unit_weights
}.

Definition node10 : PeerId := [x0a].
Definition node15 : PeerId := [x0f].
Definition node20 : PeerId := [x14].
Definition node30 : PeerId := [x1e].
Definition long_id : PeerId := [x01; x02; x03].

Definition acct (who : Z) : AccountId (FrameSystem := mock_system) := who.
Definition signed (who : Z) : Origin (FrameSystem := mock_system) := Signed who.

Definition genesis_nodes : list (PeerId * AccountId) := 
  [(node10, acct 10); (node20, acct 20); (node30, acct 30)].

Definition genesis : Store := genesis_build genesis_nodes.

(** The storage after a call of the tests. *)
Definition after (c : Call) (o : RawOrigin) (s : Store) : Store := snd (dispatch c o s).

Lemma genesis_wf : wf genesis.
Proof. apply genesis_view. Qed.

Lemma genesis_inv_holds : inv (view genesis).
Proof. apply genesis_inv. by compute. Qed.

Lemma after_wf c o s : wf s -> wf (after c o s).
Proof.
  intros Hs. destruct (dispatch_implements c o s Hs) as [_ Himp]. unfold after.
  destruct (dispatch c o s) as [[]]; simpl; [by destruct Himp|by subst].
Qed.

End Test.

Section theorems.
Context `{F : FrameSystem} `{FS : FrameStorage} `{!Config F} `{L : !FrameStorageLaws FS}.
Implicit Types (n r a : PeerId) (who owner : AccountId) (o : Origin) (s : Store) (c : Call).

(** C1: every dispatchable refines the specification.  From a storage whose
    sets are in order, a call returns the error of the first guard that fails
    and leaves the storage untouched, or succeeds in a storage that is in
    order again, whose contents are those of the transition [step], and that
    has exactly the event of the call appended. *)
Theorem dispatch_refines_spec c o s : wf s -> implements c o s (dispatch c o s).
Proof. apply dispatch_implements. Qed.

(** C2: the specification is implemented completely.  Whenever [step] allows a
    call, the dispatchable succeeds and ends in that state. *)
Theorem dispatch_implements_every_step c o s st' :
  wf s -> step (view s) o c st' ->
  exists s', dispatch c o s = (Ok tt, s') /\ view s' = st' /\ wf s'.
Proof. apply dispatch_complete. Qed.

(** C3: in every storage reachable from a genesis of at most
    [MaxWellKnownNodes] nodes, the stored sets are sorted without duplicates,
    every well known node has an owner, every node with additional connections
    has an owner, and the number of well known nodes stays within its maximum. *)
Theorem reachable_invariant nodes s :
  (Z.of_nat (length nodes) <= MaxWellKnownNodes)%Z -> reachable nodes s ->
  wf s /\ inv (view s).
Proof. apply reachable_inv. Qed.

(** C4: a failed call changes nothing.  Whatever the storage backend, a
    dispatchable that returns an error has written neither storage nor events. *)
Theorem failed_call_changes_nothing c : forall o s e s',
  dispatch c o s = (Err e, s') -> s' = s.
Proof. intros o. apply dispatch_noop. Qed.

(** C5: only its owner disposes of a node.  A call of the normal class that ends
    an account's ownership of a node was signed by that account, and one that
    changes the additional connections of a node was signed by its owner. *)
Theorem owner_controls_node c o s n :
  wf s -> snd (call_weight c) = Normal ->
  (forall owner, own (view s) !! n = Some owner ->
     own (view (snd (dispatch c o s))) !! n <> Some owner -> ensure_signed o = Ok owner) /\
  (conn (view (snd (dispatch c o s))) !! n <> conn (view s) !! n ->
     exists owner, own (view s) !! n = Some owner /\ ensure_signed o = Ok owner).
Proof.
  intros Hs Hc%normal_required. destruct (dispatch_cases c o s Hs) as [Hst|Heq].
  - split; [intros owner; by eapply step_ownership | by eapply step_connections].
  - by rewrite Heq.
Qed.

(** The well known nodes change only by a call of the operational class
    that passes the origin configured for it: [AddOrigin], [RemoveOrigin],
    [SwapOrigin] or [ResetOrigin]. *)
Theorem well_known_nodes_guarded c o s :
  wf s -> wkn (view (snd (dispatch c o s))) <> wkn (view s) ->
  snd (call_weight c) = Operational /\
  exists eo, required_origin c = Some eo /\ is_ok (ensure_origin eo o) = true.
Proof.
  intros Hs Hw. destruct (dispatch_cases c o s Hs) as [Hst|Heq]; [|by rewrite Heq in Hw].
  rewrite operational_required. destruct (required_origin c) as [eo|] eqn:Hc.
  - split; [by eexists|]. exists eo. split; [done|]. by eapply step_operational.
  - destruct (step_normal_signed _ _ _ _ Hst Hc) as (? & _ & ?). congruence.
Qed.

(** The peers a node is authorized to connect to are its additional
    connections, and, for a well known node, all the other well known nodes;
    they are returned in ascending order without duplicates. *)
Theorem get_authorized_nodes_spec n s :
  wf s ->
  BTreeSet.wf (get_authorized_nodes n s) /\
  NoDup (get_authorized_nodes n s) /\
  (forall p, p ∈ get_authorized_nodes n s <->
     p ∈ conns_of (view s) n \/ (n ∈ wkn (view s) /\ p ∈ wkn (view s) /\ p <> n)).
Proof.
  intros Hs. assert (Hw : BTreeSet.wf (get_authorized_nodes n s)) by by apply authorized_wf.
  split; [done|]. split; [by apply BTreeSet.wf_NoDup|]. intros p. by apply elem_of_authorized.
Qed.

(** The off-chain worker sets, in exclusive mode, exactly the authorized
    peers of the local node, and only when the network state is available and
    its peer identifier decodes; otherwise it logs and leaves the peers alone. *)
Theorem offchain_worker_spec network_state decode now s nodes b :
  wf s ->
  offchain_worker network_state decode now s = SetAuthorizedNodes nodes b <->
  b = true /\ exists encoded n, network_state = Ok encoded /\ decode encoded = Some n /\
    BTreeSet.wf nodes /\
    forall p, p ∈ nodes <->
      p ∈ conns_of (view s) n \/ (n ∈ wkn (view s) /\ p ∈ wkn (view s) /\ p <> n).
Proof.
  intros Hs. unfold offchain_worker. split.
  - destruct network_state as [encoded|]; [|done]. destruct (decode encoded) as [n|] eqn:Hd; [|done].
    intros [= <- <-]. split; [done|]. exists encoded, n.
    split_and!; eauto using authorized_wf, elem_of_authorized.
  - intros (-> & encoded & n & -> & -> & Hw & Hp). f_equal.
    apply BTreeSet.wf_ext; [by apply authorized_wf|done|]. intros p.
    by rewrite Hp, elem_of_authorized.
Qed.

(** C10: swapping is reversible.  After replacing [r] by [a] in the well known
    nodes, replacing [a] by [r] from the same origin succeeds and restores the
    set, the owners and the connections. *)
Theorem swap_roundtrip o r a s s1 :
  wf s -> r <> a -> dispatch (Call_swap_well_known_node r a) o s = (Ok tt, s1) ->
  exists s2, dispatch (Call_swap_well_known_node a r) o s1 = (Ok tt, s2) /\ view s2 = view s.
Proof.
  intros Hs Hne [Hs1 [Hst _]]%dispatch_sound; [|done].
  destruct (dispatch_complete (Call_swap_well_known_node a r) o s1 (view s)) as (s2 & ? & ? & _);
    eauto using step_swap_back.
Qed.

(** A reset installs exactly the listed nodes; each takes the owner of
    its last entry in the list, every other node keeps its owner, and no
    connection is touched. *)
Theorem reset_spec o nodes s s' :
  wf s -> dispatch (Call_reset_well_known_nodes nodes) o s = (Ok tt, s') ->
  wkn (view s') = list_to_set nodes.*1 /\
  (forall n, own (view s') !! n =
     match last_owner n nodes with Some who => Some who | None => own (view s) !! n end) /\
  conn (view s') = conn (view s).
Proof.
  intros Hs [_ [Hst _]]%dispatch_sound; [|done]. by eapply step_reset_inv.
Qed.

(** A node whose identifier is too long can enter the well known nodes by
    a reset, which does not check lengths, and no call but another reset can
    take it out again. *)
Theorem long_identifier_stuck o c s n :
  wf s -> ~ short n -> n ∈ wkn (view s) -> n ∉ wkn (view (snd (dispatch c o s))) ->
  exists nodes, c = Call_reset_well_known_nodes nodes.
Proof.
  intros Hs Hlong Hn Hn'. destruct (dispatch_cases c o s Hs) as [Hst|Heq]; [|by rewrite Heq in Hn'].
  destruct c; try (by eexists); exfalso; by eapply Hn', step_long_stays.
Qed.

(** C13: which calls keep every node out of its own additional connections:
    all of them, except a swap of [r] for [a] when [a] is a connection of [r]
    or [r] one of [a], after which a node is connected to itself. *)
Theorem self_connection_iff o c s s' :
  wf s -> self_free (view s) -> dispatch c o s = (Ok tt, s') ->
  self_free (view s') <->
  match c with
  | Call_swap_well_known_node r a =>
      r = a \/ (a ∉ conns_of (view s) r) /\ (r ∉ conns_of (view s) a)
  | _ => True
  end.
Proof.
  intros Hs Hf [_ [Hst _]]%dispatch_sound; [|done].
  destruct c as [| |r a| | | | | |]; try (split; [done|]; intros _; by eapply step_self_free).
  destruct (decide (r = a)) as [<-|Hne].
  - rewrite (step_swap_same_inv _ _ _ _ Hst). naive_solver.
  - rewrite (step_swap_self_free _ _ _ _ _ Hf Hne Hst). naive_solver.
Qed.

(** Connections.  Adding connections to an owned node and removing the
    same list leaves exactly the previous connections outside the list. *)
Theorem connections_roundtrip o n cs s s1 :
  wf s -> dispatch (Call_add_connections n cs) o s = (Ok tt, s1) ->
  conns_of (view s1) n = conns_of (view s) n ∪ (list_to_set cs ∖ {[n]}) /\
  exists s2, dispatch (Call_remove_connections n cs) o s1 = (Ok tt, s2) /\
    conns_of (view s2) n = conns_of (view s) n ∖ list_to_set cs.
Proof.
  intros Hs [Hs1 [Hst _]]%dispatch_sound; [|done].
  destruct (step_connect_back _ _ _ _ _ Hst) as [Hc (st2 & Hst2 & Hc2)]. split; [done|].
  destruct (dispatch_complete _ _ _ _ Hs1 Hst2) as (s2 & ? & <- & _). eauto.
Qed.

(** Claims.  In a state that satisfies the invariant, the claimant of a
    node that is not well known can drop the claim, which restores the state
    from before it. *)
Theorem claim_roundtrip o n s s1 :
  wf s -> inv (view s) -> dispatch (Call_claim_node n) o s = (Ok tt, s1) ->
  exists s2, dispatch (Call_remove_claim n) o s1 = (Ok tt, s2) /\ view s2 = view s.
Proof.
  intros Hs Hi [Hs1 [Hst _]]%dispatch_sound; [|done].
  destruct (dispatch_complete (Call_remove_claim n) o s1 (view s)) as (s2 & ? & ? & _);
    eauto using step_claim_back.
Qed.

(** Both limits are exclusive.  An identifier of exactly
    [MaxPeerIdLength] bytes cannot be claimed or added, and a reset to exactly
    [MaxWellKnownNodes] nodes is refused. *)
Theorem limits_are_exclusive o s n owner nodes :
  wf s -> Z.of_nat (length n) = MaxPeerIdLength ->
  Z.of_nat (length nodes) = MaxWellKnownNodes ->
  is_ok (fst (dispatch (Call_claim_node n) o s)) = false /\
  is_ok (fst (dispatch (Call_add_well_known_node n owner) o s)) = false /\
  is_ok (fst (dispatch (Call_reset_well_known_nodes nodes) o s)) = false.
Proof.
  intros Hs Hn Hl. assert (~ short n) by (unfold short; lia).
  split_and!; apply dispatch_refused; try done; inversion 1; subst; done || lia.
Qed.

End theorems.

Section witnesses.
Import Mock Test.

Ltac by_eval := first [reflexivity | vm_compute; reflexivity].
Ltac by_decide :=
  match goal with |- ?P => refine (bool_decide_eq_true_1 P _); vm_compute; reflexivity end.

Lemma dispatch_refines_spec_witness :
  implements (Call_add_well_known_node node15 (acct 15)) (signed 1) genesis
    (dispatch (Call_add_well_known_node node15 (acct 15)) (signed 1) genesis) /\
  fst (dispatch (Call_add_well_known_node node15 (acct 15)) (signed 1) genesis) = Ok tt.
Proof. split; [apply dispatch_refines_spec, genesis_wf | by_eval]. Defined.

Lemma dispatch_implements_every_step_witness :
  exists s', dispatch (Call_claim_node node15) (signed 15) genesis = (Ok tt, s') /\
    view s' = {| wkn := wkn (view genesis); own := <[node15 := (acct 15)]> (own (view genesis));
                 conn := conn (view genesis) |} /\ wf s'.
Proof.
  apply dispatch_implements_every_step; [apply genesis_wf|].
  apply step_claim; [by_eval | by_decide | by_eval].
Defined.

Lemma reachable_invariant_witness :
  wf (after (Call_remove_well_known_node node20) (signed 2) genesis) /\
  inv (view (after (Call_remove_well_known_node node20) (signed 2) genesis)).
Proof.
  apply (reachable_invariant genesis_nodes); [by compute|]. apply reachable_call, reachable_genesis.
Defined.

Lemma failed_call_changes_nothing_witness :
  snd (dispatch (Call_remove_claim node20) (signed 20) genesis) = genesis.
Proof.
  apply (failed_call_changes_nothing (Call_remove_claim node20) (signed 20) genesis
           (DispatchModule PermissionDenied)). by_eval.
Defined.

Lemma owner_controls_node_witness :
  ensure_signed (signed 20) = Ok (acct 20) /\
  exists owner, own (view genesis) !! node20 = Some owner /\ ensure_signed (signed 20) = Ok owner.
Proof.
  split.
  - apply (owner_controls_node (Call_transfer_node node20 (acct 15)) (signed 20) genesis node20);
      [apply genesis_wf | by_eval | by_eval |]. vm_compute. discriminate.
  - apply (owner_controls_node (Call_add_connections node20 [node15]) (signed 20) genesis node20);
      [apply genesis_wf | by_eval |].
    intros Heq. apply (f_equal (fun x => bool_decide (is_Some x))) in Heq. vm_compute in Heq. discriminate.
Defined.

Lemma well_known_nodes_guarded_witness :
  snd (call_weight (Call_remove_well_known_node node20)) = Operational /\
  exists eo, required_origin (Call_remove_well_known_node node20) = Some eo /\
    is_ok (ensure_origin eo (signed 2)) = true.
Proof.
  apply (well_known_nodes_guarded _ (signed 2) genesis); [apply genesis_wf|].
  intros Heq. apply (f_equal size) in Heq. vm_compute in Heq. discriminate.
Defined.

(** The well known node 20, connected to node 15. *)
Definition connected : Store := after (Call_add_connections node20 [node15; node20]) (signed 20) genesis.

Lemma connected_wf : wf connected.
Proof. apply after_wf, genesis_wf. Qed.

Lemma get_authorized_nodes_spec_witness :
  get_authorized_nodes node20 connected = [node10; node15; node30] /\
  NoDup (get_authorized_nodes node20 connected).
Proof. split; [by_eval|]. apply get_authorized_nodes_spec, connected_wf. Defined.

Lemma offchain_worker_spec_witness :
  exists encoded n, Ok (E:=unit) node20 = Ok encoded /\ Some encoded = Some n /\
    BTreeSet.wf [node10; node15; node30] /\
    forall p, p ∈ [node10; node15; node30] <->
      p ∈ conns_of (view connected) n \/
      (n ∈ wkn (view connected) /\ p ∈ wkn (view connected) /\ p <> n).
Proof.
  refine (proj2 (proj1 (offchain_worker_spec (Ok node20) (fun b => Some b) 7%Z connected
                    [node10; node15; node30] true connected_wf) _)).
  by_eval.
Defined.

Lemma swap_roundtrip_witness :
  exists s2, dispatch (Call_swap_well_known_node node15 node20) (signed 3)
               (after (Call_swap_well_known_node node20 node15) (signed 3) connected) = (Ok tt, s2) /\
    view s2 = view connected.
Proof. apply swap_roundtrip; [apply connected_wf | done | by_eval]. Defined.

Lemma reset_spec_witness :
  wkn (view (after (Call_reset_well_known_nodes [(node15, (acct 1)); (node15, (acct 2))]) (signed 4) genesis))
    = {[node15]} /\
  own (view (after (Call_reset_well_known_nodes [(node15, (acct 1)); (node15, (acct 2))]) (signed 4) genesis))
    !! node15 = Some (acct 2).
Proof.
  destruct (reset_spec (signed 4) [(node15, (acct 1)); (node15, (acct 2))] genesis
    (after (Call_reset_well_known_nodes [(node15, (acct 1)); (node15, (acct 2))]) (signed 4) genesis))
    as (Hw & Ho & _); [apply genesis_wf | by_eval |].
  split; [rewrite Hw; set_solver | apply Ho].
Defined.

Lemma long_identifier_stuck_witness :
  exists nodes, Call_reset_well_known_nodes [(node15, (acct 1))] = Call_reset_well_known_nodes nodes.
Proof.
  apply (long_identifier_stuck (signed 4) _
           (after (Call_reset_well_known_nodes [(long_id, (acct 1))]) (signed 4) genesis) long_id).
  - apply after_wf, genesis_wf.
  - by_decide.
  - by_decide.
  - by_decide.
Defined.

Lemma self_connection_iff_witness :
  ~ self_free (view (after (Call_swap_well_known_node node20 node15) (signed 3) connected)).
Proof.
  rewrite (self_connection_iff (signed 3) (Call_swap_well_known_node node20 node15) connected
             (after (Call_swap_well_known_node node20 node15) (signed 3) connected)).
  - intros [Heq | [Hn _]]; [discriminate Heq|]. apply Hn. by_decide.
  - apply connected_wf.
  - intros n. unfold connected. assert (Hc : conn (view connected) = {[node20 := {[node15]}]}).
    { apply (bool_decide_eq_true_1 _). vm_compute. reflexivity. }
    unfold conns_of. fold connected. rewrite Hc, lookup_singleton. case_decide; subst; by_decide || set_solver.
  - by_eval.
Defined.

Lemma connections_roundtrip_witness :
  conns_of (view connected) node20 = {[node15]}.
Proof.
  destruct (connections_roundtrip (signed 20) node20 [node15; node20] genesis connected)
    as [-> _]; [apply genesis_wf | by_eval | by_decide].
Defined.

Lemma claim_roundtrip_witness :
  exists s2, dispatch (Call_remove_claim node15) (signed 15)
               (after (Call_claim_node node15) (signed 15) genesis) = (Ok tt, s2) /\
    view s2 = view genesis.
Proof. apply claim_roundtrip; [apply genesis_wf | apply genesis_inv_holds | by_eval]. Defined.

Lemma limits_are_exclusive_witness :
  is_ok (fst (dispatch (Call_claim_node [x01; x02]) (signed 15) genesis)) = false.
Proof.
  apply (limits_are_exclusive (signed 15) genesis [x01; x02] (acct 15)
           [(node10, (acct 1)); (node15, (acct 2)); (node20, (acct 3)); (node30, (acct 4))]);
    [apply genesis_wf | reflexivity | reflexivity].
Defined.

End witnesses.
End AuthTheorems.
