(* ===== verification/AuthTests.v ===== *)
(** * The tests of the authorization pallet

    The scenarios of authorization/src/tests.rs, run on the model: each example
    is one [#[test]] function, with its assertions in order.  [noop] is
    [assert_noop!]: the call fails with the error (that it leaves the storage as
    it was holds for every failed call, [AuthProofs.dispatch_noop]); [ok] is
    [assert_ok!], which goes on with the storage after the call. *)

From S2P Require Import Prelude BTreeSet Frame Authorization AuthTheorems.
Import Auth AuthTheorems.
Local Open Scope Z_scope.

Module AuthTests.
Import Mock Test.

Definition test_node (id : byte) : PeerId := [id].
Definition too_long : PeerId := [x01; x02; x03].

(** A test goes through storages: an assertion that fails ends it. *)
Definition test : Type := Store -> option Store.

Definition noop (c : Call) (who : Z) (e : DispatchError Error) : test := fun s =>
  match dispatch c (signed who) s with
  | (Err e', s') => if bool_decide (e' = e) then Some s' else None
  | _ => None
  end.

Definition ok (c : Call) (who : Z) : test := fun s =>
  match dispatch c (signed who) s with
  | (Ok _, s') => Some s'
  | _ => None
  end.

Definition assert (P : Store -> bool) : test := fun s => if P s then Some s else None.

Definition well_known (nodes : list PeerId) (s : Store) : bool :=
  bool_decide (sv_get (WellKnownNodes s) = BTreeSet.collect nodes).
Definition owned_by (n : PeerId) (who : Z) (s : Store) : bool :=
  bool_decide (sm_get (Owners s) n = acct who).
Definition connected_to (n : PeerId) (nodes : list PeerId) (s : Store) : bool :=
  bool_decide (sm_get (AdditionalConnections s) n = BTreeSet.collect nodes).
Definition has_owner (n : PeerId) (s : Store) : bool := sm_contains_key (Owners s) n.
Definition has_connections (n : PeerId) (s : Store) : bool := sm_contains_key (AdditionalConnections s) n.

(** Writes the tests make behind the pallet's back. *)
Definition put_owner (n : PeerId) (who : Z) : test := fun s =>
  Some (snd (Owners_insert n (acct who) s)).
Definition put_connections (n : PeerId) (nodes : list PeerId) : test := fun s =>
  Some (snd (AdditionalConnections_insert n (BTreeSet.collect nodes) s)).

Definition passes (steps : list test) : bool :=
  match foldl (fun s step => s ≫= step) (Some genesis) steps with Some _ => true | None => false end.

Definition module_error (e : Error) : DispatchError Error := DispatchModule e.
Abbreviation n5 := (test_node x05).
Abbreviation n10 := (test_node x0a).
Abbreviation n15 := (test_node x0f).
Abbreviation n20 := (test_node x14).
Abbreviation n25 := (test_node x19).
Abbreviation n30 := (test_node x1e).
Abbreviation n40 := (test_node x28).

Example add_well_known_node_works : passes [
  noop (Call_add_well_known_node n15 (acct 15)) 2 DispatchBadOrigin;
  noop (Call_add_well_known_node too_long (acct 15)) 1 (module_error PeerIdTooLong);
  noop (Call_add_well_known_node n20 (acct 20)) 1 (module_error AlreadyJoined);
  ok (Call_add_well_known_node n15 (acct 15)) 1;
  assert (well_known [n10; n15; n20; n30]);
  assert (owned_by n10 10); assert (owned_by n20 20); assert (owned_by n30 30); assert (owned_by n15 15);
  noop (Call_add_well_known_node n25 (acct 25)) 1 (module_error TooManyNodes)] = true.
Proof. vm_compute. reflexivity. Qed.

Example remove_well_known_node_works : passes [
  noop (Call_remove_well_known_node n20) 3 DispatchBadOrigin;
  noop (Call_remove_well_known_node too_long) 2 (module_error PeerIdTooLong);
  noop (Call_remove_well_known_node n40) 2 (module_error NotExist);
  put_connections n20 [n40];
  assert (has_connections n20);
  ok (Call_remove_well_known_node n20) 2;
  assert (well_known [n10; n30]);
  assert (fun s => negb (has_owner n20 s));
  assert (fun s => negb (has_connections n20 s))] = true.
Proof. vm_compute. reflexivity. Qed.

Example swap_well_known_node_works : passes [
  noop (Call_swap_well_known_node n20 n5) 4 DispatchBadOrigin;
  noop (Call_swap_well_known_node too_long n20) 3 (module_error PeerIdTooLong);
  noop (Call_swap_well_known_node n20 too_long) 3 (module_error PeerIdTooLong);
  ok (Call_swap_well_known_node n20 n20) 3;
  assert (well_known [n10; n20; n30]);
  noop (Call_swap_well_known_node n15 n5) 3 (module_error NotExist);
  noop (Call_swap_well_known_node n20 n30) 3 (module_error AlreadyJoined);
  put_connections n20 [n15];
  ok (Call_swap_well_known_node n20 n5) 3;
  assert (well_known [n5; n10; n30]);
  assert (fun s => negb (has_owner n20 s));
  assert (owned_by n5 20);
  assert (fun s => negb (has_connections n20 s));
  assert (connected_to n5 [n15])] = true.
Proof. vm_compute. reflexivity. Qed.

Definition reset (nodes : list (PeerId * Z)) : Call :=
  Call_reset_well_known_nodes (map (fun x => (fst x, acct (snd x))) nodes).

Example reset_well_known_nodes_works : passes [
  noop (reset [(n15, 15); (n5, 5); (n20, 20)]) 3 DispatchBadOrigin;
  noop (reset [(n15, 15); (n5, 5); (n20, 20); (n25, 25)]) 4 (module_error TooManyNodes);
  ok (reset [(n15, 15); (n5, 5); (n20, 20)]) 4;
  assert (well_known [n5; n15; n20]);
  assert (owned_by n5 5); assert (owned_by n15 15); assert (owned_by n20 20)] = true.
Proof. vm_compute. reflexivity. Qed.

Example claim_node_works : passes [
  noop (Call_claim_node too_long) 1 (module_error PeerIdTooLong);
  noop (Call_claim_node n20) 1 (module_error AlreadyClaimed);
  ok (Call_claim_node n15) 15;
  assert (owned_by n15 15)] = true.
Proof. vm_compute. reflexivity. Qed.

Example remove_claim_works : passes [
  noop (Call_remove_claim too_long) 15 (module_error PeerIdTooLong);
  noop (Call_remove_claim n15) 15 (module_error NotClaimed);
  noop (Call_remove_claim n20) 15 (module_error NotOwner);
  noop (Call_remove_claim n20) 20 (module_error PermissionDenied);
  put_owner n15 15;
  put_connections n15 [n20];
  ok (Call_remove_claim n15) 15;
  assert (fun s => negb (has_owner n15 s));
  assert (fun s => negb (has_connections n15 s))] = true.
Proof. vm_compute. reflexivity. Qed.

Example transfer_node_works : passes [
  noop (Call_transfer_node too_long (acct 10)) 15 (module_error PeerIdTooLong);
  noop (Call_transfer_node n15 (acct 10)) 15 (module_error NotClaimed);
  noop (Call_transfer_node n20 (acct 10)) 15 (module_error NotOwner);
  ok (Call_transfer_node n20 (acct 15)) 20;
  assert (owned_by n20 15)] = true.
Proof. vm_compute. reflexivity. Qed.

Example add_connections_works : passes [
  noop (Call_add_connections too_long [n5]) 15 (module_error PeerIdTooLong);
  noop (Call_add_connections n15 [n5]) 15 (module_error NotClaimed);
  noop (Call_add_connections n20 [n5]) 15 (module_error NotOwner);
  ok (Call_add_connections n20 [n15; n5; n25; n20]) 20;
  assert (connected_to n20 [n5; n15; n25])] = true.
Proof. vm_compute. reflexivity. Qed.

Example remove_connections_works : passes [
  noop (Call_remove_connections too_long [n5]) 15 (module_error PeerIdTooLong);
  noop (Call_remove_connections n15 [n5]) 15 (module_error NotClaimed);
  noop (Call_remove_connections n20 [n5]) 15 (module_error NotOwner);
  put_connections n20 [n5; n15; n25];
  ok (Call_remove_connections n20 [n15; n5]) 20;
  assert (connected_to n20 [n25])] = true.
Proof. vm_compute. reflexivity. Qed.

Example get_authorized_nodes_works : passes [
  put_connections n20 [n5; n15; n25];
  assert (fun s => bool_decide (get_authorized_nodes n20 s = [n5; n10; n15; n25; n30]))] = true.
Proof. vm_compute. reflexivity. Qed.

End AuthTests.
