(* ===== verification/AuthNetwork.v ===== *)
(** * The network the authorization pallet describes

    Every node hands the peers of [get_authorized_nodes] to its network as the
    only ones it may talk to, so two nodes are linked when each authorizes the
    other.  This file reads the links off the history of the chain: after any
    sequence of calls, failed ones included, they are the pairs of well known
    nodes and the pairs of nodes whose owners have both asked for the other
    and not taken it back. *)

From S2P Require Import Prelude BTreeSet Frame Authorization AuthSpec AuthProofs AuthInvariants AuthTheorems.
Import Auth AuthSpec AuthProofs AuthInvariants.

Module AuthNetwork.
Section network.
Context `{F : FrameSystem} `{FS : FrameStorage} `{!Config F}.
Implicit Types (n p a b : PeerId) (who : AccountId) (o : Origin) (s : Store) (c : Call).

(** The storage after a sequence of calls. *)
Definition run (calls : list (Origin * Call)) s : Store :=
  foldl (fun s oc => snd (dispatch oc.2 oc.1 s)) s calls.

Definition authorizes s a b : Prop := b ∈ get_authorized_nodes a s.
Definition linked s a b : Prop := authorizes s a b /\ authorizes s b a.

#[export] Instance linked_dec s a b : Decision (linked s a b).
Proof. unfold linked, authorizes. apply _. Defined.

#[export] Instance linked_symmetric s : Symmetric (linked s).
Proof. intros a b [??]. by split. Qed.

Definition accepted s (oc : Origin * Call) : Prop := fst (dispatch oc.2 oc.1 s) = Ok tt.

(** A call that asks for [p] as a connection of [n]. *)
Definition adds c n p : Prop :=
  match c with
  | Call_add_connections m cs => m = n /\ p ∈ cs /\ p <> n
  | _ => False
  end.

(** A call that takes it back, or takes all connections of [n] away. *)
Definition drops c n p : Prop :=
  match c with
  | Call_remove_connections m cs => m = n /\ p ∈ cs
  | Call_remove_claim m | Call_remove_well_known_node m => m = n
  | _ => False
  end.

#[export] Instance adds_dec c n p : Decision (adds c n p).
Proof. destruct c; simpl; apply _. Defined.
#[export] Instance drops_dec c n p : Decision (drops c n p).
Proof. destruct c; simpl; apply _. Defined.

Definition is_swap (oc : Origin * Call) : Prop :=
  match oc.2 with Call_swap_well_known_node r a => r <> a | _ => False end.

Context `{L : !FrameStorageLaws FS}.

(** The owner of [n] asked for [p], and since then no accepted call took it
    back. *)
Definition asked (s0 : Store) (calls : list (Origin * Call)) n p : Prop :=
  exists pre o c post who,
    calls = pre ++ (o, c) :: post /\ adds c n p /\
    ensure_signed o = Ok who /\ own (view (run pre s0)) !! n = Some who /\
    accepted (run pre s0) (o, c) /\
    forall post1 oc post2, post = post1 ++ oc :: post2 -> drops oc.2 n p ->
      ~ accepted (run (pre ++ (o, c) :: post1) s0) oc.

Lemma run_snoc calls oc s : run (calls ++ [oc]) s = snd (dispatch oc.2 oc.1 (run calls s)).
Proof. unfold run. by rewrite foldl_app. Qed.

Lemma run_wf calls s : wf s -> wf (run calls s).
Proof.
  intros Hs. induction calls as [|[o c] calls IH] using rev_ind; [done|]. rewrite run_snoc.
  destruct (dispatch_implements c o _ IH) as [_ Himp]. simpl.
  destruct (dispatch c o _) as [[]]; simpl; [by destruct Himp|by subst].
Qed.

(** What a transition does to one connection. *)
Lemma step_conns_of st st' o c n p :
  step st o c st' -> ~ is_swap (o, c) ->
  p ∈ conns_of st' n <-> adds c n p \/ p ∈ conns_of st n /\ ~ drops c n p.
Proof.
  destruct 1; unfold is_swap; simpl; intros Hsw; try (unfold conns_of; simpl; naive_solver).
  - rewrite conns_of_delete. case_decide; set_solver.
  - rewrite conns_of_delete. case_decide; set_solver.
  - rewrite conns_of_insert. case_decide; subst; set_solver.
  - rewrite conns_of_insert. case_decide; subst; set_solver.
Qed.

(** An accepted call for connections was signed by the owner. *)
Lemma accepted_adds s o c n p :
  wf s -> accepted s (o, c) -> adds c n p ->
  exists who, ensure_signed o = Ok who /\ own (view s) !! n = Some who.
Proof.
  intros Hs Hacc Hadd. unfold accepted in Hacc. simpl in Hacc.
  destruct (dispatch c o s) as [r s'] eqn:Hd. simpl in Hacc. subst r.
  apply dispatch_sound in Hd as (_ & Hst & _); [|done].
  destruct Hst; simpl in Hadd; try done. destruct Hadd as (-> & _ & _). eauto.
Qed.

Lemma dispatch_conns_of s o c n p :
  wf s -> ~ is_swap (o, c) ->
  p ∈ conns_of (view (snd (dispatch c o s))) n <->
    adds c n p /\ accepted s (o, c) \/
    p ∈ conns_of (view s) n /\ ~ (drops c n p /\ accepted s (o, c)).
Proof.
  intros Hs Hsw. unfold accepted. simpl. destruct (dispatch c o s) as [[[]|e] s'] eqn:Hd; simpl.
  - apply dispatch_sound in Hd as (_ & Hst & _); [|done].
    rewrite (step_conns_of _ _ _ _ _ _ Hst Hsw). naive_solver.
  - apply dispatch_noop in Hd as ->. naive_solver.
Qed.

(** One more call: either it is the request, or an earlier one stands. *)
Lemma asked_snoc s0 calls o c n p :
  wf s0 ->
  asked s0 (calls ++ [(o, c)]) n p <->
    adds c n p /\ accepted (run calls s0) (o, c) \/
    asked s0 calls n p /\ ~ (drops c n p /\ accepted (run calls s0) (o, c)).
Proof.
  intros Hs. split.
  - intros (pre & o' & c' & post & who & Hc & Hadd & Hsig & Hown & Hacc & Hkeep).
    destruct post as [|oc post _] using rev_ind.
    + apply app_inj_tail in Hc as [<- [= -> ->]]. by left.
    + rewrite app_comm_cons, app_assoc in Hc. apply app_inj_tail in Hc as [-> <-].
      right. split; [|intros [Hd Ha]; by apply (Hkeep post (o, c) [])].
      exists pre, o', c', post, who. split_and!; try done.
      intros post1 oc post2 -> Hd. apply (Hkeep post1 oc (post2 ++ [(o, c)])); [|done].
      by rewrite <-app_assoc.
  - intros [[Hadd Hacc]|[(pre & o' & c' & post & who & -> & Hadd & Hsig & Hown & Hacc & Hkeep) Hnd]].
    + destruct (accepted_adds _ _ _ _ _ (run_wf calls _ Hs) Hacc Hadd) as (who & ? & ?).
      exists calls, o, c, [], who. split_and!; try done. intros [] ?? [=].
    + exists pre, o', c', (post ++ [(o, c)]), who. split_and!; try done.
      * by rewrite <-app_assoc.
      * intros post1 oc post2 Heq Hd Ha. destruct post2 as [|oc2 post2 _] using rev_ind.
        -- apply app_inj_tail in Heq as [-> <-]. by apply Hnd.
        -- rewrite app_comm_cons, app_assoc in Heq. apply app_inj_tail in Heq as [-> _].
           by apply (Hkeep post1 oc post2).
Qed.

Lemma conns_of_asked s0 calls n p :
  wf s0 -> (forall m, conns_of (view s0) m = ∅) -> Forall (fun oc => ~ is_swap oc) calls ->
  p ∈ conns_of (view (run calls s0)) n <-> asked s0 calls n p.
Proof.
  intros Hs H0. induction calls as [|[o c] calls IH] using rev_ind; intros Hsw.
  - simpl. rewrite H0. split; [set_solver|]. intros (pre & ? & ? & post & ? & Hc & _).
    by apply app_cons_not_nil in Hc.
  - apply Forall_app in Hsw as [Hsw Hc]. apply (proj1 (Forall_singleton _ _)) in Hc.
    rewrite run_snoc, asked_snoc, <-(IH Hsw) by done.
    apply dispatch_conns_of; [by apply run_wf|exact Hc].
Qed.

Lemma linked_cases s a b :
  wf s -> a <> b ->
  linked s a b <->
    a ∈ wkn (view s) /\ b ∈ wkn (view s) \/
    b ∈ conns_of (view s) a /\ a ∈ conns_of (view s) b.
Proof. intros Hs Hne. unfold linked, authorizes. rewrite !elem_of_authorized by done. naive_solver. Qed.

Lemma genesis_conns nodes n : conns_of (view (genesis_build nodes)) n = ∅.
Proof. destruct (genesis_view nodes) as [_ ->]. unfold conns_of. simpl. by rewrite lookup_empty. Qed.

(** C6: the links of the network.  After any sequence of calls from the genesis
    without a swap of two nodes, two nodes authorize each other if and only if
    both are well known, or the owner of each has had the other added to its
    connections, by an accepted call he signed, and no accepted call has
    removed it since. *)
Theorem network_topology nodes calls a b :
  Forall (fun oc => ~ is_swap oc) calls -> a <> b ->
  let s := run calls (genesis_build nodes) in
  linked s a b <->
    a ∈ wkn (view s) /\ b ∈ wkn (view s) \/
    asked (genesis_build nodes) calls a b /\ asked (genesis_build nodes) calls b a.
Proof.
  intros Hsw Hne s. destruct (genesis_view nodes) as [Hwf _]. subst s.
  rewrite linked_cases by eauto using run_wf.
  by rewrite !conns_of_asked by eauto using genesis_conns.
Qed.

(** A node without an owner authorizes nobody and is linked to nobody. *)
Theorem unowned_isolated nodes s n :
  (Z.of_nat (length nodes) <= MaxWellKnownNodes)%Z -> reachable nodes s ->
  own (view s) !! n = None ->
  get_authorized_nodes n s = [] /\ forall p, ~ linked s n p.
Proof.
  intros Hlen Hr Hown. destruct (reachable_inv nodes s Hlen Hr) as [Hwf [Hw Hc _]].
  assert (Hno : forall p, p ∉ get_authorized_nodes n s).
  { intros p. rewrite elem_of_authorized by done. unfold conns_of. intros [Hp|[Hn _]].
    - destruct (conn (view s) !! n) eqn:E; [|set_solver].
      destruct (Hc n) as [? Hx]; [by eexists|]. congruence.
    - destruct (Hw n Hn) as [? Hx]. congruence. }
  split; [|by intros p [Hp _]; apply Hno in Hp].
  destruct (get_authorized_nodes n s) as [|p l]; [done|]. destruct (Hno p). left.
Qed.

(** A call of the normal class makes or breaks a link only if the owner of one
    of the two nodes signed it. *)
Theorem links_follow_owners c o s a b :
  wf s -> a <> b -> snd (call_weight c) = Normal ->
  ~ (linked (snd (dispatch c o s)) a b <-> linked s a b) ->
  exists owner, ensure_signed o = Ok owner /\
    (own (view s) !! a = Some owner \/ own (view s) !! b = Some owner).
Proof.
  intros Hs Hne Hc%normal_required Hch.
  destruct (dispatch_cases c o s Hs) as [Hst|Heq]; [|by rewrite Heq in Hch].
  destruct (decide (conn (view (snd (dispatch c o s))) !! a = conn (view s) !! a)) as [Ha|Ha];
    [|destruct (step_connections _ _ _ _ _ Hst Hc Ha) as (owner & ? & ?); eauto].
  destruct (decide (conn (view (snd (dispatch c o s))) !! b = conn (view s) !! b)) as [Hb|Hb];
    [|destruct (step_connections _ _ _ _ _ Hst Hc Hb) as (owner & ? & ?); eauto].
  destruct Hch. destruct (step_normal_signed _ _ _ _ Hst Hc) as (_ & _ & Hw).
  assert (wf (snd (dispatch c o s))) by (eapply (run_wf [(o, c)]); done).
  rewrite !linked_cases by done. unfold conns_of. by rewrite Ha, Hb, Hw.
Qed.

End network.

Section witnesses.
Import Mock AuthTheorems.Test.

(** Accounts 15 and 20 connect their nodes; account 15 had claimed its node. *)
Definition calls : list (Origin * Call) :=
  [(signed 15, Call_claim_node node15);
   (signed 15, Call_add_connections node15 [node20]);
   (signed 20, Call_add_connections node20 [node15]);
   (signed 15, Call_remove_connections node20 [node15])].

Lemma calls_swap_free : Forall (fun oc => ~ is_swap oc) calls.
Proof. repeat (constructor; [by intros []|]). constructor. Qed.

Lemma network_topology_witness :
  linked (run calls (genesis_build genesis_nodes)) node15 node20 /\
  asked (genesis_build genesis_nodes) calls node15 node20.
Proof.
  assert (Hl : linked (run calls (genesis_build genesis_nodes)) node15 node20)
    by (refine (bool_decide_eq_true_1 _ _); vm_compute; reflexivity).
  split; [exact Hl|].
  destruct (proj1 (network_topology genesis_nodes calls node15 node20 calls_swap_free
    ltac:(discriminate)) Hl) as [[Hw _]|[Ha _]]; [|exact Ha].
  exfalso. revert Hw. refine (bool_decide_eq_false_1 _ _). vm_compute. reflexivity.
Defined.

Lemma unowned_isolated_witness :
  get_authorized_nodes node15 genesis = [] /\ forall p, ~ linked genesis node15 p.
Proof.
  apply (unowned_isolated genesis_nodes); [vm_compute; discriminate|apply reachable_genesis|].
  vm_compute. reflexivity.
Defined.

End witnesses.
End AuthNetwork.
