(* ===== verification/Network.v ===== *)
(** * Nodes, their workers and the chain

    The off-chain worker of the authorization pallet runs on every node, at its
    own times, and hands the peers the chain authorizes to the node's network.
    This file runs the calls of the chain and the workers of all nodes in any
    order: what each node accepts is what the chain said when its worker last
    succeeded, and once the chain is quiet and the workers have run, the nodes
    that may connect are the ones the chain links. *)

From S2P Require Import Prelude BTreeSet Frame Authorization AuthSpec AuthProofs AuthInvariants AuthTheorems AuthNetwork.
Import Auth AuthSpec AuthProofs AuthInvariants AuthNetwork.

Module Network.
Section nodes.
Context `{F : FrameSystem} `{FS : FrameStorage} `{!Config F}.
(** The peer identifier in the network state of a node, and its decoder. *)
Context (encoded : PeerId -> bytes) (decode : bytes -> option bytes).
Context (decode_own : forall n, decode (encoded n) = Some n).
Implicit Types (n a b : PeerId) (o : Origin) (s : Store) (c : Call) (now : BlockNumber).

(** A call on chain, or a run of the worker of a node; [up] is whether the host
    gives the worker its network state. *)
Inductive Event : Type :=
| Ev_call (o : Origin) (c : Call)
| Ev_worker (n : PeerId) (now : BlockNumber) (up : bool).

(** The storage, and the peers each node was last given, with whether it accepts
    only them. *)
Record Net : Type := {
  chain : Store;
  peers : gmap PeerId (list PeerId * bool)
}.

Definition net_step (st : Net) (e : Event) : Net :=
  match e with
  | Ev_call o c => {| chain := snd (dispatch c o (chain st)); peers := peers st |}
  | Ev_worker n now up =>
      match offchain_worker (if up then Ok (encoded n) else Err tt) decode now (chain st) with
      | SetAuthorizedNodes nodes only => {| chain := chain st; peers := <[n := (nodes, only)]> (peers st) |}
      | _ => st
      end
  end.

Definition net_run (evs : list Event) (st : Net) : Net := foldl net_step st evs.

(** No node has been given peers at the start. *)
Definition net_start (s : Store) : Net := {| chain := s; peers := ∅ |}.

(** Whether [a] takes a connection with [b]: a node that was not told to accept
    only its peers takes any. *)
Definition accepts (st : Net) a b : Prop :=
  match peers st !! a with
  | Some (nodes, true) => b ∈ nodes
  | _ => True
  end.
Definition may_connect (st : Net) a b : Prop := accepts st a b /\ accepts st b a.

#[export] Instance accepts_dec st a b : Decision (accepts st a b).
Proof. unfold accepts. repeat case_match; apply _. Defined.

(** ** The history of a node *)

Definition is_run n (e : Event) : bool :=
  match e with Ev_worker m _ up => bool_decide (m = n) && up | _ => false end.

Definition calls_of (evs : list Event) : list (Origin * Call) :=
  omap (fun e => match e with Ev_call o c => Some (o, c) | _ => None end) evs.

(** The events before the last successful run of the worker of [n]. *)
Definition last_run n (evs : list Event) : option (list Event) :=
  snd (foldl (fun acc e => (acc.1 ++ [e], if is_run n e then Some acc.1 else acc.2)) ([], None) evs).

Lemma last_run_seen n evs seen r :
  fst (foldl (fun acc e => (acc.1 ++ [e], if is_run n e then Some acc.1 else acc.2)) (seen, r) evs) = seen ++ evs.
Proof.
  revert seen r. induction evs as [|e evs IH]; intros seen r; simpl; [by rewrite app_nil_r|].
  by rewrite IH, <-app_assoc.
Qed.

Lemma last_run_snoc n evs e :
  last_run n (evs ++ [e]) = if is_run n e then Some evs else last_run n evs.
Proof.
  unfold last_run. rewrite foldl_app. simpl.
  rewrite (last_run_seen n evs [] None). by destruct (is_run n e).
Qed.

Lemma net_run_snoc evs e st : net_run (evs ++ [e]) st = net_step (net_run evs st) e.
Proof. unfold net_run. by rewrite foldl_app. Qed.

(** Workers leave the chain alone. *)
Lemma chain_step st e :
  chain (net_step st e) = match e with Ev_call o c => snd (dispatch c o (chain st)) | _ => chain st end.
Proof. destruct e as [o c|n now up]; [done|]. simpl. by destruct (offchain_worker _ _ _ _). Qed.

Lemma chain_run evs st : chain (net_run evs st) = run (calls_of evs) (chain st).
Proof.
  induction evs as [|e evs IH] using rev_ind; [done|]. unfold calls_of.
  rewrite net_run_snoc, chain_step, omap_app, IH. destruct e; simpl; [|by rewrite app_nil_r].
  by rewrite run_snoc.
Qed.

(** What a node was last given. *)
Lemma peers_run evs s n :
  peers (net_run evs (net_start s)) !! n =
    (fun pre => (get_authorized_nodes n (run (calls_of pre) s), true)) <$> last_run n evs.
Proof.
  induction evs as [|e evs IH] using rev_ind; [done|]. rewrite net_run_snoc, last_run_snoc.
  destruct e as [o c|m now up]; [exact IH|]. simpl. destruct up; simpl; [|by rewrite andb_false_r].
  rewrite decode_own, andb_true_r. simpl. rewrite lookup_insert. case_decide as Hm; case_bool_decide; try done.
  subst. simpl. by rewrite chain_run.
Qed.

(** ** Quiet stretches *)

(** Every call of the events fails, from the storage [s] on. *)
Fixpoint quiet (evs : list Event) s : Prop :=
  match evs with
  | [] => True
  | Ev_call o c :: evs' => is_ok (fst (dispatch c o s)) = false /\ quiet evs' s
  | Ev_worker _ _ _ :: evs' => quiet evs' s
  end.

Lemma quiet_app evs1 evs2 s : quiet (evs1 ++ evs2) s -> quiet evs1 s.
Proof. induction evs1 as [|[o c|n now up] evs1 IH]; simpl; [done| |done]. intros [? ?]. split; auto. Qed.

Lemma quiet_run evs s : quiet evs s -> run (calls_of evs) s = s.
Proof.
  induction evs as [|[o c|n now up] evs IH]; simpl; [done| |exact IH]. intros [Hf Hq].
  unfold run in *. simpl. destruct (dispatch c o s) as [[u|e] s'] eqn:Hd; [done|].
  apply dispatch_noop in Hd as ->. simpl. by apply IH.
Qed.

(** The last run within the last part of the history. *)
Lemma last_run_app n evs1 evs2 :
  existsb (is_run n) evs2 = true ->
  exists pre post, evs2 = pre ++ post /\ last_run n (evs1 ++ evs2) = Some (evs1 ++ pre).
Proof.
  induction evs2 as [|e evs2 IH] using rev_ind; [done|]. rewrite existsb_app. simpl. rewrite orb_false_r.
  intros He. rewrite app_assoc, last_run_snoc. destruct (is_run n e) eqn:Hr.
  - exists evs2, [e]. split; [done|]. done.
  - rewrite orb_false_r in He. destruct (IH He) as (pre & post & -> & Hl).
    exists pre, (post ++ [e]). by rewrite <-app_assoc.
Qed.

Lemma calls_of_app evs1 evs2 : calls_of (evs1 ++ evs2) = calls_of evs1 ++ calls_of evs2.
Proof. apply omap_app. Qed.

Lemma accepts_settled s evs1 evs2 a b :
  quiet evs2 (run (calls_of evs1) s) -> existsb (is_run a) evs2 = true ->
  accepts (net_run (evs1 ++ evs2) (net_start s)) a b <->
  authorizes (run (calls_of (evs1 ++ evs2)) s) a b.
Proof.
  intros Hq Ha. unfold accepts. rewrite peers_run.
  destruct (last_run_app a evs1 evs2 Ha) as (pre & post & -> & ->). simpl.
  pose proof (quiet_app _ _ _ Hq) as Hpre. rewrite !calls_of_app. unfold run in *.
  rewrite !foldl_app in *. fold (run (calls_of pre)) in *.
  pose proof (quiet_run _ _ Hq) as H1. pose proof (quiet_run _ _ Hpre) as H2. unfold run in H1, H2.
  rewrite calls_of_app, foldl_app in H1. by rewrite H1, H2.
Qed.

(** C9: the network follows the chain.  In any order of calls and worker runs on
    any nodes, a node accepts exactly the peers the chain authorized when its
    worker last succeeded, and any peer before that.  And after a stretch in which
    every call fails and the workers of two nodes succeed at least once, the two
    may connect if and only if the chain links them. *)
Theorem network_follows_chain s :
  (forall evs a b,
     accepts (net_run evs (net_start s)) a b <->
     match last_run a evs with
     | Some pre => authorizes (run (calls_of pre) s) a b
     | None => True
     end) /\
  (forall evs1 evs2 a b,
     quiet evs2 (run (calls_of evs1) s) ->
     existsb (is_run a) evs2 = true -> existsb (is_run b) evs2 = true ->
     may_connect (net_run (evs1 ++ evs2) (net_start s)) a b <->
     linked (run (calls_of (evs1 ++ evs2)) s) a b).
Proof.
  split.
  - intros evs a b. unfold accepts. rewrite peers_run. by destruct (last_run a evs).
  - intros evs1 evs2 a b Hq Ha Hb. unfold may_connect, linked. by rewrite !accepts_settled.
Qed.

End nodes.

Section witness.
Import Mock AuthTheorems.Test.

(** Node 20 drops node 15; until its worker runs again the two stay connected. *)
Definition before : list Event :=
  [Ev_call (signed 15) (Call_claim_node node15); Ev_call (signed 15) (Call_add_connections node15 [node20]);
   Ev_call (signed 20) (Call_add_connections node20 [node15]);
   Ev_worker node15 (1%Z : BlockNumber (FrameSystem := mock_system)) true;
   Ev_worker node20 (1%Z : BlockNumber (FrameSystem := mock_system)) true;
   Ev_call (signed 20) (Call_remove_connections node20 [node15])].
Definition after_runs : list Event :=
  [Ev_worker node20 (2%Z : BlockNumber (FrameSystem := mock_system)) true; Ev_call (signed 15) (Call_remove_claim node20);
   Ev_worker node15 (3%Z : BlockNumber (FrameSystem := mock_system)) true].

Definition net : list Event -> Net -> Net := net_run (fun n => n) (fun l => Some l).

Lemma network_follows_chain_witness :
  may_connect (net before (net_start genesis)) node15 node20 /\
  ~ may_connect (net (before ++ after_runs) (net_start genesis)) node15 node20.
Proof.
  destruct (network_follows_chain (fun n => n) (fun l => Some l) (fun n => eq_refl) genesis) as [H1 H2]. split.
  - split; apply H1.
    + refine (bool_decide_eq_true_1 (node20 ∈ get_authorized_nodes node15 (run (calls_of (take 3 before)) genesis)) _).
      vm_compute. reflexivity.
    + refine (bool_decide_eq_true_1 (node15 ∈ get_authorized_nodes node20 (run (calls_of (take 4 before)) genesis)) _).
      vm_compute. reflexivity.
  - assert (Hq : quiet after_runs (run (calls_of before) genesis)) by (split; [vm_compute; reflexivity|exact I]).
    intros Hc. pose proof (proj1 (H2 before after_runs node15 node20 Hq eq_refl eq_refl) Hc) as Hl. clear Hc.
    revert Hl. refine (bool_decide_eq_false_1 _ _). vm_compute. reflexivity.
Defined.

End witness.
End Network.
