(* ===== verification/AuthCommute.v ===== *)
(** * The order of calls in a block

    Storages with the same contents are equivalent, and every call respects the
    equivalence ([dispatch_proper]).  Calls of the normal class read and write
    the entries of one node only, so calls about different nodes neither see nor
    disturb each other: a block author's order of them does not matter. *)

From S2P Require Import Prelude BTreeSet Frame Authorization AuthSpec AuthProofs AuthInvariants AuthTheorems AuthNetwork.
Import Auth AuthSpec AuthProofs AuthInvariants AuthNetwork.

Module AuthCommute.
Section commute.
Context `{F : FrameSystem} `{FS : FrameStorage} `{!Config F} `{L : !FrameStorageLaws FS}.
Implicit Types (n m : PeerId) (who : AccountId) (o : Origin) (s : Store) (c : Call) (st : State).

(** ** Storages with the same contents *)

Definition same s s' : Prop := wf s /\ wf s' /\ view s = view s'.

#[export] Instance same_per : RelationClasses.PER same.
Proof. split; [by intros s s' (?&?&?)|intros s1 s2 s3 (?&?&?) (?&?&?)]. split; [done|]. split; [done|congruence]. Qed.

Lemma dispatch_result c o s : wf s -> fst (dispatch c o s) = first_failure (guards (view s) o c).
Proof. intros Hs. apply (dispatch_implements c o s Hs). Qed.

Lemma dispatch_wf c o s : wf s -> wf (snd (dispatch c o s)).
Proof. intros Hs. by apply (run_wf [(o, c)]). Qed.

#[export] Instance dispatch_proper : Proper ((=) ==> (=) ==> same ==> prod_relation (=) same) dispatch.
Proof.
  intros c ? <- o ? <- s s' (Hs & Hs' & Hv).
  assert (Hr : fst (dispatch c o s) = fst (dispatch c o s')) by by rewrite !dispatch_result, Hv.
  split; [exact Hr|]. split; [by apply dispatch_wf|]. split; [by apply dispatch_wf|].
  destruct (dispatch c o s) as [[[]|e] t] eqn:Hd, (dispatch c o s') as [[[]|e'] t'] eqn:Hd'; simpl in *; try done.
  - apply dispatch_sound in Hd as (_ & Hst & _); [|done]. apply dispatch_sound in Hd' as (_ & Hst' & _); [|done].
    rewrite Hv in Hst. by eapply step_det.
  - apply dispatch_noop in Hd as ->. by apply dispatch_noop in Hd' as ->.
Qed.

#[export] Instance authorized_proper : Proper ((=) ==> same ==> (=)) get_authorized_nodes.
Proof.
  intros n ? <- s s' (Hs & Hs' & Hv). apply BTreeSet.wf_ext; [by apply authorized_wf..|].
  intros p. by rewrite !elem_of_authorized, Hv by done.
Qed.

(** ** One node at a time *)

(** The node a call of the normal class is about. *)
Definition target c : option PeerId :=
  match c with
  | Call_claim_node n | Call_remove_claim n | Call_transfer_node n _
  | Call_add_connections n _ | Call_remove_connections n _ => Some n
  | _ => None
  end.

Definition slice st n : option AccountId * option (gset PeerId) := (own st !! n, conn st !! n).

(** Two states agree as far as a call about [n] can see. *)
Definition agree n st st' : Prop := wkn st = wkn st' /\ slice st n = slice st' n.

Lemma slice_ext st st' : wkn st = wkn st' -> (forall n, slice st n = slice st' n) -> st = st'.
Proof.
  intros Hw Hs. destruct st as [w ow co], st' as [w' ow' co']; simpl in *. subst w'.
  f_equal; apply map_eq; intros n; specialize (Hs n); unfold slice in Hs; by simplify_eq/=.
Qed.

Lemma step_frame st st' o c n :
  step st o c st' -> target c = Some n ->
  wkn st' = wkn st /\ forall m, m <> n -> slice st' m = slice st m.
Proof.
  unfold slice. intros Hst Ht. destruct Hst; simplify_eq/=; (split; [done|]); intros m Hm;
    by rewrite ?lookup_insert_ne, ?lookup_delete_ne by done.
Qed.

Lemma step_slice st1 st2 st1' st2' o c n :
  target c = Some n -> agree n st1 st2 -> step st1 o c st1' -> step st2 o c st2' -> slice st1' n = slice st2' n.
Proof.
  unfold agree, slice. intros Ht [Hw Hsl] H1 H2. injection Hsl as Hown Hconn.
  destruct H1; simplify_eq/=; inversion H2; subst; simpl; unfold conns_of, signed_by in *;
    rewrite ?lookup_insert_eq, ?lookup_delete_eq, ?Hown, ?Hconn; congruence.
Qed.

Lemma guards_agree st1 st2 o c n : target c = Some n -> agree n st1 st2 -> guards st1 o c = guards st2 o c.
Proof.
  unfold agree, slice. intros Ht [Hw Hsl]. injection Hsl as Hown _.
  destruct c; simplify_eq/=; unfold owner_guards; by rewrite ?Hw, ?Hown.
Qed.

Lemma dispatch_frame c o s n :
  wf s -> target c = Some n ->
  wkn (view (snd (dispatch c o s))) = wkn (view s) /\
  forall m, m <> n -> slice (view (snd (dispatch c o s))) m = slice (view s) m.
Proof. intros Hs Ht. destruct (dispatch_cases c o s Hs) as [Hst| ->]; [by eapply step_frame|done]. Qed.

Lemma dispatch_agree c o s1 s2 n :
  wf s1 -> wf s2 -> target c = Some n -> agree n (view s1) (view s2) ->
  fst (dispatch c o s1) = fst (dispatch c o s2) /\
  slice (view (snd (dispatch c o s1))) n = slice (view (snd (dispatch c o s2))) n.
Proof.
  intros H1 H2 Ht Ha. assert (Hr : fst (dispatch c o s1) = fst (dispatch c o s2))
    by (rewrite !dispatch_result by done; by erewrite guards_agree).
  split; [exact Hr|].
  destruct (dispatch c o s1) as [[[]|e] t] eqn:Hd1, (dispatch c o s2) as [[[]|e'] t'] eqn:Hd2; simpl in *; try done.
  - apply dispatch_sound in Hd1 as (_ & Hst1 & _); [|done]. apply dispatch_sound in Hd2 as (_ & Hst2 & _); [|done].
    by eapply step_slice.
  - apply dispatch_noop in Hd1 as ->. apply dispatch_noop in Hd2 as ->. apply Ha.
Qed.

(** ** Independent calls *)

(** Calls of the normal class, about pairwise different nodes. *)
Definition targets (calls : list (Origin * Call)) : list (option PeerId) := map (fun oc => target oc.2) calls.
Definition independent (calls : list (Origin * Call)) : Prop :=
  Forall (fun oc => is_Some (target oc.2)) calls /\ NoDup (targets calls).

Lemma elem_of_targets o c calls : (o, c) ∈ calls -> target c ∈ targets calls.
Proof. intros Hin. apply list_elem_of_fmap. by exists (o, c). Qed.

Lemma independent_cons o c calls :
  independent ((o, c) :: calls) <-> is_Some (target c) /\ (target c ∉ targets calls) /\ independent calls.
Proof. unfold independent. rewrite Forall_cons. cbn [targets map snd]. rewrite NoDup_cons. naive_solver. Qed.

Lemma independent_perm calls calls' : calls ≡ₚ calls' -> independent calls -> independent calls'.
Proof.
  intros Hp [Hn Hd]. split; [by rewrite <-Hp|]. unfold targets. by rewrite <-Hp.
Qed.

(** What the calls leave of a node they are not about. *)
Lemma run_frame calls s n :
  wf s -> Forall (fun oc => is_Some (target oc.2)) calls -> Some n ∉ targets calls ->
  agree n (view (run calls s)) (view s).
Proof.
  intros Hs Hn. revert s Hs. induction Hn as [|[o c] calls [m Hm] _ IH]; intros s Hs; [done|].
  cbn [targets map fst snd] in *. rewrite not_elem_of_cons. intros [Hne Hnot].
  destruct (dispatch_frame c o s m Hs Hm) as [Hw Hsl].
  destruct (IH (snd (dispatch c o s)) (dispatch_wf c o s Hs) Hnot) as [Hw' Hsl'].
  split; [exact (eq_trans Hw' Hw)|]. etransitivity; [exact Hsl'|]. apply Hsl. congruence.
Qed.

(** ... and of one they are about: what its call alone leaves. *)
Lemma run_slice calls s o c n :
  wf s -> independent calls -> (o, c) ∈ calls -> target c = Some n ->
  agree n (view (run calls s)) (view (snd (dispatch c o s))).
Proof.
  intros Hs [Hn Hd]. revert s Hs. induction Hn as [|[o' c'] calls [m Hm] Hn IH]; intros s Hs Hin Ht;
    [by apply not_elem_of_nil in Hin|].
  cbn [targets map snd] in Hd, Hm. apply NoDup_cons in Hd as [Hnot Hd].
  apply elem_of_cons in Hin as [[= <- <-]|Hin].
  - change (run ((o, c) :: calls) s) with (run calls (snd (dispatch c o s))).
    apply run_frame; [by apply dispatch_wf|done|]. by rewrite <-Ht.
  - change (run ((o', c') :: calls) s) with (run calls (snd (dispatch c' o' s))).
    assert (Hne : n <> m).
    { intros ->. apply Hnot. change (target c' ∈ targets calls); rewrite Hm, <-Ht. by apply (elem_of_targets o). }
    destruct (dispatch_frame c' o' s m Hs Hm) as [Hw Hsl].
    destruct (IH Hd _ (dispatch_wf c' o' s Hs) Hin Ht) as [Hw' Hsl'].
    destruct (dispatch_frame c o s n Hs Ht) as [Hwc _].
    destruct (dispatch_frame c o _ n (dispatch_wf c' o' s Hs) Ht) as [Hwc' _].
    destruct (dispatch_agree c o (snd (dispatch c' o' s)) s n) as [_ Hag];
      [by apply dispatch_wf|done|done|split; [done|by apply Hsl]|].
    split; congruence.
Qed.

Lemma run_wkn calls s :
  wf s -> Forall (fun oc => is_Some (target oc.2)) calls -> wkn (view (run calls s)) = wkn (view s).
Proof.
  intros Hs Hn. revert s Hs. induction Hn as [|[o c] calls [m Hm] _ IH]; intros s Hs; [done|].
  change (run ((o, c) :: calls) s) with (run calls (snd (dispatch c o s))).
  rewrite (IH _ (dispatch_wf c o s Hs)). by apply (dispatch_frame c o s m).
Qed.

(** ** Results and events *)

(** What each call of a block answers, where it runs. *)
Fixpoint results (calls : list (Origin * Call)) s : list (result unit (DispatchError Error)) :=
  match calls with
  | [] => []
  | (o, c) :: calls' => fst (dispatch c o s) :: results calls' (snd (dispatch c o s))
  end.

(** What a call answers and deposits when it runs alone. *)
Definition answer s (oc : Origin * Call) : result unit (DispatchError Error) := fst (dispatch oc.2 oc.1 s).
Definition deposits s (oc : Origin * Call) : list Auth.Event :=
  if is_ok (answer s oc) then emitted oc.1 oc.2 else [].

Lemma answer_stable calls o c s :
  wf s -> independent ((o, c) :: calls) -> Forall (fun oc => answer (snd (dispatch c o s)) oc = answer s oc) calls.
Proof.
  intros Hs [[m Hm] [Hnot [Hn _]]]%independent_cons. apply Forall_forall. intros [o' c'] Hin.
  pose proof (proj1 (Forall_forall _ _) Hn _ Hin) as [n Ht]. cbn [snd] in Ht.
  assert (Hne : n <> m) by (intros ->; apply Hnot; rewrite Hm, <-Ht; by apply (elem_of_targets o')).
  destruct (dispatch_frame c o s m Hs Hm) as [Hw Hsl].
  apply (dispatch_agree c' o' _ s n); [by apply dispatch_wf|done|done|]. split; [done|by apply Hsl].
Qed.

Lemma dispatch_deposits c o s : wf s -> Events (snd (dispatch c o s)) = Events s ++ deposits s (o, c).
Proof.
  intros Hs. unfold deposits, answer. cbn [fst snd]. destruct (dispatch c o s) as [[[]|e] s'] eqn:Hd; cbn [fst snd is_ok].
  - by apply dispatch_sound in Hd as (_ & _ & ->).
  - apply dispatch_noop in Hd as ->. by rewrite app_nil_r.
Qed.

Lemma run_independent calls s :
  wf s -> independent calls ->
  results calls s = map (answer s) calls /\
  Events (run calls s) = Events s ++ concat (map (deposits s) calls).
Proof.
  revert s. induction calls as [|[o c] calls IH]; intros s Hs Hi; [by rewrite app_nil_r|].
  pose proof (answer_stable _ _ _ _ Hs Hi) as Hst. apply independent_cons in Hi as (_ & _ & Hi).
  destruct (IH _ (dispatch_wf c o s Hs) Hi) as [Hr He].
  change (run ((o, c) :: calls) s) with (run calls (snd (dispatch c o s))). cbn [results map concat].
  rewrite Hr, He, dispatch_deposits, <-app_assoc by done. split.
  - f_equal. by apply map_ext_Forall.
  - do 3 f_equal. apply map_ext_Forall. eapply Forall_impl; [exact Hst|]. intros oc Hoc. unfold deposits.
    by rewrite Hoc.
Qed.

Lemma run_perm calls calls' s :
  wf s -> independent calls -> calls ≡ₚ calls' -> view (run calls s) = view (run calls' s).
Proof.
  intros Hs Hi Hp. pose proof (independent_perm _ _ Hp Hi) as Hi'.
  apply slice_ext; [by rewrite !run_wkn by first [done|apply Hi|apply Hi']|]. intros n.
  destruct (decide (Some n ∈ targets calls)) as [Hin|Hout].
  - apply list_elem_of_fmap in Hin as ([o c] & Ht & Hin). cbn [snd] in Ht.
    destruct (run_slice calls s o c n) as [_ ->]; [done..|].
    destruct (run_slice calls' s o c n) as [_ ->]; [done|done|by rewrite <-Hp|done|done].
  - destruct (run_frame calls s n Hs (proj1 Hi) Hout) as [_ ->].
    destruct (run_frame calls' s n Hs (proj1 Hi')) as [_ ->]; [|done]. unfold targets. by rewrite <-Hp.
Qed.

(** C11: independent calls commute.  In a block of calls of the normal class
    about pairwise different nodes, every call answers what it would answer alone
    at the start of the block, with its error if it fails; and any reordering of
    the block leads to the same well-known nodes, owners and connections, hence
    to the same peers for every node, with the same events in the new order. *)
Theorem independent_calls_commute calls calls' s :
  wf s -> independent calls -> calls ≡ₚ calls' ->
  results calls s = map (answer s) calls /\
  results calls' s = map (answer s) calls' /\
  view (run calls s) = view (run calls' s) /\
  (forall n, get_authorized_nodes n (run calls s) = get_authorized_nodes n (run calls' s)) /\
  Events (run calls s) ≡ₚ Events (run calls' s).
Proof.
  intros Hs Hi Hp. pose proof (run_perm _ _ _ Hs Hi Hp) as Hv.
  destruct (run_independent _ _ Hs Hi) as [Hr He].
  destruct (run_independent _ _ Hs (independent_perm _ _ Hp Hi)) as [Hr' He'].
  split; [exact Hr|]. split; [exact Hr'|]. split; [exact Hv|]. split.
  - intros n. apply authorized_proper; [done|]. split; [by apply run_wf|]. by split; [apply run_wf|].
  - rewrite He, He', Hp. done.
Qed.

End commute.

Section witness.
Import Mock AuthTheorems.Test.

(** A claim, a connection and a call that its caller may not make. *)
Definition block : list (Origin * Call) :=
  [(signed 15, Call_claim_node node15); (signed 20, Call_add_connections node20 [node15; node20]);
   (signed 15, Call_remove_claim node30)].

Lemma independent_calls_commute_witness :
  results block genesis = [Ok tt; Ok tt; Err (DispatchModule NotOwner)] /\
  view (run block genesis) = view (run (rev block) genesis) /\
  view (run block genesis) <> view genesis.
Proof.
  destruct (independent_calls_commute block (rev block) genesis) as (Hr & _ & Hv & _ & _).
  - exact genesis_wf.
  - split; [repeat constructor; eexists; reflexivity|]. by apply (bool_decide_unpack _); vm_compute.
  - by apply Permutation_rev.
  - split; [rewrite Hr; vm_compute; reflexivity|]. split; [exact Hv|].
    intros H. apply (f_equal (fun st => own st !! node15)) in H. vm_compute in H. discriminate H.
Defined.

End witness.
End AuthCommute.
