(* ===== verification/Template.v ===== *)
(** * The proof-of-existence pallet (pallets/template/src/lib.rs)

    Claims on byte strings: who claimed a proof first, and in which block.  The
    model follows the two dispatchables; the theorems give their results on
    every branch and the safety of a claim over any run of the pallet. *)

From S2P Require Import Prelude Frame.
Local Open Scope supra_scope.

Module Poe.

Variant Error := ProofAlreadyClaimed | NoSuchProof | NotProofOwner.

#[export] Instance Error_eq_dec : EqDecision Error.
Proof. solve_decision. Defined.

Section pallet.
Context `{F : FrameSystem} `{FS : FrameStorage}.
Implicit Types (proof : bytes) (who sender : AccountId) (now : BlockNumber) (origin : Origin).

Inductive Event : Type :=
| ClaimCreated (who : AccountId) (claim : bytes)
| ClaimRevoked (who : AccountId) (claim : bytes).

(** The storage map [Proofs] and the events deposited so far (oldest first). *)
Record Store : Type := {
  Proofs : StorageMap bytes (AccountId * BlockNumber);
  Events : list Event
}.

Definition D (A : Type) : Type := M Store (DispatchError Error) A.

Definition Proofs_contains_key proof : D bool := gets (fun s => sm_contains_key (Proofs s) proof).
Definition Proofs_get proof : D (AccountId * BlockNumber) :=
  gets (fun s => sm_get (Proofs s) proof).
Definition Proofs_insert proof (v : AccountId * BlockNumber) : D unit :=
  modify (fun s => {| Proofs := sm_insert proof v (Proofs s); Events := Events s |}).
Definition Proofs_remove proof : D unit :=
  modify (fun s => {| Proofs := sm_remove proof (Proofs s); Events := Events s |}).
Definition deposit_event (e : Event) : D unit :=
  modify (fun s => {| Proofs := Proofs s; Events := Events s ++ [e] |}).

(** [now] is what [frame_system::Module::<T>::block_number()] returns. *)
Definition create_claim now origin proof : D unit :=
  let! sender := try_origin (ensure_signed origin) in
  let! claimed := Proofs_contains_key proof in
  run! ensure_module (negb claimed) ProofAlreadyClaimed in
  let current_block := now in
  run! Proofs_insert proof (sender, current_block) in
  deposit_event (ClaimCreated sender proof).

Definition revoke_claim origin proof : D unit :=
  let! sender := try_origin (ensure_signed origin) in
  let! claimed := Proofs_contains_key proof in
  run! ensure_module claimed NoSuchProof in
  let! entry := Proofs_get proof in
  let owner := fst entry in
  run! ensure_module (bool_decide (sender = owner)) NotProofOwner in
  run! Proofs_remove proof in
  deposit_event (ClaimRevoked sender proof).

Inductive Call : Type :=
| Call_create_claim (proof : bytes)
| Call_revoke_claim (proof : bytes).

Definition dispatch now (c : Call) origin : D unit :=
  match c with
  | Call_create_claim proof => create_claim now origin proof
  | Call_revoke_claim proof => revoke_claim origin proof
  end.

(** The [#[pallet::weight(..)]] attributes. *)
Definition call_weight (c : Call) : Z :=
  match c with
  | Call_create_claim _ => 1_000%Z
  | Call_revoke_claim _ => 10_000%Z
  end.

(** The pallet has no genesis configuration: its storage starts empty. *)
Definition absent_store : Store := {| Proofs := sm_absent; Events := [] |}.

(** ** What the dispatchables do to the map of claims *)

Context `{L : !FrameStorageLaws FS}.

Definition view (s : Store) : gmap bytes (AccountId * BlockNumber) := sm_view (Proofs s).

(** The result of a call: the error, or the claims and the event after it. *)
Definition outcome now (c : Call) origin (m : gmap bytes (AccountId * BlockNumber)) :
    result (gmap bytes (AccountId * BlockNumber) * Event) (DispatchError Error) :=
  match ensure_signed origin, c with
  | Err _, _ => Err DispatchBadOrigin
  | Ok who, Call_create_claim p =>
      match m !! p with
      | Some _ => Err (DispatchModule ProofAlreadyClaimed)
      | None => Ok (<[p := (who, now)]> m, ClaimCreated who p)
      end
  | Ok who, Call_revoke_claim p =>
      match m !! p with
      | None => Err (DispatchModule NoSuchProof)
      | Some (owner, _) =>
          if bool_decide (who = owner) then Ok (delete p m, ClaimRevoked who p)
          else Err (DispatchModule NotProofOwner)
      end
  end.

Lemma dispatch_outcome now c origin s :
  match outcome now c origin (view s) with
  | Err e => dispatch now c origin s = (Err e, s)
  | Ok (m', e) =>
      exists s', dispatch now c origin s = (Ok tt, s') /\ view s' = m' /\ Events s' = Events s ++ [e]
  end.
Proof.
  unfold outcome, view. destruct c as [p|p]; simpl; unfold create_claim, revoke_claim,
    Proofs_contains_key, Proofs_get; rewrite bind_try_origin;
    destruct (ensure_signed origin) as [who|]; try done;
    rewrite bind_gets, bind_ensure_module, sm_contains_key_view, bool_decide_is_Some;
    destruct (sm_view (Proofs s) !! p) as [[owner b]|] eqn:Hp; simpl; try done.
  - eexists. split; [reflexivity|]. simpl. by rewrite sm_insert_view.
  - rewrite bind_gets, bind_ensure_module, sm_get_view, Hp. simpl. case_bool_decide; [|done].
    eexists. split; [reflexivity|]. simpl. by rewrite sm_remove_view.
Qed.

(** The claims after a call, whether it succeeds or fails. *)
Lemma dispatch_view now c origin s :
  view (snd (dispatch now c origin s)) =
    match outcome now c origin (view s) with Ok (m', _) => m' | Err _ => view s end.
Proof.
  pose proof (dispatch_outcome now c origin s) as Ho.
  destruct (outcome _ _ _ _) as [[m' e]|e]; [by destruct Ho as (s' & -> & ? & _) | by rewrite Ho].
Qed.

(** A claim leaves the map only by the hand of its owner, and never changes. *)
Lemma outcome_keeps now c origin m m' e p who b :
  outcome now c origin m = Ok (m', e) -> m !! p = Some (who, b) ->
  m' !! p = Some (who, b) \/
  m' !! p = None /\ c = Call_revoke_claim p /\ ensure_signed origin = Ok who.
Proof.
  unfold outcome. destruct (ensure_signed origin) as [w|]; [|by destruct c].
  destruct c as [q|q]; destruct (m !! q) as [[o' b']|] eqn:Hq; try done.
  - intros [= <- _] Hp. left. rewrite lookup_insert_ne; [done|]. intros ->. by rewrite Hq in Hp.
  - case_bool_decide; [|done]. intros [= <- _] Hp. destruct (decide (q = p)) as [->|Hne].
    + right. rewrite lookup_delete_eq. by simplify_eq.
    + left. by rewrite lookup_delete_ne.
Qed.

(** ** Theorems *)

(** C17: every call of the proof-of-existence pallet behaves as [outcome]
    says: it fails with that error and changes nothing, or it succeeds with
    those claims and deposits exactly that event. *)
Theorem poe_functional now c origin s :
  match outcome now c origin (view s) with
  | Err e => dispatch now c origin s = (Err e, s)
  | Ok (m', e) =>
      exists s', dispatch now c origin s = (Ok tt, s') /\ view s' = m' /\ Events s' = Events s ++ [e]
  end.
Proof. apply dispatch_outcome. Qed.

(** A run of the pallet: a sequence of calls, each in its block and from its
    origin, failed calls included. *)
Fixpoint run (calls : list (BlockNumber * Origin * Call)) (s : Store) : Store :=
  match calls with
  | [] => s
  | (now, origin, c) :: calls' => run calls' (snd (dispatch now c origin s))
  end.

(** C18: a claim is safe for as long as its owner keeps it.  After any run in
    which the owner signs no revocation of the proof, the claim is still
    there, with its owner and block unchanged. *)
Theorem claim_persists calls s p who b :
  view s !! p = Some (who, b) ->
  Forall (fun '(_, origin, c) => ~ (c = Call_revoke_claim p /\ ensure_signed origin = Ok who)) calls ->
  view (run calls s) !! p = Some (who, b).
Proof.
  revert s. induction calls as [|[[now origin] c] calls IH]; intros s Hp Hcalls; [done|].
  apply Forall_cons in Hcalls as [Hc Hcalls]. simpl. apply IH; [|done].
  rewrite dispatch_view. destruct (outcome now c origin (view s)) as [[m' e]|] eqn:Ho; [|done].
  destruct (outcome_keeps _ _ _ _ _ _ _ _ _ Ho Hp) as [|(_ & Hrevoke)]; [done|by destruct Hc].
Qed.

(** A claim can be undone.  Its creator can revoke it, which restores the
    claims from before it. *)
Theorem claim_revoke_roundtrip now origin p s s1 :
  create_claim now origin p s = (Ok tt, s1) ->
  exists s2, revoke_claim origin p s1 = (Ok tt, s2) /\ view s2 = view s.
Proof.
  intros Hc. pose proof (dispatch_outcome now (Call_create_claim p) origin s) as Ho.
  unfold outcome in Ho. simpl in Ho. rewrite Hc in Ho.
  destruct (ensure_signed origin) as [who|] eqn:Hwho; [|done].
  destruct (view s !! p) eqn:Hp; [done|]. destruct Ho as (? & [= <-] & Hv & _).
  pose proof (dispatch_outcome now (Call_revoke_claim p) origin s1) as Ho. unfold outcome in Ho.
  rewrite Hwho, Hv, lookup_insert_eq, bool_decide_true in Ho by done.
  destruct Ho as (s2 & ? & Hv2 & _). exists s2. split; [done|].
  rewrite Hv2. by apply delete_insert_id.
Qed.

End pallet.

(** ** Witnesses *)

Section witnesses.
Import Mock.

Definition acct (who : Z) : AccountId (FrameSystem := mock_system) := who.
Definition signed (who : Z) : Origin (FrameSystem := mock_system) := Signed who.
Definition block (n : Z) : BlockNumber (FrameSystem := mock_system) := n.

Definition claimed : Store := snd (create_claim (block 5) (signed 1) [x2a] absent_store).

Lemma poe_functional_witness :
  exists s', dispatch (block 9) (Call_create_claim [x2b]) (signed 2) claimed = (Ok tt, s') /\
    view s' = <[[x2b] := (acct 2, block 9)]> (view claimed) /\
    Events s' = Events claimed ++ [ClaimCreated (acct 2) [x2b]].
Proof. exact (poe_functional (block 9) (Call_create_claim [x2b]) (signed 2) claimed). Defined.

Lemma claim_persists_witness :
  view (run [(block 6, signed 2, Call_revoke_claim [x2a]);
             (block 7, signed 2, Call_create_claim [x2a])] claimed) !! [x2a]
    = Some (acct 1, block 5).
Proof.
  apply claim_persists; [reflexivity|].
  repeat constructor; intros [Hc Hs]; first [discriminate Hc | discriminate Hs].
Defined.

Lemma claim_revoke_roundtrip_witness :
  exists s2, revoke_claim (signed 1) [x2a] claimed = (Ok tt, s2) /\ view s2 = view absent_store.
Proof. apply (claim_revoke_roundtrip (block 5)). reflexivity. Defined.

End witnesses.
End Poe.
