(* ===== verification/Str.v ===== *)
(** * Strings and numbers of the Rust standard library

    What client/src/lib.rs uses of it: UTF-8 validation ([str::from_utf8]),
    lower case hexadecimal formatting ([format!("{:x}", _)]), [str::repeat],
    and [parse::<f32>] followed by the saturating cast to [u32].  A [&str] or
    [String] is the list of its bytes. *)

From S2P Require Import Prelude.
From Stdlib Require Import Strings.String Strings.Byte.

Module Str.

(** A string literal of the source. *)
Definition lit (s : string) : bytes := list_byte_of_string s.

Definition byte_val (b : byte) : Z := Z.of_N (to_N b).
Definition in_range (lo hi : Z) (b : byte) : bool := ((lo <=? byte_val b) && (byte_val b <=? hi))%Z.

(** ** [str::from_utf8] *)

(** One scalar value off the front: well-formed sequences of one to four bytes,
    no overlong forms, no surrogates, nothing above 10FFFF. *)
Definition utf8_next (l : bytes) : option bytes :=
  match l with
  | [] => None
  | b :: r1 =>
      if in_range 0 127 b then Some r1 else
      match r1 with
      | [] => None
      | c1 :: r2 =>
          if in_range 194 223 b && in_range 128 191 c1 then Some r2 else
          match r2 with
          | [] => None
          | c2 :: r3 =>
              if ((in_range 224 224 b && in_range 160 191 c1)
                  || (in_range 225 236 b && in_range 128 191 c1)
                  || (in_range 237 237 b && in_range 128 159 c1)
                  || (in_range 238 239 b && in_range 128 191 c1)) && in_range 128 191 c2
              then Some r3 else
              match r3 with
              | [] => None
              | c3 :: r4 =>
                  if ((in_range 240 240 b && in_range 144 191 c1)
                      || (in_range 241 243 b && in_range 128 191 c1)
                      || (in_range 244 244 b && in_range 128 143 c1))
                     && in_range 128 191 c2 && in_range 128 191 c3
                  then Some r4 else None
              end
          end
      end
  end.

Fixpoint utf8_scan (fuel : nat) (l : bytes) : bool :=
  match l, fuel with
  | [], _ => true
  | _, O => false
  | _, S fuel' => match utf8_next l with Some r => utf8_scan fuel' r | None => false end
  end.

Definition utf8_valid (l : bytes) : bool := utf8_scan (List.length l) l.

(** [str::from_utf8(v)]: the string, or an error. *)
Definition from_utf8 (v : bytes) : option bytes := if utf8_valid v then Some v else None.

(** [str::from_utf8(v).unwrap_or("error")] *)
Definition from_utf8_or_error (v : bytes) : bytes := default (lit "error") (from_utf8 v).

(** A scalar value is one to four bytes, so the length is enough fuel. *)
Lemma utf8_next_shorter l r : utf8_next l = Some r -> (List.length r < List.length l)%nat.
Proof.
  unfold utf8_next. intros Hl. repeat case_match; simplify_eq/=; lia.
Qed.

Lemma utf8_scan_fuel n l : (List.length l <= n)%nat -> utf8_scan n l = utf8_valid l.
Proof.
  unfold utf8_valid. revert l.
  assert (Hgen : forall k n l, (List.length l <= k)%nat -> (List.length l <= n)%nat ->
                   utf8_scan n l = utf8_scan k l).
  { induction k as [|k IH]; intros m l Hk Hm.
    - destruct l; [by destruct m|simpl in *; lia].
    - destruct l as [|b l]; [by destruct m|]. destruct m as [|m]; [simpl in *; lia|].
      cbn [utf8_scan]. destruct (utf8_next (b :: l)) as [r|] eqn:Hr; [|done].
      apply utf8_next_shorter in Hr. simpl in *. apply IH; lia. }
  intros l Hn. apply Hgen; lia.
Qed.

Lemma utf8_valid_next l r : utf8_next l = Some r -> utf8_valid l = utf8_valid r.
Proof.
  intros Hl. pose proof (utf8_next_shorter l r Hl) as Hlt. unfold utf8_valid at 1.
  destruct l as [|b l]; [done|]. cbn [utf8_scan List.length]. rewrite Hl.
  apply utf8_scan_fuel. simpl in Hlt. lia.
Qed.

(** A well-formed first scalar value does not depend on what follows. *)
Lemma utf8_next_app l r t : utf8_next l = Some r -> utf8_next (l ++ t) = Some (r ++ t).
Proof.
  unfold utf8_next.
  do 4 (destruct l as [|? l]; [done|]; simpl app; cbv iota; case_match; [by intros [= ->]|]).
  done.
Qed.

Lemma utf8_valid_app l t : utf8_valid l = true -> utf8_valid (l ++ t) = utf8_valid t.
Proof.
  induction l as [l IH] using (induction_ltof1 _ (@List.length byte)). unfold ltof in IH.
  destruct l as [|b l]; [done|]. intros Hl.
  destruct (utf8_next (b :: l)) as [r|] eqn:Hr.
  - rewrite (utf8_valid_next _ _ Hr) in Hl. rewrite <-(IH r (utf8_next_shorter _ _ Hr) Hl).
    apply utf8_valid_next. by apply utf8_next_app.
  - unfold utf8_valid in Hl. cbn [utf8_scan List.length] in Hl. by rewrite Hr in Hl.
Qed.

Lemma utf8_valid_ascii l : forallb (in_range 0 127) l = true -> utf8_valid l = true.
Proof.
  induction l as [|b l IH]; [done|]. simpl. intros [Hb Hl]%andb_true_iff.
  rewrite (utf8_valid_next (b :: l) l); [auto|]. unfold utf8_next. by rewrite Hb.
Qed.

Lemma from_utf8_Some v w : from_utf8 v = Some w <-> w = v /\ utf8_valid v = true.
Proof. unfold from_utf8. destruct (utf8_valid v); naive_solver. Qed.

Lemma from_utf8_or_error_valid v : utf8_valid (from_utf8_or_error v) = true.
Proof. unfold from_utf8_or_error, from_utf8. by destruct (utf8_valid v) eqn:Hv. Qed.

End Str.
