(* ===== verification/Num.v ===== *)
(** * Numbers in text: hexadecimal and single precision floats

    [format!("{:x}", n)] for a [u32], [parse::<f32>] (the documented grammar,
    rounded to the nearest single, ties to even) and the cast [as u32], which
    truncates and saturates.  The lemmas bound what the two conversions of a
    decimal price lose. *)

From S2P Require Import Prelude Str.
From Stdlib Require Import Strings.String Strings.Byte.
Import Str.
Local Open Scope Z_scope.

Module Num.

Definition u32_max : Z := 2 ^ 32 - 1.

(** ** Hexadecimal *)

Definition byte_of (z : Z) : byte := default x00 (of_N (Z.to_N z)).

Definition hex_digit (d : Z) : byte := if d <? 10 then byte_of (48 + d) else byte_of (87 + d).

(** The digits of [n], least significant first; [fuel] digits at most. *)
Fixpoint hex_rev (fuel : nat) (n : Z) : bytes :=
  match fuel with
  | O => []
  | S fuel' => hex_digit (n mod 16) :: (if n / 16 =? 0 then [] else hex_rev fuel' (n / 16))
  end.

(** [format!("{:x}", n)] for [n : u32], eight digits at most. *)
Definition to_hex (n : Z) : bytes := reverse (hex_rev 8 n).

Definition hex_val (b : byte) : option Z :=
  if in_range 48 57 b then Some (byte_val b - 48)
  else if in_range 97 102 b then Some (byte_val b - 87) else None.

(** The number a string of lower case hexadecimal digits denotes. *)
Fixpoint of_hex_acc (acc : Z) (l : bytes) : option Z :=
  match l with
  | [] => Some acc
  | b :: l' => match hex_val b with Some d => of_hex_acc (16 * acc + d) l' | None => None end
  end.
Definition of_hex (l : bytes) : option Z := of_hex_acc 0 l.

(** ["0".repeat(n)] *)
Definition zeros (n : Z) : bytes := replicate (Z.to_nat n) (byte_of 48).

(** [format!("{}", n)] for an integer of at most 64 bits: at most 20 digits. *)
Fixpoint dec_rev (fuel : nat) (n : Z) : bytes :=
  match fuel with
  | O => []
  | S fuel' => byte_of (48 + n mod 10) :: (if n <? 10 then [] else dec_rev fuel' (n / 10))
  end.
Definition to_dec (n : Z) : bytes := reverse (dec_rev 20 n).

Lemma hex_val_digit d : 0 <= d < 16 -> hex_val (hex_digit d) = Some d.
Proof. revert d. apply (Forall_seqZ _ 0 16). vm_compute. repeat constructor. Qed.

Lemma of_hex_acc_app acc l1 l2 :
  of_hex_acc acc (l1 ++ l2) =
    match of_hex_acc acc l1 with Some a => of_hex_acc a l2 | None => None end.
Proof.
  revert acc. induction l1 as [|b l1 IH]; intros acc; simpl; [done|].
  by destruct (hex_val b).
Qed.

Lemma of_hex_acc_rev fuel n acc :
  0 <= n < 16 ^ Z.of_nat fuel -> (0 < fuel)%nat ->
  of_hex_acc acc (reverse (hex_rev fuel n)) =
    Some (acc * 16 ^ Z.of_nat (List.length (hex_rev fuel n)) + n).
Proof.
  revert n acc. induction fuel as [|fuel IH]; intros n acc Hn Hfuel; [lia|].
  cbn [hex_rev]. rewrite reverse_cons, of_hex_acc_app.
  rewrite Nat2Z.inj_succ, Z.pow_succ_r in Hn by lia.
  pose proof (Z.mod_pos_bound n 16). pose proof (Z.div_mod n 16).
  destruct (n / 16 =? 0) eqn:Hdiv.
  - cbn. rewrite hex_val_digit by lia. f_equal. lia.
  - apply Z.eqb_neq in Hdiv. assert (0 <= n / 16 < 16 ^ Z.of_nat fuel).
    { split; [apply Z.div_pos; lia|]. apply Z.div_lt_upper_bound; lia. }
    destruct fuel as [|fuel]; [simpl in *; lia|].
    rewrite IH by lia. cbn [of_hex_acc List.length]. rewrite hex_val_digit by lia.
    f_equal. rewrite (Nat2Z.inj_succ (List.length _)), Z.pow_succ_r by lia. lia.
Qed.

Lemma of_hex_to_hex n : 0 <= n <= u32_max -> of_hex (to_hex n) = Some n.
Proof.
  intros Hn. unfold of_hex, to_hex. rewrite of_hex_acc_rev; [f_equal; lia| |lia].
  unfold u32_max in Hn. change (16 ^ Z.of_nat 8) with (2 ^ 32). lia.
Qed.

Lemma length_hex_rev fuel n : (List.length (hex_rev fuel n) <= fuel)%nat.
Proof.
  revert n. induction fuel as [|fuel IH]; intros n; simpl; [lia|].
  pose proof (IH (n / 16)). case_match; simpl; lia.
Qed.

Lemma length_to_hex n : (List.length (to_hex n) <= 8)%nat.
Proof. unfold to_hex. rewrite length_reverse. apply length_hex_rev. Qed.

Lemma hex_digit_ascii d : 0 <= d < 16 -> in_range 0 127 (hex_digit d) = true.
Proof. revert d. apply (Forall_seqZ _ 0 16). vm_compute. repeat constructor. Qed.

Lemma hex_rev_ascii fuel n : Forall (fun b => in_range 0 127 b = true) (hex_rev fuel n).
Proof.
  revert n. induction fuel as [|fuel IH]; intros n; simpl; [constructor|].
  constructor; [apply hex_digit_ascii; by apply Z.mod_pos_bound|]. by destruct (n / 16 =? 0).
Qed.

(** Numbers and padding are strings. *)
Lemma hex_utf8 k n : utf8_valid (zeros k ++ to_hex n) = true.
Proof.
  apply utf8_valid_ascii, forallb_forall, List.Forall_forall, Forall_app. split.
  - by apply Forall_replicate.
  - apply Forall_reverse, hex_rev_ascii.
Qed.

Lemma of_hex_zeros k l : of_hex (zeros k ++ l) = of_hex l.
Proof. unfold of_hex, zeros. induction (Z.to_nat k) as [|m IH]; [done|]. apply IH. Qed.

Lemma length_zeros k : 0 <= k -> Z.of_nat (List.length (zeros k)) = k.
Proof. intros Hk. unfold zeros. rewrite length_replicate. lia. Qed.

(** ** [f32] *)

(** A float that is not an infinity or a NaN is [m * 2 ^ e], with its sign. *)
Inductive f32 : Type :=
| NaN
| Infinite (neg : bool)
| Finite (neg : bool) (m e : Z).

(** The integer nearest to [num / den], ties to even. *)
Definition round_div (num den : Z) : Z :=
  let d := num / den in
  let r := num mod den in
  match Z.compare (2 * r) den with
  | Lt => d
  | Gt => d + 1
  | Eq => if Z.even d then d else d + 1
  end.

(** The exponent of the leading bit of [p / q], for positive [p] and [q]. *)
Definition exponent (p q : Z) : Z :=
  let k := Z.log2 p - Z.log2 q in
  if (if 0 <=? k then q * 2 ^ k <=? p else q <=? p * 2 ^ (- k)) then k else k - 1.

(** The single nearest to [p / q]: 24 bits of precision, the last one of
    weight [2 ^ -149] at least, and infinity from [2 ^ 128] on. *)
Definition round_f32 (neg : bool) (p q : Z) : f32 :=
  if p =? 0 then Finite neg 0 0 else
  let e := Z.max (exponent p q - 23) (-149) in
  let m := if 0 <=? e then round_div p (q * 2 ^ e) else round_div (p * 2 ^ (- e)) q in
  if (0 <=? e) && (2 ^ 128 <=? m * 2 ^ e) then Infinite neg else Finite neg m e.

(** ** [str::parse::<f32>()] *)

Definition digit_val (b : byte) : option Z :=
  if in_range 48 57 b then Some (byte_val b - 48) else None.

(** The leading decimal digits of a string, and what follows them. *)
Fixpoint span_digits (l : bytes) : list Z * bytes :=
  match l with
  | [] => ([], [])
  | b :: l' =>
      match digit_val b with
      | Some d => let (ds, r) := span_digits l' in (d :: ds, r)
      | None => ([], l)
      end
  end.

Definition dec_val (ds : list Z) : Z := foldl (fun acc d => 10 * acc + d) 0 ds.

Definition parse_sign (l : bytes) : bool * bytes :=
  match l with
  | b :: l' =>
      if bool_decide (b = byte_of 45) then (true, l')
      else if bool_decide (b = byte_of 43) then (false, l') else (false, l)
  | [] => (false, l)
  end.

(** [Exp ::= 'e' Sign? Digit+], up to the end of the string. *)
Definition parse_exp (l : bytes) : option Z :=
  match l with
  | [] => Some 0
  | b :: l' =>
      if bool_decide (b = byte_of 101) || bool_decide (b = byte_of 69) then
        let (neg, l'') := parse_sign l' in
        match span_digits l'' with
        | (d :: ds, []) => Some (if neg then - dec_val (d :: ds) else dec_val (d :: ds))
        | _ => None
        end
      else None
  end.

(** The fraction digits after a point, if there is one. *)
Definition parse_frac (l : bytes) : list Z * bytes :=
  match l with
  | b :: l' => if bool_decide (b = byte_of 46) then span_digits l' else ([], l)
  | [] => ([], l)
  end.

Definition parse_number (neg : bool) (l : bytes) : option f32 :=
  let (int, r) := span_digits l in
  let (frac, r') := parse_frac r in
  match int ++ frac with
  | [] => None
  | ds =>
      match parse_exp r' with
      | None => None
      | Some x =>
          let e := x - Z.of_nat (List.length frac) in
          Some (if 0 <=? e then round_f32 neg (dec_val ds * 10 ^ e) 1
                else round_f32 neg (dec_val ds) (10 ^ (- e)))
      end
  end.

(** [Float ::= Sign? ('inf' | 'NaN' | Number)] *)
Definition parse_f32 (s : bytes) : option f32 :=
  let (neg, r) := parse_sign s in
  if bool_decide (r = lit "inf") then Some (Infinite neg)
  else if bool_decide (r = lit "NaN") then Some NaN
  else parse_number neg r.

(** ** [x as u32]: truncate, and saturate at the bounds *)

Definition f32_as_u32 (x : f32) : Z :=
  match x with
  | NaN => 0
  | Infinite neg => if neg then 0 else u32_max
  | Finite neg m e =>
      if neg then 0
      else Z.min u32_max (if 0 <=? e then m * 2 ^ e else m / 2 ^ (- e))
  end.

(** ** Rounding *)

Lemma round_div_cases num den :
  round_div num den = num / den \/ round_div num den = num / den + 1.
Proof. unfold round_div. repeat case_match; auto. Qed.

Lemma round_div_nonneg num den : 0 <= num -> 0 < den -> 0 <= round_div num den.
Proof.
  intros ??. pose proof (Z.div_pos num den).
  destruct (round_div_cases num den) as [-> | ->]; lia.
Qed.

Lemma round_div_1 num : round_div num 1 = num.
Proof. unfold round_div. by rewrite Z.mod_1_r, Z.div_1_r. Qed.

Lemma exponent_lower p q :
  0 < p -> 0 < q -> 0 <= exponent p q -> q * 2 ^ exponent p q <= p.
Proof.
  intros Hp Hq. unfold exponent. set (k := Z.log2 p - Z.log2 q).
  destruct (Z.log2_spec p Hp) as [Hp1 _]. destruct (Z.log2_spec q Hq) as [_ Hq2].
  pose proof (Z.log2_nonneg q).
  destruct (Z.leb_spec 0 k).
  - destruct (Z.leb_spec (q * 2 ^ k) p); [done|]. intros Hk.
    assert (q * 2 ^ (k - 1) <= 2 ^ Z.succ (Z.log2 q) * 2 ^ (k - 1)).
    { apply Z.mul_le_mono_nonneg_r; [|lia]. apply Z.pow_nonneg. lia. }
    rewrite <-Z.pow_add_r in * by lia.
    replace (Z.succ (Z.log2 q) + (k - 1)) with (Z.log2 p) in * by lia. lia.
  - case_match; lia.
Qed.

Lemma exponent_small p q : 0 < p -> 0 < q -> p < 2 ^ 24 * q -> exponent p q <= 23.
Proof.
  intros Hp Hq Hlt. destruct (Z.le_gt_cases (exponent p q) 23) as [|Hgt]; [done|].
  pose proof (exponent_lower p q Hp Hq ltac:(lia)).
  assert (2 ^ 24 <= 2 ^ exponent p q) by (apply Z.pow_le_mono_r; lia). nia.
Qed.

(** Below [2 ^ 24], rounding to a single and truncating yields the integral
    part of the value or the integer above it. *)
Lemma round_f32_trunc p q :
  0 <= p -> 0 < q -> p < 2 ^ 24 * q ->
  p / q <= f32_as_u32 (round_f32 false p q) <= p / q + 1.
Proof.
  intros Hp Hq Hlt. unfold round_f32. destruct (Z.eqb_spec p 0) as [->|Hp0].
  { rewrite Z.div_0_l by lia. done. }
  pose proof (exponent_small p q ltac:(lia) Hq Hlt) as He.
  set (e := Z.max (exponent p q - 23) (-149)). assert (e <= 0) by lia.
  assert (Hb : p / q + 1 <= 2 ^ 24) by (apply Z.le_succ_l, Z.div_lt_upper_bound; lia).
  destruct (Z.leb_spec 0 e).
  - assert (e = 0) as -> by lia. change (2 ^ 0) with 1. rewrite !Z.mul_1_r.
    assert ((2 ^ 128 <=? round_div p q) = false) as ->.
    { apply Z.leb_gt. destruct (round_div_cases p q) as [-> | ->]; lia. }
    cbn [andb f32_as_u32]. change (0 <=? 0) with true. cbv iota. change (2 ^ 0) with 1.
    rewrite Z.mul_1_r. unfold u32_max. destruct (round_div_cases p q) as [-> | ->]; lia.
  - cbn [andb f32_as_u32]. destruct (Z.leb_spec 0 e); [lia|].
    set (x := p * 2 ^ (- e) / q). assert (0 < 2 ^ (- e)) by (apply Z.pow_pos_nonneg; lia).
    assert (Hx : x / 2 ^ (- e) = p / q).
    { unfold x. rewrite Z.div_div by lia. by rewrite Z.div_mul_cancel_r by lia. }
    assert (Hm : x <= round_div (p * 2 ^ (- e)) q <= x + 1 * 2 ^ (- e)).
    { destruct (round_div_cases (p * 2 ^ (- e)) q) as [-> | ->]; fold x; lia. }
    destruct Hm as [Hm1 Hm2]. apply (Z.div_le_mono _ _ (2 ^ (- e))) in Hm1, Hm2; try lia.
    rewrite Z.div_add in Hm2 by lia. unfold u32_max. lia.
Qed.

(** Integers below [2 ^ 24] survive the two conversions. *)
Lemma round_f32_integer n : 0 <= n < 2 ^ 24 -> f32_as_u32 (round_f32 false n 1) = n.
Proof.
  intros Hn. unfold round_f32. destruct (Z.eqb_spec n 0) as [->|Hn0]; [done|].
  pose proof (exponent_small n 1 ltac:(lia) ltac:(lia) ltac:(lia)) as He.
  set (e := Z.max (exponent n 1 - 23) (-149)). assert (e <= 0) by lia.
  destruct (Z.leb_spec 0 e).
  - assert (e = 0) as -> by lia. change (2 ^ 0) with 1. rewrite !Z.mul_1_r, round_div_1.
    assert ((2 ^ 128 <=? n) = false) as -> by (apply Z.leb_gt; lia).
    cbn [andb f32_as_u32]. change (0 <=? 0) with true. cbv iota. change (2 ^ 0) with 1.
    rewrite Z.mul_1_r. unfold u32_max. lia.
  - rewrite round_div_1. cbn [andb f32_as_u32]. destruct (Z.leb_spec 0 e); [lia|].
    assert (0 < 2 ^ (- e)) by (apply Z.pow_pos_nonneg; lia).
    rewrite Z.div_mul by lia. unfold u32_max. lia.
Qed.

(** ** Digits *)

Lemma span_digits_range l : Forall (fun d => 0 <= d <= 9) (fst (span_digits l)).
Proof.
  induction l as [|b l IH]; simpl; [constructor|].
  unfold digit_val, in_range. destruct (_ && _) eqn:Hb; [|constructor].
  destruct (span_digits l) as [ds r]. simpl in *. constructor; [|done]. lia.
Qed.

Lemma dec_val_nonneg ds : Forall (fun d => 0 <= d <= 9) ds -> 0 <= dec_val ds.
Proof.
  unfold dec_val. assert (Hgen : forall acc, 0 <= acc -> Forall (fun d => 0 <= d <= 9) ds ->
    0 <= foldl (fun acc d => 10 * acc + d) acc ds).
  { induction ds as [|d ds IH]; intros acc Hacc Hds; simpl; [done|].
    apply Forall_cons in Hds as [Hd Hds]. apply IH; [lia|done]. }
  by apply Hgen.
Qed.

(** The sign of a finite float is in its sign bit. *)
Definition f32_ok (x : f32) : Prop :=
  match x with Finite _ m _ => 0 <= m | _ => True end.

Lemma round_f32_ok neg p q : 0 <= p -> 0 < q -> f32_ok (round_f32 neg p q).
Proof.
  intros Hp Hq. unfold round_f32. case_match; [done|].
  set (e := Z.max _ _). destruct (Z.leb_spec 0 e); case_match; simpl; try done;
    apply round_div_nonneg; try done; apply Z.mul_pos_pos || apply Z.mul_nonneg_nonneg; try done;
    first [apply Z.pow_pos_nonneg; lia | apply Z.pow_nonneg; lia].
Qed.

Lemma parse_number_ok neg s x : parse_number neg s = Some x -> f32_ok x.
Proof.
  unfold parse_number. pose proof (span_digits_range s) as Hi.
  destruct (span_digits s) as [int r]. simpl in Hi.
  assert (Hf : Forall (fun d => 0 <= d <= 9) (fst (parse_frac r))).
  { unfold parse_frac. destruct r as [|b r']; [constructor|].
    case_bool_decide; [apply span_digits_range|constructor]. }
  destruct (parse_frac r) as [frac r']. simpl in Hf.
  assert (Hd : 0 <= dec_val (int ++ frac)) by (by apply dec_val_nonneg, Forall_app).
  destruct (int ++ frac) as [|d ds]; [done|]. destruct (parse_exp r') as [x'|]; [|done].
  intros [= <-]. destruct (Z.leb_spec 0 (x' - Z.of_nat (List.length frac))); apply round_f32_ok;
    try done; lia.
Qed.

Lemma parse_f32_ok s x : parse_f32 s = Some x -> f32_ok x.
Proof.
  unfold parse_f32. destruct (parse_sign s) as [neg r]. repeat case_bool_decide.
  - by intros [= <-].
  - by intros [= <-].
  - apply parse_number_ok.
Qed.

Lemma f32_as_u32_range x : f32_ok x -> 0 <= f32_as_u32 x <= u32_max.
Proof.
  unfold u32_max. destruct x as [|[]|[] m e]; simpl; unfold u32_max; try lia. intros Hm.
  assert (0 <= if 0 <=? e then m * 2 ^ e else m / 2 ^ (- e)); [|lia].
  destruct (Z.leb_spec 0 e).
  - apply Z.mul_nonneg_nonneg; [done|]. apply Z.pow_nonneg. lia.
  - apply Z.div_pos; [done|]. apply Z.pow_pos_nonneg; lia.
Qed.

(** ** Decimal texts *)

Definition is_digit (d : Z) : Prop := 0 <= d <= 9.
Definition digits (ds : list Z) : bytes := map (fun d => byte_of (48 + d)) ds.

Lemma digit_val_of d : is_digit d -> digit_val (byte_of (48 + d)) = Some d.
Proof.
  intros Hd. assert (H : 0 <= d < 10) by (unfold is_digit in Hd; lia). clear Hd. revert d H.
  apply (Forall_seqZ _ 0 10). vm_compute. repeat constructor.
Qed.

Lemma digit_byte_ne d b : is_digit d -> digit_val b = None -> byte_of (48 + d) <> b.
Proof. intros Hd Hb <-. by rewrite digit_val_of in Hb. Qed.

Lemma span_digits_app ds r :
  Forall is_digit ds -> (forall b r', r = b :: r' -> digit_val b = None) -> span_digits (digits ds ++ r) = (ds, r).
Proof.
  intros Hds Hr. induction Hds as [|d ds Hd _ IH].
  - destruct r as [|b r]; simpl; [done|]. by rewrite (Hr b r).
  - simpl. fold (digits ds). by rewrite digit_val_of, IH.
Qed.

Lemma dec_val_snoc ds d : dec_val (ds ++ [d]) = 10 * dec_val ds + d.
Proof. unfold dec_val. by rewrite foldl_app. Qed.

Lemma dec_val_app l1 l2 :
  dec_val (l1 ++ l2) = dec_val l1 * 10 ^ Z.of_nat (List.length l2) + dec_val l2.
Proof.
  induction l2 as [|d l2 IH] using rev_ind; [rewrite app_nil_r; unfold dec_val; simpl; lia|].
  rewrite app_assoc, !dec_val_snoc, IH, length_app. simpl List.length.
  rewrite Nat2Z.inj_add, Z.pow_add_r by lia. lia.
Qed.

Lemma dec_val_bound ds : Forall is_digit ds -> 0 <= dec_val ds < 10 ^ Z.of_nat (List.length ds).
Proof.
  induction ds as [|d ds IH] using rev_ind; [done|].
  intros [Hds [Hd _]%Forall_cons]%Forall_app. specialize (IH Hds). unfold is_digit in Hd.
  rewrite dec_val_snoc, length_app. simpl List.length. rewrite Nat2Z.inj_add, Z.pow_add_r by lia. lia.
Qed.

(** The printed form of an integer is digits that denote it. *)
Lemma dec_rev_digits fuel n :
  0 <= n < 10 ^ Z.of_nat fuel -> (0 < fuel)%nat ->
  exists ds, reverse (dec_rev fuel n) = digits ds /\ Forall is_digit ds /\ dec_val ds = n.
Proof.
  revert n. induction fuel as [|fuel IH]; intros n Hn Hfuel; [lia|].
  cbn [dec_rev]. rewrite reverse_cons. pose proof (Z.mod_pos_bound n 10). pose proof (Z.div_mod n 10).
  rewrite Nat2Z.inj_succ, Z.pow_succ_r in Hn by lia.
  assert (Hd : is_digit (n mod 10)) by (unfold is_digit; lia).
  destruct (Z.ltb_spec n 10) as [Hlt|Hge].
  - exists [n mod 10]. split; [done|]. split; [by apply Forall_singleton|]. rewrite Z.mod_small by lia.
    unfold dec_val. simpl. lia.
  - assert (0 <= n / 10 < 10 ^ Z.of_nat fuel).
    { split; [apply Z.div_pos; lia|]. apply Z.div_lt_upper_bound; lia. }
    destruct fuel as [|fuel]; [simpl in *; lia|].
    destruct (IH (n / 10)) as (ds & -> & Hds & Hval); [lia..|]. exists (ds ++ [n mod 10]).
    split; [unfold digits; by rewrite map_app|].
    split; [apply Forall_app; by rewrite Forall_singleton|].
    rewrite dec_val_snoc, Hval. lia.
Qed.

Definition of_dec (l : bytes) : Z := dec_val (fst (span_digits l)).

Lemma of_dec_to_dec n : 0 <= n < 10 ^ 20 -> of_dec (to_dec n) = n.
Proof.
  intros Hn. unfold of_dec, to_dec. destruct (dec_rev_digits 20 n) as (ds & -> & Hds & Hval); [done|lia|].
  by rewrite <-(app_nil_r (digits ds)), span_digits_app.
Qed.

Lemma to_dec_inj n m : 0 <= n < 10 ^ 20 -> 0 <= m < 10 ^ 20 -> to_dec n = to_dec m -> n = m.
Proof. intros Hn Hm Heq. by rewrite <-(of_dec_to_dec n), Heq, of_dec_to_dec. Qed.

(** A text of digits, a point and digits is the rational it denotes, rounded. *)
Lemma parse_decimal int frac :
  Forall is_digit int -> Forall is_digit frac -> int <> [] ->
  parse_f32 (digits int ++ lit "." ++ digits frac) =
    Some (round_f32 false (dec_val (int ++ frac)) (10 ^ Z.of_nat (List.length frac))).
Proof.
  intros Hint Hfrac Hne. destruct int as [|d int]; [done|].
  assert (Hd : is_digit d) by by apply Forall_cons in Hint as [? _].
  assert (Hsign : forall l, parse_sign (byte_of (48 + d) :: l) = (false, byte_of (48 + d) :: l)).
  { intros l. unfold parse_sign. by rewrite !bool_decide_false by (by apply digit_byte_ne). }
  assert (Hword : forall l b w, digit_val b = None -> byte_of (48 + d) :: l <> b :: w).
  { intros l b w Hb [= Hbyte _]. by apply (digit_byte_ne d b). }
  unfold parse_f32. cbn [digits map app]. rewrite Hsign.
  rewrite !bool_decide_false by (by apply Hword).
  change (byte_of (48 + d) :: map (fun d => byte_of (48 + d)) int ++ lit "." ++ digits frac)
    with (digits (d :: int) ++ lit "." ++ digits frac). unfold parse_number.
  rewrite span_digits_app; [|done|by intros ? ? [= <- _]]. cbn [parse_frac lit].
  change (lit "." ++ digits frac) with (byte_of 46 :: digits frac). unfold parse_frac.
  rewrite bool_decide_true by done. rewrite <-(app_nil_r (digits frac)).
  rewrite span_digits_app by done. cbn [parse_exp app].
  destruct frac as [|x frac].
  - change (10 ^ Z.of_nat 0) with 1. simpl. by rewrite Z.mul_1_r.
  - set (n := List.length (x :: frac)). assert (0 < Z.of_nat n) by (unfold n; simpl; lia).
    destruct (Z.leb_spec 0 (0 - Z.of_nat n)); [lia|]. by replace (- (0 - Z.of_nat n)) with (Z.of_nat n) by lia.
Qed.

End Num.
