(* ===== verification/Scale.v ===== *)
(** * SCALE encoding

    The crate [parity-scale-codec] is not part of the repository: the classes
    [Codec] and [CodecLaws] say what the pallets rely on, that decoding reads
    back an encoded value and leaves what follows it.  Structs that derive
    [Encode] and [Decode] are encoded field by field, as products.  [Compact]
    is an instance for [Vec<u8>] and [u32] in the published format. *)

From S2P Require Import Prelude Str Num.
From Stdlib Require Import Strings.Byte ZArith.Znumtheory.
Import Str Num.
Local Open Scope Z_scope.

(** [decode] consumes a prefix of its input and returns the rest. *)
Class Codec (A : Type) : Type := {
  encode : A -> bytes;
  decode : bytes -> option (A * bytes)
}.

(** [encodable]: the values whose length fits the length prefix. *)
Class CodecLaws (A : Type) `{Codec A} : Type := {
  encodable : A -> Prop;
  decode_encode (a : A) rest : encodable a -> decode (encode a ++ rest) = Some (a, rest)
}.

(** A type none of whose encodings is empty cannot be read from nothing. *)
Class CodecNonempty (A : Type) `{Codec A} : Prop :=
  decode_nil : decode [] = None.

(** ** Products: [#[derive(Encode, Decode)]] *)

#[export] Instance prod_codec {A B} `{Codec A, Codec B} : Codec (A * B) := {
  encode p := encode p.1 ++ encode p.2;
  decode l :=
    match decode l with
    | Some (a, l') => match decode l' with Some (b, l'') => Some ((a, b), l'') | None => None end
    | None => None
    end
}.

#[export] Program Instance prod_codec_laws {A B} `{CodecLaws A, CodecLaws B} : CodecLaws (A * B) := {
  encodable p := encodable p.1 /\ encodable p.2
}.
Next Obligation.
  intros A B ???? [a b] rest [Ha Hb]. simpl in *. rewrite <-app_assoc.
  by rewrite (decode_encode a), (decode_encode b).
Qed.

Lemma encode_inj {A} `{CodecLaws A} (a b : A) :
  encodable a -> encodable b -> encode a = encode b -> a = b.
Proof.
  intros Ha Hb Hab. pose proof (decode_encode a [] Ha) as H1.
  rewrite Hab, (decode_encode b [] Hb) in H1. by simplify_eq.
Qed.

(** What is decoded can be encoded: the lengths that were read are [u32]. *)
Class CodecDecodes (A : Type) `{CodecLaws A} : Prop :=
  decode_encodable l (a : A) rest : decode l = Some (a, rest) -> encodable a.

#[export] Instance prod_decodes {A B} `{CodecDecodes A, CodecDecodes B} : CodecDecodes (A * B).
Proof.
  intros l [a b] rest. simpl. intros Hd.
  destruct (decode l) as [[a' l']|] eqn:Ha; [|done]. destruct (decode l') as [[b' l'']|] eqn:Hb; [|done].
  simplify_eq. eauto using decode_encodable.
Qed.

(** ** The published format *)

Module Compact.

(** [k] bytes of [n], least significant first. *)
Fixpoint le_bytes (k : nat) (n : Z) : bytes :=
  match k with O => [] | S k' => byte_of (n mod 256) :: le_bytes k' (n / 256) end.

Fixpoint le_val (l : bytes) : Z :=
  match l with [] => 0 | b :: l' => byte_val b + 256 * le_val l' end.

Lemma byte_val_of z : 0 <= z < 256 -> byte_val (byte_of z) = z.
Proof. revert z. apply (Forall_seqZ _ 0 256). vm_compute. repeat constructor. Qed.

Lemma byte_val_range b : 0 <= byte_val b < 256.
Proof. unfold byte_val. pose proof (to_N_bounded b). lia. Qed.

Lemma length_le_bytes k n : List.length (le_bytes k n) = k.
Proof. revert n. induction k; intros n; simpl; [done|]. by rewrite IHk. Qed.

Lemma le_val_bytes k n : 0 <= n < 256 ^ Z.of_nat k -> le_val (le_bytes k n) = n.
Proof.
  revert n. induction k as [|k IH]; intros n Hn; [simpl in *; lia|].
  cbn [le_bytes le_val]. rewrite Nat2Z.inj_succ, Z.pow_succ_r in Hn by lia.
  pose proof (Z.mod_pos_bound n 256). pose proof (Z.div_mod n 256).
  rewrite byte_val_of by lia. rewrite IH; [lia|].
  split; [apply Z.div_pos; lia|]. apply Z.div_lt_upper_bound; lia.
Qed.

(** Split off the first [n] bytes. *)
Definition take_bytes (n : nat) (l : bytes) : option (bytes * bytes) :=
  if (n <=? List.length l)%nat then Some (take n l, drop n l) else None.

Lemma take_bytes_app v rest : take_bytes (List.length v) (v ++ rest) = Some (v, rest).
Proof.
  unfold take_bytes. rewrite length_app, (proj2 (Nat.leb_le _ _)) by lia.
  by rewrite take_app_length, drop_app_length.
Qed.

(** [Compact<u32>] *)
Definition compact (n : Z) : bytes :=
  if n <? 2 ^ 6 then le_bytes 1 (n * 4)
  else if n <? 2 ^ 14 then le_bytes 2 (n * 4 + 1)
  else if n <? 2 ^ 30 then le_bytes 4 (n * 4 + 2)
  else byte_of 3 :: le_bytes 4 n.

(** A prefix of [k] bytes whose two low bits are the mode; [lo] is the least
    value the mode is used for. *)
Definition uncompact_mode (k : nat) (lo : Z) (l : bytes) : option (Z * bytes) :=
  match take_bytes k l with
  | Some (v, rest) => let n := le_val v / 4 in if lo <=? n then Some (n, rest) else None
  | None => None
  end.

Definition uncompact (l : bytes) : option (Z * bytes) :=
  match l with
  | [] => None
  | b :: l' =>
      match byte_val b mod 4 with
      | 0 => uncompact_mode 1 0 l
      | 1 => uncompact_mode 2 (2 ^ 6) l
      | 2 => uncompact_mode 4 (2 ^ 14) l
      | _ =>
          if byte_val b =? 3 then
            match take_bytes 4 l' with
            | Some (v, rest) => let n := le_val v in if 2 ^ 30 <=? n then Some (n, rest) else None
            | None => None
            end
          else None
      end
  end.

Lemma uncompact_mode_ok k lo n mode rest :
  lo <= n -> 0 <= mode < 4 -> 0 <= n * 4 + mode < 256 ^ Z.of_nat k ->
  uncompact_mode k lo (le_bytes k (n * 4 + mode) ++ rest) = Some (n, rest).
Proof.
  intros Hlo Hmode Hn. unfold uncompact_mode.
  rewrite <-(length_le_bytes k (n * 4 + mode)) at 1. rewrite take_bytes_app, le_val_bytes by done.
  assert ((n * 4 + mode) / 4 = n) as -> by (symmetry; apply (Z.div_unique _ _ _ mode); lia).
  by rewrite (proj2 (Z.leb_le _ _)).
Qed.

Lemma le_bytes_mode k n mode rest :
  0 <= mode < 4 -> 0 <= n ->
  exists b l, le_bytes (S k) (n * 4 + mode) ++ rest = b :: l /\ byte_val b mod 4 = mode.
Proof.
  intros Hmode Hn. eexists _, _. split; [done|]. pose proof (Z.mod_pos_bound (n * 4 + mode) 256).
  rewrite byte_val_of by lia. rewrite Z.mod_mod_divide by (by exists 64).
  symmetry. apply (Z.mod_unique _ _ n); lia.
Qed.

Lemma uncompact_compact n rest : 0 <= n < 2 ^ 32 -> uncompact (compact n ++ rest) = Some (n, rest).
Proof.
  intros Hn. unfold compact.
  destruct (Z.ltb_spec n (2 ^ 6)); [|destruct (Z.ltb_spec n (2 ^ 14)); [|destruct (Z.ltb_spec n (2 ^ 30))]].
  - pose proof (uncompact_mode_ok 1 0 n 0 rest) as Hok. rewrite Z.add_0_r in Hok.
    destruct (le_bytes_mode 0 n 0 rest) as (b & l & Hl & Hb); [lia..|]. rewrite Z.add_0_r in Hl.
    rewrite Hl in *. unfold uncompact. rewrite Hb. apply Hok; lia.
  - pose proof (uncompact_mode_ok 2 (2 ^ 6) n 1 rest) as Hok.
    destruct (le_bytes_mode 1 n 1 rest) as (b & l & Hl & Hb); [lia..|].
    rewrite Hl in *. unfold uncompact. rewrite Hb. apply Hok; lia.
  - pose proof (uncompact_mode_ok 4 (2 ^ 14) n 2 rest) as Hok.
    destruct (le_bytes_mode 3 n 2 rest) as (b & l & Hl & Hb); [lia..|].
    rewrite Hl in *. unfold uncompact. rewrite Hb. apply Hok; lia.
  - cbn [uncompact app]. rewrite byte_val_of by lia. change (3 mod 4) with 3. cbv iota.
    change (3 =? 3) with true. cbv iota. rewrite <-(length_le_bytes 4 n) at 1.
    rewrite take_bytes_app, le_val_bytes by lia. by rewrite (proj2 (Z.leb_le _ _)).
Qed.

(** [Vec<u8>]: its length, then its bytes. *)
#[export] Instance bytes_codec : Codec bytes := {
  encode v := compact (Z.of_nat (List.length v)) ++ v;
  decode l :=
    match uncompact l with
    | Some (n, l') => take_bytes (Z.to_nat n) l'
    | None => None
    end
}.

#[export] Program Instance bytes_codec_laws : CodecLaws bytes := {
  encodable v := Z.of_nat (List.length v) < 2 ^ 32
}.
Next Obligation.
  intros v rest Hv. cbn [encode decode bytes_codec]. rewrite <-app_assoc.
  rewrite uncompact_compact by (split; [lia|exact Hv]). rewrite Nat2Z.id. apply take_bytes_app.
Qed.

#[export] Instance bytes_codec_nonempty : CodecNonempty bytes.
Proof. done. Qed.

(** [u32]: four bytes. *)
#[export] Instance u32_codec : Codec Z := {
  encode n := le_bytes 4 n;
  decode l := match take_bytes 4 l with Some (v, rest) => Some (le_val v, rest) | None => None end
}.

#[export] Program Instance u32_codec_laws : CodecLaws Z := {
  encodable n := 0 <= n < 2 ^ 32
}.
Next Obligation.
  intros n rest Hn. cbn [encode decode u32_codec]. rewrite <-(length_le_bytes 4 n) at 1.
  rewrite take_bytes_app, le_val_bytes by exact Hn. done.
Qed.

(** *** Lengths that are read *)

Lemma le_val_range v : 0 <= le_val v < 256 ^ Z.of_nat (List.length v).
Proof.
  induction v as [|b v IH]; [simpl; lia|]. cbn [le_val List.length].
  rewrite Nat2Z.inj_succ, Z.pow_succ_r by lia. pose proof (byte_val_range b). lia.
Qed.

Lemma take_bytes_Some n l v rest : take_bytes n l = Some (v, rest) -> List.length v = n.
Proof.
  unfold take_bytes. destruct (Nat.leb_spec n (List.length l)); [|done].
  intros [= <- <-]. by apply length_take_le.
Qed.

Lemma uncompact_mode_range k lo l n rest :
  (k <= 4)%nat -> 0 <= lo -> uncompact_mode k lo l = Some (n, rest) -> 0 <= n < 2 ^ 32.
Proof.
  intros Hk Hlo. unfold uncompact_mode. destruct (take_bytes k l) as [[v r]|] eqn:Hv; [|done].
  apply take_bytes_Some in Hv. destruct (Z.leb_spec lo (le_val v / 4)); [|done]. intros [= <- _].
  split; [lia|]. pose proof (le_val_range v) as Hr. rewrite Hv in Hr.
  assert (256 ^ Z.of_nat k <= 256 ^ 4) by (apply Z.pow_le_mono_r; lia).
  apply Z.div_lt_upper_bound; lia.
Qed.

Lemma uncompact_range l n rest : uncompact l = Some (n, rest) -> 0 <= n < 2 ^ 32.
Proof.
  destruct l as [|b l]; [done|]. unfold uncompact.
  repeat case_match; try done; try (apply uncompact_mode_range; lia).
  all: intros [= <- <-]; match goal with H : take_bytes _ _ = Some (?v, _) |- _ =>
    apply take_bytes_Some in H; pose proof (le_val_range v) as Hr; rewrite H in Hr end; lia.
Qed.

#[export] Instance bytes_codec_decodes : CodecDecodes bytes.
Proof.
  intros l v rest. simpl. destruct (uncompact l) as [[n l']|] eqn:Hn; [|done].
  intros Hv%take_bytes_Some. apply uncompact_range in Hn. rewrite Hv. lia.
Qed.

#[export] Instance u32_codec_decodes : CodecDecodes Z.
Proof.
  intros l n rest. simpl. destruct (take_bytes 4 l) as [[v r]|] eqn:Hv; [|done]. intros [= <- _].
  apply take_bytes_Some in Hv. pose proof (le_val_range v) as Hr. by rewrite Hv in Hr.
Qed.

(** [Vec<A>]: its length, then its elements. *)
Section vec.
Context {A : Type} `{CodecLaws A}.

Fixpoint decode_n (n : nat) (l : bytes) : option (list A * bytes) :=
  match n with
  | O => Some ([], l)
  | S n' =>
      match decode l with
      | Some (a, l') => match decode_n n' l' with Some (v, rest) => Some (a :: v, rest) | None => None end
      | None => None
      end
  end.

#[export] Instance vec_codec : Codec (list A) := {
  encode v := compact (Z.of_nat (List.length v)) ++ List.concat (map encode v);
  decode l := match uncompact l with Some (n, l') => decode_n (Z.to_nat n) l' | None => None end
}.

Lemma decode_n_concat (v : list A) rest :
  Forall encodable v -> decode_n (List.length v) (List.concat (map encode v) ++ rest) = Some (v, rest).
Proof.
  induction 1 as [|a v Ha _ IH]; [done|]. simpl. rewrite <-app_assoc, decode_encode by done. by rewrite IH.
Qed.

#[export] Program Instance vec_codec_laws : CodecLaws (list A) := {
  encodable v := Z.of_nat (List.length v) < 2 ^ 32 /\ Forall encodable v
}.
Next Obligation.
  intros v rest [Hv Ha]. cbn [encode decode vec_codec]. rewrite <-app_assoc.
  rewrite uncompact_compact by (split; [lia|exact Hv]). rewrite Nat2Z.id. by apply decode_n_concat.
Qed.

Lemma decode_n_Some `{!CodecDecodes A} n l v rest :
  decode_n n l = Some (v, rest) -> List.length v = n /\ Forall encodable v.
Proof.
  revert l v. induction n as [|n IH]; intros l v; simpl; [by intros [= <- _]|].
  destruct (decode l) as [[a l']|] eqn:Ha; [|done].
  destruct (decode_n n l') as [[v' rest']|] eqn:Hn; [|done]. intros [= <- <-].
  destruct (IH _ _ Hn) as [<- Hv]. split; [done|]. constructor; [by eapply decode_encodable|done].
Qed.

#[export] Instance vec_codec_decodes `{!CodecDecodes A} : CodecDecodes (list A).
Proof.
  intros l v rest. simpl. destruct (uncompact l) as [[n l']|] eqn:Hn; [|done].
  intros [Hlen Hv]%decode_n_Some. apply uncompact_range in Hn. split; [lia|done].
Qed.

End vec.

End Compact.
