(* ===== verification/Json.v ===== *)
(** * JSON values and the derived deserialisers

    The crates [serde] and [serde_json] are not part of the repository.  What a
    type's [Serialize] hands to the serialiser is a [ser]; the operations of the
    class [SerdeJson] write it as a text and read a text into a [json] tree.  What
    a type's [Deserialize] makes of the tree is modelled here, following serde's
    documented behaviour for derived structs.  [MiniJson] is a concrete reader and
    writer for the examples; nothing is proved from it. *)

From S2P Require Import Prelude Str Num.
From Stdlib Require Import Strings.String.
Import Str Num.
Local Open Scope Z_scope.

(** What the [Serialize] implementations of the repository call: [serialize_u8],
    [serialize_str], sequences, and structs with their fields in order. *)
Inductive ser : Type :=
| SU8 (n : Z)
| SStr (s : bytes)
| SSeq (vs : list ser)
| SStruct (fields : list (bytes * ser)).

(** What is read from a text.  The reader says of a string whether its text used
    an escape: such a string is not a slice of the input, and cannot be
    deserialised into a borrowed [&str]. *)
Inductive json : Type :=
| JNull
| JBool (b : bool)
| JInt (n : Z)
| JFloat (lexeme : bytes)
| JStr (escaped : bool) (s : bytes)
| JArr (vs : list json)
| JObj (kvs : list (bytes * json)).

(** [serde_json::from_str] up to the syntax tree, and [serde_json::to_vec]. *)
Class SerdeJson : Type := {
  from_str : bytes -> option json;
  to_vec : ser -> option bytes
}.

(** Every string of a tree is UTF-8: a Rust [str] always is. *)
Fixpoint json_utf8 (j : json) : bool :=
  match j with
  | JStr _ s => utf8_valid s
  | JFloat lexeme => utf8_valid lexeme
  | JArr vs => forallb json_utf8 vs
  | JObj kvs => forallb (fun kv => utf8_valid (fst kv) && json_utf8 (snd kv)) kvs
  | _ => true
  end.

(** What the client relies on: the strings that are read are Rust strings. *)
Class SerdeJsonLaws (J : SerdeJson) : Prop :=
  from_str_utf8 text j : from_str text = Some j -> json_utf8 j = true.

(** ** [#[derive(Deserialize)]] on a struct with named fields *)

(** The value of a field: an unknown key is ignored, a duplicate or a missing
    one is an error. *)
Definition unique_field (kvs : list (bytes * json)) (name : bytes) : option json :=
  match filter (fun kv => fst kv = name) kvs with
  | [kv] => Some (snd kv)
  | _ => None
  end.

(** The fields in the order of [names], from an object or from an array. *)
Definition struct_fields (names : list bytes) (j : json) : option (list json) :=
  match j with
  | JObj kvs => mapM (unique_field kvs) names
  | JArr vs => if bool_decide (List.length vs = List.length names) then Some vs else None
  | _ => None
  end.

(** [u8] *)
Definition de_u8 (j : json) : option Z :=
  match j with
  | JInt n => if bool_decide (0 <= n <= 255) then Some n else None
  | _ => None
  end.

(** [Vec<T>] *)
Definition de_vec {A} (de : json -> option A) (j : json) : option (list A) :=
  match j with
  | JArr vs => mapM de vs
  | _ => None
  end.

(** A borrowed [&str] *)
Definition de_str (j : json) : option bytes :=
  match j with
  | JStr false s => Some s
  | _ => None
  end.

(** [str::from_utf8(&v).unwrap()] as a serialised field; [None] is the panic. *)
Definition ser_utf8 (v : bytes) : option ser := SStr <$> from_utf8 v.

Lemma de_str_utf8 j s : json_utf8 j = true -> de_str j = Some s -> utf8_valid s = true.
Proof. destruct j as [| | | |[]| |]; simpl; naive_solver. Qed.

Lemma unique_field_utf8 kvs name j :
  json_utf8 (JObj kvs) = true -> unique_field kvs name = Some j -> json_utf8 j = true.
Proof.
  unfold unique_field. simpl. rewrite forallb_forall. intros Hkvs Hf.
  destruct (filter _ kvs) as [|kv [|]] eqn:Hfil; simplify_eq.
  assert (kv ∈ filter (fun kv => kv.1 = name) kvs) as Hin by (rewrite Hfil; constructor).
  apply list_elem_of_filter in Hin as [_ Hin%list_elem_of_In]. apply Hkvs in Hin.
  by apply andb_true_iff in Hin as [_ ?].
Qed.

Lemma struct_fields_utf8 names j js :
  json_utf8 j = true -> struct_fields names j = Some js -> Forall (fun j => json_utf8 j = true) js.
Proof.
  destruct j as [| | | | |vs|kvs]; simpl; try done.
  - intros Hvs. case_bool_decide; [|done]. intros [= <-]. by apply List.Forall_forall, forallb_forall.
  - intros Hkvs Hm. apply mapM_Some_1 in Hm. induction Hm as [|n j' ns js' Hj]; constructor; [|done].
    by eapply (unique_field_utf8 kvs).
Qed.

(** ** A reader and writer *)

Module MiniJson.

(** The quote, the backslash and the control characters are escaped. *)
Definition escaped_char (b : byte) : bool :=
  in_range 0 31 b || in_range 34 34 b || in_range 92 92 b.

Definition show_char (b : byte) : bytes :=
  if escaped_char b then
    if in_range 0 31 b then
      lit "\u00" ++ [hex_digit (byte_val b / 16); hex_digit (byte_val b mod 16)]
    else [byte_of 92; b]
  else [b].

(** A string literal between double quotes. *)
Definition show_str (s : bytes) : bytes := byte_of 34 :: flat_map show_char s ++ [byte_of 34].

Fixpoint commas (ts : list bytes) : bytes :=
  match ts with
  | [] => []
  | [t] => t
  | t :: ts' => t ++ lit "," ++ commas ts'
  end.

Fixpoint show (j : ser) : bytes :=
  match j with
  | SU8 n => to_dec n
  | SStr s => show_str s
  | SSeq vs => lit "[" ++ commas (map show vs) ++ lit "]"
  | SStruct kvs =>
      lit "{" ++ commas (map (fun kv => show_str (fst kv) ++ lit ":" ++ show (snd kv)) kvs) ++ lit "}"
  end.

Fixpoint skip_ws (l : bytes) : bytes :=
  match l with
  | b :: l' => if existsb (Z.eqb (byte_val b)) [9; 10; 13; 32] then skip_ws l' else l
  | [] => []
  end.

(** The rest of the input after a given prefix. *)
Fixpoint expect (p l : bytes) : option bytes :=
  match p, l with
  | [], _ => Some l
  | b :: p', c :: l' => if bool_decide (b = c) then expect p' l' else None
  | _ :: _, [] => None
  end.

(** A string literal after its opening quote: whether it has an escape, its
    characters and the rest.  Of the [u] escapes only [00XX] below 128 is read. *)
Fixpoint read_str (l : bytes) : option (bool * bytes * bytes) :=
  match l with
  | [] => None
  | b :: l' =>
      if byte_val b =? 34 then Some (false, [], l')
      else if byte_val b =? 92 then
        match l' with
        | c :: l'' =>
            if existsb (Z.eqb (byte_val c)) [34; 92; 47] then
              match read_str l'' with Some (_, s, r) => Some (true, c :: s, r) | None => None end
            else if byte_val c =? 117 then
              match l'' with
              | z1 :: z2 :: h1 :: h2 :: l3 =>
                  match of_hex [z1; z2; h1; h2] with
                  | Some n =>
                      if n <? 128 then
                        match read_str l3 with
                        | Some (_, s, r) => Some (true, byte_of n :: s, r)
                        | None => None
                        end
                      else None
                  | None => None
                  end
              | _ => None
              end
            else None
        | [] => None
        end
      else if in_range 0 31 b then None
      else match read_str l' with Some (e, s, r) => Some (e, b :: s, r) | None => None end
  end.

(** A number: its lexeme and the rest. *)
Fixpoint read_num (l : bytes) : bytes * bytes :=
  match l with
  | b :: l' =>
      if in_range 48 57 b || existsb (Z.eqb (byte_val b)) [43; 45; 46; 69; 101] then
        let (d, r) := read_num l' in (b :: d, r)
      else ([], l)
  | [] => ([], [])
  end.

Definition num_of (lexeme : bytes) : option json :=
  let (neg, body) := parse_sign lexeme in
  match span_digits body with
  | ([], _) => None
  | (ds, []) => Some (JInt (if neg then - dec_val ds else dec_val ds))
  | _ => match parse_number neg body with Some _ => Some (JFloat lexeme) | None => None end
  end.

(** Values, and the items of an array or an object after a first one; the fuel
    counts the values and items read. *)
Fixpoint read (fuel : nat) (l : bytes) : option (json * bytes) :=
  match fuel with
  | O => None
  | S fuel' =>
      match skip_ws l with
      | b :: l' =>
          if byte_val b =? 34 then
            match read_str l' with Some (e, s, r) => Some (JStr e s, r) | None => None end
          else if byte_val b =? 91 then
            match expect (lit "]") (skip_ws l') with
            | Some r => Some (JArr [], r)
            | None => match read_items fuel' l' with Some (vs, r) => Some (JArr vs, r) | None => None end
            end
          else if byte_val b =? 123 then
            match expect (lit "}") (skip_ws l') with
            | Some r => Some (JObj [], r)
            | None => match read_members fuel' l' with Some (vs, r) => Some (JObj vs, r) | None => None end
            end
          else match expect (lit "null") (b :: l'), expect (lit "true") (b :: l'), expect (lit "false") (b :: l') with
               | Some r, _, _ => Some (JNull, r)
               | _, Some r, _ => Some (JBool true, r)
               | _, _, Some r => Some (JBool false, r)
               | None, None, None =>
                   let (d, r) := read_num (b :: l') in
                   match num_of d with Some j => Some (j, r) | None => None end
               end
      | [] => None
      end
  end
with read_items (fuel : nat) (l : bytes) : option (list json * bytes) :=
  match fuel with
  | O => None
  | S fuel' =>
      match read fuel' l with
      | Some (v, r) =>
          match expect (lit "]") (skip_ws r), expect (lit ",") (skip_ws r) with
          | Some r', _ => Some ([v], r')
          | _, Some r' =>
              match read_items fuel' r' with Some (vs, r'') => Some (v :: vs, r'') | None => None end
          | _, _ => None
          end
      | None => None
      end
  end
with read_members (fuel : nat) (l : bytes) : option (list (bytes * json) * bytes) :=
  match fuel with
  | O => None
  | S fuel' =>
      match expect [byte_of 34] (skip_ws l) with
      | Some l' =>
          match read_str l' with
          | Some (_, k, r) =>
              match expect (lit ":") (skip_ws r) with
              | Some r1 =>
                  match read fuel' r1 with
                  | Some (v, r2) =>
                      match expect (lit "}") (skip_ws r2), expect (lit ",") (skip_ws r2) with
                      | Some r', _ => Some ([(k, v)], r')
                      | _, Some r' =>
                          match read_members fuel' r' with
                          | Some (kvs, r'') => Some ((k, v) :: kvs, r'')
                          | None => None
                          end
                      | _, _ => None
                      end
                  | None => None
                  end
              | None => None
              end
          | None => None
          end
      | None => None
      end
  end.

#[export] Instance mini : SerdeJson := {
  from_str text :=
    match read (2 * S (List.length text))%nat text with
    | Some (j, r) =>
        if bool_decide (skip_ws r = []) && json_utf8 j then Some j else None
    | None => None
    end;
  to_vec j := Some (show j)
}.

#[export] Instance mini_laws : SerdeJsonLaws mini.
Proof.
  intros text j. unfold from_str, mini. destruct (read _ text) as [[j' r]|]; [|done].
  destruct (bool_decide _ && json_utf8 j') eqn:Hj; [|done].
  intros [= <-]. by apply andb_true_iff in Hj as [_ ?].
Qed.

Example reads :
  from_str (show (SStruct [(lit "price", SStr (lit "3" ++ [byte_of 10])); (lit "id", SU8 42); (lit "to", SSeq [SStr (lit "0x")])])) =
    Some (JObj [(lit "price", JStr true (lit "3" ++ [byte_of 10])); (lit "id", JInt 42);
                (lit "to", JArr [JStr false (lit "0x")])]) /\
  from_str (lit " [null, true, -42, 1.5e3, []]") =
    Some (JArr [JNull; JBool true; JInt (-42); JFloat (lit "1.5e3"); JArr []]).
Proof. vm_compute. done. Qed.

End MiniJson.
