(* ===== verification/Effects.v ===== *)
(** * Programs that call their environment

    Code whose effects are calls to libraries that are not part of the
    repository (the off-chain host, the services of a Substrate node) is a
    program over a signature: a type of calls and the type of each call's
    response.  A program makes a call and continues with the response; the
    responses are not constrained, so a property of a program holds for every
    environment.  Programs are inductive: between its calls a program always ends,
    with a value or in a panic, but a call may never return.  [traces] are the
    sequences of calls and responses a program can go through with its outcome,
    [reach] those of its partial executions; [run] executes a program against an
    environment that answers every call, and [attempt] against one that may leave
    a call without an answer. *)

From S2P Require Import Prelude.

Module Effects.

Section prog.
Context {Op : Type} {resp : Op -> Type}.

Inductive prog (A : Type) : Type :=
| Done (a : A)
| Panic
| Do (o : Op) (k : resp o -> prog A).
Arguments Done {A} a.
Arguments Panic {A}.
Arguments Do {A} o k.

Fixpoint pbind {A B} (t : prog A) (k : A -> prog B) : prog B :=
  match t with
  | Done a => k a
  | Panic => Panic
  | Do o k' => Do o (fun r => pbind (k' r) k)
  end.

Definition call (o : Op) : prog (resp o) := Do o Done.

(** Code that may return an error [E] early, with the [?] operator. *)
Definition W (E A : Type) : Type := prog (result A E).

Definition wret {E A} (a : A) : W E A := Done (Ok a).
Definition wthrow {E A} (e : E) : W E A := Done (Err e).
Definition wbind {E A B} (t : W E A) (k : A -> W E B) : W E B :=
  pbind t (fun r => match r with Ok a => k a | Err e => Done (Err e) end).
Definition wcall {E} (o : Op) : W E (resp o) := Do o (fun r => Done (Ok r)).

(** [x.ok_or(e)?] and [x.unwrap()] *)
Definition wtry {E A} (e : E) (x : option A) : W E A :=
  match x with Some a => wret a | None => wthrow e end.
Definition wunwrap {E A} (x : option A) : W E A :=
  match x with Some a => wret a | None => Panic end.

(** [r.map_err(f)?] *)
Definition wresult {E F A} (f : E -> F) (r : result A E) : W F A :=
  match r with Ok a => wret a | Err e => wthrow (f e) end.

(** [.unwrap()] on the result of a call that may return an error. *)
Definition wexpect {E E' A} (t : W E A) : W E' A :=
  pbind t (fun r => match r with Ok a => wret a | Err _ => Panic end).

(** [t.map_err(f)] *)
Definition wmap_err {E F A} (f : E -> F) (t : W E A) : W F A := pbind t (fun r => Done (map_err f r)).

(** ** Traces *)

Definition Obs : Type := { o : Op & resp o }.
Definition obs (o : Op) (r : resp o) : Obs := existT o r.

(** [traces t tr x]: with the responses of [tr] the program makes the calls of
    [tr] and ends with [x], where [None] is a panic. *)
Fixpoint traces {A} (t : prog A) (tr : list Obs) (x : option A) : Prop :=
  match t with
  | Done a => tr = [] /\ x = Some a
  | Panic => tr = [] /\ x = None
  | Do o k => exists r tr', tr = obs o r :: tr' /\ traces (k r) tr' x
  end.

Lemma traces_pbind {A B} (t : prog A) (k : A -> prog B) tr x :
  traces (pbind t k) tr x <->
  exists tr1 y, traces t tr1 y /\
    match y with
    | Some a => exists tr2, tr = tr1 ++ tr2 /\ traces (k a) tr2 x
    | None => tr = tr1 /\ x = None
    end.
Proof.
  revert tr. induction t as [a| |o k' IH]; intros tr; simpl.
  - split; [intros Ht; by exists [], (Some a); eauto|]. by intros (? & ? & [-> ->] & tr2 & -> & ?).
  - split; [intros [-> ->]; by exists [], None|]. by intros (? & ? & [-> ->] & -> & ->).
  - setoid_rewrite IH. split.
    + intros (r & tr' & -> & tr1 & y & Ht & Hy). exists (obs o r :: tr1), y. split; [eauto|].
      destruct y; [|by destruct Hy as [-> ->]]. destruct Hy as (tr2 & -> & ?). by exists tr2.
    + intros (tr1 & y & (r & tr' & -> & Ht) & Hy). destruct y as [a|].
      * destruct Hy as (tr2 & -> & Hk). exists r, (tr' ++ tr2). split; [done|].
        exists tr', (Some a). eauto.
      * destruct Hy as [-> ->]. exists r, tr'. split; [done|]. by exists tr', None.
Qed.

(** Sequencing with early return. *)
Lemma traces_wbind {E A B} (t : W E A) (k : A -> W E B) tr x :
  traces (wbind t k) tr x <->
  exists tr1 y, traces t tr1 y /\
    match y with
    | Some (Ok a) => exists tr2, tr = tr1 ++ tr2 /\ traces (k a) tr2 x
    | Some (Err e) => tr = tr1 /\ x = Some (Err e)
    | None => tr = tr1 /\ x = None
    end.
Proof.
  unfold wbind. rewrite traces_pbind.
  split; intros (tr1 & y & Ht & Hy); exists tr1, y; (split; [done|]); destruct y as [[a|e]|];
    try done; simpl in *.
  - destruct Hy as (tr2 & -> & -> & ->). by rewrite app_nil_r.
  - destruct Hy as [-> ->]. exists []. by rewrite app_nil_r.
Qed.

Lemma traces_wexpect {E E' A} (t : W E A) tr (x : option (result A E')) :
  traces (wexpect t) tr x <->
  (exists a, traces t tr (Some (Ok a)) /\ x = Some (Ok a)) \/
  ((exists e, traces t tr (Some (Err e))) \/ traces t tr None) /\ x = None.
Proof.
  unfold wexpect. rewrite traces_pbind. split.
  - intros (tr1 & y & Ht & Hy). destruct y as [[a|e]|]; simpl in Hy.
    + destruct Hy as (? & -> & -> & ->). rewrite app_nil_r. eauto.
    + destruct Hy as (? & -> & -> & ->). rewrite app_nil_r. eauto.
    + destruct Hy as [-> ->]. eauto.
  - intros [(a & Ht & ->)|[[[e Ht]|Ht] ->]]; eexists tr, _; (split; [exact Ht|]); simpl; try done;
      exists []; by rewrite app_nil_r.
Qed.

Lemma traces_wmap_err {E F A} (f : E -> F) (t : W E A) tr x :
  traces (wmap_err f t) tr x <-> exists y, traces t tr y /\ x = map_err f <$> y.
Proof.
  unfold wmap_err. rewrite traces_pbind. split.
  - intros (tr1 & [a|] & Ht & Hy); simpl in Hy.
    + destruct Hy as (? & -> & -> & ->). rewrite app_nil_r. eauto.
    + destruct Hy as [-> ->]. eauto.
  - intros ([a|] & Ht & ->); eexists tr, _; (split; [exact Ht|]); simpl; [|done].
    exists []. by rewrite app_nil_r.
Qed.

(** The primitives in front of a continuation. *)
Lemma traces_bind_call {E B} o (k : resp o -> W E B) tr x :
  traces (wbind (wcall o) k) tr x <-> exists r tr', tr = obs o r :: tr' /\ traces (k r) tr' x.
Proof. done. Qed.

Lemma traces_bind_try {E A B} (e : E) (v : option A) (k : A -> W E B) tr x :
  traces (wbind (wtry e v) k) tr x <->
  match v with Some a => traces (k a) tr x | None => tr = [] /\ x = Some (Err e) end.
Proof. by destruct v. Qed.

Lemma traces_bind_unwrap {E A B} (v : option A) (k : A -> W E B) tr x :
  traces (wbind (wunwrap v) k) tr x <->
  match v with Some a => traces (k a) tr x | None => tr = [] /\ x = None end.
Proof. by destruct v. Qed.

Lemma traces_bind_result {E F A B} (f : E -> F) (v : result A E) (k : A -> W F B) tr x :
  traces (wbind (wresult f v) k) tr x <->
  match v with Ok a => traces (k a) tr x | Err e => tr = [] /\ x = Some (Err (f e)) end.
Proof. by destruct v. Qed.

Lemma traces_bind_ret {E A B} (a : A) (k : A -> W E B) tr x :
  traces (wbind (wret a) k) tr x <-> traces (k a) tr x.
Proof. done. Qed.

Lemma traces_bind_throw {E A B} (e : E) (k : A -> W E B) tr x :
  traces (wbind (wthrow e) k) tr x <-> tr = [] /\ x = Some (Err e).
Proof. done. Qed.

Lemma traces_bind_bind {E A B C} (t : W E A) (k : A -> W E B) (k' : B -> W E C) tr x :
  traces (wbind (wbind t k) k') tr x <-> traces (wbind t (fun a => wbind (k a) k')) tr x.
Proof.
  unfold wbind. revert tr. induction t as [[a|e]| |o h IH]; intros tr; simpl; [done..|].
  by setoid_rewrite IH.
Qed.

(** ** Programs that make only certain calls *)

Fixpoint calls_only {A} (P : Op -> Prop) (t : prog A) : Prop :=
  match t with
  | Do o k => P o /\ forall r, calls_only P (k r)
  | _ => True
  end.

Section calls_only.
Context (P : Op -> Prop).

Lemma calls_only_pbind {A B} (t : prog A) (k : A -> prog B) :
  calls_only P t -> (forall a, calls_only P (k a)) -> calls_only P (pbind t k).
Proof. intros Ht Hk. induction t as [a| |o k' IH]; simpl in *; [done..|]. naive_solver. Qed.

Lemma calls_only_wbind {E A B} (t : W E A) (k : A -> W E B) :
  calls_only P t -> (forall a, calls_only P (k a)) -> calls_only P (wbind t k).
Proof. intros Ht Hk. apply calls_only_pbind; [done|]. by intros [a|e]. Qed.

Lemma calls_only_wcall {E} o : P o -> calls_only P (wcall (E:=E) o).
Proof. done. Qed.

Lemma calls_only_wtry {E A} (e : E) (v : option A) : calls_only P (wtry e v).
Proof. by destruct v. Qed.

Lemma calls_only_wresult {E F A} (f : E -> F) (v : result A E) : calls_only P (wresult f v).
Proof. by destruct v. Qed.

Lemma calls_only_wunwrap {E A} (v : option A) : calls_only P (wunwrap (E:=E) v).
Proof. by destruct v. Qed.

Lemma calls_only_wexpect {E E' A} (t : W E A) : calls_only P t -> calls_only P (wexpect (E':=E') t).
Proof. intros Ht. apply calls_only_pbind; [done|]. by intros [a|e]. Qed.

Lemma calls_only_wmap_err {E F A} (f : E -> F) (t : W E A) :
  calls_only P t -> calls_only P (wmap_err f t).
Proof. intros Ht. by apply calls_only_pbind. Qed.

Lemma traces_calls_only {A} (t : prog A) tr x :
  calls_only P t -> traces t tr x -> Forall (fun y => P (projT1 y)) tr.
Proof.
  revert tr. induction t as [a| |o k IH]; intros tr; simpl; [by intros _ [-> _]..|].
  intros [Ho Hk] (r & tr' & -> & Ht). constructor; [done|]. by apply (IH r).
Qed.

End calls_only.

Lemma calls_only_impl {A} (P Q : Op -> Prop) (t : prog A) :
  (forall o, P o -> Q o) -> calls_only P t -> calls_only Q t.
Proof. intros HPQ. induction t as [a| |o k IH]; simpl; [done..|]. intros [Ho Hk]. split; auto. Qed.

(** ** The cost of a program *)

Section cost.
Context (w : Op -> Z).

(** Whatever is answered, the calls of the program cost at most [n] in all. *)
Fixpoint costs {A} (n : Z) (t : prog A) : Prop :=
  match t with
  | Do o k => forall r, costs (n - w o) (k r)
  | _ => (0 <= n)%Z
  end.

Definition cost (tr : list Obs) : Z := foldr (fun y c => w (projT1 y) + c)%Z 0%Z tr.

Lemma costs_mono {A} n m (t : prog A) : (n <= m)%Z -> costs n t -> costs m t.
Proof.
  revert n m. induction t as [a| |o k IH]; intros n m Hnm; simpl; [lia..|].
  intros Ht r. apply (IH r (n - w o)%Z); [lia|done].
Qed.

Lemma costs_pbind {A B} n m (t : prog A) (k : A -> prog B) :
  (0 <= m)%Z -> costs n t -> (forall a, costs m (k a)) -> costs (n + m) (pbind t k).
Proof.
  intros Hm. revert n. induction t as [a| |o k' IH]; intros n Ht Hk; simpl in *.
  - apply (costs_mono m); [lia|done].
  - lia.
  - intros r. replace (n + m - w o)%Z with (n - w o + m)%Z by lia. by apply IH.
Qed.

Lemma costs_wbind {E A B} n m (t : W E A) (k : A -> W E B) :
  (0 <= m)%Z -> costs n t -> (forall a, costs m (k a)) -> costs (n + m) (wbind t k).
Proof. intros Hm Ht Hk. apply costs_pbind; [done..|]. by intros [a|e]. Qed.

Lemma costs_call {E B} n o (k : resp o -> W E B) :
  (forall r, costs (n - w o) (k r)) -> costs n (wbind (wcall o) k).
Proof. done. Qed.

Lemma costs_try {E A B} n (e : E) (v : option A) (k : A -> W E B) :
  (0 <= n)%Z -> (forall a, costs n (k a)) -> costs n (wbind (wtry e v) k).
Proof. destruct v; [intros _ Hk; apply Hk|done]. Qed.

Lemma costs_unwrap {E A B} n (v : option A) (k : A -> W E B) :
  (0 <= n)%Z -> (forall a, costs n (k a)) -> costs n (wbind (wunwrap v) k).
Proof. destruct v; [intros _ Hk; apply Hk|done]. Qed.

Lemma costs_expect {E E' A} n (t : W E A) : costs n t -> costs n (wexpect (E' := E') t).
Proof.
  intros Ht. rewrite <-(Z.add_0_r n). apply costs_pbind; [lia|done|]. by intros [a|e].
Qed.

Lemma traces_cost {A} n (t : prog A) tr x : costs n t -> traces t tr x -> (cost tr <= n)%Z.
Proof.
  revert n tr. induction t as [a| |o k IH]; intros n tr Ht; simpl.
  - by intros [-> _].
  - by intros [-> _].
  - intros (r & tr' & -> & Htr). specialize (IH r _ _ (Ht r) Htr). simpl. lia.
Qed.

End cost.

(** ** Partial executions *)

(** [reach t tr t']: after the calls of [tr] the program [t] is left with [t']. *)
Inductive reach {A} (t : prog A) : list Obs -> prog A -> Prop :=
| reach_start : reach t [] t
| reach_call tr o k r : reach t tr (Do o k) -> reach t (tr ++ [obs o r]) (k r).

Lemma reach_traces {A} (t t' : prog A) tr tr' x :
  reach t tr t' -> traces t' tr' x -> traces t (tr ++ tr') x.
Proof.
  intros Hr. revert tr'. induction Hr as [|tr o k r _ IH]; intros tr' Ht; [done|].
  rewrite <-app_assoc. apply IH. by exists r, tr'.
Qed.

Lemma reach_trans {A} (t t' t'' : prog A) tr tr' :
  reach t tr t' -> reach t' tr' t'' -> reach t (tr ++ tr') t''.
Proof.
  intros Hr Hr'. induction Hr' as [|tr' o k r _ IH]; [by rewrite app_nil_r|].
  rewrite app_assoc. by constructor.
Qed.

Lemma traces_reach {A} (t : prog A) tr x : traces t tr x -> exists t', reach t tr t'.
Proof.
  revert tr. induction t as [a| |o k IH]; intros tr; simpl.
  - intros [-> _]. eexists. constructor.
  - intros [-> _]. eexists. constructor.
  - intros (r & tr' & -> & Ht). destruct (IH r tr' Ht) as [t' Ht']. exists t'.
    apply (reach_trans _ (k r) _ [obs o r]); [|done]. apply (reach_call _ []). constructor.
Qed.

Lemma reach_calls_only {A} (P : Op -> Prop) (t t' : prog A) tr :
  reach t tr t' -> calls_only P t -> calls_only P t'.
Proof. intros Hr Ht. induction Hr as [|tr o k r _ IH]; [done|]. apply IH. Qed.

(** Where every call can be answered, a partial execution can be completed. *)
Lemma reach_completes {A} (t t' : prog A) tr :
  (forall o, inhabited (resp o)) -> reach t tr t' -> exists tr' x, traces t (tr ++ tr') x.
Proof.
  intros Hinh Hr. assert (exists tr' x, traces t' tr' x) as (tr' & x & Ht).
  { clear Hr. induction t' as [a| |o k IH]; [by eexists [], _..|]. destruct (Hinh o) as [r].
    destruct (IH r) as (tr' & x & Ht). by exists (obs o r :: tr'), x, r, tr'. }
  exists tr', x. by apply (reach_traces _ t').
Qed.

(** ** Execution *)

(** A host with its state. *)
Definition host (S : Type) : Type := forall o : Op, S -> resp o * S.

Fixpoint run {S A} (h : host S) (t : prog A) (s : S) (tr : list Obs) : option A * S * list Obs :=
  match t with
  | Done a => (Some a, s, tr)
  | Panic => (None, s, tr)
  | Do o k => let (r, s') := h o s in run h (k r) s' (tr ++ [obs o r])
  end.

Lemma run_app {S A} (h : host S) (t : prog A) s tr :
  run h t s tr = (fst (run h t s []), tr ++ snd (run h t s [])).
Proof.
  revert s tr. induction t as [a| |o k IH]; intros s tr; simpl; [by rewrite app_nil_r..|].
  destruct (h o s) as [r s']. rewrite IH, (IH r s' [obs o r]). simpl. by rewrite <-app_assoc.
Qed.

(** A run is one of the traces. *)
Lemma run_traces {S A} (h : host S) (t : prog A) s :
  traces t (snd (run h t s [])) (fst (fst (run h t s []))).
Proof.
  revert s. induction t as [a| |o k IH]; intros s; simpl; [done..|].
  destruct (h o s) as [r s']. exists r, (snd (run h (k r) s' [])). rewrite run_app. simpl. auto.
Qed.

(** A host that may leave a call without an answer. *)
Definition blocking_host (S : Type) : Type := forall o : Op, S -> option (resp o * S).

(** The program ends, with a value or in a panic, or it waits for the answer to a
    call for ever. *)
Variant ending (A : Type) : Type :=
| Ended (x : option A)
| Waiting (o : Op).
Arguments Ended {A} x.
Arguments Waiting {A} o.

Fixpoint attempt {S A} (h : blocking_host S) (t : prog A) (s : S) (tr : list Obs) : ending A * list Obs :=
  match t with
  | Done a => (Ended (Some a), tr)
  | Panic => (Ended None, tr)
  | Do o k =>
      match h o s with
      | Some (r, s') => attempt h (k r) s' (tr ++ [obs o r])
      | None => (Waiting o, tr)
      end
  end.

(** Where an execution ends or stays. *)
Lemma attempt_reach {S A} (h : blocking_host S) (t t' : prog A) s tr :
  reach t tr t' ->
  match attempt h t' s tr with
  | (Ended x, tr') => traces t tr' x
  | (Waiting o, tr') => (exists k, reach t tr' (Do o k)) /\ exists s', h o s' = None
  end.
Proof.
  revert s tr. induction t' as [a| |o k IH]; intros s tr Hr; simpl.
  - rewrite <-(app_nil_r tr). by apply (reach_traces _ (Done a)).
  - rewrite <-(app_nil_r tr). by apply (reach_traces _ Panic).
  - destruct (h o s) as [[r s']|] eqn:Ho; [apply IH; by constructor|]. by split; [exists k|exists s].
Qed.

End prog.

Arguments prog {Op} resp A.
Arguments Done {Op resp A} a.
Arguments Panic {Op resp A}.
Arguments Do {Op resp A} o k.
Arguments W {Op} resp E A.
Arguments Obs {Op} resp.
Arguments host {Op} resp S.
Arguments blocking_host {Op} resp S.
Arguments Ended {Op A} x.
Arguments Waiting {Op A} o.

End Effects.

#[export] Hint Resolve Effects.calls_only_pbind Effects.calls_only_wbind Effects.calls_only_wcall
  Effects.calls_only_wtry Effects.calls_only_wunwrap Effects.calls_only_wresult
  Effects.calls_only_wexpect Effects.calls_only_wmap_err : effects.
#[export] Hint Extern 0 (Effects.calls_only _ (Effects.Done _)) => exact I : effects.

(** Splits [calls_only] along a program, down to its calls. *)
Ltac only_calls :=
  repeat (cbv beta zeta;
  lazymatch goal with
  | |- Effects.calls_only _ (Effects.wbind _ _) => apply Effects.calls_only_wbind; [|intros ?]
  | |- Effects.calls_only _ (Effects.wcall _) => apply Effects.calls_only_wcall
  | |- Effects.calls_only _ (Effects.wresult _ _) => apply Effects.calls_only_wresult
  | |- Effects.calls_only _ (Effects.wunwrap _) => apply Effects.calls_only_wunwrap
  | |- Effects.calls_only _ (Effects.wmap_err _ _) => apply Effects.calls_only_wmap_err
  | |- Effects.calls_only _ (Effects.wret _) => exact I
  | |- Effects.calls_only _ (Effects.wthrow _) => exact I
  | |- Effects.calls_only _ (match ?b with _ => _ end) => destruct b
  end).

(** One step of symbolic execution of a trace [H]; [repeat exec H] follows every
    path of a program to its end, with one goal for each. *)
Ltac exec H :=
  cbv beta zeta in H;
  lazymatch type of H with
  | Effects.traces (Effects.wbind (Effects.wcall _) _) _ _ =>
      let r := fresh "r" in let t := fresh "tr" in
      apply (proj1 (Effects.traces_bind_call _ _ _ _)) in H; destruct H as (r & t & -> & H)
  | Effects.traces (Effects.wbind (Effects.wresult _ ?r) _) _ _ =>
      let v := fresh "v" in let e := fresh "e" in
      apply (proj1 (Effects.traces_bind_result _ _ _ _ _)) in H;
      destruct r as [v|e]; [|destruct H as [-> ->]]
  | Effects.traces (Effects.wbind (Effects.wret _) _) _ _ =>
      apply (proj1 (Effects.traces_bind_ret _ _ _ _)) in H
  | Effects.traces (Effects.wbind (Effects.wthrow _) _) _ _ =>
      apply (proj1 (Effects.traces_bind_throw _ _ _ _)) in H; destruct H as [-> ->]
  | Effects.traces (Effects.wbind (Effects.wunwrap ?v) _) _ _ =>
      apply (proj1 (Effects.traces_bind_unwrap _ _ _ _)) in H;
      destruct v eqn:?; [|destruct H as [-> ->]]
  | Effects.traces (Effects.wbind (Effects.wbind _ _) _) _ _ =>
      apply (proj1 (Effects.traces_bind_bind _ _ _ _ _)) in H
  | Effects.traces (Effects.wbind (match ?b with _ => _ end) _) _ _ => destruct b eqn:?
  | Effects.traces (match ?b with _ => _ end) _ _ => destruct b eqn:?
  | Effects.traces (Effects.wret _) _ _ => destruct H as [-> ->]
  | Effects.traces (Effects.wthrow _) _ _ => destruct H as [-> ->]
  | Effects.traces (Effects.wcall _) _ _ =>
      let r := fresh "r" in let t := fresh "tr" in destruct H as (r & t & -> & -> & ->)
  end.

Notation "'let?' x := t 'in' k" := (Effects.wbind t (fun x => k))
  (at level 10, x name, t at level 100, k at level 200) : supra_scope.
Notation "'run?' t 'in' k" := (Effects.wbind t (fun _ => k))
  (at level 10, t at level 100, k at level 200) : supra_scope.
