(* ===== verification/Offchain.v ===== *)
(** * Off-chain workers

    A worker talks to its host: time, HTTP, persistent local storage, storage
    locks and the transaction pool ([sp_io::offchain], [sp_runtime::offchain]
    and [frame_system::offchain], none of them in the repository).  This file
    has the signature of those calls and what can be observed on a trace of
    them: the requests sent, the transactions submitted, the values stored and
    the state of the lock.  [HttpBody] is the whole of
    [response.body().collect()]: the library reads the body piece by piece, with
    no deadline, so this call alone may take any time or never return. *)

From S2P Require Import Prelude Effects.

Module Offchain.
Export Effects.

Variant Method := Get | Post.

(** [http::Request] when it is sent. *)
Record HttpRequest : Type := {
  req_method : Method;
  req_url : bytes;
  req_body : list bytes;
  req_headers : list (bytes * bytes);
  req_deadline : Z
}.

(** [PendingRequest::try_wait]: the deadline passed, the request failed, or a
    response with its status code came in. *)
Variant Wait := WaitDeadline | WaitFailed | WaitResponse (code : Z).

Section prog.
Context {C : Type}.

(** The calls a worker makes; [C] is the type of the dispatchables it submits. *)
Inductive Op : Type :=
| Timestamp
| HttpSend (r : HttpRequest)
| HttpTryWait (pending : Z) (deadline : Z)
| HttpBody (pending : Z)
| StorageGet (key : bytes)
| StorageSet (key value : bytes)
| TryLock (key : bytes) (block_expiration : Z) (time_expiration : Z)
| Unlock (key : bytes)
| SubmitUnsigned (call : C).

Definition resp (o : Op) : Type :=
  match o with
  | Timestamp => Z
  | HttpSend _ => option Z
  | HttpTryWait _ _ => Wait
  | HttpBody _ => bytes
  | StorageGet _ => option bytes
  | StorageSet _ _ => unit
  | TryLock _ _ _ => bool
  | Unlock _ => unit
  | SubmitUnsigned _ => bool
  end.

Lemma answer_any (o : Op) : inhabited (resp o).
Proof. destruct o; constructor; simpl; try constructor; exact None || exact 0%Z. Qed.

#[local] Abbreviation Obs := (Effects.Obs resp).

(** ** Observations on a trace *)

Definition sent_of (x : Obs) : option HttpRequest :=
  match projT1 x with HttpSend r => Some r | _ => None end.
Definition sent (tr : list Obs) : list HttpRequest := omap sent_of tr.

Definition submitted_of (x : Obs) : option C :=
  match projT1 x with SubmitUnsigned c => Some c | _ => None end.
Definition submitted (tr : list Obs) : list C := omap submitted_of tr.

Definition stored_of (x : Obs) : option (bytes * bytes) :=
  match projT1 x with StorageSet k v => Some (k, v) | _ => None end.
Definition stored (tr : list Obs) : list (bytes * bytes) := omap stored_of tr.

(** The requests the host did not even start. *)
Definition refused_of (x : Obs) : option HttpRequest :=
  match x with existT (HttpSend r) None => Some r | _ => None end.
Definition refused (tr : list Obs) : list HttpRequest := omap refused_of tr.

(** The lock after a trace, given whether it was held before: a successful
    [TryLock] takes it, an [Unlock] gives it back. *)
Definition lock_step (held : bool) (x : Obs) : bool :=
  match x with
  | existT (TryLock _ _ _) b => (b : bool) || held
  | existT (Unlock _) _ => false
  | _ => held
  end.
Definition held (before : bool) (tr : list Obs) : bool := foldl lock_step before tr.

(** Every call of a trace satisfies [P], given whether the lock is held when it
    is made. *)
Fixpoint along (P : bool -> Op -> Prop) (before : bool) (tr : list Obs) : Prop :=
  match tr with
  | [] => True
  | x :: tr' => P before (projT1 x) /\ along P (lock_step before x) tr'
  end.

Lemma sent_app tr1 tr2 : sent (tr1 ++ tr2) = sent tr1 ++ sent tr2.
Proof. apply omap_app. Qed.

Lemma submitted_app tr1 tr2 : submitted (tr1 ++ tr2) = submitted tr1 ++ submitted tr2.
Proof. apply omap_app. Qed.

Lemma refused_app tr1 tr2 : refused (tr1 ++ tr2) = refused tr1 ++ refused tr2.
Proof. apply omap_app. Qed.

Lemma refused_sent tr r : r ∈ refused tr -> r ∈ sent tr.
Proof.
  unfold refused, sent. rewrite !list_elem_of_omap. intros ([o y] & Hin & Hr). exists (existT o y). split; [done|].
  destruct o; try done. destruct y; [done|]. exact Hr.
Qed.

Lemma stored_app tr1 tr2 : stored (tr1 ++ tr2) = stored tr1 ++ stored tr2.
Proof. apply omap_app. Qed.

Lemma held_app b tr1 tr2 : held b (tr1 ++ tr2) = held (held b tr1) tr2.
Proof. apply foldl_app. Qed.

Lemma along_app P b tr1 tr2 : along P b (tr1 ++ tr2) <-> along P b tr1 /\ along P (held b tr1) tr2.
Proof.
  revert b. induction tr1 as [|x tr1 IH]; intros b; simpl; [naive_solver|]. rewrite IH. naive_solver.
Qed.

(** The calls that only read the clock or talk HTTP. *)
Definition is_http (o : Op) : Prop :=
  match o with Timestamp | HttpSend _ | HttpTryWait _ _ | HttpBody _ => True | _ => False end.

(** They leave the pool, the storage and the lock alone. *)
Lemma http_quiet tr :
  Forall (fun y => is_http (projT1 y)) tr ->
  submitted tr = [] /\ stored tr = [] /\ forall b, held b tr = b.
Proof.
  induction 1 as [|[o r] tr Ho _ (IH1 & IH2 & IH3)]; [done|].
  unfold submitted, stored in *. by destruct o; simpl.
Qed.

Lemma http_along (P : bool -> Op -> Prop) b tr :
  (forall o, is_http o -> match o with HttpSend _ => True | _ => P b o end) ->
  Forall (fun y => is_http (projT1 y)) tr -> Forall (P b) (HttpSend <$> sent tr) ->
  along P b tr.
Proof.
  intros HP. induction 1 as [|[o r] tr Ho _ IH]; [done|]. specialize (HP o Ho).
  destruct o; simpl in *; try done; try (intros; split; [done|]; by apply IH).
  intros Hs. apply Forall_cons in Hs as [? ?]. split; [done|]. by apply IH.
Qed.

End prog.

Arguments Op : clear implicits.

Abbreviation prog C := (Effects.prog (@resp C)).
Abbreviation W C := (Effects.W (@resp C)).
Abbreviation Obs C := (Effects.Obs (@resp C)).
Abbreviation host C := (Effects.host (@resp C)).
Abbreviation blocking_host C := (Effects.blocking_host (@resp C)).
Abbreviation call o := (Effects.call (resp := resp) o).
Abbreviation wcall o := (Effects.wcall (resp := resp) o).
Abbreviation obs o r := (Effects.obs (resp := resp) o r).

End Offchain.

#[export] Hint Extern 0 (Offchain.is_http _) => exact I : effects.
