(* ===== verification/Client.v ===== *)
(** * The light client pallet (client/src/lib.rs)

    The dispatchables, the off-chain price worker, the unsigned transaction
    filter and the JSON and SCALE forms of the pallet's data.  The worker is a
    program over the calls of [Offchain]; logging is left out.  [serde_json],
    the SCALE codec of the fields and the host's clock arithmetic are
    parameters. *)

From S2P Require Import Prelude Frame Str Num Scale Json Effects Offchain.
From Stdlib Require Import Strings.String.
Import Str Num Offchain.
Local Open Scope Z_scope.
Local Open Scope supra_scope.

Module Client.

(** ** Constants *)

Definition KEY_TYPE : bytes := lit "demo".
Definition UNSIGNED_TXS_PRIORITY : Z := 100.
Definition HTTP_REMOTE_REQUEST : bytes :=
  lit "https://api.pro.coinbase.com/products/ETH-USD/ticker".
Definition HTTP_HEADER_USER_AGENT : bytes := lit "jaminu71@gmail.com".
Definition HTTP_ETHEREUM_HOST : bytes := lit "http://127.0.0.1:8080".
Definition FETCH_TIMEOUT_PERIOD : Z := 3000.
Definition LOCK_TIMEOUT_EXPIRATION : Z := FETCH_TIMEOUT_PERIOD + 1000.
Definition LOCK_BLOCK_EXPIRATION : Z := 3.
Definition ONCHAIN_TX_KEY : bytes := lit "ocw-demo::storage::tx".

(** The literals of [update_ethereum_price_worker]. *)
Definition INFO_KEY : bytes := lit "ocw-demo::ethereum-info".
Definition LOCK_KEY : bytes := lit "ocw-demo::lock".

(** ** Data *)

Record Payload (Public : Type) : Type := { number : Z; public : Public }.
Arguments number {Public} _.
Arguments public {Public} _.

Record EthPayLoad : Type := {
  epl_eth_host : bytes;
  epl_from_address : bytes;
  epl_to_address : bytes
}.

(** The tuple structs written to the off-chain index. *)
Definition IndexingData : Type := bytes * Z.
Definition IndexingPriceData : Type := bytes * bytes.
Definition IndexingPriceFlag : Type := bytes * bytes * bytes * bytes.

Record LightClient : Type := { price : bytes; time : bytes }.

Record EthParams : Type := {
  ep_from : bytes;
  ep_to : bytes;
  ep_data : bytes;
  ep_value : bytes;
  ep_gas : bytes;
  ep_gas_price : bytes
}.

Record EthTransaction : Type := {
  et_jsonrpc : bytes;
  et_id : Z;
  et_method : bytes;
  et_params : list EthParams
}.

Record GasRequestParam : Type := {
  gp_from : bytes;
  gp_to : bytes;
  gp_data : bytes;
  gp_value : bytes
}.

Record EstimateGasRequest : Type := {
  eg_jsonrpc : bytes;
  eg_id : Z;
  eg_method : bytes;
  eg_params : list GasRequestParam
}.

Record EthResult : Type := { er_jsonrpc : bytes; er_id : Z; er_result : bytes }.

Variant Error :=
| UnknownOffchainMux
| NoLocalAcctForSigning
| OffchainSignedTxError
| OffchainUnsignedTxError
| OffchainUnsignedTxSignedPayloadError
| HttpFetchingError
| HttpNotParsedInStruct
| ParseFloatError
| GetParamError.

#[export] Instance Error_eq_dec : EqDecision Error.
Proof. solve_decision. Defined.

(** ** [Deserialize] *)

Definition de_string_to_bytes (de : json) : option bytes := de_str de.

Definition de_LightClient (j : json) : option LightClient :=
  js ← struct_fields [lit "price"; lit "time"] j;
  match js with
  | [j1; j2] =>
      p ← de_string_to_bytes j1; t ← de_string_to_bytes j2; Some {| price := p; time := t |}
  | _ => None
  end.

Definition de_EthParams (j : json) : option EthParams :=
  js ← struct_fields
         [lit "from"; lit "to"; lit "data"; lit "value"; lit "gas"; lit "gasPrice"] j;
  match js with
  | [j1; j2; j3; j4; j5; j6] =>
      from ← de_string_to_bytes j1;
      to ← de_string_to_bytes j2;
      data ← de_string_to_bytes j3;
      value ← de_string_to_bytes j4;
      gas ← de_string_to_bytes j5;
      gas_price ← de_string_to_bytes j6;
      Some {| ep_from := from; ep_to := to; ep_data := data; ep_value := value;
              ep_gas := gas; ep_gas_price := gas_price |}
  | _ => None
  end.

Definition de_EthTransaction (j : json) : option EthTransaction :=
  js ← struct_fields [lit "jsonrpc"; lit "id"; lit "method"; lit "params"] j;
  match js with
  | [j1; j2; j3; j4] =>
      jsonrpc ← de_string_to_bytes j1;
      id ← de_u8 j2;
      method ← de_string_to_bytes j3;
      params ← de_vec de_EthParams j4;
      Some {| et_jsonrpc := jsonrpc; et_id := id; et_method := method; et_params := params |}
  | _ => None
  end.

Definition de_GasRequestParam (j : json) : option GasRequestParam :=
  js ← struct_fields [lit "from"; lit "to"; lit "data"; lit "value"] j;
  match js with
  | [j1; j2; j3; j4] =>
      from ← de_string_to_bytes j1;
      to ← de_string_to_bytes j2;
      data ← de_string_to_bytes j3;
      value ← de_string_to_bytes j4;
      Some {| gp_from := from; gp_to := to; gp_data := data; gp_value := value |}
  | _ => None
  end.

Definition de_EstimateGasRequest (j : json) : option EstimateGasRequest :=
  js ← struct_fields [lit "jsonrpc"; lit "id"; lit "method"; lit "params"] j;
  match js with
  | [j1; j2; j3; j4] =>
      jsonrpc ← de_string_to_bytes j1;
      id ← de_u8 j2;
      method ← de_string_to_bytes j3;
      params ← de_vec de_GasRequestParam j4;
      Some {| eg_jsonrpc := jsonrpc; eg_id := id; eg_method := method; eg_params := params |}
  | _ => None
  end.

Definition de_EthResult (j : json) : option EthResult :=
  js ← struct_fields [lit "jsonrpc"; lit "id"; lit "result"] j;
  match js with
  | [j1; j2; j3] =>
      jsonrpc ← de_string_to_bytes j1;
      id ← de_u8 j2;
      result ← de_string_to_bytes j3;
      Some {| er_jsonrpc := jsonrpc; er_id := id; er_result := result |}
  | _ => None
  end.

(** ** [Serialize]

    [None] is the panic of [str::from_utf8(..).unwrap()]. *)

Definition ser_EthParams (p : EthParams) : option ser :=
  from ← ser_utf8 (ep_from p);
  to ← ser_utf8 (ep_to p);
  data ← ser_utf8 (ep_data p);
  value ← ser_utf8 (ep_value p);
  gas ← ser_utf8 (ep_gas p);
  gas_price ← ser_utf8 (ep_gas_price p);
  Some (SStruct [(lit "from", from); (lit "to", to); (lit "data", data); (lit "value", value);
              (lit "gas", gas); (lit "gasPrice", gas_price)]).

Definition ser_EthTransaction (t : EthTransaction) : option ser :=
  jsonrpc ← ser_utf8 (et_jsonrpc t);
  method ← ser_utf8 (et_method t);
  params ← mapM ser_EthParams (et_params t);
  Some (SStruct [(lit "jsonrpc", jsonrpc); (lit "id", SU8 (et_id t)); (lit "method", method);
              (lit "params", SSeq params)]).

Definition ser_GasRequestParam (p : GasRequestParam) : option ser :=
  from ← ser_utf8 (gp_from p);
  to ← ser_utf8 (gp_to p);
  data ← ser_utf8 (gp_data p);
  value ← ser_utf8 (gp_value p);
  Some (SStruct [(lit "from", from); (lit "to", to); (lit "data", data); (lit "value", value)]).

Definition ser_EstimateGasRequest (r : EstimateGasRequest) : option ser :=
  jsonrpc ← ser_utf8 (eg_jsonrpc r);
  method ← ser_utf8 (eg_method r);
  params ← mapM ser_GasRequestParam (eg_params r);
  Some (SStruct [(lit "jsonrpc", jsonrpc); (lit "id", SU8 (eg_id r)); (lit "method", method);
              (lit "params", SSeq params)]).

(** [#[derive(Serialize)]]: a [Vec<u8>] field is an array of numbers. *)
Definition ser_EthResult (r : EthResult) : ser :=
  let ser_vec v := SSeq (map (fun b => SU8 (byte_val b)) v) in
  SStruct [(lit "jsonrpc", ser_vec (er_jsonrpc r)); (lit "id", SU8 (er_id r));
        (lit "result", ser_vec (er_result r))].

(** ** [fmt::Debug]

    [None] is [fmt::Error]. *)

Definition fmt_LightClient (d : LightClient) : option bytes :=
  p ← from_utf8 (price d);
  t ← from_utf8 (time d);
  Some (lit "{ price: " ++ p ++ lit ", time: " ++ t ++ lit " }").

Definition fmt_EthParams (p : EthParams) : option bytes :=
  from ← from_utf8 (ep_from p);
  to ← from_utf8 (ep_to p);
  data ← from_utf8 (ep_data p);
  value ← from_utf8 (ep_value p);
  gas ← from_utf8 (ep_gas p);
  gas_price ← from_utf8 (ep_gas_price p);
  Some (lit "{ from: " ++ from ++ lit ", to: " ++ to ++ lit ", data: " ++ data ++ lit ", value: "
        ++ value ++ lit ",gas: " ++ gas ++ lit ", gasPrice: " ++ gas_price ++ lit " }").

Definition fmt_GasRequestParam (p : GasRequestParam) : option bytes :=
  from ← from_utf8 (gp_from p);
  to ← from_utf8 (gp_to p);
  data ← from_utf8 (gp_data p);
  value ← from_utf8 (gp_value p);
  Some (lit "{ from: " ++ from ++ lit ", to: " ++ to ++ lit ", data: " ++ data ++ lit ", value: "
        ++ value ++ lit " }").

(** [{:?}] on a [Vec<T>] *)
Fixpoint fmt_items (items : list bytes) : bytes :=
  match items with
  | [] => []
  | [t] => t
  | t :: items' => t ++ lit ", " ++ fmt_items items'
  end.
Definition fmt_vec {A} (fmt : A -> option bytes) (v : list A) : option bytes :=
  items ← mapM fmt v; Some (lit "[" ++ fmt_items items ++ lit "]").

Definition fmt_request {A} (fmt : A -> option bytes) (jsonrpc : bytes) (id : Z) (method : bytes)
    (params : list A) : option bytes :=
  jsonrpc ← from_utf8 jsonrpc;
  method ← from_utf8 method;
  params ← fmt_vec fmt params;
  Some (lit "{ jsonrpc: " ++ jsonrpc ++ lit ", id: " ++ to_dec id ++ lit ",method: " ++ method
        ++ lit ",params: [" ++ params ++ lit "]  }").

Definition fmt_EthTransaction (t : EthTransaction) : option bytes :=
  fmt_request fmt_EthParams (et_jsonrpc t) (et_id t) (et_method t) (et_params t).

Definition fmt_EstimateGasRequest (r : EstimateGasRequest) : option bytes :=
  fmt_request fmt_GasRequestParam (eg_jsonrpc r) (eg_id r) (eg_method r) (eg_params r).

Definition fmt_EthResult (r : EthResult) : option bytes :=
  jsonrpc ← from_utf8 (er_jsonrpc r);
  result ← from_utf8 (er_result r);
  Some (lit "{ jsonrpc: " ++ jsonrpc ++ lit ", id: " ++ to_dec (er_id r) ++ lit ",result: "
        ++ result ++ lit " }").

(** ** The pallet *)

Section pallet.
Context `{F : FrameSystem} `{FS : FrameStorage} `{J : SerdeJson}.
Context {block_codec : Codec BlockNumber} {bytes_codec : Codec bytes}.
(** [Timestamp::add] of the host's clock. *)
Context (timestamp_add : Z -> Z -> Z).
Implicit Types (origin : Origin) (now block_number : BlockNumber).

Inductive Event : Type :=
| NewNumber (who : option AccountId) (n : Z)
| UpdateEthereumPrice (who : option AccountId)
| SubmitEthereumPrice (who : option AccountId) (ethereum_price : bytes).

(** The storage, what [offchain_index::set] wrote and the events deposited so
    far, both oldest first. *)
Record Store : Type := {
  Numbers : StorageValue (list Z);
  Indexed : list (bytes * bytes);
  Events : list Event
}.

Definition D (A : Type) : Type := M Store (DispatchError Error) A.

Definition numbers (s : Store) : list Z := sv_get (Numbers s).
Definition offchain_index_set (key value : bytes) : D unit :=
  modify (fun s => {| Numbers := Numbers s; Indexed := Indexed s ++ [(key, value)];
                      Events := Events s |}).
Definition deposit_event (e : Event) : D unit :=
  modify (fun s => {| Numbers := Numbers s; Indexed := Indexed s; Events := Events s ++ [e] |}).

Definition absent_store : Store := {| Numbers := sv_absent; Indexed := []; Events := [] |}.

Definition derived_key block_number : bytes :=
  ONCHAIN_TX_KEY ++ lit "/" ++ encode block_number.

(** [now] is what [frame_system::Module::<T>::block_number()] returns. *)
Definition submit_ethereum_price now origin (ethereum_price : bytes) : D unit :=
  run! try_origin (ensure_none origin) in
  let key := derived_key now in
  let data : IndexingPriceData := (lit "submit_ethereum_price", ethereum_price) in
  run! offchain_index_set key (encode data) in
  deposit_event (SubmitEthereumPrice None ethereum_price).

Definition update_ethereum_price now origin (eth_host from_address to_address : bytes) : D unit :=
  let! who := try_origin (ensure_signed origin) in
  let key := derived_key now in
  let data : IndexingPriceFlag :=
    (lit "update_ethereum_price", eth_host, from_address, to_address) in
  run! offchain_index_set key (encode data) in
  deposit_event (UpdateEthereumPrice (Some who)).

Inductive Call : Type :=
| Call_submit_ethereum_price (ethereum_price : bytes)
| Call_update_ethereum_price (eth_host from_address to_address : bytes).

Definition dispatch now (c : Call) origin : D unit :=
  match c with
  | Call_submit_ethereum_price ethereum_price => submit_ethereum_price now origin ethereum_price
  | Call_update_ethereum_price eth_host from_address to_address =>
      update_ethereum_price now origin eth_host from_address to_address
  end.

(** The [#[weight = 10000]] attributes. *)
Definition call_weight (c : Call) : Z := 10000.

(** ** HTTP *)

(** What follows the construction of a request in its three uses: the deadline,
    the sending, the wait up to the deadline, the status check, and the body,
    which is collected without a deadline. *)
Definition http_exchange (request : Z -> HttpRequest) : W Call Error bytes :=
  let? t := wcall Timestamp in
  let timeout := timestamp_add t FETCH_TIMEOUT_PERIOD in
  let? sent := wcall (HttpSend (request timeout)) in
  let? pending := wtry HttpFetchingError sent in
  let? waited := wcall (HttpTryWait pending timeout) in
  match waited with
  | WaitDeadline | WaitFailed => wthrow HttpFetchingError
  | WaitResponse code =>
      if negb (code =? 200) then wthrow HttpFetchingError else wcall (HttpBody pending)
  end.

(** [Request::post(url, vec![body])] with its header and deadline. *)
Definition post_json (url body : bytes) (timeout : Z) : HttpRequest := {|
  req_method := Post;
  req_url := url;
  req_body := [body];
  req_headers := [(lit "Content-Type", lit "application/json")];
  req_deadline := timeout
|}.

Definition fetch_from_remote : W Call Error bytes :=
  http_exchange (fun timeout => {|
    req_method := Get;
    req_url := HTTP_REMOTE_REQUEST;
    req_body := [];
    req_headers := [(lit "User-Agent", HTTP_HEADER_USER_AGENT)];
    req_deadline := timeout
  |}).

Definition fetch_n_parse : W Call Error LightClient :=
  let? resp_bytes := pbind fetch_from_remote (fun r => Done (map_err (fun _ => HttpFetchingError) r)) in
  let? resp_str := wtry HttpFetchingError (from_utf8 resp_bytes) in
  wtry HttpNotParsedInStruct (from_str resp_str ≫= de_LightClient).

(** ** Submission to Ethereum *)

Definition gas_request (data from_address to_address : bytes) : EstimateGasRequest := {|
  eg_jsonrpc := lit "2.0";
  eg_id := 20;
  eg_method := lit "eth_estimateGas";
  eg_params := [{| gp_from := from_address; gp_to := to_address; gp_data := data;
                   gp_value := lit "0x0" |}]
|}.

Definition get_estimated_gas (data from_address to_address : bytes) : W Call Error bytes :=
  let? j := wunwrap (ser_EstimateGasRequest (gas_request data from_address to_address)) in
  let? body := wtry HttpNotParsedInStruct (to_vec j) in
  run? wtry HttpFetchingError (from_utf8 body) in
  http_exchange (post_json HTTP_ETHEREUM_HOST body).

(** [format!("0xd423740b{}{}", "0".repeat(64 - param.len()), param)]; the
    subtraction on [usize] panics below zero. *)
Definition call_data (price_int : Z) : option bytes :=
  let param := to_hex price_int in
  let pad := 64 - Z.of_nat (List.length param) in
  if pad <? 0 then None else Some (lit "0xd423740b" ++ zeros pad ++ param).

Definition eth_transaction (data from_address to_address gas : bytes) : EthTransaction := {|
  et_jsonrpc := lit "2.0";
  et_id := 2;
  et_method := lit "eth_sendTransaction";
  et_params := [{| ep_from := from_address; ep_to := to_address; ep_data := data;
                   ep_value := lit "0x0"; ep_gas := gas; ep_gas_price := lit "0x1" |}]
|}.

(** [serde_json::to_vec], the request and its response. *)
Definition send_transaction (t : EthTransaction) (eth_host : bytes) : W Call Error bytes :=
  let? j := wunwrap (ser_EthTransaction t) in
  let? body := wtry HttpNotParsedInStruct (to_vec j) in
  run? wtry HttpFetchingError (from_utf8 body) in
  http_exchange (post_json eth_host body).

Definition submt_price_to_ethereum (price eth_host from_address to_address : bytes) :
    W Call Error bytes :=
  let? price_in_string := wtry HttpFetchingError (from_utf8 price) in
  let? price_float := wtry ParseFloatError (parse_f32 price_in_string) in
  let price_int := f32_as_u32 price_float in
  let? data := wunwrap (call_data price_int) in
  let? gas_result := wexpect (get_estimated_gas data from_address to_address) in
  let? gas_result_str := wunwrap (from_utf8 gas_result) in
  let? gas_result_struct := wunwrap (from_str gas_result_str ≫= de_EthResult) in
  send_transaction (eth_transaction data from_address to_address (er_result gas_result_struct))
    eth_host.

(** ** The worker *)

(** The three answers of [StorageValueRef::get], as its documentation gives
    them: absent, not decodable, or a value. *)
Definition storage_value_get {A} `{Codec A} (v : option bytes) : option (option A) :=
  match v with
  | None => None
  | Some raw => Some (fst <$> decode raw)
  end.

#[export] Instance LightClient_codec : Codec LightClient := {
  encode d := encode (price d, time d);
  decode l :=
    match decode l with
    | Some ((p, t), rest) => Some ({| price := p; time := t |}, rest)
    | None => None
    end
}.

(** The body of [if let Ok(_guard) = lock.try_lock()]; the guard is dropped,
    which unlocks, on both ways out. *)
Definition refresh_price : W Call Error unit :=
  pbind fetch_n_parse (fun r =>
    match r with
    | Ok data =>
        run? wcall (StorageSet INFO_KEY (encode data)) in
        wcall (Unlock LOCK_KEY)
    | Err err =>
        run? wcall (Unlock LOCK_KEY) in
        wthrow err
    end).

(** The price to submit, from what is stored. *)
Definition final_price (stored : option bytes) : bytes :=
  match storage_value_get stored with
  | Some (Some d) => price d
  | _ => lit "0"
  end.

(** The second half of the worker: post the price, then submit it on chain. *)
Definition publish_price (final_price eth_host from_address to_address : bytes) :
    W Call Error unit :=
  let? result := submt_price_to_ethereum final_price eth_host from_address to_address in
  run? wtry HttpFetchingError (from_utf8 result) in
  let? submitted := wcall (SubmitUnsigned (Call_submit_ethereum_price final_price)) in
  if submitted : bool then wret tt else wthrow OffchainUnsignedTxError.

Definition update_ethereum_price_worker (eth_host from_address to_address : bytes) :
    W Call Error unit :=
  let? locked := wcall (TryLock LOCK_KEY LOCK_BLOCK_EXPIRATION LOCK_TIMEOUT_EXPIRATION) in
  run? (if locked : bool then refresh_price else wret tt) in
  let? stored := wcall (StorageGet INFO_KEY) in
  publish_price (final_price stored) eth_host from_address to_address.

(** What the worker does with the value of the block's index entry. *)
Definition on_index (value : option bytes) : prog Call unit :=
  match storage_value_get (A := IndexingPriceFlag) value with
  | Some (Some (name, host, from, to)) =>
      let tran_name := from_utf8_or_error name in
      if bool_decide (tran_name = lit "update_ethereum_price") then
        let eth_host := lit "0x" ++ from_utf8_or_error host in
        let from_address := lit "0x" ++ from_utf8_or_error from in
        let to_address := lit "0x" ++ from_utf8_or_error to in
        pbind (update_ethereum_price_worker eth_host from_address to_address) (fun _ => Done tt)
      else Done tt
  | _ => Done tt
  end.

Definition offchain_worker block_number : prog Call unit :=
  pbind (call (StorageGet (derived_key block_number))) on_index.

(** ** Unsigned transactions *)

Variant TransactionSource := InBlock | Local | External.

(** What the pallet gives to the builder of a [ValidTransaction]. *)
Record ValidTransaction : Type := {
  vt_tag_prefix : bytes;
  vt_priority : Z;
  vt_provides : list bytes;
  vt_longevity : Z;
  vt_propagate : bool
}.

Variant InvalidTransaction := InvalidCall.

Definition validate_unsigned (source : TransactionSource) (c : Call) :
    result ValidTransaction InvalidTransaction :=
  let valid_tx provide := Ok {|
    vt_tag_prefix := lit "ocw-demo";
    vt_priority := UNSIGNED_TXS_PRIORITY;
    vt_provides := [provide];
    vt_longevity := 3;
    vt_propagate := true
  |} in
  match c with
  | Call_submit_ethereum_price _ => valid_tx (lit "submit_ethereum_price")
  | _ => Err InvalidCall
  end.

(** [BlockNumberProvider] of the storage lock. *)
Definition current_block_number now : BlockNumber := now.

End pallet.

End Client.
