(* ===== verification/ClientProofs.v ===== *)
(** * Facts on the light client's worker

    What the traces of each part of the off-chain worker look like, from a
    single HTTP exchange up to the whole worker.  The theorems on the worker
    are in ClientWorker and ClientCost. *)

From S2P Require Import Prelude Frame Str Num Scale Json Effects Offchain Client.
From Stdlib Require Import Strings.String Strings.Byte.
Import Str Num Offchain Client.
Local Open Scope Z_scope.
Local Open Scope supra_scope.

Section proofs.
Context `{F : FrameSystem} `{J : SerdeJson}.
Context {block_codec : Codec BlockNumber} {bytes_codec : Codec bytes}.
Context (timestamp_add : Z -> Z -> Z).

#[local] Abbreviation deadline t := (timestamp_add t FETCH_TIMEOUT_PERIOD).

(** ** One HTTP exchange *)

(** The traces of an exchange and its result. *)
Inductive exchanged (request : Z -> HttpRequest) : list (Obs Call) -> result bytes Error -> Prop :=
| ex_refused t :
    exchanged request
      [obs Timestamp t; obs (HttpSend (request (deadline t))) None]
      (Err HttpFetchingError)
| ex_failed t id w :
    w <> WaitResponse 200 ->
    exchanged request
      [obs Timestamp t; obs (HttpSend (request (deadline t))) (Some id);
       obs (HttpTryWait id (deadline t)) w]
      (Err HttpFetchingError)
| ex_answered t id body :
    exchanged request
      [obs Timestamp t; obs (HttpSend (request (deadline t))) (Some id);
       obs (HttpTryWait id (deadline t)) (WaitResponse 200); obs (HttpBody id) body]
      (Ok body).

Lemma http_exchange_traces request tr x :
  traces (http_exchange timestamp_add request) tr x <-> exists r, x = Some r /\ exchanged request tr r.
Proof.
  unfold http_exchange. split.
  - intros (t & tr1 & -> & sent & tr2 & -> & Ht)%traces_bind_call.
    apply (traces_bind_try HttpFetchingError) in Ht.
    destruct sent as [id|]; [|destruct Ht as [-> ->]; eexists; split; [done|constructor]].
    apply traces_bind_call in Ht as (w & tr3 & -> & Ht).
    destruct w as [| |code]; [destruct Ht as [-> ->]; eexists; by split; constructor..|].
    cbn [pbind] in Ht. destruct (Z.eqb_spec code 200) as [->|Hne]; cbn [negb] in Ht.
    + destruct Ht as (body & ? & -> & -> & ->). eexists. by split; constructor.
    + destruct Ht as [-> ->]. eexists. split; [done|]. constructor. congruence.
  - intros (r & -> & Hr). destruct Hr as [t|t id w Hw|t id body].
    + eexists t, _. split; [reflexivity|]. by exists None, [].
    + eexists t, _. split; [reflexivity|]. eexists (Some id), _. split; [reflexivity|].
      eexists w, []. split; [reflexivity|]. destruct w as [| |code]; [done..|]. cbn [pbind].
      destruct (Z.eqb_spec code 200); [congruence|done].
    + eexists t, _. split; [reflexivity|]. eexists (Some id), _. split; [reflexivity|].
      eexists (WaitResponse 200), _. split; [reflexivity|]. by exists body, [].
Qed.

Lemma http_exchange_http request : calls_only is_http (http_exchange timestamp_add request).
Proof.
  unfold http_exchange. cbv zeta. repeat (apply calls_only_wbind; [auto with effects|intros ?]).
  case_match; [done..|]. by destruct (negb _).
Qed.

(** The calls of an exchange that was answered in full: the request went out, a
    response with status 200 came in before its deadline, and its body was read. *)
Definition answered (request : Z -> HttpRequest) (t id : Z) (body : bytes) : list (Obs Call) :=
  [obs Timestamp t; obs (HttpSend (request (deadline t))) (Some id);
   obs (HttpTryWait id (deadline t)) (WaitResponse 200); obs (HttpBody id) body].

Lemma exchanged_answered request tr body :
  exchanged request tr (Ok body) -> exists t id, tr = answered request t id body.
Proof. inversion 1; subst. by eexists _, _. Qed.

(** An exchange sends its request once. *)
Lemma exchanged_sent request tr r : exchanged request tr r -> exists t, sent tr = [request (deadline t)].
Proof. destruct 1; by eexists. Qed.

(** ** Fetching the price *)

(** What [fetch_n_parse] makes of the response. *)
Definition parse_ticker (body : bytes) : result LightClient Error :=
  match from_utf8 body with
  | None => Err HttpFetchingError
  | Some s => match from_str s ≫= de_LightClient with Some d => Ok d | None => Err HttpNotParsedInStruct end
  end.

Definition get_ticker (timeout : Z) : HttpRequest := {|
  req_method := Get; req_url := HTTP_REMOTE_REQUEST; req_body := [];
  req_headers := [(lit "User-Agent", HTTP_HEADER_USER_AGENT)]; req_deadline := timeout |}.

Lemma fetch_n_parse_traces tr x :
  traces (fetch_n_parse timestamp_add) tr x <->
  exists r, exchanged get_ticker tr r /\
    x = Some (match r with Ok body => parse_ticker body | Err _ => Err HttpFetchingError end).
Proof.
  unfold fetch_n_parse. rewrite traces_wbind. setoid_rewrite traces_pbind. split.
  - intros (tr1 & y & (tr2 & z & Hz & Hy) & Hx).
    apply http_exchange_traces in Hz as (r & -> & Hr). destruct Hy as (? & -> & -> & ->).
    rewrite app_nil_r in Hx. exists r. destruct r as [body|e]; simpl in Hx.
    + destruct Hx as (tr3 & -> & Hx). rewrite traces_bind_try in Hx. unfold parse_ticker.
      destruct (from_utf8 body) as [s|]; [|destruct Hx as [-> ->]; by rewrite app_nil_r].
      destruct (from_str s ≫= de_LightClient); destruct Hx as [-> ->]; by rewrite app_nil_r.
    + by destruct Hx as [-> ->].
  - intros (r & Hr & ->). exists tr, (Some (map_err (fun _ => HttpFetchingError) r)). split.
    + exists tr, (Some r). split; [apply http_exchange_traces; eauto|]. exists []. by rewrite app_nil_r.
    + destruct r as [body|e]; simpl; [|done]. exists []. rewrite app_nil_r. split; [done|].
      rewrite traces_bind_try. unfold parse_ticker. destruct (from_utf8 body) as [s|]; [|done].
      by destruct (from_str s ≫= de_LightClient).
Qed.

(** The refresh under the lock: fetch, store a price if there is one, unlock. *)
Lemma refresh_price_traces tr x :
  traces (refresh_price timestamp_add) tr x <->
  exists tr1 r, traces (fetch_n_parse timestamp_add) tr1 (Some r) /\
    match r with
    | Ok d => tr = tr1 ++ [obs (StorageSet INFO_KEY (encode d)) tt; obs (Unlock LOCK_KEY) tt] /\
              x = Some (Ok tt)
    | Err e => tr = tr1 ++ [obs (Unlock LOCK_KEY) tt] /\ x = Some (Err e)
    end.
Proof.
  unfold refresh_price. rewrite traces_pbind. split.
  - intros (tr1 & y & Hf & Hy). destruct y as [r|].
    + destruct Hy as (tr2 & -> & Hy). exists tr1, r. split; [done|]. destruct r as [d|e].
      * by destruct Hy as ([] & ? & -> & [] & ? & -> & -> & ->).
      * by destruct Hy as ([] & ? & -> & -> & ->).
    + apply fetch_n_parse_traces in Hf as (r & _ & [=]).
  - intros (tr1 & r & Hf & Hr). exists tr1, (Some r). split; [done|].
    destruct r as [d|e]; destruct Hr as [-> ->]; (eexists; split; [done|]).
    + eexists tt, _. split; [done|]. by eexists tt, [].
    + by eexists tt, [].
Qed.

Lemma fetch_n_parse_http : calls_only is_http (fetch_n_parse timestamp_add).
Proof. unfold fetch_n_parse, fetch_from_remote. auto using http_exchange_http with effects. Qed.

Lemma fetch_n_parse_sent tr x :
  traces (fetch_n_parse timestamp_add) tr x -> exists t, sent tr = [get_ticker (deadline t)].
Proof. intros (r & Hr & _)%fetch_n_parse_traces. by eapply exchanged_sent. Qed.

(** ** Posting JSON *)

(** The gas estimation and the transaction are posted in the same way. *)
Definition post_tree (tree : option ser) (url : bytes) : W Call Error bytes :=
  let? j := wunwrap tree in
  let? body := wtry HttpNotParsedInStruct (to_vec j) in
  run? wtry HttpFetchingError (from_utf8 body) in
  http_exchange timestamp_add (post_json url body).

Lemma get_estimated_gas_post data from to :
  get_estimated_gas timestamp_add data from to =
    post_tree (ser_EstimateGasRequest (gas_request data from to)) HTTP_ETHEREUM_HOST.
Proof. reflexivity. Qed.

Lemma send_transaction_post t host :
  send_transaction timestamp_add t host = post_tree (ser_EthTransaction t) host.
Proof. reflexivity. Qed.

(** The text of a tree, when it can be written. *)
Definition text_of (tree : option ser) : option bytes := j ← tree; body ← to_vec j; from_utf8 body.

Lemma post_tree_traces tree url tr x :
  traces (post_tree tree url) tr x <->
  match text_of tree with
  | Some body => exists r, x = Some r /\ exchanged (post_json url body) tr r
  | None => tr = [] /\
      x = match tree with
          | None => None
          | Some j => Some (Err (match to_vec j with None => HttpNotParsedInStruct | Some _ => HttpFetchingError end))
          end
  end.
Proof.
  unfold post_tree, text_of. rewrite traces_bind_unwrap. destruct tree as [j|]; [|done].
  rewrite traces_bind_try. simpl. destruct (to_vec j) as [body|]; [|done].
  rewrite traces_bind_try. unfold from_utf8. simpl. destruct (utf8_valid body); [|done].
  apply http_exchange_traces.
Qed.

Lemma post_tree_http tree url : calls_only is_http (post_tree tree url).
Proof. unfold post_tree. auto 20 using http_exchange_http with effects. Qed.

(** ** The price on Ethereum *)

(** The calldata of a price: selector, padding and hexadecimal price. *)
Lemma call_data_ok n :
  call_data n = Some (lit "0xd423740b" ++ zeros (64 - Z.of_nat (List.length (to_hex n))) ++ to_hex n).
Proof.
  unfold call_data. pose proof (length_to_hex n). destruct (Z.ltb_spec (64 - Z.of_nat (List.length (to_hex n))) 0);
    [lia|done].
Qed.

Lemma call_data_read n :
  0 <= n <= u32_max ->
  exists data, call_data n = Some data /\ List.length data = 74%nat /\
    take 10 data = lit "0xd423740b" /\ of_hex (drop 10 data) = Some n.
Proof.
  intros Hn. eexists. split; [apply call_data_ok|]. pose proof (length_to_hex n) as Hlen.
  split; [|split].
  - rewrite !length_app. change (List.length (lit "0xd423740b")) with 10%nat.
    pose proof (length_zeros (64 - Z.of_nat (List.length (to_hex n)))). lia.
  - by apply (take_app_length (lit "0xd423740b")).
  - rewrite (drop_app_length (lit "0xd423740b")), of_hex_zeros. by apply of_hex_to_hex.
Qed.

Lemma call_data_utf8 n data : call_data n = Some data -> utf8_valid data = true.
Proof.
  rewrite call_data_ok. intros <-%(inj Some). rewrite utf8_valid_app by done. apply hex_utf8.
Qed.

(** What the worker reads from the answer to its gas estimation. *)
Definition gas_of (body : bytes) : option bytes :=
  s ← from_utf8 body; r ← from_str s ≫= de_EthResult; Some (er_result r).

(** The four ways through [submt_price_to_ethereum]. *)
Inductive submission (price host from to : bytes) : list (Obs Call) -> option (result bytes Error) -> Prop :=
| sub_not_utf8 :
    utf8_valid price = false -> submission price host from to [] (Some (Err HttpFetchingError))
| sub_not_float :
    utf8_valid price = true -> parse_f32 price = None ->
    submission price host from to [] (Some (Err ParseFloatError))
| sub_no_gas f data tr x :
    utf8_valid price = true -> parse_f32 price = Some f -> call_data (f32_as_u32 f) = Some data ->
    traces (get_estimated_gas timestamp_add data from to) tr x ->
    (forall body, x = Some (Ok body) -> gas_of body = None) ->
    submission price host from to tr None
| sub_sent f data tr1 body gas tr2 x :
    utf8_valid price = true -> parse_f32 price = Some f -> call_data (f32_as_u32 f) = Some data ->
    traces (get_estimated_gas timestamp_add data from to) tr1 (Some (Ok body)) ->
    gas_of body = Some gas ->
    traces (send_transaction timestamp_add (eth_transaction data from to gas) host) tr2 x ->
    submission price host from to (tr1 ++ tr2) x.

Lemma submt_traces price host from to tr x :
  traces (submt_price_to_ethereum timestamp_add price host from to) tr x <->
  submission price host from to tr x.
Proof.
  unfold submt_price_to_ethereum. rewrite traces_bind_try. unfold from_utf8 at 1.
  destruct (utf8_valid price) eqn:Hutf; [|split; [intros [-> ->]; by apply sub_not_utf8|destruct 1; (done || congruence)]].
  rewrite traces_bind_try. destruct (parse_f32 price) as [f|] eqn:Hf;
    [|split; [intros [-> ->]; by apply sub_not_float|destruct 1; (done || congruence)]].
  cbv zeta. rewrite traces_bind_unwrap. pose proof (call_data_ok (f32_as_u32 f)) as Hd. rewrite Hd.
  rewrite traces_wbind. setoid_rewrite traces_wexpect. split.
  - intros (tr1 & y & [(body & Ht & ->)|[Ht ->]] & Hx).
    + destruct Hx as (tr2 & -> & Hx). rewrite traces_bind_unwrap in Hx.
      assert (Hnone : gas_of body = None -> tr2 = [] /\ x = None -> submission price host from to (tr1 ++ tr2) x).
      { intros Hg [-> ->]. rewrite app_nil_r. eapply (sub_no_gas _ _ _ _ f); [done..|exact Ht|].
        by intros ? [= ->]. }
      unfold gas_of in Hnone. destruct (from_utf8 body) as [str|] eqn:Hs; [|by apply Hnone].
      rewrite traces_bind_unwrap in Hx. simpl in Hnone.
      destruct (from_str str ≫= de_EthResult) as [res|] eqn:Hr; [|by apply Hnone].
      eapply (sub_sent _ _ _ _ f); [done..|exact Ht| |exact Hx]. unfold gas_of. rewrite Hs. simpl. by rewrite Hr.
    + destruct Hx as [-> ->]. destruct Ht as [[e Ht]|Ht]; by eapply (sub_no_gas _ _ _ _ f); [done..|exact Ht|].
  - intros Hsub. inversion Hsub as [| |f' data tr' x' _ Hf' Hd' Ht Hgas|f' data tr1 body gas tr2 x' _ Hf' Hd' Ht Hgas Hx];
      simplify_eq; try congruence.
    + destruct x' as [[body|e]|]; [|eexists tr, None; split; [by eauto 10|done]..].
      exists tr, (Some (Ok body)). split; [eauto|]. exists []. rewrite app_nil_r. split; [done|].
      specialize (Hgas body eq_refl). unfold gas_of in Hgas. rewrite traces_bind_unwrap.
      destruct (from_utf8 body) as [str|]; [|done]. rewrite traces_bind_unwrap. simpl in Hgas.
      by destruct (from_str str ≫= de_EthResult).
    + exists tr1, (Some (Ok body)). split; [eauto|]. exists tr2. split; [done|].
      unfold gas_of in Hgas. rewrite traces_bind_unwrap. destruct (from_utf8 body) as [str|]; [|done].
      rewrite traces_bind_unwrap. simpl in Hgas.
      by destruct (from_str str ≫= de_EthResult); simplify_eq/=.
Qed.

Lemma get_estimated_gas_http data from to :
  calls_only is_http (get_estimated_gas timestamp_add data from to).
Proof. apply post_tree_http. Qed.

Lemma send_transaction_http t host : calls_only is_http (send_transaction timestamp_add t host).
Proof. apply post_tree_http. Qed.

Lemma submt_http price host from to :
  calls_only is_http (submt_price_to_ethereum timestamp_add price host from to).
Proof.
  unfold submt_price_to_ethereum. cbv zeta.
  auto 20 using get_estimated_gas_http, send_transaction_http with effects.
Qed.

(** What a post sends. *)
Lemma post_tree_sent tree url tr x :
  traces (post_tree tree url) tr x ->
  sent tr = [] \/
  exists body t, text_of tree = Some body /\ sent tr = [post_json url body (deadline t)].
Proof.
  rewrite post_tree_traces. destruct (text_of tree) as [body|].
  - intros (r & -> & Hr). apply exchanged_sent in Hr as [t Hr]. eauto.
  - intros [-> _]. by left.
Qed.

Lemma post_tree_ok tree url tr body :
  traces (post_tree tree url) tr (Some (Ok body)) ->
  exists text t id, text_of tree = Some text /\ tr = answered (post_json url text) t id body.
Proof.
  rewrite post_tree_traces. destruct (text_of tree) as [text|].
  - intros (r & [= <-] & Hr). apply exchanged_answered in Hr as (t & id & ->). eauto.
  - intros [_ Hx]. by destruct tree.
Qed.

(** ** The two halves of the worker *)

Lemma publish_traces price host from to tr x :
  traces (publish_price timestamp_add price host from to) tr x <->
  exists tr1 y, submission price host from to tr1 y /\
    match y with
    | Some (Ok body) =>
        if utf8_valid body then
          exists ok, tr = tr1 ++ [obs (SubmitUnsigned (Call_submit_ethereum_price price)) ok] /\
            x = Some (if ok : bool then Ok tt else Err OffchainUnsignedTxError)
        else tr = tr1 /\ x = Some (Err HttpFetchingError)
    | Some (Err e) => tr = tr1 /\ x = Some (Err e)
    | None => tr = tr1 /\ x = None
    end.
Proof.
  unfold publish_price. rewrite traces_wbind. setoid_rewrite submt_traces.
  split; intros (tr1 & y & Hs & Hy); exists tr1, y; (split; [done|]); destruct y as [[body|e]|]; try done.
  - destruct Hy as (tr2 & -> & Hy). apply traces_bind_try in Hy. unfold from_utf8 in Hy.
    destruct (utf8_valid body); [|destruct Hy as [-> ->]; by rewrite app_nil_r].
    destruct Hy as (ok & tr3 & -> & Hx). exists ok. by destruct ok; destruct Hx as [-> ->].
  - unfold from_utf8. destruct (utf8_valid body).
    + destruct Hy as (ok & -> & ->). eexists. split; [reflexivity|].
      apply traces_bind_try. eexists ok, []. split; [reflexivity|]. by destruct ok.
    + destruct Hy as [-> ->]. exists []. by rewrite app_nil_r.
Qed.

Lemma worker_traces host from to tr x :
  traces (update_ethereum_price_worker timestamp_add host from to) tr x <->
  exists locked tr0,
    tr = obs (TryLock LOCK_KEY LOCK_BLOCK_EXPIRATION LOCK_TIMEOUT_EXPIRATION) locked :: tr0 /\
    ((locked = true /\ exists e, traces (refresh_price timestamp_add) tr0 (Some (Err e)) /\ x = Some (Err e)) \/
     exists tr1 stored tr2,
       tr0 = tr1 ++ obs (StorageGet INFO_KEY) stored :: tr2 /\
       (if locked : bool then traces (refresh_price timestamp_add) tr1 (Some (Ok tt)) else tr1 = []) /\
       traces (publish_price timestamp_add (final_price stored) host from to) tr2 x).
Proof.
  unfold update_ethereum_price_worker. rewrite traces_bind_call.
  split; intros (locked & tr0 & -> & Ht); exists locked, tr0; (split; [done|]).
  - apply traces_wbind in Ht as (tr1 & y & Hr & Hy). destruct locked.
    + pose proof Hr as (? & [d|e] & _ & Hd)%refresh_price_traces; destruct Hd as [_ ->].
      * right. destruct Hy as (tr2 & -> & stored & tr3 & -> & Hx). by eexists tr1, stored, tr3.
      * left. destruct Hy as [-> ->]. eauto.
    + destruct Hr as [-> ->]. right. destruct Hy as (tr2 & -> & stored & tr3 & -> & Hx).
      by eexists [], stored, tr3.
  - apply traces_wbind. destruct Ht as [(-> & e & Hr & ->)|(tr1 & stored & tr2 & -> & Hr & Hx)].
    + by exists tr0, (Some (Err e)).
    + exists tr1, (Some (Ok tt)). split; [by destruct locked; [|subst]|]. eexists. split; [reflexivity|].
      by eexists stored, tr2.
Qed.

(** ** Serialising the requests *)

(** The transaction the worker builds can be serialised when its addresses and
    its gas are strings. *)
Lemma ser_eth_transaction_ok data from to gas :
  utf8_valid data = true -> utf8_valid from = true -> utf8_valid to = true -> utf8_valid gas = true ->
  is_Some (ser_EthTransaction (eth_transaction data from to gas)).
Proof.
  intros Hd Hf Ht Hg. unfold ser_EthTransaction, eth_transaction. simpl. unfold ser_EthParams. simpl.
  unfold ser_utf8, from_utf8. rewrite Hd, Hf, Ht, Hg. simpl. by eexists.
Qed.

Lemma gas_of_utf8 `{!SerdeJsonLaws J} body gas : gas_of body = Some gas -> utf8_valid gas = true.
Proof.
  unfold gas_of. destruct (from_utf8 body) as [s|]; [|done]. simpl.
  destruct (from_str s) as [j|] eqn:Hj; [|done]. apply from_str_utf8 in Hj. simpl.
  unfold de_EthResult. destruct (struct_fields _ j) as [js|] eqn:Hjs; [|done].
  apply (struct_fields_utf8 _ _ _ Hj) in Hjs. simpl. destruct js as [|j1 [|j2 [|j3 []]]]; try done.
  apply Forall_cons in Hjs as [_ [_ [H3 _]%Forall_cons]%Forall_cons].
  destruct (de_string_to_bytes j1); [|done]. simpl. destruct (de_u8 j2); [|done]. simpl.
  destruct (de_string_to_bytes j3) as [r|] eqn:Hr; [|done]. intros [= <-]. by eapply de_str_utf8.
Qed.

Lemma parse_ticker_utf8 `{!SerdeJsonLaws J} body d :
  parse_ticker body = Ok d -> utf8_valid (price d) = true.
Proof.
  unfold parse_ticker. destruct (from_utf8 body) as [s|]; [|done].
  destruct (from_str s) as [j|] eqn:Hj; [|done]. apply from_str_utf8 in Hj. simpl.
  unfold de_LightClient. destruct (struct_fields _ j) as [js|] eqn:Hjs; [|done].
  apply (struct_fields_utf8 _ _ _ Hj) in Hjs. simpl. destruct js as [|j1 [|j2 []]]; try done.
  apply Forall_cons in Hjs as [H1 _].
  destruct (de_string_to_bytes j1) as [r|] eqn:Hr; [|done]. simpl.
  destruct (de_string_to_bytes j2); [|done]. intros [= <-]. by eapply de_str_utf8.
Qed.

End proofs.
