(* ===== verification/ClientIndex.v ===== *)
(** * The light client on chain

    The dispatchables of client/src/lib.rs, the index entries through which
    they reach the worker of their block, and the filter for unsigned
    transactions. *)

From S2P Require Import Prelude Frame Str Num Scale Json Effects Offchain Client.
From Stdlib Require Import Strings.String Strings.Byte.
Import Str Num Offchain Client.
Local Open Scope Z_scope.
Local Open Scope supra_scope.

Module ClientIndex.

Section theorems.
Context `{F : FrameSystem} `{FS : FrameStorage} `{J : SerdeJson}.
Context {block_codec : Codec BlockNumber} {bytes_codec : Codec bytes}.
Context (timestamp_add : Z -> Z -> Z).
Implicit Types (origin : Origin) (now block : BlockNumber) (s : Store).

(** ** From the dispatchables to the worker *)

(** Whether the origin of a call is the one its dispatchable asks for. *)
Definition accepted (oc : Origin * Call) : bool :=
  match snd oc with
  | Call_submit_ethereum_price _ => is_ok (ensure_none (fst oc))
  | Call_update_ethereum_price _ _ _ => is_ok (ensure_signed (fst oc))
  end.

(** What an accepted call writes under the key of its block. *)
Definition index_value (c : Call) : bytes :=
  match c with
  | Call_submit_ethereum_price p => encode (lit "submit_ethereum_price", p)
  | Call_update_ethereum_price h f t => encode (lit "update_ethereum_price", h, f, t)
  end.

(** The event of a call that is accepted. *)
Definition event_of origin (c : Call) : option Event :=
  match c with
  | Call_submit_ethereum_price p =>
      match ensure_none origin with Ok _ => Some (SubmitEthereumPrice None p) | Err _ => None end
  | Call_update_ethereum_price _ _ _ =>
      match ensure_signed origin with Ok who => Some (UpdateEthereumPrice (Some who)) | Err _ => None end
  end.

(** The dispatchables of the light client on every branch.  A call from the wrong
    kind of origin fails and changes nothing; any other call succeeds, writes one
    index entry under the key of its block and deposits one event. *)
Lemma client_dispatch now origin c s :
  dispatch now c origin s =
    match event_of origin c with
    | None => (Err DispatchBadOrigin, s)
    | Some event =>
        (Ok tt, {| Numbers := Numbers s; Indexed := Indexed s ++ [(derived_key now, index_value c)];
                   Events := Events s ++ [event] |})
    end.
Proof.
  destruct c; unfold event_of, dispatch, submit_ethereum_price, update_ethereum_price; rewrite bind_try_origin.
  - by destruct (ensure_none origin).
  - by destruct (ensure_signed origin).
Qed.

(** A block's calls in order, and a chain of blocks. *)
Definition run_block now (calls : list (Origin * Call)) s : Store :=
  foldl (fun s oc => snd (dispatch now (snd oc) (fst oc) s)) s calls.
Definition run_chain (blocks : list (BlockNumber * list (Origin * Call))) s : Store :=
  foldl (fun s b => run_block (fst b) (snd b) s) s blocks.

(** The off-chain index keeps the last value written under a key. *)
Definition index_get (writes : list (bytes * bytes)) (key : bytes) : option bytes :=
  snd <$> last (filter (fun kv => fst kv = key) writes).

Lemma index_get_app w1 w2 key v : index_get w2 key = Some v -> index_get (w1 ++ w2) key = Some v.
Proof. unfold index_get. rewrite filter_app, last_app. by destruct (last (filter _ w2)). Qed.

Lemma dispatch_indexed now origin c s :
  Indexed (snd (dispatch now c origin s)) =
    Indexed s ++ (if accepted (origin, c) then [(derived_key now, index_value c)] else []).
Proof.
  destruct c; unfold dispatch, submit_ethereum_price, update_ethereum_price, accepted; simpl;
    rewrite bind_try_origin.
  - by destruct (ensure_none origin); simpl; rewrite ?app_nil_r.
  - by destruct (ensure_signed origin); simpl; rewrite ?app_nil_r.
Qed.

Lemma run_block_indexed now calls s :
  Indexed (run_block now calls s) =
    Indexed s ++ map (fun oc => (derived_key now, index_value (snd oc)))
                   (filter (fun oc => accepted oc = true) calls).
Proof.
  unfold run_block. revert s. induction calls as [|[o c] calls IH]; intros s; simpl; [by rewrite app_nil_r|].
  rewrite IH, dispatch_indexed, <-app_assoc, filter_cons. f_equal.
  destruct (accepted (o, c)) eqn:Ha; case_decide; done.
Qed.

Lemma index_get_block writes now calls :
  index_get (writes ++ map (fun oc : Origin * Call => (derived_key now, index_value (snd oc))) calls)
      (derived_key now) =
    match last calls with Some oc => Some (index_value (snd oc)) | None => index_get writes (derived_key now) end.
Proof.
  destruct calls as [|oc calls _] using rev_ind; simpl; [by rewrite app_nil_r|].
  unfold index_get. rewrite map_app, app_assoc, filter_app. simpl. rewrite filter_cons_True by done.
  by rewrite filter_nil, !last_snoc.
Qed.

Context {block_laws : CodecLaws BlockNumber} {bytes_laws : CodecLaws bytes}.

Lemma derived_key_inj now now' :
  encodable now -> encodable now' -> derived_key now = derived_key now' -> now = now'.
Proof.
  intros Hn Hn' Hk. unfold derived_key in Hk. apply app_inv_head, app_inv_head in Hk.
  by apply encode_inj.
Qed.

Lemma index_get_other writes key :
  Forall (fun kv => fst kv <> key) writes -> index_get writes key = None.
Proof. intros Hw. unfold index_get. by rewrite (filter_none (fun kv => fst kv = key)). Qed.

Lemma run_chain_keys blocks s key :
  Forall (fun kv => fst kv <> key) (Indexed s) ->
  Forall (fun b => derived_key (fst b) <> key) blocks ->
  Forall (fun kv => fst kv <> key) (Indexed (run_chain blocks s)).
Proof.
  unfold run_chain. revert s. induction blocks as [|[n calls] blocks IH]; intros s Hs; [done|].
  intros [Hn Hb]%Forall_cons. simpl in *. apply IH; [|done]. rewrite run_block_indexed.
  apply Forall_app. split; [done|]. apply Forall_map, Forall_true. intros ?. exact Hn.
Qed.

(** The values of the calls fit the length prefix of the codec. *)
Definition encodable_call (c : Call) : Prop :=
  match c with
  | Call_submit_ethereum_price p => encodable (lit "submit_ethereum_price", p)
  | Call_update_ethereum_price h f t => encodable (lit "update_ethereum_price", h, f, t)
  end.

(** The worker started by a call: the addresses as strings, each behind [0x]. *)
Definition worker_for (c : Call) : prog Call unit :=
  match c with
  | Call_submit_ethereum_price _ => Done tt
  | Call_update_ethereum_price h f t =>
      pbind (update_ethereum_price_worker timestamp_add (lit "0x" ++ from_utf8_or_error h)
               (lit "0x" ++ from_utf8_or_error f) (lit "0x" ++ from_utf8_or_error t))
        (fun _ => Done tt)
  end.

Lemma on_index_value `{!CodecNonempty bytes} c :
  encodable_call c -> on_index timestamp_add (Some (index_value c)) = worker_for c.
Proof.
  destruct c as [p|h f t]; intros Hc; unfold on_index, index_value, storage_value_get.
  - assert (decode (A := IndexingPriceFlag) (encode (lit "submit_ethereum_price", p)) = None) as ->; [|done].
    destruct Hc as [Hn Hp]. simpl. rewrite (decode_encode (lit "submit_ethereum_price")) by exact Hn.
    rewrite <-(app_nil_r (encode p)), (decode_encode p) by exact Hp. by rewrite decode_nil.
  - rewrite <-(app_nil_r (encode _)).
    rewrite (decode_encode (A := IndexingPriceFlag) (lit "update_ethereum_price", h, f, t)) by exact Hc.
    cbn [fmap option_fmap option_map fst snd]. by rewrite bool_decide_true by reflexivity.
Qed.

(** C20: the worker of a block acts on the last accepted call of that block, and
    on no call of another block.  Whatever the chain did before, the worker
    that reads the off-chain index after block [now] runs the price update of
    the last accepted call if that call is [update_ethereum_price], with its
    arguments, and does nothing otherwise: a later call of the same block
    overwrites the request. *)
Theorem worker_acts_on_last_call `{!CodecNonempty bytes} blocks now calls :
  encodable now ->
  Forall (fun b => fst b <> now /\ encodable (fst b)) blocks ->
  Forall (fun oc => encodable_call (snd oc)) calls ->
  on_index timestamp_add
      (index_get (Indexed (run_chain (blocks ++ [(now, calls)]) absent_store)) (derived_key now)) =
    match last (filter (fun oc => accepted oc = true) calls) with
    | Some (_, c) => worker_for c
    | None => Done tt
    end.
Proof.
  intros Hnow Hblocks Hcalls. unfold run_chain. rewrite foldl_app. simpl.
  fold (run_chain blocks absent_store). rewrite run_block_indexed, index_get_block.
  destruct (last _) as [[o c]|] eqn:Hlast.
  - apply on_index_value. apply last_Some_elem_of, list_elem_of_filter in Hlast as [_ Hin].
    rewrite Forall_forall in Hcalls. exact (Hcalls _ Hin).
  - rewrite index_get_other; [done|]. apply run_chain_keys; [constructor|].
    eapply Forall_impl; [exact Hblocks|]. intros b [Hne Hb] Hk. destruct Hne. by apply derived_key_inj.
Qed.

(** ** Unsigned transactions *)

(** C29: the pool accepts exactly the unsigned calls that can succeed.  A call
    is valid as an unsigned transaction if and only if dispatching it without a
    signature succeeds; a valid one carries the tag, priority and longevity of
    the pallet, the same for all, so that the pool keeps one of them at a
    time. *)
Theorem validate_unsigned_iff `{!FrameSystemLaws F} source c now origin u s :
  ensure_none origin = Ok u ->
  (is_ok (validate_unsigned source c) = is_ok (fst (dispatch now c origin s))) /\
  forall vt source' c' vt',
    validate_unsigned source c = Ok vt -> validate_unsigned source' c' = Ok vt' ->
    vt_provides vt = [lit "submit_ethereum_price"] /\ vt_priority vt = 100 /\ vt_longevity vt = 3 /\ vt = vt'.
Proof.
  intros Hnone. split.
  - destruct c; unfold dispatch, submit_ethereum_price, update_ethereum_price; rewrite bind_try_origin.
    + by rewrite Hnone.
    + destruct (ensure_signed origin) as [who|] eqn:Hs; [|done].
      by destruct (none_not_signed origin u who Hnone).
  - intros vt source' c' vt'. destruct c, c'; simpl; try done. by intros [= <-] [= <-].
Qed.

End theorems.

(** ** Witnesses *)

Section witnesses.
Import Mock Compact.

Definition signed (who : Z) : Origin (FrameSystem := mock_system) := Signed who.
Definition unsigned : Origin (FrameSystem := mock_system) := None_.
Definition block (n : Z) : BlockNumber (FrameSystem := mock_system) := n.
#[local] Instance block_codec_mock : Codec (BlockNumber (FrameSystem := mock_system)) := u32_codec.
#[local] Instance block_laws_mock : CodecLaws (BlockNumber (FrameSystem := mock_system)) := u32_codec_laws.

Definition ask (h : bytes) : Call := Call_update_ethereum_price h (lit "aa") (lit "bb").

(** A price submitted after a request in the same block hides the request. *)
Lemma worker_acts_on_last_call_witness :
  on_index (J := MiniJson.mini) Z.add
    (index_get (Indexed (run_chain [(block 6, [(signed 1, ask (lit "old"))]);
                                    (block 7, [(signed 2, ask (lit "node"));
                                               (unsigned, Call_submit_ethereum_price (lit "10"))])]
                           absent_store)) (derived_key (block 7))) = Done tt.
Proof.
  refine (worker_acts_on_last_call Z.add [(block 6, [(signed 1, ask (lit "old"))])] (block 7)
            [(signed 2, ask (lit "node")); (unsigned, Call_submit_ethereum_price (lit "10"))] _ _ _).
  - split; vm_compute; [discriminate|reflexivity].
  - repeat constructor; vm_compute; discriminate.
  - repeat constructor; vm_compute; reflexivity.
Defined.

(** On its own, the request starts the worker. *)
Example request_alone :
  on_index (J := MiniJson.mini) Z.add
    (index_get (Indexed (run_block (block 7) [(signed 2, ask (lit "node"))] absent_store))
       (derived_key (block 7))) = worker_for (J := MiniJson.mini) Z.add (ask (lit "node")).
Proof. reflexivity. Qed.

Lemma validate_unsigned_iff_witness :
  is_ok (validate_unsigned External (Call_submit_ethereum_price (lit "10"))) =
    is_ok (fst (dispatch (block 7) (Call_submit_ethereum_price (lit "10")) unsigned absent_store)).
Proof.
  exact (proj1 (validate_unsigned_iff External (Call_submit_ethereum_price (lit "10")) (block 7) unsigned tt
                  absent_store eq_refl)).
Defined.

End witnesses.

End ClientIndex.
