(* ===== verification/ClientWorker.v ===== *)
(** * The light client's worker

    Theorems on update_ethereum_price_worker and offchain_worker of
    client/src/lib.rs over all their traces: the storage lock, the requests,
    what is published, panics, and delivery against a cooperative host. *)

From S2P Require Import Prelude Frame Str Num Scale Json Effects Offchain Client ClientProofs ClientIndex.
From Stdlib Require Import Strings.String Strings.Byte.
Import Str Num Offchain Client ClientIndex.
Local Open Scope Z_scope.
Local Open Scope supra_scope.

Module ClientWorker.

Section theorems.
Context `{F : FrameSystem} `{FS : FrameStorage} `{J : SerdeJson}.
Context {block_codec : Codec BlockNumber} {bytes_codec : Codec bytes}.
Context (timestamp_add : Z -> Z -> Z).
Implicit Types (origin : Origin) (now block : BlockNumber) (s : Store).

Context {block_laws : CodecLaws BlockNumber} {bytes_laws : CodecLaws bytes}.

(** ** The worker over all its traces *)

(** A trace of the whole worker: nothing, or a price update for addresses that
    are UTF-8 and start with [0x]. *)
Lemma offchain_worker_traces block tr x :
  traces (offchain_worker timestamp_add block) tr x ->
  exists v tr', tr = obs (StorageGet (derived_key block)) v :: tr' /\
    ((tr' = [] /\ x = Some tt) \/
     exists h f t y, utf8_valid h = true /\ utf8_valid f = true /\ utf8_valid t = true /\
       traces (update_ethereum_price_worker timestamp_add (lit "0x" ++ h) (lit "0x" ++ f) (lit "0x" ++ t)) tr' y /\
       x = (fun _ => tt) <$> y).
Proof.
  intros (v & tr' & -> & Ht). exists v, tr'. split; [done|].
  change (traces (on_index timestamp_add v) tr' x) in Ht. unfold on_index in Ht.
  destruct (storage_value_get v) as [[[[[n h] f] t]|]|]; [|by left..].
  cbv zeta in Ht. case_bool_decide; [|by left]. right.
  eexists (from_utf8_or_error h), (from_utf8_or_error f), (from_utf8_or_error t).
  apply traces_pbind in Ht as (tr1 & y & Ht & Hy). exists y.
  do 3 (split; [apply from_utf8_or_error_valid|]). destruct y as [r|].
  - destruct Hy as (tr2 & -> & -> & ->). by rewrite app_nil_r.
  - by destruct Hy as [-> ->].
Qed.

(** When the lock may or must be held: the lock is taken when free and given
    back when held; the ticker is fetched and the price stored under the lock;
    nothing is posted and nothing is submitted under it. *)
Definition lock_rules (held : bool) (o : Op Call) : Prop :=
  match o with
  | TryLock _ _ _ => held = false
  | Unlock _ => held = true
  | StorageSet _ _ => held = true
  | HttpSend r => held = match req_method r with Get => true | Post => false end
  | SubmitUnsigned _ => held = false
  | _ => True
  end.

(** A stretch of HTTP calls keeps the rules if its requests do. *)
Lemma http_rules A (t : prog Call A) tr x b :
  calls_only is_http t -> traces t tr x ->
  Forall (fun r => b = match req_method r with Get => true | Post => false end) (sent tr) ->
  along lock_rules b tr /\ held b tr = b /\ submitted tr = [] /\ stored tr = [].
Proof.
  intros Ht Htr Hs. apply (traces_calls_only _ _ _ _ Ht) in Htr.
  pose proof (http_quiet _ Htr) as (? & ? & ?). split; [|done].
  apply http_along; [by intros []|done|]. apply Forall_fmap. exact Hs.
Qed.

Lemma refresh_rules tr x :
  traces (refresh_price timestamp_add) tr x ->
  along lock_rules true tr /\ held true tr = false /\ submitted tr = [] /\
  exists t, sent tr = [get_ticker (timestamp_add t FETCH_TIMEOUT_PERIOD)].
Proof.
  intros (tr1 & r & Hf & Hr)%refresh_price_traces. pose proof (fetch_n_parse_sent _ _ _ Hf) as [t Ht].
  destruct (http_rules _ _ tr1 _ true (fetch_n_parse_http _) Hf) as (Ha & Hh & Hsub & _).
  { rewrite Ht. by repeat constructor. }
  destruct r as [d|e]; destruct Hr as [-> ->];
    rewrite along_app, held_app, submitted_app, sent_app, Hh, Hsub, Ht; (repeat split; try done; by exists t).
Qed.

Lemma submission_sent p host from to tr x :
  submission timestamp_add p host from to tr x ->
  exists posts, posts `prefix_of` [HTTP_ETHEREUM_HOST; host] /\ map req_url (sent tr) = posts /\
    Forall (fun r => req_method r = Post) (sent tr).
Proof.
  assert (Hpost : forall tree url tr' y, traces (post_tree timestamp_add tree url) tr' y ->
    (map req_url (sent tr') = [] \/ map req_url (sent tr') = [url]) /\ Forall (fun r => req_method r = Post) (sent tr')).
  { intros tree url tr' y [->|(body & t & _ & ->)]%post_tree_sent; simpl; eauto. }
  intros [| |f data tr' y _ _ _ Hg _|f data tr1 body gas tr2 y _ _ _ Hg _ Ht].
  - exists []. split; [apply prefix_nil|done].
  - exists []. split; [apply prefix_nil|done].
  - rewrite get_estimated_gas_post in Hg. destruct (Hpost _ _ _ _ Hg) as [[->| ->] Hp];
      eexists; (split; [|split; [reflexivity|done]]); [apply prefix_nil|by exists [host]].
  - rewrite get_estimated_gas_post in Hg. rewrite send_transaction_post in Ht.
    pose proof (post_tree_ok _ _ _ _ _ Hg) as (text & t0 & id & _ & ->).
    rewrite sent_app, map_app. change (sent (answered _ _ _ _ _)) with [post_json HTTP_ETHEREUM_HOST text (timestamp_add t0 FETCH_TIMEOUT_PERIOD)].
    destruct (Hpost _ _ _ _ Ht) as [[->| ->] Hp]; eexists;
      (split; [|split; [reflexivity|by apply Forall_app; split; [repeat constructor|]]]); simpl;
      [by exists [host]|done].
Qed.

Lemma submission_rules p host from to tr x :
  submission timestamp_add p host from to tr x ->
  along lock_rules false tr /\ held false tr = false /\ submitted tr = [] /\ stored tr = [].
Proof.
  intros Hs. pose proof (submission_sent _ _ _ _ _ _ Hs) as (_ & _ & _ & Hp).
  apply submt_traces in Hs. eapply http_rules; [apply submt_http|exact Hs|].
  eapply Forall_impl; [exact Hp|]. by intros r ->.
Qed.

Lemma publish_rules p host from to tr x :
  traces (publish_price timestamp_add p host from to) tr x ->
  along lock_rules false tr /\ held false tr = false.
Proof.
  intros (tr1 & y & Hs & Hy)%publish_traces. pose proof (submission_rules _ _ _ _ _ _ Hs) as (? & Hh & _).
  destruct y as [[body|e]|]; [destruct (utf8_valid body)| |]; try (by destruct Hy as [-> _]).
  destruct Hy as (ok & -> & ->). by rewrite along_app, held_app, Hh.
Qed.

Lemma worker_lock block tr x :
  traces (offchain_worker timestamp_add block) tr x ->
  along lock_rules false tr /\ held false tr = false.
Proof.
  intros (v & tr' & -> & [[-> _]|(h & f & t & y & _ & _ & _ & Hw & _)])%offchain_worker_traces; [done|].
  apply worker_traces in Hw as (locked & tr0 & -> & [(-> & e & Hr & _)|(tr1 & st & tr2 & -> & Hr & Hp)]).
  - apply refresh_rules in Hr as (? & ? & _). by simpl.
  - apply publish_rules in Hp as [Hp1 Hp2]. destruct locked; [|subst; by simpl].
    apply refresh_rules in Hr as (Hr1 & Hr2 & _). simpl. by rewrite along_app, held_app, Hr2.
Qed.

(** C21: the storage lock is handled correctly whatever the host answers.  It
    is only requested when free and only given back when held, the price is
    fetched and stored under the lock, no request is posted and no transaction
    submitted while it is held, and it is free when the worker ends, also when
    the worker fails or panics. *)
Theorem lock_discipline block tr x :
  traces (offchain_worker timestamp_add block) tr x ->
  along lock_rules false tr /\ held false tr = false.
Proof. apply worker_lock. Qed.

(** ** What is published *)

(** The trace ends with the post of the transaction for a price to [host], and the
    post was answered: the host took the request, a response with status 200 came
    in before the deadline, and its body is a string.  The gas of the transaction
    is that of an estimation for the same data, answered in full before. *)
Definition posted_price (p host from to : bytes) (tr : list (Obs Call)) : Prop :=
  exists f data gas text0 text before t0 id0 estimate t id receipt,
    parse_f32 p = Some f /\ call_data (f32_as_u32 f) = Some data /\
    text_of (ser_EstimateGasRequest (gas_request data from to)) = Some text0 /\
    gas_of estimate = Some gas /\
    text_of (ser_EthTransaction (eth_transaction data from to gas)) = Some text /\
    utf8_valid receipt = true /\
    tr = before ++ answered timestamp_add (post_json HTTP_ETHEREUM_HOST text0) t0 id0 estimate
                ++ answered timestamp_add (post_json host text) t id receipt.

Lemma posted_price_app p host from to tr0 tr :
  posted_price p host from to tr -> posted_price p host from to (tr0 ++ tr).
Proof.
  intros (f & data & gas & text0 & text & before & t0 & id0 & estimate & t & id & receipt & ? & ? & ? & ? & ? & ? & ->).
  exists f, data, gas, text0, text, (tr0 ++ before), t0, id0, estimate, t, id, receipt.
  by rewrite <-app_assoc.
Qed.

Lemma submission_posted p host from to tr body :
  submission timestamp_add p host from to tr (Some (Ok body)) -> utf8_valid body = true ->
  posted_price p host from to tr.
Proof.
  inversion 1 as [| | |f data tr1 estimate gas tr2 x' _ Hf Hd Hg Hgas Ht]; subst. intros Hutf.
  rewrite get_estimated_gas_post in Hg. apply post_tree_ok in Hg as (text0 & t0 & id0 & Htext0 & ->).
  rewrite send_transaction_post in Ht. apply post_tree_ok in Ht as (text & t & id & Htext & ->).
  by exists f, data, gas, text0, text, [], t0, id0, estimate, t, id, body.
Qed.

(** What the first half of the worker leaves: no submission, and the stored
    price if the lock was taken. *)
Lemma first_half_quiet locked tr1 :
  (if locked : bool then traces (refresh_price timestamp_add) tr1 (Some (Ok tt)) else tr1 = []) ->
  submitted tr1 = [].
Proof. destruct locked; [|by intros ->]. by intros (_ & _ & ? & _)%refresh_rules. Qed.

Lemma worker_submits host from to tr x :
  traces (update_ethereum_price_worker timestamp_add host from to) tr x ->
  (submitted tr = [] /\ x <> Some (Ok tt)) \/
  exists tr0 p ok,
    tr = tr0 ++ [obs (SubmitUnsigned (Call_submit_ethereum_price p)) ok] /\
    submitted tr0 = [] /\ posted_price p host from to tr0 /\
    x = Some (if ok then Ok tt else Err OffchainUnsignedTxError).
Proof.
  intros (locked & tr0 & -> & [(-> & e & Hr & ->)|(tr1 & st & tr2 & -> & Hr & Hp)])%worker_traces.
  { apply refresh_rules in Hr as (_ & _ & Hs & _). left. by split. }
  apply first_half_quiet in Hr. apply publish_traces in Hp as (tr3 & y & Hs & Hy).
  pose proof (submission_rules _ _ _ _ _ _ Hs) as (_ & _ & Hsub & _).
  assert (Hq : submitted (obs (TryLock LOCK_KEY LOCK_BLOCK_EXPIRATION LOCK_TIMEOUT_EXPIRATION) locked
                          :: tr1 ++ obs (StorageGet INFO_KEY) st :: tr3) = []).
  { change (submitted (tr1 ++ obs (StorageGet INFO_KEY) st :: tr3) = []). rewrite submitted_app, Hr. exact Hsub. }
  destruct y as [[body|e]|]; [destruct (utf8_valid body) eqn:Hutf| |]; try (destruct Hy as [-> ->]; by left).
  destruct Hy as (ok & -> & ->). right. eexists _, _, ok. split; [|split; [exact Hq|split; [|done]]].
  - by rewrite <-app_comm_cons, <-app_assoc.
  - change (posted_price (final_price st) host from to
              ((obs (TryLock LOCK_KEY LOCK_BLOCK_EXPIRATION LOCK_TIMEOUT_EXPIRATION) locked :: tr1) ++
               [obs (StorageGet INFO_KEY) st] ++ tr3)).
    by eapply posted_price_app, posted_price_app, submission_posted.
Qed.

(** C22: the worker submits a price on chain at most once, as its last action,
    and the calls right before are the post of the transaction that carries the
    same price to the Ethereum host, which the host took and which was answered
    with status 200 before its deadline and with a readable body, preceded by
    the gas estimation for the same data, answered in the same way.  It succeeds
    exactly when the pool takes the submission; a run that submits nothing is not
    a success. *)
Theorem submitted_price_was_posted host from to tr x :
  traces (update_ethereum_price_worker timestamp_add host from to) tr x ->
  (submitted tr = [] /\ x <> Some (Ok tt)) \/
  exists tr0 p ok,
    tr = tr0 ++ [obs (SubmitUnsigned (Call_submit_ethereum_price p)) ok] /\
    submitted tr0 = [] /\ posted_price p host from to tr0 /\
    x = Some (if ok then Ok tt else Err OffchainUnsignedTxError).
Proof. apply worker_submits. Qed.

(** C23: a price is published only from a fresh fetch or without the lock.  A
    worker that holds the lock and stores no new price (the fetch failed, the
    response was not the expected JSON) ends with an error of that fetch: it
    submits nothing and its only request is the one to the ticker. *)
Theorem failed_fetch_publishes_nothing host from to tr x :
  traces (update_ethereum_price_worker timestamp_add host from to) tr x ->
  head tr = Some (obs (TryLock LOCK_KEY LOCK_BLOCK_EXPIRATION LOCK_TIMEOUT_EXPIRATION) true) ->
  stored tr = [] ->
  submitted tr = [] /\ (exists t, sent tr = [get_ticker t]) /\
  (x = Some (Err HttpFetchingError) \/ x = Some (Err HttpNotParsedInStruct)).
Proof.
  intros (locked & tr0 & -> & Hw)%worker_traces Hlock Hst.
  assert (locked = true) as ->.
  { injection Hlock as Hlock%(f_equal (lock_step false)). by destruct locked. }
  destruct Hw as [(_ & e & Hr & ->)|(tr1 & st & tr2 & -> & Hr & Hp)].
  - pose proof (refresh_rules _ _ Hr) as (_ & _ & Hs & t & Ht). split; [exact Hs|]. split; [by eexists|].
    apply refresh_price_traces in Hr as (tr1 & [d|e'] & Hf & -> & [= <-]).
    apply fetch_n_parse_traces in Hf as (r & _ & Hx). destruct r as [body|]; [|simplify_eq; by left].
    unfold parse_ticker in Hx. destruct (from_utf8 body) as [str|]; [|simplify_eq; by left].
    destruct (from_str str ≫= de_LightClient); simplify_eq. by right.
  - apply refresh_price_traces in Hr as (tr3 & [d|e'] & Hf & -> & [=]).
    exfalso. simpl in Hst. unfold stored in Hst. rewrite <-!app_assoc in Hst. simpl in Hst.
    rewrite omap_app in Hst. by apply app_nil in Hst as [_ ?].
Qed.

(** ** The requests *)

(** Every request of a trace has the deadline of a clock reading of it. *)
Definition timed (tr : list (Obs Call)) : Prop :=
  Forall (fun r => exists t, obs Timestamp t ∈ tr /\ req_deadline r = timestamp_add t FETCH_TIMEOUT_PERIOD)
    (sent tr).

Lemma timed_app tr1 tr2 : timed tr1 -> timed tr2 -> timed (tr1 ++ tr2).
Proof.
  unfold timed. rewrite sent_app. intros H1 H2. apply Forall_app. split; eapply Forall_impl; [exact H1| |exact H2|];
    intros r (t & Ht & Hr); exists t; set_solver.
Qed.

Lemma timed_cons x tr : sent_of x = None -> timed tr -> timed (x :: tr).
Proof.
  intros Hx Htr. apply (timed_app [x] tr); [|done]. unfold timed, sent. simpl. rewrite Hx. constructor.
Qed.

Lemma timed_exchange request tr r :
  (forall d, req_deadline (request d) = d) -> exchanged timestamp_add request tr r -> timed tr.
Proof.
  intros Hd Hr. destruct Hr as [t|t id w|t id body]; constructor; try constructor; exists t;
    (split; [left|apply Hd]).
Qed.

Lemma timed_post tree url tr x : traces (post_tree timestamp_add tree url) tr x -> timed tr.
Proof.
  rewrite post_tree_traces. destruct (text_of tree).
  - intros (r & -> & Hr). by apply timed_exchange in Hr.
  - intros [-> _]. constructor.
Qed.

Lemma timed_submission p host from to tr x : submission timestamp_add p host from to tr x -> timed tr.
Proof.
  intros [| |f data tr' y _ _ _ Hg _|f data tr1 body gas tr2 y _ _ _ Hg _ Ht]; [constructor..| |];
    rewrite get_estimated_gas_post in Hg; [by apply timed_post in Hg|].
  rewrite send_transaction_post in Ht. apply timed_app; by eapply timed_post.
Qed.

Lemma timed_refresh tr x : traces (refresh_price timestamp_add) tr x -> timed tr.
Proof.
  intros (tr1 & r & (r' & Hr' & _)%fetch_n_parse_traces & Hr)%refresh_price_traces.
  apply timed_exchange in Hr'; [|done]. destruct r; destruct Hr as [-> _]; apply timed_app; try done; constructor.
Qed.

(** The addresses a price update talks to. *)
Lemma worker_urls host from to tr x :
  traces (update_ethereum_price_worker timestamp_add host from to) tr x ->
  (exists gets posts, map req_url (sent tr) = gets ++ posts /\ gets `prefix_of` [HTTP_REMOTE_REQUEST] /\
     posts `prefix_of` [HTTP_ETHEREUM_HOST; host]) /\ timed tr.
Proof.
  intros (locked & tr0 & -> & [(-> & e & Hr & ->)|(tr1 & st & tr2 & -> & Hr & Hp)])%worker_traces.
  { split; [|apply timed_cons; [done|]; by eapply timed_refresh].
    apply refresh_rules in Hr as (_ & _ & _ & t & Ht).
    exists [HTTP_REMOTE_REQUEST], []. split; [|split; [done|apply prefix_nil]].
    change (map req_url (sent tr0) = [HTTP_REMOTE_REQUEST]). by rewrite Ht. }
  apply publish_traces in Hp as (tr3 & y & Hs & Hy).
  assert (Hsent : sent tr2 = sent tr3 /\ (timed tr3 -> timed tr2)).
  { destruct y as [[body|e]|]; [destruct (utf8_valid body)| |]; try (by destruct Hy as [-> ->]).
    destruct Hy as (ok & -> & ->). rewrite sent_app. simpl. rewrite app_nil_r. split; [done|].
    intros ?. apply timed_app; [done|]. constructor. }
  destruct Hsent as [Hsent Htimed].
  pose proof (submission_sent _ _ _ _ _ _ Hs) as (posts & Hpre & Hposts & _). split.
  - assert (Hget : exists gets, map req_url (sent tr1) = gets /\ gets `prefix_of` [HTTP_REMOTE_REQUEST]).
    { destruct locked; [|subst; exists []; split; [done|apply prefix_nil]].
      apply refresh_rules in Hr as (_ & _ & _ & t & ->). by eexists. }
    destruct Hget as (gets & Hgets & Hpre'). exists gets, posts. split; [|done].
    change (map req_url (sent (tr1 ++ [obs (StorageGet INFO_KEY) st] ++ tr2)) = gets ++ posts).
    rewrite !sent_app, !map_app, Hsent, Hgets, Hposts. done.
  - apply timed_cons; [done|]. apply timed_app; [|apply timed_cons; [done|]; apply Htimed; by eapply timed_submission].
    destruct locked; [by eapply timed_refresh|subst; constructor].
Qed.

(** C24: the requests of a worker are bounded.  It sends at most three: one to
    the ticker, one gas estimation to the fixed local node, one transaction to
    the address of the request, in this order, the last of them to a URL that
    starts with [0x].  Each has the deadline of a clock reading of the worker
    plus the fetch timeout. *)
Theorem requests_are_bounded block tr x :
  traces (offchain_worker timestamp_add block) tr x ->
  (exists gets posts h, map req_url (sent tr) = gets ++ posts /\
     gets `prefix_of` [HTTP_REMOTE_REQUEST] /\ posts `prefix_of` [HTTP_ETHEREUM_HOST; lit "0x" ++ h]) /\
  timed tr.
Proof.
  intros (v & tr' & -> & [[-> _]|(h & f & t & y & _ & _ & _ & Hw & _)])%offchain_worker_traces.
  - split; [|constructor]. exists [], [], []. split; [done|split; apply prefix_nil].
  - apply worker_urls in Hw as [(gets & posts & ? & ? & ?) Ht]. split; [by exists gets, posts, h|].
    by apply timed_cons.
Qed.

(** ** Panics *)

(** A gas estimation for strings, with nothing to work with in the end. *)
Definition no_gas (tr : list (Obs Call)) : Prop :=
  exists data from to y,
    utf8_valid data = true /\ utf8_valid from = true /\ utf8_valid to = true /\
    traces (get_estimated_gas timestamp_add data from to) tr y /\
    forall body, y = Some (Ok body) -> gas_of body = None.

Lemma submission_panic `{!SerdeJsonLaws J} p host from to tr :
  utf8_valid from = true -> utf8_valid to = true ->
  submission timestamp_add p host from to tr None -> no_gas tr.
Proof.
  intros Hfrom Hto. inversion 1 as [| |f data tr' y _ _ Hd Hg Hno|f data tr1 body gas tr2 y _ _ Hd Hg Hgas Ht]; subst.
  - apply call_data_utf8 in Hd. by exists data, from, to, y.
  - exfalso. rewrite send_transaction_post, post_tree_traces in Ht. apply call_data_utf8 in Hd.
    apply gas_of_utf8 in Hgas. destruct (ser_eth_transaction_ok data from to gas) as [j Hj]; [done..|].
    rewrite Hj in Ht. destruct (text_of _); [by destruct Ht as (? & ? & _)|by destruct Ht as [_ ?]].
Qed.

(** C25: the worker panics only over the gas estimation.  When it does, its
    last calls are a gas estimation that gave no usable answer, it has
    submitted nothing, and it has posted no transaction. *)
Theorem panics_only_over_gas `{!SerdeJsonLaws J} block tr :
  traces (offchain_worker timestamp_add block) tr None ->
  submitted tr = [] /\ exists tr0 tr1, tr = tr0 ++ tr1 /\ no_gas tr1 /\
    Forall (fun r => req_url r = HTTP_REMOTE_REQUEST) (sent tr0) /\
    Forall (fun r => req_url r = HTTP_ETHEREUM_HOST) (sent tr1).
Proof.
  intros (v & tr' & -> & [[_ [=]]|(h & f & t & y & _ & Hf & Ht & Hw & Hy)])%offchain_worker_traces.
  destruct y as [|]; [done|]. clear Hy.
  apply worker_traces in Hw as (locked & tr0 & -> & [(_ & e & _ & [=])|(tr1 & st & tr2 & -> & Hr & Hp)]).
  apply publish_traces in Hp as (tr3 & y & Hsub & Hy).
  destruct y as [[body|e]|]; [destruct (utf8_valid body)| |]; try (by destruct Hy as (? & _ & [=])); try (by destruct Hy as [_ [=]]).
  destruct Hy as [-> _]. pose proof Hsub as Hno. apply submission_panic in Hno; [|by rewrite utf8_valid_app..].
  split.
  { apply first_half_quiet in Hr. apply submission_rules in Hsub as (_ & _ & Hsub & _).
    change (submitted (tr1 ++ obs (StorageGet INFO_KEY) st :: tr3) = []). by rewrite submitted_app, Hr. }
  eexists (_ :: _ :: tr1 ++ [_]), tr3. split; [by rewrite <-!app_comm_cons, <-app_assoc|]. split; [done|]. split.
  - change (Forall (fun r => req_url r = HTTP_REMOTE_REQUEST) (sent (tr1 ++ [obs (StorageGet INFO_KEY) st]))).
    rewrite sent_app. apply Forall_app. split; [|constructor]. destruct locked; [|subst; constructor].
    apply refresh_rules in Hr as (_ & _ & _ & t0 & ->). by repeat constructor.
  - destruct Hno as (data & fr & to & z & _ & _ & _ & Hg & _). rewrite get_estimated_gas_post in Hg.
    apply post_tree_sent in Hg as [->|(body & t0 & _ & ->)]; by repeat constructor.
Qed.

Lemma post_refused tree url tr x r :
  traces (post_tree timestamp_add tree url) tr x -> r ∈ refused tr -> exists e, x = Some (Err e).
Proof.
  rewrite post_tree_traces. destruct (text_of tree) as [body|].
  - intros (y & -> & Hy). destruct Hy as [t|t id w _|t id body']; unfold refused; simpl; intros Hin;
      [eauto|eauto|by apply not_elem_of_nil in Hin].
  - intros [-> _] Hin. by apply not_elem_of_nil in Hin.
Qed.

Lemma submission_refused p host from to tr x r :
  host <> HTTP_ETHEREUM_HOST ->
  submission timestamp_add p host from to tr x ->
  r ∈ refused tr -> req_url r = HTTP_ETHEREUM_HOST -> x = None.
Proof.
  intros Hhost [| |f data tr' y _ _ _ Hg _|f data tr1 body gas tr2 y _ _ _ Hg _ Ht] Hin Hurl;
    [by apply not_elem_of_nil in Hin..|done|].
  rewrite refused_app in Hin. apply elem_of_app in Hin as [Hin|Hin].
  - rewrite get_estimated_gas_post in Hg. by destruct (post_refused _ _ _ _ _ Hg Hin).
  - rewrite send_transaction_post in Ht. apply refused_sent in Hin.
    apply post_tree_sent in Ht as [Ht|(text & t & _ & Ht)]; rewrite Ht in Hin; [by apply not_elem_of_nil in Hin|].
    apply list_elem_of_singleton in Hin as ->. by destruct Hhost.
Qed.

(** C36: the gas estimation must not fail.  If the host refuses the request to
    the local Ethereum node, the worker panics, whatever else happens: the
    failure is not reported as an error of the worker. *)
Theorem gas_refusal_panics block tr x r :
  traces (offchain_worker timestamp_add block) tr x ->
  r ∈ refused tr -> req_url r = HTTP_ETHEREUM_HOST -> x = None.
Proof.
  intros (v & tr' & -> & [[-> _]|(h & f & t & y & _ & _ & _ & Hw & ->)])%offchain_worker_traces Hin Hurl.
  { by apply not_elem_of_nil in Hin. }
  apply worker_traces in Hw as (locked & tr0 & -> & Hw).
  assert (Hget : forall tr1 z, traces (refresh_price timestamp_add) tr1 z -> r ∉ refused tr1).
  { intros tr1 z (_ & _ & _ & t0 & Ht)%refresh_rules Hr%refused_sent. rewrite Ht in Hr.
    apply list_elem_of_singleton in Hr as ->. done. }
  destruct Hw as [(-> & e & Hr & ->)|(tr1 & st & tr2 & -> & Hr & Hp)]; [by destruct (Hget _ _ Hr)|].
  change (r ∈ refused (tr1 ++ obs (StorageGet INFO_KEY) st :: tr2)) in Hin.
  rewrite refused_app in Hin. apply elem_of_app in Hin as [Hin|Hin].
  { destruct locked; [by destruct (Hget _ _ Hr)|]. subst. by apply not_elem_of_nil in Hin. }
  change (r ∈ refused tr2) in Hin. apply publish_traces in Hp as (tr3 & z & Hs & Hz).
  assert (Hin3 : r ∈ refused tr3).
  { destruct z as [[body|e]|]; [destruct (utf8_valid body)| |]; try (by destruct Hz as [-> _]).
    destruct Hz as (ok & -> & _). by rewrite refused_app, app_nil_r in Hin. }
  apply submission_refused with (r := r) in Hs as ->; [|done..]. by destruct Hz as [_ ->].
Qed.

(** ** The calldata *)

(** C27: the calldata of a price is well formed and faithful.  For every number
    the price string parses to, the padding does not underflow, the data is the
    four byte selector and one 32 byte word in hexadecimal, and the word is the
    price as [u32]. *)
Theorem call_data_word str f :
  parse_f32 str = Some f ->
  exists data, call_data (f32_as_u32 f) = Some data /\ List.length data = 74%nat /\
    take 10 data = lit "0xd423740b" /\ of_hex (drop 10 data) = Some (f32_as_u32 f) /\
    0 <= f32_as_u32 f <= u32_max.
Proof.
  intros Hf. pose proof (f32_as_u32_range f (parse_f32_ok str f Hf)) as Hrange.
  destruct (call_data_read _ Hrange) as (data & ? & ? & ? & ?). by exists data.
Qed.

(** C28: the posted word is the price in whole dollars, or one more.  For a
    ticker price written with digits, a point and digits, below [2 ^ 24], the
    word lies between the integral part and the next integer (the conversion to
    [f32] rounds before the cast truncates), and it is the price itself when
    there are no fraction digits. *)
Theorem posted_word_is_price int frac :
  Forall is_digit int -> Forall is_digit frac -> int <> [] -> dec_val int < 2 ^ 24 ->
  exists f data n,
    parse_f32 (digits int ++ lit "." ++ digits frac) = Some f /\
    call_data (f32_as_u32 f) = Some data /\ of_hex (drop 10 data) = Some n /\
    dec_val int <= n <= dec_val int + 1 /\ (frac = [] -> n = dec_val int).
Proof.
  intros Hint Hfrac Hne Hlt. pose proof (parse_decimal int frac Hint Hfrac Hne) as Hf.
  destruct (call_data_read _ (f32_as_u32_range _ (parse_f32_ok _ _ Hf))) as (data & Hdata & _ & _ & Hword).
  eexists _, data, _. do 3 (split; [done|]).
  pose proof (dec_val_bound _ Hint). pose proof (dec_val_bound _ Hfrac).
  set (q := 10 ^ Z.of_nat (List.length frac)) in *. pose proof (dec_val_app int frac) as Happ. fold q in Happ.
  assert (Hdiv : dec_val (int ++ frac) / q = dec_val int).
  { symmetry. apply (Z.div_unique _ _ _ (dec_val frac)); lia. }
  split; [rewrite <-Hdiv; apply round_f32_trunc; nia|].
  intros ->. unfold q. change (10 ^ Z.of_nat 0) with 1. rewrite app_nil_r. apply round_f32_integer. lia.
Qed.

(** ** Delivery *)

(** A host that does its part: it grants the lock, starts every request,
    answers it in time with status 200 and the body [answer] says, reads back
    what was stored, and takes the submission. *)
Definition cooperates (answer : HttpRequest -> bytes) (before : list (Obs Call)) (x : Obs Call) : Prop :=
  match x with
  | existT (TryLock _ _ _) granted => granted = true
  | existT (HttpSend _) id => is_Some id
  | existT (HttpTryWait _ _) w => w = WaitResponse 200
  | existT (HttpBody _) body => forall q, last (sent before) = Some q -> body = answer q
  | existT (StorageGet key) v => forall w, index_get (stored before) key = Some w -> v = Some w
  | existT (SubmitUnsigned _) taken => taken = true
  | _ => True
  end.

Fixpoint cooperative (answer : HttpRequest -> bytes) (before tr : list (Obs Call)) : Prop :=
  match tr with
  | [] => True
  | x :: tr' => cooperates answer before x /\ cooperative answer (before ++ [x]) tr'
  end.

Lemma cooperative_app answer before tr1 tr2 :
  cooperative answer before (tr1 ++ tr2) <->
  cooperative answer before tr1 /\ cooperative answer (before ++ tr1) tr2.
Proof.
  revert before. induction tr1 as [|x tr1 IH]; intros before; simpl; [rewrite app_nil_r; naive_solver|].
  rewrite IH, <-app_assoc. naive_solver.
Qed.

Lemma cooperative_exchange answer before request tr r :
  exchanged timestamp_add request tr r -> cooperative answer before tr ->
  exists t, r = Ok (answer (request t)) /\ sent tr = [request t].
Proof.
  destruct 1 as [t|t id w Hw|t id body]; simpl.
  - intros (_ & [? [=]] & _).
  - by intros (_ & _ & Hc & _).
  - intros (_ & _ & _ & Hb & _). eexists. split; [|done]. f_equal. apply Hb.
    rewrite !sent_app. simpl. rewrite app_nil_r. apply last_snoc.
Qed.

Lemma cooperative_post answer before tree text url tr x :
  text_of tree = Some text -> traces (post_tree timestamp_add tree url) tr x ->
  cooperative answer before tr ->
  exists t, x = Some (Ok (answer (post_json url text t))) /\ sent tr = [post_json url text t].
Proof.
  intros Htext Ht Hc. rewrite post_tree_traces, Htext in Ht. destruct Ht as (r & -> & Hr).
  destruct (cooperative_exchange _ _ _ _ _ Hr Hc) as (t & -> & ?). eauto.
Qed.

(** Against such a host the refresh stores the ticker's price ... *)
Lemma cooperative_refresh answer before d tr x :
  (forall t, parse_ticker (answer (get_ticker t)) = Ok d) ->
  traces (refresh_price timestamp_add) tr x -> cooperative answer before tr ->
  x = Some (Ok tt) /\ stored tr = [(INFO_KEY, encode d)] /\ submitted tr = [] /\
  exists t, sent tr = [get_ticker t].
Proof.
  intros Hticker (trf & r & Hf & Hr)%refresh_price_traces Hc.
  assert (Hcf : cooperative answer before trf).
  { destruct r; destruct Hr as [-> _]; by apply cooperative_app in Hc as [? _]. }
  pose proof (traces_calls_only _ _ _ _ (fetch_n_parse_http _) Hf) as (Hsub & Hst & _)%http_quiet.
  apply fetch_n_parse_traces in Hf as (b & Hb & [= ->]).
  destruct (cooperative_exchange _ _ _ _ _ Hb Hcf) as (t & -> & Ht). rewrite Hticker in Hr.
  destruct Hr as [-> ->]. rewrite stored_app, submitted_app, sent_app, Hst, Hsub, Ht. eauto.
Qed.

(** ... and the price goes out. *)
Lemma cooperative_publish answer before p host from to f data gas text1 text2 tr x :
  utf8_valid p = true -> parse_f32 p = Some f -> call_data (f32_as_u32 f) = Some data ->
  text_of (ser_EstimateGasRequest (gas_request data from to)) = Some text1 ->
  (forall t, gas_of (answer (post_json HTTP_ETHEREUM_HOST text1 t)) = Some gas) ->
  text_of (ser_EthTransaction (eth_transaction data from to gas)) = Some text2 ->
  (forall t, utf8_valid (answer (post_json host text2 t)) = true) ->
  traces (publish_price timestamp_add p host from to) tr x -> cooperative answer before tr ->
  x = Some (Ok tt) /\ submitted tr = [Call_submit_ethereum_price p] /\ stored tr = [] /\
  exists t2 t3, sent tr = [post_json HTTP_ETHEREUM_HOST text1 t2; post_json host text2 t3].
Proof.
  intros Hutf Hf Hdata Htext1 Hgas Htext2 Hreceipt (tr1 & y & Hs & Hy)%publish_traces Hc.
  assert (Hc1 : cooperative answer before tr1).
  { destruct y as [[body|e]|]; [destruct (utf8_valid body)| |]; try (by destruct Hy as [<- _]).
    destruct Hy as (ok & -> & _). by apply cooperative_app in Hc as [? _]. }
  pose proof (submission_rules _ _ _ _ _ _ Hs) as (_ & _ & Hsub & Hst).
  destruct Hs as [Hn|_ Hn|f' data' tr1 z _ Hf' Hdata' Hg Hno|f' data' tr1 body gas' tr2 z _ Hf' Hdata' Hg Hgas' Ht];
    [congruence..| |]; simplify_eq; rewrite get_estimated_gas_post in Hg.
  - destruct (cooperative_post _ _ _ _ _ _ _ Htext1 Hg Hc1) as (t & -> & _).
    specialize (Hno _ eq_refl). by rewrite Hgas in Hno.
  - apply cooperative_app in Hc1 as [Hc1 Hc2].
    destruct (cooperative_post _ _ _ _ _ _ _ Htext1 Hg Hc1) as (t2 & [= ->] & Hs2).
    rewrite Hgas in Hgas'. apply (inj Some) in Hgas'. subst gas'. rewrite send_transaction_post in Ht.
    destruct (cooperative_post _ _ _ _ _ _ _ Htext2 Ht Hc2) as (t3 & -> & Hs3).
    rewrite Hreceipt in Hy. destruct Hy as (ok & -> & ->).
    apply cooperative_app in Hc as [_ [Hok _]]. simpl in Hok. subst ok.
    rewrite submitted_app, stored_app, Hsub, Hst, !sent_app, Hs2, Hs3. split; [done|]. simpl. eauto.
Qed.

(** The worker delivers.  If the ticker answers with a price that parses
    and the Ethereum node answers the gas estimation and the transaction, then
    against a cooperative host every run of the worker succeeds: it stores the
    fetched price, sends the three requests for it in order, and submits
    exactly that price on chain. *)
Theorem worker_delivers `{!SerdeJsonLaws J} answer host from to d f data gas text1 text2 tr x :
  (forall t, parse_ticker (answer (get_ticker t)) = Ok d) ->
  encodable (price d, time d) ->
  parse_f32 (price d) = Some f -> call_data (f32_as_u32 f) = Some data ->
  text_of (ser_EstimateGasRequest (gas_request data from to)) = Some text1 ->
  (forall t, gas_of (answer (post_json HTTP_ETHEREUM_HOST text1 t)) = Some gas) ->
  text_of (ser_EthTransaction (eth_transaction data from to gas)) = Some text2 ->
  (forall t, utf8_valid (answer (post_json host text2 t)) = true) ->
  traces (update_ethereum_price_worker timestamp_add host from to) tr x ->
  cooperative answer [] tr ->
  x = Some (Ok tt) /\ submitted tr = [Call_submit_ethereum_price (price d)] /\
  stored tr = [(INFO_KEY, encode d)] /\
  exists t1 t2 t3,
    sent tr = [get_ticker t1; post_json HTTP_ETHEREUM_HOST text1 t2; post_json host text2 t3].
Proof.
  intros Hticker Henc Hf Hdata Htext1 Hgas Htext2 Hreceipt (locked & tr0 & -> & Hw)%worker_traces [Hlock Hc].
  simpl in Hlock. subst locked. simpl in Hc. pose proof (parse_ticker_utf8 _ _ (Hticker 0)) as Hutf.
  destruct Hw as [(_ & e & Hr & ->)|(tr1 & st & tr2 & -> & Hr & Hp)].
  { by destruct (cooperative_refresh _ _ _ _ _ Hticker Hr Hc) as ([=] & _). }
  apply cooperative_app in Hc as [Hc1 [Hst Hc2]].
  destruct (cooperative_refresh _ _ _ _ _ Hticker Hr Hc1) as (_ & Hst1 & Hsub1 & t1 & Hs1).
  assert (st = Some (encode d)) as ->.
  { apply Hst. change (index_get (stored tr1) INFO_KEY = Some (encode d)). by rewrite Hst1. }
  assert (final_price (Some (encode d)) = price d) as Hprice.
  { unfold final_price, storage_value_get. cbn [encode decode LightClient_codec].
    rewrite <-(app_nil_r (encode _)), (decode_encode (price d, time d)) by done. by destruct d. }
  rewrite Hprice in Hp.
  destruct (cooperative_publish _ _ _ _ _ _ _ _ _ _ _ _ _ Hutf Hf Hdata Htext1 Hgas Htext2 Hreceipt Hp Hc2)
    as (-> & Hsub2 & Hst2 & t2 & t3 & Hs2).
  split; [done|]. split; [|split].
  - change (submitted (tr1 ++ [obs (StorageGet INFO_KEY) (Some (encode d))] ++ tr2) =
            [Call_submit_ethereum_price (price d)]). by rewrite !submitted_app, Hsub1, Hsub2.
  - change (stored (tr1 ++ [obs (StorageGet INFO_KEY) (Some (encode d))] ++ tr2) = [(INFO_KEY, encode d)]).
    by rewrite !stored_app, Hst1, Hst2.
  - exists t1, t2, t3.
    change (sent (tr1 ++ [obs (StorageGet INFO_KEY) (Some (encode d))] ++ tr2) =
      [get_ticker t1; post_json HTTP_ETHEREUM_HOST text1 t2; post_json host text2 t3]).
    by rewrite !sent_app, Hs1, Hs2.
Qed.

(** C30: without the lock the worker publishes what is cached.  It fetches and
    stores nothing, and the only price it can submit is the one read from the
    local storage; when nothing readable is stored there, that price is zero. *)
Theorem without_lock_uses_cache host from to tr x :
  traces (update_ethereum_price_worker timestamp_add host from to) tr x ->
  head tr = Some (obs (TryLock LOCK_KEY LOCK_BLOCK_EXPIRATION LOCK_TIMEOUT_EXPIRATION) false) ->
  stored tr = [] /\ Forall (fun r => req_method r = Post) (sent tr) /\
  exists st, tr !! 1%nat = Some (obs (StorageGet INFO_KEY) st) /\
    (submitted tr = [] \/ submitted tr = [Call_submit_ethereum_price (final_price st)]) /\
    (storage_value_get (A := LightClient) st = None \/ storage_value_get (A := LightClient) st = Some None ->
     final_price st = lit "0").
Proof.
  intros (locked & tr0 & -> & Hw)%worker_traces Hlock.
  assert (locked = false) as ->.
  { injection Hlock as Hlock%(f_equal (lock_step false)). by destruct locked. }
  destruct Hw as [([=] & _)|(tr1 & st & tr2 & -> & -> & Hp)].
  apply publish_traces in Hp as (tr3 & y & Hs & Hy).
  pose proof (submission_rules _ _ _ _ _ _ Hs) as (_ & _ & Hsub & Hst).
  pose proof (submission_sent _ _ _ _ _ _ Hs) as (_ & _ & _ & Hpost).
  assert (Htr2 : stored tr2 = [] /\ Forall (fun r => req_method r = Post) (sent tr2) /\
            (submitted tr2 = [] \/ submitted tr2 = [Call_submit_ethereum_price (final_price st)])).
  { destruct y as [[body|e]|]; [destruct (utf8_valid body)| |]; try (destruct Hy as [-> _]; by auto).
    destruct Hy as (ok & -> & _). rewrite stored_app, sent_app, submitted_app, Hsub, Hst. simpl.
    rewrite app_nil_r. auto. }
  destruct Htr2 as (Hst2 & Hpost2 & Hsub2). split; [exact Hst2|]. split; [exact Hpost2|].
  exists st. split; [done|]. split; [exact Hsub2|]. unfold final_price. by intros [-> | ->].
Qed.

End theorems.

(** ** Witnesses *)

Section witnesses.
Import Mock Compact MiniJson.

Abbreviation worker := (offchain_worker (F := mock_system) (block_codec := u32_codec) Z.add).
Abbreviation update := (update_ethereum_price_worker (J := mini) Z.add).

Definition host_url : bytes := lit "0xnode".
Definition from_addr : bytes := lit "0xaa".
Definition to_addr : bytes := lit "0xbb".

(** A ticker at 1823.75 dollars, a node that estimates 21000 units of gas. *)
Definition ticker : LightClient := {| price := lit "1823.75"; time := lit "now" |}.
Definition answer (q : HttpRequest) : bytes :=
  show (match req_method q with
        | Get => SStruct [(lit "price", SStr (price ticker)); (lit "bid", SStr (lit "1.5"));
                          (lit "time", SStr (time ticker))]
        | Post => SStruct [(lit "jsonrpc", SStr (lit "2.0")); (lit "id", SU8 20);
                           (lit "result", SStr (lit "0x5208"))]
        end).

(** A host with a clock, local storage and the last request; [up] says whether
    requests to a URL go out and [locks] whether locks are granted. *)
Definition HostState : Type := list (bytes * bytes) * option HttpRequest.
Definition demo (up : bytes -> bool) (locks : bool) : host Call HostState :=
  fun o s =>
    match o with
    | Timestamp => (1000, s)
    | HttpSend r => (if up (req_url r) then Some 7 else None, (fst s, Some r))
    | HttpTryWait _ _ => (WaitResponse 200, s)
    | HttpBody _ => (match snd s with Some r => answer r | None => [] end, s)
    | StorageGet key => (index_get (fst s) key, s)
    | StorageSet key value => (tt, (fst s ++ [(key, value)], snd s))
    | TryLock _ _ _ => (locks, s)
    | Unlock _ => (tt, s)
    | SubmitUnsigned _ => (true, s)
    end.

Definition all_up (url : bytes) : bool := true.
Definition gas_down (url : bytes) : bool := negb (bool_decide (url = HTTP_ETHEREUM_HOST)).
Definition ticker_down (url : bytes) : bool := negb (bool_decide (url = HTTP_REMOTE_REQUEST)).

(** The index after a block with one update request. *)
Definition requested : list (bytes * bytes) :=
  [(derived_key (F := mock_system) (block_codec := u32_codec) 7,
    index_value (Call_update_ethereum_price (lit "node") (lit "aa") (lit "bb")))].

Definition trace_of {A} (h : host Call HostState) (t : prog Call A) : list (Obs Call) := snd (run h t ((requested, None) : HostState) []).
Definition result_of {A} (h : host Call HostState) (t : prog Call A) : option A := fst (fst (run h t ((requested, None) : HostState) [])).

(** The whole worker against hosts that are up, without gas, without ticker. *)
Example demo_results :
  result_of (demo all_up true) (worker 7) = Some tt /\
  submitted (trace_of (demo all_up true) (worker 7)) = [Call_submit_ethereum_price (lit "1823.75")] /\
  result_of (demo gas_down true) (worker 7) = None /\
  result_of (demo ticker_down true) (update host_url from_addr to_addr) = Some (Err HttpFetchingError) /\
  submitted (trace_of (demo all_up false) (worker 7)) = [Call_submit_ethereum_price (lit "0")].
Proof. vm_compute. done. Qed.

Lemma ran {A} h (t : prog Call A) : traces t (trace_of h t) (result_of h t).
Proof. apply run_traces. Qed.

Lemma lock_discipline_witness :
  along lock_rules false (trace_of (demo gas_down true) (worker 7)) /\
  held false (trace_of (demo gas_down true) (worker 7)) = false.
Proof. exact (lock_discipline _ _ _ _ (ran (demo gas_down true) (worker 7))). Defined.

Lemma submitted_price_was_posted_witness :
  let tr := trace_of (demo all_up true) (update host_url from_addr to_addr) in
  exists tr0 p ok, tr = tr0 ++ [obs (SubmitUnsigned (Call_submit_ethereum_price p)) ok] /\
    submitted tr0 = [] /\ posted_price Z.add p host_url from_addr to_addr tr0.
Proof.
  destruct (submitted_price_was_posted _ _ _ _ _ _ (ran (demo all_up true) (update host_url from_addr to_addr)))
    as [[_ Hx]|(tr0 & p & ok & Htr & Hsub & Hp & _)].
  - destruct Hx. vm_compute. reflexivity.
  - exists tr0, p, ok. split; [exact Htr|]. split; [exact Hsub|exact Hp].
Defined.

Lemma failed_fetch_publishes_nothing_witness :
  let tr := trace_of (demo ticker_down true) (update host_url from_addr to_addr) in
  submitted tr = [] /\ (exists t, sent tr = [get_ticker t]) /\
  (result_of (demo ticker_down true) (update host_url from_addr to_addr) = Some (Err HttpFetchingError) \/
   result_of (demo ticker_down true) (update host_url from_addr to_addr) = Some (Err HttpNotParsedInStruct)).
Proof.
  apply (failed_fetch_publishes_nothing _ _ _ _ _ _
           (ran (demo ticker_down true) (update host_url from_addr to_addr))); vm_compute; reflexivity.
Defined.

Lemma requests_are_bounded_witness :
  (exists gets posts h, map req_url (sent (trace_of (demo all_up true) (worker 7))) = gets ++ posts /\
     gets `prefix_of` [HTTP_REMOTE_REQUEST] /\ posts `prefix_of` [HTTP_ETHEREUM_HOST; lit "0x" ++ h]) /\
  timed Z.add (trace_of (demo all_up true) (worker 7)).
Proof. exact (requests_are_bounded _ _ _ _ (ran (demo all_up true) (worker 7))). Defined.

Lemma panics_only_over_gas_witness :
  let tr := trace_of (demo gas_down true) (worker 7) in
  submitted tr = [] /\ exists tr0 tr1, tr = tr0 ++ tr1 /\ no_gas Z.add tr1 /\
    Forall (fun r => req_url r = HTTP_REMOTE_REQUEST) (sent tr0) /\
    Forall (fun r => req_url r = HTTP_ETHEREUM_HOST) (sent tr1).
Proof.
  assert (Hx : result_of (demo gas_down true) (worker 7) = None) by (vm_compute; reflexivity).
  pose proof (ran (demo gas_down true) (worker 7)) as Hran. rewrite Hx in Hran.
  exact (panics_only_over_gas _ _ _ Hran).
Defined.

Lemma gas_refusal_panics_witness : result_of (demo gas_down true) (worker 7) = None.
Proof.
  eapply (gas_refusal_panics _ _ _ _ _ (ran (demo gas_down true) (worker 7)));
    [vm_compute; apply list_elem_of_here|reflexivity].
Defined.

Lemma call_data_word_witness :
  exists data, call_data 1823 = Some data /\ List.length data = 74%nat /\
    take 10 data = lit "0xd423740b" /\ of_hex (drop 10 data) = Some 1823.
Proof.
  assert (Hf : exists f, parse_f32 (lit "1823.75") = Some f /\ f32_as_u32 f = 1823)
    by (vm_compute; eexists; split; reflexivity).
  destruct Hf as (f & Hf & Hn). destruct (call_data_word (lit "1823.75") f Hf) as (data & H1 & H2 & H3 & H4 & _).
  rewrite Hn in *. exists data. split; [exact H1|]. split; [exact H2|]. split; [exact H3|exact H4].
Defined.

(** The conversion to [f32] can round up: 1823.99999 is posted as 1824. *)
Lemma posted_word_is_price_witness :
  exists f data n, parse_f32 (lit "1823.99999") = Some f /\ call_data (f32_as_u32 f) = Some data /\
    of_hex (drop 10 data) = Some n /\ 1823 <= n <= 1824.
Proof.
  destruct (posted_word_is_price [1; 8; 2; 3] [9; 9; 9; 9; 9]) as (f & data & n & H1 & H2 & H3 & H4 & _).
  - repeat constructor; vm_compute; discriminate.
  - repeat constructor; vm_compute; discriminate.
  - discriminate.
  - vm_compute. reflexivity.
  - exists f, data, n. split; [exact H1|]. split; [exact H2|]. split; [exact H3|exact H4].
Defined.

Example rounded_up : f32_as_u32 <$> parse_f32 (lit "1823.99999") = Some 1824.
Proof. vm_compute. reflexivity. Qed.

Lemma without_lock_uses_cache_witness :
  let tr := trace_of (demo all_up false) (update host_url from_addr to_addr) in
  stored tr = [] /\ Forall (fun r => req_method r = Post) (sent tr).
Proof.
  destruct (without_lock_uses_cache _ _ _ _ _ _
              (ran (demo all_up false) (update host_url from_addr to_addr))) as (H1 & H2 & _).
  - vm_compute. reflexivity.
  - split; [exact H1|exact H2].
Defined.

Definition the_data : bytes := default [] (call_data 1823).
Definition gas_text : bytes :=
  default [] (text_of (J := mini) (ser_EstimateGasRequest (gas_request the_data from_addr to_addr))).
Definition transaction_text : bytes :=
  default [] (text_of (J := mini)
                (ser_EthTransaction (eth_transaction the_data from_addr to_addr (lit "0x5208")))).

(** The host that is up cooperates with every program. *)
Definition state_after (before : list (Obs Call)) : HostState :=
  (requested ++ stored before, last (sent before)).

Lemma demo_step before o :
  let (r, s') := demo all_up true o (state_after before) in
  cooperates answer before (obs o r) /\ s' = state_after (before ++ [obs o r]).
Proof.
  assert (Hquiet : forall o r, sent_of (obs o r) = None -> stored_of (obs o r) = None ->
            state_after before = state_after (before ++ [obs o r])).
  { intros o' r Hs Ht. unfold state_after, sent, stored. rewrite !omap_app. simpl. rewrite Hs, Ht.
    by rewrite !app_nil_r. }
  assert (Hsent : forall o r, state_after (before ++ [obs o r]) =
            (requested ++ stored before ++ stored [obs o r], last (sent before ++ sent [obs o r]))).
  { intros o' r. unfold state_after. by rewrite sent_app, stored_app. }
  destruct o as [|r|id d|id|key|key v|key b t|key|c]; (split; [|by first [apply Hquiet|rewrite Hsent; simpl;
    rewrite ?app_nil_r, ?last_snoc, ?app_assoc]]); simpl; try done.
  - intros q Hq. by rewrite Hq.
  - intros w Hw. by apply (index_get_app requested).
Qed.

Lemma demo_cooperative {A} (t : prog Call A) before :
  cooperative answer before (snd (run (demo all_up true) t (state_after before) [])).
Proof.
  revert before. induction t as [a| |o k IH]; intros before; simpl; [done..|].
  pose proof (demo_step before o) as Hstep. destruct (demo all_up true o (state_after before)) as [r s'].
  destruct Hstep as [Hc ->]. rewrite run_app. split; [exact Hc|apply IH].
Qed.

Lemma worker_delivers_witness :
  let tr := trace_of (demo all_up true) (update host_url from_addr to_addr) in
  result_of (demo all_up true) (update host_url from_addr to_addr) = Some (Ok tt) /\
  submitted tr = [Call_submit_ethereum_price (lit "1823.75")] /\
  stored tr = [(INFO_KEY, encode ticker)] /\
  exists t1 t2 t3,
    sent tr = [get_ticker t1; post_json HTTP_ETHEREUM_HOST gas_text t2; post_json host_url transaction_text t3].
Proof.
  assert (Hf : exists f, parse_f32 (price ticker) = Some f /\ f32_as_u32 f = 1823)
    by (vm_compute; eexists; split; reflexivity).
  destruct Hf as (f & Hf & Hn).
  apply (worker_delivers Z.add answer host_url from_addr to_addr ticker f the_data (lit "0x5208")).
  - intros t. vm_compute. reflexivity.
  - split; vm_compute; reflexivity.
  - exact Hf.
  - rewrite Hn. vm_compute. reflexivity.
  - vm_compute. reflexivity.
  - intros t. vm_compute. reflexivity.
  - vm_compute. reflexivity.
  - intros t. vm_compute. reflexivity.
  - apply ran.
  - exact (demo_cooperative _ []).
Defined.

End witnesses.

End ClientWorker.
