(* ===== verification/ClientJson.v ===== *)
(** * Serialising and printing the light client's requests

    When the [Serialize] and [Debug] implementations of the request types of
    client/src/lib.rs succeed. *)

From S2P Require Import Prelude Frame Str Num Scale Json Effects Offchain Client.
From Stdlib Require Import Strings.String Strings.Byte.
Import Str Num Offchain Client.
Local Open Scope Z_scope.
Local Open Scope supra_scope.

Module ClientJson.

(** ** Serialising *)

Definition params_strings (p : EthParams) : list bytes :=
  [ep_from p; ep_to p; ep_data p; ep_value p; ep_gas p; ep_gas_price p].

(** Whether the vectors of a request are all strings. *)
Definition transaction_utf8 (t : EthTransaction) : bool :=
  utf8_valid (et_jsonrpc t) && utf8_valid (et_method t) &&
  forallb (fun p => forallb utf8_valid (params_strings p)) (et_params t).

Lemma ser_params_utf8 p : is_Some (ser_EthParams p) <-> forallb utf8_valid (params_strings p) = true.
Proof.
  unfold ser_EthParams, params_strings, ser_utf8, from_utf8. simpl.
  repeat match goal with
         | |- context [if utf8_valid ?v then _ else None] =>
             destruct (utf8_valid v); simpl; [|split; [by intros [? ?]|done]]
         end.
  split; [done|]. by eexists.
Qed.

Lemma ser_transaction_utf8 t : is_Some (ser_EthTransaction t) <-> transaction_utf8 t = true.
Proof.
  unfold ser_EthTransaction, transaction_utf8, ser_utf8, from_utf8.
  destruct (utf8_valid (et_jsonrpc t)); simpl; [|split; [by intros [? ?]|done]].
  destruct (utf8_valid (et_method t)); simpl; [|split; [by intros [? ?]|done]].
  assert (Hm : is_Some (mapM ser_EthParams (et_params t)) <->
               forallb (fun p => forallb utf8_valid (params_strings p)) (et_params t) = true).
  { rewrite mapM_is_Some, forallb_forall, Forall_forall. setoid_rewrite ser_params_utf8.
    by setoid_rewrite list_elem_of_In. }
  rewrite <-Hm. destruct (mapM _ _); simpl; split; try done; intros _; by eexists.
Qed.

Lemma fmt_params_utf8 p : is_Some (fmt_EthParams p) <-> forallb utf8_valid (params_strings p) = true.
Proof.
  unfold fmt_EthParams, params_strings, from_utf8. simpl.
  repeat match goal with
         | |- context [if utf8_valid ?v then Some _ else None] =>
             destruct (utf8_valid v); simpl; [|split; [by intros [? ?]|done]]
         end.
  split; [done|]. by eexists.
Qed.

Lemma fmt_gas_utf8 p :
  is_Some (fmt_GasRequestParam p) <-> is_Some (ser_GasRequestParam p).
Proof.
  unfold fmt_GasRequestParam, ser_GasRequestParam, ser_utf8, from_utf8.
  repeat match goal with
         | |- context [if utf8_valid ?v then Some _ else None] =>
             destruct (utf8_valid v); simpl; [|split; by intros [? ?]]
         end.
  split; intros _; by eexists.
Qed.

(** The two requests print when their method, version and parameters do. *)
Lemma fmt_request_some {A} (fmt : A -> option bytes) (ser : A -> option ser) v id m l :
  (forall a, is_Some (fmt a) <-> is_Some (ser a)) ->
  is_Some (fmt_request fmt v id m l) <->
  is_Some (ser_utf8 v) /\ is_Some (ser_utf8 m) /\ is_Some (mapM ser l).
Proof.
  intros Hfmt. assert (is_Some (mapM ser l) <-> is_Some (mapM fmt l)) as ->.
  { rewrite !mapM_is_Some. apply Forall_iff. intros a. symmetry. apply Hfmt. }
  unfold fmt_request, fmt_vec, ser_utf8, from_utf8.
  destruct (utf8_valid v); simpl; [|split; [by intros [? ?]|by intros ([? ?] & _)]].
  destruct (utf8_valid m); simpl; [|split; [by intros [? ?]|by intros (_ & [? ?] & _)]].
  destruct (mapM fmt l); simpl; [|split; [by intros [? ?]|by intros (_ & _ & [? ?])]].
  split; [|by eexists]. intros _. repeat split; by eexists.
Qed.

(** Printing a request for the log and serialising it agree.  The [Debug]
    output of a transaction or of a gas estimation is an error exactly when
    serialising the same value would panic: when one of its vectors is not
    UTF-8. *)
Theorem debug_iff_serialisable :
  (forall t, is_Some (fmt_EthTransaction t) <-> is_Some (ser_EthTransaction t)) /\
  (forall r, is_Some (fmt_EstimateGasRequest r) <-> is_Some (ser_EstimateGasRequest r)).
Proof.
  split.
  - intros t. unfold fmt_EthTransaction, ser_EthTransaction. rewrite (fmt_request_some _ ser_EthParams).
    2: { intros p. by rewrite fmt_params_utf8, ser_params_utf8. }
    destruct (ser_utf8 (et_jsonrpc t)), (ser_utf8 (et_method t)), (mapM ser_EthParams (et_params t)); simpl;
      split; first [by intros ([? [=]] & _) | by intros (_ & [? [=]] & _) | by intros (_ & _ & [? [=]])
                   | by intros [? [=]] | intros _; repeat split; by eexists].
  - intros r. unfold fmt_EstimateGasRequest, ser_EstimateGasRequest.
    rewrite (fmt_request_some _ ser_GasRequestParam) by apply fmt_gas_utf8.
    destruct (ser_utf8 (eg_jsonrpc r)), (ser_utf8 (eg_method r)), (mapM ser_GasRequestParam (eg_params r)); simpl;
      split; first [by intros ([? [=]] & _) | by intros (_ & [? [=]] & _) | by intros (_ & _ & [? [=]])
                   | by intros [? [=]] | intros _; repeat split; by eexists].
Qed.

End ClientJson.
