(* ===== verification/ClientCost.v ===== *)
(** * What a run of the light client's worker costs

    When offchain_worker (client/src/lib.rs) ends, and bounds on its calls and on
    its time, on every host.  The source gives no deadline for the reading of a
    response body: its time is counted, not bounded. *)

From S2P Require Import Prelude Frame Str Num Scale Json Effects Offchain Client ClientProofs ClientIndex ClientWorker.
From Stdlib Require Import Strings.String.
Import Str Num Offchain Client.
Local Open Scope Z_scope.
Local Open Scope supra_scope.

Module ClientCost.

Section cost.
Context `{F : FrameSystem} `{J : SerdeJson}.
Context {block_codec : Codec BlockNumber} {bytes_codec : Codec bytes}.
Context (timestamp_add : Z -> Z -> Z).

(** [c] for each call, [t] more for the wait for a response, and [b] for the
    reading of a body. *)
Definition weight (c t b : Z) (o : Op Call) : Z :=
  match o with
  | HttpTryWait _ _ => c + t
  | HttpBody _ => b
  | _ => c
  end.

Section bounds.
Context (c t b : Z) (Hc : 0 <= c) (Ht : 0 <= t) (Hb : 0 <= b).
#[local] Abbreviation w := (weight c t b).
#[local] Abbreviation costs := (Effects.costs w).

(** Steps over the parts of a program that call nothing. *)
Ltac skip :=
  cbv zeta;
  repeat lazymatch goal with
  | |- Effects.costs _ _ (wbind (wtry _ _) _) => apply costs_try; [lia|intros ?]
  | |- Effects.costs _ _ (wbind (wunwrap _) _) => apply costs_unwrap; [lia|intros ?]
  end.

Lemma http_exchange_costs request : costs (3 * c + t + b) (http_exchange timestamp_add request).
Proof.
  unfold http_exchange. apply costs_call. intros now. cbv zeta. apply costs_call. intros sent.
  apply costs_try; [cbn [weight]; lia|]. intros id. apply costs_call.
  intros [| |code]; [cbn; lia..|]. destruct (negb _); cbn; intros; lia.
Qed.

Lemma fetch_n_parse_costs : costs (3 * c + t + b) (fetch_n_parse timestamp_add).
Proof.
  unfold fetch_n_parse. replace (3 * c + t + b) with (3 * c + t + b + 0 + 0) by lia.
  apply costs_wbind; [lia|apply costs_pbind; [lia|apply http_exchange_costs|done]|].
  intros body. skip. by destruct (_ ≫= de_LightClient).
Qed.

Lemma refresh_price_costs : costs (5 * c + t + b) (refresh_price timestamp_add).
Proof.
  unfold refresh_price. replace (5 * c + t + b) with (3 * c + t + b + 2 * c) by lia.
  apply costs_pbind; [lia|apply fetch_n_parse_costs|]. intros [d|e]; cbn; intros; lia.
Qed.

Lemma post_tree_costs tree url : costs (3 * c + t + b) (post_tree timestamp_add tree url).
Proof. unfold post_tree. skip. apply http_exchange_costs. Qed.

Lemma publish_price_costs p host from to :
  costs (7 * c + 2 * t + 2 * b) (publish_price timestamp_add p host from to).
Proof.
  unfold publish_price, submt_price_to_ethereum.
  replace (7 * c + 2 * t + 2 * b) with (6 * c + 2 * t + 2 * b + c) by lia. apply costs_wbind; [lia|..].
  - skip. replace (6 * c + 2 * t + 2 * b) with (3 * c + t + b + (3 * c + t + b)) by lia.
    apply costs_wbind; [lia|apply costs_expect, post_tree_costs|]. intros body. skip. apply post_tree_costs.
  - intros result. skip. apply costs_call. intros []; cbn; lia.
Qed.

Lemma worker_costs host from to :
  costs (14 * c + 3 * t + 3 * b) (update_ethereum_price_worker timestamp_add host from to).
Proof.
  unfold update_ethereum_price_worker. apply costs_call. intros locked. cbn [weight].
  replace (14 * c + 3 * t + 3 * b - c) with (5 * c + t + b + (8 * c + 2 * t + 2 * b)) by lia.
  apply costs_wbind; [lia|destruct locked; [apply refresh_price_costs|cbn; lia]|]. intros _.
  apply costs_call. intros stored. cbn [weight].
  replace (8 * c + 2 * t + 2 * b - c) with (7 * c + 2 * t + 2 * b) by lia. apply publish_price_costs.
Qed.

Lemma offchain_worker_costs block :
  costs (15 * c + 3 * t + 3 * b) (offchain_worker timestamp_add block).
Proof.
  unfold offchain_worker. replace (15 * c + 3 * t + 3 * b) with (c + (14 * c + 3 * t + 3 * b)) by lia.
  apply costs_pbind; [lia|cbn; intros; lia|]. intros v. unfold on_index.
  destruct (storage_value_get v) as [[[[[n h] f] a]|]|]; [|cbn; lia..]. cbv zeta.
  case_bool_decide; [|cbn; lia]. rewrite <-(Z.add_0_r (14 * c + 3 * t + 3 * b)).
  apply costs_pbind; [lia|apply worker_costs|done].
Qed.

(** Costs add up, and a partial execution costs no more than the program. *)
Lemma weight_nonneg o : 0 <= w o.
Proof. destruct o; simpl; lia. Qed.

Lemma cost_app (tr1 tr2 : list (Obs Call)) : cost w (tr1 ++ tr2) = cost w tr1 + cost w tr2.
Proof. induction tr1 as [|y tr1 IH]; simpl; [done|]. rewrite IH. lia. Qed.

Lemma cost_nonneg (tr : list (Obs Call)) : 0 <= cost w tr.
Proof. induction tr as [|y tr IH]; simpl; [done|]. pose proof (weight_nonneg (projT1 y)). lia. Qed.

Lemma reach_cost {A} n (p p' : prog Call A) tr : costs n p -> reach p tr p' -> cost w tr <= n.
Proof.
  intros Hn Hr. apply reach_completes in Hr as (tr' & x & Htr); [|apply answer_any].
  apply (traces_cost _ _ _ _ _ Hn) in Htr. rewrite cost_app in Htr. pose proof (cost_nonneg tr'). lia.
Qed.

End bounds.

(** ** Time *)

(** A run: each call with the time it took. *)
Definition elapsed (r : list (Obs Call * Z)) : Z := foldr (fun yd n => snd yd + n) 0 r.

(** The time spent reading bodies. *)
Definition body_time (r : list (Obs Call * Z)) : Z :=
  foldr (fun yd n => match projT1 (fst yd) with HttpBody _ => snd yd + n | _ => n end) 0 r.

(** A call takes at most [c], a wait until its deadline more; a body any time. *)
Definition prompt (c : Z) (yd : Obs Call * Z) : Prop :=
  match projT1 (fst yd) with
  | HttpBody _ => True
  | o => snd yd <= weight c FETCH_TIMEOUT_PERIOD 0 o
  end.

Lemma elapsed_cost c r :
  Forall (prompt c) r -> elapsed r <= cost (weight c FETCH_TIMEOUT_PERIOD 0) r.*1 + body_time r.
Proof.
  induction 1 as [|[[o a] d] r Hd _ IH]; [done|]. unfold prompt in Hd. cbn [fst projT1 snd] in Hd.
  change (elapsed ((existT o a, d) :: r)) with (d + elapsed r).
  change (cost (weight c FETCH_TIMEOUT_PERIOD 0) ((existT o a, d) :: r).*1)
    with (weight c FETCH_TIMEOUT_PERIOD 0 o + cost (weight c FETCH_TIMEOUT_PERIOD 0) r.*1).
  change (body_time ((existT o a, d) :: r))
    with (match o with HttpBody _ => d + body_time r | _ => body_time r end).
  destruct o; cbn [weight] in *; lia.
Qed.

(** ** Bodies *)

Definition is_body (o : Op Call) : bool := match o with HttpBody _ => true | _ => false end.

(** Every body that is read is that of a response with status 200, which came in
    by the call before. *)
Definition bodies_follow (tr : list (Obs Call)) : Prop :=
  forall tr1 id body tr2, tr = tr1 ++ obs (HttpBody id) body :: tr2 ->
    exists d, last tr1 = Some (obs (HttpTryWait id d) (WaitResponse 200)).

Lemma bodies_follow_app tr1 tr2 : bodies_follow tr1 -> bodies_follow tr2 -> bodies_follow (tr1 ++ tr2).
Proof.
  intros H1 H2 l id body l' Heq. destruct (List.app_eq_app _ _ _ _ Heq) as (m & [[-> Hm]|[-> Hm]]).
  - destruct m as [|y m]; simplify_eq/=.
    + rewrite app_nil_r in *. destruct (H2 [] id body l') as [d Hd]; [done|]. by simpl in Hd.
    + by apply (H1 l id body m).
  - destruct (H2 m id body l') as [d Hd]; [done|]. exists d. by rewrite last_app, Hd.
Qed.

Lemma bodies_follow_none tr : Forall (fun y => is_body (projT1 y) = false) tr -> bodies_follow tr.
Proof. intros Hf tr1 id body tr2 ->. by apply Forall_app in Hf as [_ [? _]%Forall_cons]. Qed.

Lemma exchanged_bodies request tr r : exchanged timestamp_add request tr r -> bodies_follow tr.
Proof.
  destruct 1 as [t|t id w _|t id body]; [by apply bodies_follow_none; repeat constructor..|].
  intros tr1 id' body' tr2 Heq. do 4 (destruct tr1 as [|? tr1]; [simplify_eq/=|]); simplify_eq/=.
  - by eexists.
  - by destruct tr1.
Qed.

Lemma post_tree_bodies tree url tr x : traces (post_tree timestamp_add tree url) tr x -> bodies_follow tr.
Proof.
  rewrite post_tree_traces. destruct (text_of tree).
  - intros (r & _ & Hr). by eapply exchanged_bodies.
  - intros [-> _]. by apply bodies_follow_none.
Qed.

Lemma submission_bodies p host from to tr x : submission timestamp_add p host from to tr x -> bodies_follow tr.
Proof.
  intros [| |f data tr' y _ _ _ Hg _|f data tr1 body gas tr2 y _ _ _ Hg _ Ht]; [by apply bodies_follow_none..| |];
    rewrite get_estimated_gas_post in Hg; [by eapply post_tree_bodies|].
  rewrite send_transaction_post in Ht. apply bodies_follow_app; by eapply post_tree_bodies.
Qed.

Lemma refresh_bodies tr x : traces (refresh_price timestamp_add) tr x -> bodies_follow tr.
Proof.
  intros (tr1 & r & (r' & Hr' & _)%fetch_n_parse_traces & Hr)%refresh_price_traces.
  apply exchanged_bodies in Hr'.
  destruct r; destruct Hr as [-> _]; apply bodies_follow_app; try done; apply bodies_follow_none; by repeat constructor.
Qed.

Lemma worker_bodies block tr x : traces (offchain_worker timestamp_add block) tr x -> bodies_follow tr.
Proof.
  assert (Hcons : forall y l, is_body (projT1 y) = false -> bodies_follow l -> bodies_follow (y :: l)).
  { intros y l Hy Hl. apply (bodies_follow_app [y] l); [|done]. apply bodies_follow_none. by repeat constructor. }
  intros (v & tr' & -> & [[-> _]|(h & f & t & y & _ & _ & _ & Hw & _)])%ClientWorker.offchain_worker_traces.
  { by apply bodies_follow_none; repeat constructor. }
  apply Hcons; [done|]. apply worker_traces in Hw as (locked & tr0 & -> & Hw). apply Hcons; [done|].
  destruct Hw as [(_ & e & Hr & _)|(tr1 & st & tr2 & -> & Hr & Hp)]; [by eapply refresh_bodies|].
  apply bodies_follow_app.
  { destruct locked; [by eapply refresh_bodies|subst; by apply bodies_follow_none]. }
  apply Hcons; [done|]. apply publish_traces in Hp as (tr3 & z & Hs & Hz). apply submission_bodies in Hs.
  destruct z as [[body|e]|]; [destruct (utf8_valid body)| |]; try (by destruct Hz as [-> _]).
  destruct Hz as (ok & -> & _). apply bodies_follow_app; [done|]. apply bodies_follow_none. by repeat constructor.
Qed.

(** ** Every execution *)

Definition calls_made (tr : list (Obs Call)) : Z := cost (weight 1 0 1) tr.
Definition bodies_read (tr : list (Obs Call)) : Z := cost (weight 0 0 1) tr.

(** A worker that is about to read a body has the response. *)
Lemma waiting_bodies block tr id k :
  reach (offchain_worker timestamp_add block) tr (Do (HttpBody id) k) ->
  exists d, last tr = Some (obs (HttpTryWait id d) (WaitResponse 200)).
Proof.
  intros Hk. pose proof (reach_call _ tr (HttpBody id) k [] Hk) as Hr.
  apply reach_completes in Hr as (tr' & x & Ht); [|apply answer_any]. apply worker_bodies in Ht.
  rewrite <-app_assoc in Ht. by apply (Ht tr id [] tr').
Qed.

(** The bounds of a program hold for every execution of it, finished or not. *)
Lemma attempt_cost {S A} (h : blocking_host Call S) (p : prog Call A) s c t b n :
  0 <= c -> 0 <= t -> 0 <= b -> Effects.costs (weight c t b) n p ->
  cost (weight c t b) (snd (attempt h p s [])) <= n.
Proof.
  intros Hc Ht Hb Hn. pose proof (attempt_reach h p p s [] (reach_start p)) as Ha.
  assert (exists p', reach p (snd (attempt h p s [])) p') as [p' Hp'].
  { destruct (attempt h p s []) as [[x|o] tr]; simpl; [by apply traces_reach in Ha|].
    destruct Ha as [[k Hk] _]. by eexists. }
  by apply (reach_cost c t b Hc Ht Hb _ _ _ _ Hn Hp').
Qed.

Lemma attempt_elapsed {S A} (h : blocking_host Call S) (p : prog Call A) s c n :
  0 <= c -> Effects.costs (weight c FETCH_TIMEOUT_PERIOD 0) n p ->
  forall r, r.*1 = snd (attempt h p s []) -> Forall (prompt c) r -> elapsed r <= n + body_time r.
Proof.
  intros Hc Hn r Hr Hp. apply elapsed_cost in Hp. rewrite Hr in Hp.
  pose proof (attempt_cost h p s c FETCH_TIMEOUT_PERIOD 0 n Hc ltac:(done) ltac:(done) Hn). lia.
Qed.

(** C26: the worker ends, or it waits for a body.  On any host that answers every
    call but possibly the reading of a response body, for which the code sets no
    deadline, an execution ends or stays in such a read, of a response that came
    in with status 200.  It makes at most 18 calls, at most three of them to read a
    body.  If every other call takes at most [c], a wait for a response until its
    deadline more, the whole takes at most nine seconds, fifteen times [c] and the
    time of the bodies; and the part that holds the lock at most three seconds,
    five times [c] and the time of one body. *)
Theorem worker_ends_or_reads {S} (h : blocking_host Call S) (s : S) block c :
  (forall o s', h o s' = None -> is_body o = true) -> 0 <= c ->
  (let '(e, tr) := attempt h (offchain_worker timestamp_add block) s [] in
   match e with
   | Ended x => traces (offchain_worker timestamp_add block) tr x
   | Waiting o => exists id d, o = HttpBody id /\ last tr = Some (obs (HttpTryWait id d) (WaitResponse 200))
   end /\
   calls_made tr <= 18 /\ bodies_read tr <= 3 /\
   forall r, r.*1 = tr -> Forall (prompt c) r -> elapsed r <= 15 * c + 9000 + body_time r) /\
  (let '(_, tr) := attempt h (refresh_price timestamp_add) s [] in
   calls_made tr <= 6 /\ bodies_read tr <= 1 /\
   forall r, r.*1 = tr -> Forall (prompt c) r -> elapsed r <= 5 * c + 3000 + body_time r).
Proof.
  intros Hh Hc. assert (H3 : 0 <= FETCH_TIMEOUT_PERIOD) by done. split.
  - pose proof (attempt_reach h _ _ s [] (reach_start (offchain_worker timestamp_add block))) as Ha.
    pose proof (attempt_cost h (offchain_worker timestamp_add block) s) as Hcost.
    pose proof (attempt_elapsed h (offchain_worker timestamp_add block) s c _ Hc
                  (offchain_worker_costs c _ 0 Hc H3 ltac:(done) block)) as Htime.
    destruct (attempt _ _ _ _) as [e tr]. cbn [snd] in *. split; [|split; [|split]].
    + destruct e as [x|o]; [done|]. destruct Ha as [[k Hk] [s' Hs']]. apply Hh in Hs'.
      destruct o as [| | |id| | | | |]; try done. apply waiting_bodies in Hk as [d Hd]. by exists id, d.
    + by apply (Hcost 1 0 1 18); [done..|apply (offchain_worker_costs 1 0 1)].
    + by apply (Hcost 0 0 1 3); [done..|apply (offchain_worker_costs 0 0 1)].
    + intros r Hr Hp. specialize (Htime r Hr Hp). unfold FETCH_TIMEOUT_PERIOD in Htime. lia.
  - pose proof (attempt_cost h (refresh_price timestamp_add) s) as Hcost.
    pose proof (attempt_elapsed h (refresh_price timestamp_add) s c _ Hc
                  (refresh_price_costs c _ 0 Hc H3 ltac:(done))) as Htime.
    destruct (attempt _ _ _ _) as [e tr]. cbn [snd] in *. split; [|split].
    + by apply (Hcost 1 0 1 6); [done..|apply (refresh_price_costs 1 0 1)].
    + by apply (Hcost 0 0 1 1); [done..|apply (refresh_price_costs 0 0 1)].
    + intros r Hr Hp. specialize (Htime r Hr Hp). unfold FETCH_TIMEOUT_PERIOD in Htime. lia.
Qed.

End cost.

Section witness.
Import Mock Compact ClientWorker.

Abbreviation worker7 :=
  (offchain_worker (F := mock_system) (J := MiniJson.mini) (block_codec := u32_codec) Z.add 7).

(** The host that is up, once with a ticker that never ends its response. *)
Definition endless (ticker_ends : bool) : blocking_host Call HostState :=
  fun o s =>
    match o, snd s with
    | HttpBody _, Some {| req_method := Get |} => if ticker_ends then Some (demo all_up true o s) else None
    | _, _ => Some (demo all_up true o s)
    end.

(** All bounds are attained on a host that is up. *)
Example bounds_attained :
  let tr := snd (attempt (endless true) worker7 (requested, None) []) in
  calls_made tr = 18 /\ bodies_read tr = 3 /\ cost (weight 0 FETCH_TIMEOUT_PERIOD 0) tr = 9000.
Proof. vm_compute. done. Qed.

(** A ticker that never ends its response keeps the worker, and the lock. *)
Lemma worker_ends_or_reads_witness :
  let out := attempt (endless false) worker7 (requested, None) [] in
  fst out = Waiting (HttpBody 7) /\ held false (snd out) = true /\
  (exists d, last (snd out) = Some (obs (HttpTryWait 7 d) (WaitResponse 200))) /\ calls_made (snd out) <= 18.
Proof.
  assert (Hh : forall o s', endless false o s' = None -> is_body o = true).
  { intros o s'. unfold endless. destruct o; try discriminate. reflexivity. }
  destruct (worker_ends_or_reads (F := mock_system) (J := MiniJson.mini) (block_codec := u32_codec) Z.add
              (endless false) (requested, None) 7 0 Hh ltac:(lia)) as [H _].
  assert (He : fst (attempt (endless false) worker7 (requested, None) []) = Waiting (HttpBody 7))
    by (vm_compute; reflexivity).
  assert (Hl : held false (snd (attempt (endless false) worker7 (requested, None) [])) = true)
    by (vm_compute; reflexivity).
  cbv zeta. destruct (attempt (endless false) worker7 (requested, None) []) as [e tr].
  cbn [fst snd] in *. subst e. destruct H as ((id & d & Ho & Hd) & Hc & _).
  split; [reflexivity|]. split; [exact Hl|]. injection Ho as <-. split; [by exists d|exact Hc].
Defined.

End witness.
End ClientCost.
