(* ===== verification/Runtime.v ===== *)
(** * The runtime (runtime/src/lib.rs)

    The constants and configuration of the runtime, and the composition of the
    three pallets of the repository into one [Call] and one storage, as
    [construct_runtime!] composes them.  The pallets of Substrate that the
    runtime also includes are not part of the repository and not modelled. *)

From S2P Require Import Prelude BTreeSet Frame Authorization AuthSpec AuthProofs AuthInvariants.
From S2P Require Import Template Str Scale Client.
From Stdlib Require Import Strings.String.
Import Str.
Local Open Scope Z_scope.

Module Runtime.

(** ** Constants *)

Record RuntimeVersion : Type := {
  spec_name : bytes;
  impl_name : bytes;
  authoring_version : Z;
  spec_version : Z;
  impl_version : Z;
  transaction_version : Z
}.

Definition VERSION : RuntimeVersion := {|
  spec_name := lit "supra";
  impl_name := lit "supra";
  authoring_version := 1;
  spec_version := 100;
  impl_version := 1;
  transaction_version := 1
|}.

Definition MILLISECS_PER_BLOCK : Z := 6000.
Definition SLOT_DURATION : Z := MILLISECS_PER_BLOCK.
(** [MILLISECS_PER_BLOCK as BlockNumber] keeps the low 32 bits. *)
Definition MINUTES : Z := 60_000 / (MILLISECS_PER_BLOCK mod 2 ^ 32).
Definition HOURS : Z := MINUTES * 60.
Definition DAYS : Z := HOURS * 24.

Definition BlockHashCount : Z := 2400.
Definition SS58Prefix : Z := 42.
Definition MinimumPeriod : Z := SLOT_DURATION / 2.
Definition ExistentialDeposit : Z := 500.
Definition MaxLocks : Z := 50.
Definition TransactionByteFee : Z := 1.
Definition MaxWellKnownNodes : Z := 8.
Definition MaxPeerIdLength : Z := 128.

(** ** Composition *)

Section runtime.
Context `{F : FrameSystem} `{FS : FrameStorage}.
Context {block_codec : Codec BlockNumber} {bytes_codec : Codec bytes}.
Implicit Types (origin : Origin) (now : BlockNumber).

(** [impl supra_authorization::Config for Runtime] *)
#[export] Instance authorization_config : Auth.Config F := {
  Auth.MaxWellKnownNodes := MaxWellKnownNodes;
  Auth.MaxPeerIdLength := MaxPeerIdLength;
  Auth.AddOrigin := EnsureRoot;
  Auth.RemoveOrigin := EnsureRoot;
  Auth.SwapOrigin := EnsureRoot;
  Auth.ResetOrigin := EnsureRoot;
  Auth.weights := Auth.unit_weights
}.

(** The storage, calls and errors of the repository's pallets. *)
Record Store : Type := {
  TemplateModule : Poe.Store;
  LightClient : Client.Store;
  SupraAuthorization : Auth.Store
}.

Inductive Call : Type :=
| Call_TemplateModule (c : Poe.Call)
| Call_LightClient (c : Client.Call)
| Call_SupraAuthorization (c : Auth.Call).

Inductive Error : Type :=
| Error_TemplateModule (e : Poe.Error)
| Error_LightClient (e : Client.Error)
| Error_SupraAuthorization (e : Auth.Error).

(** A pallet's error inside the runtime's. *)
Definition dispatch_error {E} (f : E -> Error) (e : DispatchError E) : DispatchError Error :=
  match e with
  | DispatchBadOrigin => DispatchBadOrigin
  | DispatchModule e => DispatchModule (f e)
  end.

Definition dispatch now (c : Call) origin (s : Store) : result unit (DispatchError Error) * Store :=
  match c with
  | Call_TemplateModule c =>
      let (r, t) := Poe.dispatch now c origin (TemplateModule s) in
      (map_err (dispatch_error Error_TemplateModule) r,
       {| TemplateModule := t; LightClient := LightClient s; SupraAuthorization := SupraAuthorization s |})
  | Call_LightClient c =>
      let (r, l) := Client.dispatch now c origin (LightClient s) in
      (map_err (dispatch_error Error_LightClient) r,
       {| TemplateModule := TemplateModule s; LightClient := l; SupraAuthorization := SupraAuthorization s |})
  | Call_SupraAuthorization c =>
      let (r, a) := Auth.dispatch c origin (SupraAuthorization s) in
      (map_err (dispatch_error Error_SupraAuthorization) r,
       {| TemplateModule := TemplateModule s; LightClient := LightClient s; SupraAuthorization := a |})
  end.

(** The storage built from the genesis nodes of [supra_authorization]. *)
Definition genesis (nodes : list (Auth.PeerId * AccountId)) : Store := {|
  TemplateModule := Poe.absent_store;
  LightClient := Client.absent_store;
  SupraAuthorization := Auth.genesis_build nodes
|}.

(** Unsigned transactions: of these pallets only the light client has a
    [ValidateUnsigned]; [NoUnsignedValidator] is FRAME's answer for the others. *)
Variant Invalid := InvalidTransaction (e : Client.InvalidTransaction) | NoUnsignedValidator.

Definition validate_unsigned (source : Client.TransactionSource) (c : Call) :
    result Client.ValidTransaction Invalid :=
  match c with
  | Call_LightClient c => map_err InvalidTransaction (Client.validate_unsigned source c)
  | _ => Err NoUnsignedValidator
  end.

(** ** Signed transactions *)

Section create_transaction.
Context {Era Public Signature Address : Type} (mortal : Z -> Z -> Era).

(** The parts of [SignedExtra] that carry data. *)
Record SignedExtra : Type := { extra_era : Era; extra_nonce : Z; extra_tip : Z }.

(** [payload_bytes] is [SignedPayload::new] followed by [using_encoded],
    [None] when an extension has no additional data to sign; [sign] is
    [C::sign]; [MultiAddress_Id] is the constructor of [sp_runtime]; [current] is
    the block number as [u32]. *)
Definition create_transaction (payload_bytes : Call -> SignedExtra -> option bytes)
    (sign : bytes -> Public -> option Signature) (MultiAddress_Id : AccountId -> Address)
    (current : Z) (call : Call) (public : Public) (account : AccountId) (index : Z) :
    option (Call * (Address * Signature * SignedExtra)) :=
  let period := BlockHashCount in
  let current_block := Z.max 0 (current - 1) in
  let extra := {| extra_era := mortal period current_block; extra_nonce := index; extra_tip := 0 |} in
  raw_payload ← payload_bytes call extra;
  signature ← sign raw_payload public;
  let address := account in
  Some (call, (MultiAddress_Id address, signature, extra)).

End create_transaction.

(** ** Theorems *)

Context `{L : !FrameStorageLaws FS}.

(** The block numbers, origins and calls of a run of the chain. *)
Fixpoint run (calls : list (BlockNumber * Origin * Call)) (s : Store) : Store :=
  match calls with
  | [] => s
  | (now, origin, c) :: calls' => run calls' (snd (dispatch now c origin s))
  end.

Lemma poe_noop now c origin s e s' : Poe.dispatch now c origin s = (Err e, s') -> s' = s.
Proof.
  pose proof (Poe.dispatch_outcome now c origin s) as Ho. destruct (Poe.outcome _ _ _ _) as [[m ev]|e'].
  - by destruct Ho as (s1 & -> & _).
  - rewrite Ho. by intros [= _ ->].
Qed.

Lemma client_noop now c origin s e s' : Client.dispatch now c origin s = (Err e, s') -> s' = s.
Proof.
  destruct c; unfold Client.dispatch, Client.submit_ethereum_price, Client.update_ethereum_price;
    rewrite bind_try_origin; [destruct (ensure_none origin)|destruct (ensure_signed origin)]; try done;
    by intros [= _ ->].
Qed.

(** The pallets do not interfere.  A call that fails leaves the storage of
    the whole runtime as it was, and a call of one pallet never touches the
    storage of the other two. *)
Theorem pallets_are_isolated now c origin s :
  (forall e s', dispatch now c origin s = (Err e, s') -> s' = s) /\
  match c with
  | Call_TemplateModule _ =>
      LightClient (snd (dispatch now c origin s)) = LightClient s /\
      SupraAuthorization (snd (dispatch now c origin s)) = SupraAuthorization s
  | Call_LightClient _ =>
      TemplateModule (snd (dispatch now c origin s)) = TemplateModule s /\
      SupraAuthorization (snd (dispatch now c origin s)) = SupraAuthorization s
  | Call_SupraAuthorization _ =>
      TemplateModule (snd (dispatch now c origin s)) = TemplateModule s /\
      LightClient (snd (dispatch now c origin s)) = LightClient s
  end.
Proof.
  destruct s as [t l a], c as [c|c|c]; simpl.
  - destruct (Poe.dispatch now c origin t) as [[u|e] t'] eqn:Hd; simpl; split; try done.
    apply poe_noop in Hd as ->. naive_solver.
  - destruct (Client.dispatch now c origin l) as [[u|e] l'] eqn:Hd; simpl; split; try done.
    apply client_noop in Hd as ->. naive_solver.
  - destruct (Auth.dispatch c origin a) as [[u|e] a'] eqn:Hd; simpl; split; try done.
    apply AuthProofs.dispatch_noop in Hd as ->. naive_solver.
Qed.

(** A call from an origin that is not root keeps the well known nodes. *)
Lemma auth_not_root c origin s :
  AuthSpec.wf s -> is_ok (ensure_origin EnsureRoot origin) = false ->
  AuthSpec.wkn (AuthSpec.view (snd (Auth.dispatch c origin s))) = AuthSpec.wkn (AuthSpec.view s).
Proof.
  intros Hs Hroot. destruct (AuthInvariants.dispatch_cases c origin s Hs) as [Hst| ->]; [|done].
  unfold AuthSpec.permits in *. inversion Hst; subst; simpl; try done;
    unfold AuthSpec.permits, Auth.AddOrigin, Auth.RemoveOrigin, Auth.SwapOrigin, Auth.ResetOrigin in *;
    simpl in *; congruence.
Qed.

Lemma dispatch_authorization now c origin s :
  SupraAuthorization (snd (dispatch now c origin s)) =
    match c with
    | Call_SupraAuthorization c => snd (Auth.dispatch c origin (SupraAuthorization s))
    | _ => SupraAuthorization s
    end.
Proof.
  destruct c as [c|c|c]; simpl; [by destruct (Poe.dispatch _ _ _ _)|by destruct (Client.dispatch _ _ _ _)|].
  by destruct (Auth.dispatch _ _ _).
Qed.

Lemma dispatch_template now c origin s :
  TemplateModule (snd (dispatch now c origin s)) =
    match c with
    | Call_TemplateModule c => snd (Poe.dispatch now c origin (TemplateModule s))
    | _ => TemplateModule s
    end.
Proof.
  destruct c as [c|c|c]; simpl; [by destruct (Poe.dispatch _ _ _ _)|by destruct (Client.dispatch _ _ _ _)|].
  by destruct (Auth.dispatch _ _ _).
Qed.

Lemma dispatch_light_client now c origin s :
  LightClient (snd (dispatch now c origin s)) =
    match c with
    | Call_LightClient c => snd (Client.dispatch now c origin (LightClient s))
    | _ => LightClient s
    end.
Proof.
  destruct c as [c|c|c]; simpl; [by destruct (Poe.dispatch _ _ _ _)| |by destruct (Auth.dispatch _ _ _)].
  by destruct (Client.dispatch _ _ _ _).
Qed.

Definition not_root (x : BlockNumber * Origin * Call) : Prop :=
  is_ok (ensure_origin EnsureRoot (snd (fst x))) = false.

Lemma run_authorization calls s :
  AuthSpec.wf (SupraAuthorization s) -> AuthInvariants.inv (AuthSpec.view (SupraAuthorization s)) ->
  AuthSpec.wf (SupraAuthorization (run calls s)) /\
  AuthInvariants.inv (AuthSpec.view (SupraAuthorization (run calls s))) /\
  (Forall not_root calls ->
   AuthSpec.wkn (AuthSpec.view (SupraAuthorization (run calls s))) =
   AuthSpec.wkn (AuthSpec.view (SupraAuthorization s))).
Proof.
  revert s. induction calls as [|[[now origin] c] calls IH]; intros s Hs Hi; [done|]. cbn [run].
  pose proof (dispatch_authorization now c origin s) as Hd.
  specialize (IH (snd (dispatch now c origin s))). rewrite Hd in IH.
  destruct c as [c|c|c]; [destruct (IH Hs Hi) as (? & ? & Hw); split_and!; try done;
    intros [_ Hc]%Forall_cons; by rewrite Hw..|].
  destruct (AuthInvariants.dispatch_inv c origin _ Hs Hi) as [Hs' Hi'].
  destruct (IH Hs' Hi') as (? & ? & Hw). split_and!; try done.
  intros [Hc Hcs]%Forall_cons. rewrite Hw by done. by apply auth_not_root.
Qed.

(** C37: only root changes the well known nodes.  From a genesis with at most
    eight nodes, after any run of calls to the runtime the authorization
    storage keeps its invariant, and if no call of the run came from root, the
    well known nodes are those of the genesis. *)
Theorem only_root_changes_well_known_nodes nodes calls :
  Z.of_nat (List.length nodes) <= MaxWellKnownNodes ->
  let s := SupraAuthorization (run calls (genesis nodes)) in
  AuthSpec.wf s /\ AuthInvariants.inv (AuthSpec.view s) /\
  (Forall not_root calls ->
   AuthSpec.wkn (AuthSpec.view s) = list_to_set nodes.*1).
Proof.
  intros Hlen. destruct (AuthProofs.genesis_view nodes) as [Hwf Hview].
  pose proof (AuthInvariants.genesis_inv nodes Hlen) as Hi.
  destruct (run_authorization calls (genesis nodes) Hwf Hi) as (? & ? & Hw).
  split_and!; try done. intros Hcalls. rewrite Hw by done.
  change (SupraAuthorization (genesis nodes)) with (Auth.genesis_build nodes). by rewrite Hview.
Qed.

End runtime.

(** ** Witnesses *)

Section witnesses.
Import Mock Compact.
#[local] Instance block_codec_mock : Codec (BlockNumber (FrameSystem := mock_system)) := u32_codec.

Definition block (n : Z) : BlockNumber (FrameSystem := mock_system) := n.
Definition acct (who : Z) : AccountId (FrameSystem := mock_system) := who.
Definition signed (who : Z) : Origin (FrameSystem := mock_system) := Signed who.

(** A run of signed calls to the three pallets. *)
Definition calls : list (BlockNumber * Origin * Call) :=
  [(block 1, signed 1, Call_SupraAuthorization (Auth.Call_add_well_known_node (lit "node") (acct 1)));
   (block 2, signed 1, Call_TemplateModule (Poe.Call_create_claim (lit "proof")));
   (block 3, signed 2, Call_LightClient (Client.Call_update_ethereum_price [] [] []))].

Lemma only_root_changes_well_known_nodes_witness :
  AuthSpec.wkn (AuthSpec.view (SupraAuthorization (run calls (genesis [(lit "alice", acct 1)])))) =
    list_to_set [lit "alice"].
Proof.
  refine (proj2 (proj2 (only_root_changes_well_known_nodes [(lit "alice", acct 1)] calls _)) _).
  - vm_compute. discriminate.
  - repeat constructor.
Defined.

End witnesses.
End Runtime.
