(* ===== verification/System.v ===== *)
(** * The whole system

    The runtime, the off-chain database, the transaction pool and the workers of
    the light client, running concurrently: blocks execute calls, a worker is
    started for a block and makes its host calls one at a time, in any
    interleaving with the others.  The host answers reads from the database and
    gives the lock to one worker at a time; every other answer is free. *)

From S2P Require Import Prelude BTreeSet Frame Authorization Template Str Num Scale Json Effects Offchain.
From S2P Require Import Client ClientProofs ClientIndex ClientWorker Runtime.
From Stdlib Require Import Strings.String.
Import Str Num Offchain ClientIndex ClientWorker.
Local Open Scope Z_scope.

Module System.

Section system.
Context `{F : FrameSystem} `{FS : FrameStorage} `{J : SerdeJson}.
Context {block_codec : Codec BlockNumber} {bytes_codec : Codec bytes}.
Context {block_laws : CodecLaws BlockNumber} {bytes_laws : CodecLaws bytes}.
Context (timestamp_add : Z -> Z -> Z).
Implicit Types (origin : Origin) (now block : BlockNumber).
#[local] Abbreviation Call := Client.Call.
#[local] Abbreviation worker := (Client.offchain_worker timestamp_add).

(** A worker: its block, the calls it has made and what is left of it. *)
Record Thread : Type := {
  th_block : BlockNumber;
  th_log : list (Obs Call);
  th_prog : prog Call unit
}.

Record State : Type := {
  chain : Runtime.Store;
  db : list (bytes * bytes);
  lock : option nat;
  pool : list Call;
  threads : list Thread
}.

Definition init (nodes : list (Auth.PeerId * AccountId)) : State := {|
  chain := Runtime.genesis nodes; db := []; lock := None; pool := []; threads := []
|}.

(** Executing a call in a block: the index entries it writes reach the database. *)
Definition execute now origin (c : Runtime.Call) (st : State) : State :=
  let s' := snd (Runtime.dispatch now c origin (chain st)) in
  {| chain := s';
     db := db st ++ drop (List.length (Client.Indexed (Runtime.LightClient (chain st))))
                      (Client.Indexed (Runtime.LightClient s'));
     lock := lock st; pool := pool st; threads := threads st |}.

Definition spawn block (st : State) : State := {|
  chain := chain st; db := db st; lock := lock st; pool := pool st;
  threads := threads st ++ [{| th_block := block; th_log := []; th_prog := worker block |}]
|}.

Definition gossip (c : Call) (st : State) : State := {|
  chain := chain st; db := db st; lock := lock st; pool := pool st ++ [c]; threads := threads st
|}.

Definition expire (st : State) : State := {|
  chain := chain st; db := db st; lock := None; pool := pool st; threads := threads st
|}.

(** The answers of the host that depend on the state. *)
Definition answers (st : State) (y : Obs Call) : Prop :=
  match y with
  | existT (StorageGet key) v => v = index_get (db st) key
  | existT (TryLock _ _ _) b => b = bool_decide (lock st = None)
  | _ => True
  end.

(** A submission the pool took, and the lock after a call of worker [i]. *)
Definition taken (y : Obs Call) : list Call :=
  match y with
  | existT (SubmitUnsigned c) ok => if (ok : bool) then [c] else []
  | _ => []
  end.
Definition lock_after (i : nat) (y : Obs Call) (l : option nat) : option nat :=
  match y with
  | existT (TryLock _ _ _) b => if (b : bool) then Some i else l
  | existT (Unlock _) _ => None
  | _ => l
  end.

Definition advance (i : nat) (th : Thread) (y : Obs Call) (rest : prog Call unit) (st : State) : State := {|
  chain := chain st;
  db := db st ++ stored [y];
  lock := lock_after i y (lock st);
  pool := pool st ++ taken y;
  threads := <[i := {| th_block := th_block th; th_log := th_log th ++ [y]; th_prog := rest |}]> (threads st)
|}.

(** The byte vectors of an extrinsic that was decoded can be encoded. *)
Definition fits (c : Runtime.Call) : Prop :=
  match c with Runtime.Call_LightClient c => encodable_call c | _ => True end.

(** [external]: the pool takes valid unsigned calls from elsewhere; [expiry]: a
    lock may expire while it is held. *)
Inductive step (external expiry : bool) (st : State) : State -> Prop :=
| step_call now origin c :
    is_ok (ensure_none origin) = false -> fits c -> step external expiry st (execute now origin c st)
| step_unsigned now origin c :
    c ∈ pool st -> fits (Runtime.Call_LightClient c) ->
    step external expiry st (execute now origin (Runtime.Call_LightClient c) st)
| step_external c :
    external = true ->
    is_ok (Runtime.validate_unsigned Client.External (Runtime.Call_LightClient c)) = true ->
    step external expiry st (gossip c st)
| step_spawn block : step external expiry st (spawn block st)
| step_worker i th o k r :
    threads st !! i = Some th -> th_prog th = Do o k -> answers st (obs o r) ->
    step external expiry st (advance i th (obs o r) (k r) st)
| step_expire : expiry = true -> step external expiry st (expire st).

Definition reachable (external expiry : bool) nodes : State -> Prop :=
  rtc (step external expiry) (init nodes).

(** ** Mutual exclusion *)

(** Every worker runs the pallet's worker for its block. *)
Definition threads_ok (st : State) : Prop :=
  Forall (fun th => reach (worker (th_block th)) (th_log th) (th_prog th)) (threads st).

Lemma thread_step st i th o k r :
  threads_ok st -> threads st !! i = Some th -> th_prog th = Do o k ->
  reach (worker (th_block th)) (th_log th ++ [obs o r]) (k r).
Proof. intros Hth Hi Hp. constructor. rewrite <-Hp. exact (Forall_lookup_1 _ _ _ _ Hth Hi). Qed.

Lemma step_threads_ok external expiry st st' :
  step external expiry st st' -> threads_ok st -> threads_ok st'.
Proof.
  unfold threads_ok. intros Hst Hth. destruct Hst as [| | |block|i th o k r Hi Hp Ha|]; simpl; try done.
  - apply Forall_app. split; [done|]. apply Forall_singleton. constructor.
  - apply Forall_insert; [done|]. exact (thread_step st i th o k r Hth Hi Hp).
Qed.

Lemma reach_lock_rules block tr t :
  reach (worker block) tr t -> along lock_rules false tr.
Proof.
  intros Hr. apply reach_completes in Hr as (tr' & x & Ht); [|apply answer_any].
  apply worker_lock in Ht as [Ht _]. by apply along_app in Ht as [? _].
Qed.

(** The lock belongs to the worker that took it and has not given it back. *)
Definition lock_ok (st : State) : Prop :=
  forall i, lock st = Some i <-> exists th, threads st !! i = Some th /\ held false (th_log th) = true.

Lemma held_snoc b tr (y : Obs Call) : held b (tr ++ [y]) = lock_step (held b tr) y.
Proof. by rewrite held_app. Qed.

(** A call of worker [i] and the lock. *)
Lemma lock_after_held st i tr (y : Obs Call) :
  answers st y -> (lock st = Some i <-> held false tr = true) ->
  along lock_rules false (tr ++ [y]) ->
  (lock_after i y (lock st) = Some i <-> held false (tr ++ [y]) = true) /\
  forall j, j <> i -> (lock_after i y (lock st) = Some j <-> lock st = Some j).
Proof.
  intros Ha Hi [_ [Hy _]]%along_app. rewrite held_snoc. destruct y as [o r].
  destruct o; simpl in *; try (split; [done|by intros j]).
  - subst r. case_bool_decide as Hl; simpl; [|by split]. rewrite Hl. split; [done|].
    intros j Hj. split; [intros [= ->]; done|done].
  - destruct Hi as [_ Hi]. rewrite (Hi Hy). split; [done|]. intros j Hj. split; [done|]. by intros [= ->].
Qed.

Lemma step_lock_ok external st st' :
  step external false st st' -> threads_ok st -> lock_ok st -> lock_ok st'.
Proof.
  unfold lock_ok. intros Hst Hth Hl.
  destruct Hst as [| | |block|i th o k r Hi Hp Ha|]; simpl; try done.
  - intros i. rewrite Hl. split; intros (th & Hi & Hh); exists th; (split; [|done]).
    + by apply lookup_app_l_Some.
    + apply lookup_app_Some in Hi as [?|[_ Hi]]; [done|].
      apply list_lookup_singleton_Some in Hi as [_ <-]. done.
  - assert (Hown : lock st = Some i <-> held false (th_log th) = true).
    { rewrite Hl. split; [intros (th' & Hi' & ?); by simplify_eq|by exists th]. }
    assert (Hrules : along lock_rules false (th_log th ++ [obs o r])).
    { eapply (reach_lock_rules (th_block th)). by eapply thread_step. }
    destruct (lock_after_held st i _ _ Ha Hown Hrules) as [H1 H2]. intros j.
    destruct (decide (j = i)) as [->|Hj].
    + rewrite H1. rewrite list_lookup_insert_eq by (by eapply lookup_lt_Some).
      split; [intros; by eexists|]. by intros (? & [= <-] & ?).
    + rewrite (H2 j Hj), Hl, list_lookup_insert_ne by done. done.
Qed.

Lemma reachable_lock_ok external nodes st :
  reachable external false nodes st -> threads_ok st /\ lock_ok st.
Proof.
  revert st. apply (rtc_ind_r (fun st => threads_ok st /\ lock_ok st)).
  - split; [constructor|]. intros i. split; [done|]. by intros (th & [=] & _).
  - intros st st' _ Hst [Hth Hl]. split; [by eapply step_threads_ok|by eapply step_lock_ok].
Qed.

(** C38: at most one worker is in the critical section.  In every reachable
    state of any number of concurrent workers in which no held lock has expired,
    the workers that have taken the lock and not given it back are at most one,
    the one the lock belongs to; so no two workers fetch or store the price at
    the same time. *)
Theorem workers_exclude_each_other external nodes st i j th th' :
  reachable external false nodes st ->
  threads st !! i = Some th -> threads st !! j = Some th' ->
  held false (th_log th) = true -> held false (th_log th') = true ->
  i = j /\ lock st = Some i.
Proof.
  intros [_ Hl]%reachable_lock_ok Hi Hj Hhi Hhj.
  assert (lock st = Some i) as H1 by (apply Hl; eauto).
  assert (lock st = Some j) as H2 by (apply Hl; eauto). rewrite H1 in H2. by simplify_eq.
Qed.

(** ** Where prices come from *)

#[local] Abbreviation client st := (Runtime.LightClient (chain st)).

(** What executing a call does to the light client. *)
Lemma execute_client now origin c st :
  (client (execute now origin c st) = client st /\ db (execute now origin c st) = db st) \/
  exists cc event, c = Runtime.Call_LightClient cc /\ event_of origin cc = Some event /\
    Client.Indexed (client (execute now origin c st)) =
      Client.Indexed (client st) ++ [(Client.derived_key now, index_value cc)] /\
    Client.Events (client (execute now origin c st)) = Client.Events (client st) ++ [event] /\
    db (execute now origin c st) = db st ++ [(Client.derived_key now, index_value cc)].
Proof.
  unfold execute. cbn [chain db]. rewrite (Runtime.dispatch_light_client now c origin (chain st)).
  destruct c as [c|c|c]; [left; by rewrite drop_all, app_nil_r| |left; by rewrite drop_all, app_nil_r].
  rewrite client_dispatch. destruct (event_of origin c) as [event|] eqn:He; simpl.
  - right. exists c, event. split_and!; try done. by rewrite drop_app_length.
  - left. by rewrite drop_all, app_nil_r.
Qed.

(** The worker writes only its cached price. *)
Definition stores_info (o : Op Call) : Prop :=
  match o with StorageSet key _ => key = Client.INFO_KEY | _ => True end.

Lemma http_stores_info {A} (t : prog Call A) : calls_only is_http t -> calls_only stores_info t.
Proof. apply calls_only_impl. by intros []. Qed.

Lemma worker_stores_info block : calls_only stores_info (worker block).
Proof.
  unfold Client.offchain_worker. apply calls_only_pbind; [by split|]. intros v. unfold Client.on_index.
  destruct (Client.storage_value_get v) as [[[[[n h] f] t]|]|]; [|done..]. cbv zeta. case_bool_decide; [|done].
  apply calls_only_pbind; [|done]. unfold Client.update_ethereum_price_worker, Client.refresh_price.
  only_calls; try done.
  - apply calls_only_pbind; [apply http_stores_info, fetch_n_parse_http|]. by intros [d|e].
  - unfold Client.publish_price. apply calls_only_wbind; [apply http_stores_info, submt_http|].
    intros body. apply calls_only_wbind; [apply calls_only_wtry|]. intros _.
    apply calls_only_wbind; [done|]. by intros [].
Qed.

(** The values a worker read and the submissions of its that were taken. *)
Definition read_of (y : Obs Call) : option (bytes * bytes) :=
  match y with
  | existT (StorageGet key) v => pair key <$> (v : option bytes)
  | _ => None
  end.
Definition reads (tr : list (Obs Call)) : list (bytes * bytes) := omap read_of tr.
Definition takes (tr : list (Obs Call)) : list Call := tr ≫= taken.

Definition submitted_by (st : State) (c : Call) : Prop :=
  exists th, th ∈ threads st /\ c ∈ takes (th_log th).

(** Every value has a source: database entries are index entries or the cached
    price, the index entries come from the calls of the events, workers read what is in the database,
    and what is in the pool or on chain was submitted by a worker. *)
Record provenance (st : State) : Prop := {
  pv_threads : threads_ok st;
  pv_db k v : (k, v) ∈ db st -> k = Client.INFO_KEY \/ (k, v) ∈ Client.Indexed (client st);
  pv_length : List.length (Client.Indexed (client st)) = List.length (Client.Events (client st));
  pv_index i k v : Client.Indexed (client st) !! i = Some (k, v) ->
    exists c, v = index_value c /\ encodable_call c /\
      match c with
      | Client.Call_update_ethereum_price _ _ _ =>
          exists who, Client.Events (client st) !! i = Some (Client.UpdateEthereumPrice (Some who))
      | _ => True
      end;
  pv_reads th k v : th ∈ threads st -> (k, v) ∈ reads (th_log th) ->
    k = Client.INFO_KEY \/ (k, v) ∈ Client.Indexed (client st);
  pv_pool c : c ∈ pool st -> submitted_by st c;
  pv_events w p : Client.SubmitEthereumPrice w p ∈ Client.Events (client st) ->
    submitted_by st (Client.Call_submit_ethereum_price p)
}.

Lemma index_get_elem writes key v : index_get writes key = Some v -> (key, v) ∈ writes.
Proof.
  unfold index_get. intros Hv. apply fmap_Some in Hv as ([k w] & Hl & ->).
  by apply last_Some_elem_of, list_elem_of_filter in Hl as [<- ?].
Qed.

Lemma step_submitted_by external expiry st st' c :
  step external expiry st st' -> submitted_by st c -> submitted_by st' c.
Proof.
  intros Hst (th0 & Hin & Hc). destruct Hst as [| | |block|i th o k r Hi Hp Ha|]; try (by exists th0).
  - exists th0. split; [|done]. apply elem_of_app. by left.
  - apply list_elem_of_lookup in Hin as [j Hj]. destruct (decide (j = i)) as [->|Hne].
    + simplify_eq. eexists. split.
      * apply list_elem_of_lookup. exists i. apply list_lookup_insert_eq. by eapply lookup_lt_Some.
      * unfold takes. simpl. rewrite bind_app. apply elem_of_app. by left.
    + exists th0. split; [|done]. apply list_elem_of_lookup. exists j. simpl. by rewrite list_lookup_insert_ne.
Qed.

(** Executing a call keeps everything in place. *)
Lemma execute_provenance external expiry now origin c st :
  step external expiry st (execute now origin c st) -> fits c ->
  (forall cc w p, c = Runtime.Call_LightClient cc ->
     event_of origin cc = Some (Client.SubmitEthereumPrice w p) ->
     submitted_by st (Client.Call_submit_ethereum_price p)) ->
  provenance st -> provenance (execute now origin c st).
Proof.
  intros Hst Hfits Hsub [Hth Hdb Hlen Hix Hrd Hpool Hev].
  destruct (execute_client now origin c st) as [[Hc Hd]|(cc & event & -> & He & Hi & Hes & Hd)].
  { split; rewrite ?Hc, ?Hd; done. }
  split; rewrite ?Hi, ?Hes, ?Hd; try done.
  - intros k v. rewrite !elem_of_app. intros [H|H]; [destruct (Hdb k v H); auto|auto].
  - rewrite !length_app. simpl. lia.
  - intros i k v. rewrite lookup_app_Some. intros [H|[Hle H]].
    + destruct (Hix i k v H) as (c & -> & Henc & Hc). exists c. split; [done|]. split; [done|].
      destruct c; [done|]. destruct Hc as [who Hw]. exists who. by apply lookup_app_l_Some.
    + apply list_lookup_singleton_Some in H as [Hi0 [= <- <-]]. exists cc. split; [done|]. split; [exact Hfits|].
      destruct cc; [done|]. simpl in He. destruct (ensure_signed origin) as [who|]; simplify_eq.
      exists who. rewrite lookup_app_r by lia. by rewrite <-Hlen, Hi0.
  - intros th k v Hin Hv. destruct (Hrd th k v Hin Hv); [by left|]. right. apply elem_of_app. by left.
  - intros w p. rewrite elem_of_app. intros [H|H]; [by apply (Hev w p)|].
    apply list_elem_of_singleton in H as <-. by apply (Hsub cc w p).
Qed.

Lemma advance_provenance st i th o k r :
  threads st !! i = Some th -> th_prog th = Do o k -> answers st (obs o r) ->
  step false true st (advance i th (obs o r) (k r) st) ->
  provenance st -> provenance (advance i th (obs o r) (k r) st).
Proof.
  intros Hi Hp Ha Hst [Hth Hdb Hlen Hix Hrd Hpool Hev].
  assert (Hinfo : stores_info o).
  { pose proof (Forall_lookup_1 _ _ _ _ Hth Hi) as Hr. cbv beta in Hr. rewrite Hp in Hr.
    by apply (reach_calls_only stores_info) in Hr as [? _]; [|apply worker_stores_info]. }
  assert (Hnew : forall c, c ∈ taken (obs o r) -> submitted_by (advance i th (obs o r) (k r) st) c).
  { intros c Hc. eexists. split.
    - apply list_elem_of_lookup. exists i. apply list_lookup_insert_eq. by eapply lookup_lt_Some.
    - unfold takes. simpl. rewrite bind_app. apply elem_of_app. right. simpl. by rewrite app_nil_r. }
  split; try done.
  - exact (step_threads_ok _ _ _ _ Hst Hth).
  - intros k' v. cbn [db advance]. rewrite elem_of_app. intros [H|H]; [by apply Hdb|]. left.
    unfold stored in H. apply list_elem_of_omap in H as (y & Hy & Hs).
    apply list_elem_of_singleton in Hy as ->. destruct o; try done. injection Hs as <- _. exact Hinfo.
  - intros th' k' v Hin. cbn [threads advance] in Hin.
    apply list_elem_of_lookup in Hin as [j Hj]. destruct (decide (j = i)) as [->|Hne].
    + rewrite list_lookup_insert_eq in Hj by (by eapply lookup_lt_Some). simplify_eq/=.
      unfold reads. rewrite omap_app, elem_of_app. intros [H|H].
      * apply (Hrd th); [by apply list_elem_of_lookup; exists i|done].
      * apply list_elem_of_omap in H as (y & Hy & Hs). apply list_elem_of_singleton in Hy as ->.
        destruct o; try done. simpl in Hs, Ha. subst r. apply fmap_Some in Hs as (w & Hw & [= -> ->]).
        by apply index_get_elem, Hdb in Hw.
    + rewrite list_lookup_insert_ne in Hj by done. apply Hrd. apply list_elem_of_lookup. by exists j.
  - intros c. cbn [pool advance]. rewrite elem_of_app. intros [H|H]; [|by apply Hnew].
    eapply step_submitted_by; [exact Hst|by apply Hpool].
  - intros w p H. eapply step_submitted_by; [exact Hst|by apply (Hev w)].
Qed.

Lemma step_provenance expiry st st' :
  step false expiry st st' -> provenance st -> provenance st'.
Proof.
  intros Hst Hpv. destruct Hst as [now origin c Ho Hf|now origin c Hin Hf| |block|i th o k r Hi Hp Ha|]; try done.
  - eapply execute_provenance; [by apply (step_call false expiry)|done| |done].
    intros cc w p -> He. destruct cc; simpl in He; [|by destruct (ensure_signed origin)].
    by destruct (ensure_none origin).
  - eapply execute_provenance; [by apply (step_unsigned false expiry)|done| |done].
    intros cc w p [= <-] He. apply (pv_pool st Hpv) in Hin. destruct c; simpl in He.
    + destruct (ensure_none origin); by simplify_eq.
    + by destruct (ensure_signed origin).
  - assert (Hst : step false expiry st (spawn block st)) by constructor.
    destruct Hpv as [Hth Hdb Hlen Hix Hrd Hpool Hev]. split; try done.
    + exact (step_threads_ok _ _ _ _ Hst Hth).
    + intros th k v. cbn [threads spawn]. rewrite elem_of_app. intros [H|H]; [by apply Hrd|].
      apply list_elem_of_singleton in H as ->. intros H. by apply not_elem_of_nil in H.
    + intros c H. eapply step_submitted_by; [exact Hst|by apply Hpool].
    + intros w p H. eapply step_submitted_by; [exact Hst|by apply (Hev w)].
  - apply advance_provenance; try done. by constructor.
  - destruct Hpv. by split.
Qed.

Lemma reachable_provenance expiry nodes st : reachable false expiry nodes st -> provenance st.
Proof.
  revert st. apply (rtc_ind_r provenance); [|intros; by eapply step_provenance].
  split; [constructor| |done|done|..]; intros; exfalso;
    repeat match goal with H : _ ∈ _ |- _ => by apply not_elem_of_nil in H || clear H end.
Qed.

Lemma takes_submitted tr c : c ∈ takes tr -> c ∈ submitted tr.
Proof.
  unfold takes, submitted. rewrite list_elem_of_bind, list_elem_of_omap. intros (y & Hc & Hy). exists y. split; [done|].
  destruct y as [o r]. destruct o; simpl in Hc; try (by apply not_elem_of_nil in Hc). destruct r; simpl in Hc.
  - by apply list_elem_of_singleton in Hc as ->.
  - by apply not_elem_of_nil in Hc.
Qed.

Lemma takes_app tr1 tr2 : takes (tr1 ++ tr2) = takes tr1 ++ takes tr2.
Proof. apply bind_app. Qed.

Lemma derived_key_not_info block : Client.derived_key block <> Client.INFO_KEY.
Proof. by intros [=]. Qed.

(** A price update that has had a submission taken is at its end. *)
Lemma update_submission h f t tr tr' y p :
  traces (Client.update_ethereum_price_worker timestamp_add h f t) (tr ++ tr') y ->
  Client.Call_submit_ethereum_price p ∈ takes tr ->
  exists tr0, tr = tr0 ++ [obs (SubmitUnsigned (Client.Call_submit_ethereum_price p)) true] /\
    posted_price timestamp_add p h f t tr0.
Proof.
  intros Ht Hp. apply worker_submits in Ht as [[Hs _]|(tr0 & q & ok & Heq & Hs & Hpost & _)].
  - apply takes_submitted in Hp. rewrite submitted_app in Hs. apply app_nil in Hs as [Hs _].
    rewrite Hs in Hp. by apply not_elem_of_nil in Hp.
  - destruct tr' as [|z tr' _] using rev_ind.
    + rewrite app_nil_r in Heq. subst tr. rewrite takes_app, elem_of_app in Hp. destruct Hp as [Hp|Hp].
      * apply takes_submitted in Hp. rewrite Hs in Hp. by apply not_elem_of_nil in Hp.
      * destruct ok; simpl in Hp; [|by apply not_elem_of_nil in Hp].
        apply list_elem_of_singleton in Hp as [= ->]. by exists tr0.
    + rewrite app_assoc in Heq. apply app_inj_tail in Heq as [<- _]. apply takes_submitted in Hp.
      rewrite submitted_app in Hs. apply app_nil in Hs as [Hs _]. rewrite Hs in Hp. by apply not_elem_of_nil in Hp.
Qed.

(** A worker that submitted a price acted on an update request of its block. *)
Lemma submission_source `{!CodecNonempty bytes} st th p :
  provenance st -> th ∈ threads st -> Client.Call_submit_ethereum_price p ∈ takes (th_log th) ->
  exists i who h f t tr0,
    Client.Indexed (client st) !! i =
      Some (Client.derived_key (th_block th), index_value (Client.Call_update_ethereum_price h f t)) /\
    Client.Events (client st) !! i = Some (Client.UpdateEthereumPrice (Some who)) /\
    th_log th = tr0 ++ [obs (SubmitUnsigned (Client.Call_submit_ethereum_price p)) true] /\
    posted_price timestamp_add p (lit "0x" ++ from_utf8_or_error h)
      (lit "0x" ++ from_utf8_or_error f) (lit "0x" ++ from_utf8_or_error t) tr0.
Proof.
  intros Hpv Hin Hp. pose proof (pv_threads st Hpv) as Hth. unfold threads_ok in Hth.
  rewrite Forall_forall in Hth. specialize (Hth th Hin).
  apply reach_completes in Hth as (tr' & x & Ht); [|apply answer_any].
  destruct Ht as (v & tr2 & Heq & Ht).
  change (traces (Client.on_index timestamp_add v) tr2 x) in Ht.
  destruct (th_log th) as [|z l] eqn:Hlog; [by apply not_elem_of_nil in Hp|]. injection Heq as -> <-.
  change (Client.Call_submit_ethereum_price p ∈ takes l) in Hp.
  assert (Hidle : traces (Done tt) (l ++ tr') x -> False).
  { intros [Hl _]. apply app_nil in Hl as [-> _]. by apply not_elem_of_nil in Hp. }
  destruct v as [raw|]; [|by destruct Hidle].
  assert (Hraw : (Client.derived_key (th_block th), raw) ∈ Client.Indexed (client st)).
  { destruct (pv_reads st Hpv th (Client.derived_key (th_block th)) raw Hin) as [Hk|?]; [|by destruct (derived_key_not_info _ Hk)|done].
    rewrite Hlog. left. }
  apply list_elem_of_lookup in Hraw as [i Hraw].
  destruct (pv_index st Hpv _ _ _ Hraw) as (c & -> & Henc & Hwho). rewrite (on_index_value timestamp_add c Henc) in Ht.
  destruct c as [q|h f t]; [by destruct Hidle|]. apply traces_pbind in Ht as (tr1 & y & Ht & Hy).
  assert (l ++ tr' = tr1) as <-.
  { destruct y; [destruct Hy as (? & -> & -> & _); by rewrite app_nil_r|by destruct Hy]. }
  destruct (update_submission _ _ _ _ _ _ _ Ht Hp) as (tr0 & -> & Hpost).
  destruct Hwho as [who Hwho].
  exists i, who, h, f, t, ([obs (StorageGet (Client.derived_key (th_block th)))
                              (Some (index_value (Client.Call_update_ethereum_price h f t)))] ++ tr0).
  by split_and!; [| | |apply posted_price_app].
Qed.

(** C12: every price on chain was requested, fetched by a worker and posted.  In
    every reachable state of the system in which the pool takes unsigned calls
    only from its own workers, a price of a [SubmitEthereumPrice] event was
    submitted by a worker as its last call, right after the transaction with that
    price was posted to the node named in a request and answered with status 200;
    the request is an index entry of
    the worker's block, and the event of the same call names the account that
    signed it. *)
Theorem published_prices_were_requested `{!CodecNonempty bytes} expiry nodes st w p :
  reachable false expiry nodes st ->
  Client.SubmitEthereumPrice w p ∈ Client.Events (client st) ->
  exists th i who h f t tr0,
    th ∈ threads st /\
    Client.Indexed (client st) !! i =
      Some (Client.derived_key (th_block th), index_value (Client.Call_update_ethereum_price h f t)) /\
    Client.Events (client st) !! i = Some (Client.UpdateEthereumPrice (Some who)) /\
    th_log th = tr0 ++ [obs (SubmitUnsigned (Client.Call_submit_ethereum_price p)) true] /\
    posted_price timestamp_add p (lit "0x" ++ from_utf8_or_error h)
      (lit "0x" ++ from_utf8_or_error f) (lit "0x" ++ from_utf8_or_error t) tr0.
Proof.
  intros Hpv%reachable_provenance Hev. destruct (pv_events st Hpv w p Hev) as (th & Hin & Hp).
  destruct (submission_source st th p Hpv Hin Hp) as (i & who & h & f & t & tr0 & Hs).
  by exists th, i, who, h, f, t, tr0.
Qed.

(** Without that restriction any price gets on chain: the filter for unsigned
    transactions accepts it from every source. *)
Lemma forged_price nodes now origin u p :
  ensure_none origin = Ok u -> encodable_call (Client.Call_submit_ethereum_price p) ->
  exists st, reachable true false nodes st /\ threads st = [] /\
    Client.Events (client st) = [Client.SubmitEthereumPrice None p].
Proof.
  intros Ho Hp.
  exists (execute now origin (Runtime.Call_LightClient (Client.Call_submit_ethereum_price p))
            (gossip (Client.Call_submit_ethereum_price p) (init nodes))). split; [|split; [done|]].
  - apply (rtc_l _ _ (gossip (Client.Call_submit_ethereum_price p) (init nodes))); [by apply step_external|]. apply rtc_once, step_unsigned; [by left|done].
  - unfold execute. cbn [chain]. rewrite Runtime.dispatch_light_client, client_dispatch. simpl. by rewrite Ho.
Qed.

(** ** Schedules *)

(** Worker [i] makes its next [n] calls against a host that answers reads and
    locks from the state and everything else with [reply]. *)
Definition respond (reply : list (Obs Call) -> forall o : Op Call, resp o) (st : State) (th : Thread) (o : Op Call) : resp o :=
  match o as o return resp o -> resp o with
  | StorageGet key => fun _ => index_get (db st) key
  | TryLock _ _ _ => fun _ => bool_decide (lock st = None)
  | _ => fun r => r
  end (reply (th_log th) o).

Fixpoint drive reply (n : nat) (i : nat) (st : State) : State :=
  match n with
  | O => st
  | S n' =>
      match threads st !! i with
      | Some th =>
          match th_prog th with
          | Do o k => let r := respond reply st th o in drive reply n' i (advance i th (obs o r) (k r) st)
          | _ => st
          end
      | None => st
      end
  end.

Lemma drive_reachable external expiry nodes reply n i st :
  reachable external expiry nodes st -> reachable external expiry nodes (drive reply n i st).
Proof.
  revert st. induction n as [|n IH]; intros st Hst; [done|]. simpl.
  destruct (threads st !! i) as [th|] eqn:Hi; [|done]. destruct (th_prog th) as [| |o k] eqn:Hp; [done..|].
  apply IH. eapply rtc_r; [exact Hst|]. apply step_worker; [done..|]. by destruct o.
Qed.

End system.

(** ** Witnesses *)

Section witnesses.
Import Mock Compact MiniJson.
#[local] Instance block_codec_mock : Codec (BlockNumber (FrameSystem := mock_system)) := u32_codec.
#[local] Instance block_laws_mock : CodecLaws (BlockNumber (FrameSystem := mock_system)) := u32_codec_laws.

(** The host of the worker's own examples, one call at a time. *)
Definition reply (log : list (Obs Client.Call)) (o : Op Client.Call) : resp o :=
  fst (ClientWorker.demo ClientWorker.all_up true o ([], last (sent log))).

Abbreviation start := (spawn (F := mock_system) (FS := mock_storage) (J := mini) Z.add).
Abbreviation block_call := (execute (F := mock_system) (FS := mock_storage)).

(** A request in block 7 and the workers of blocks 7 and 8; then the first worker
    alone up to its lock; then to its end, with its price in block 8. *)
Definition request : Runtime.Call :=
  Runtime.Call_LightClient (Client.Call_update_ethereum_price (lit "node") (lit "aa") (lit "bb")).
Definition submission : Client.Call := Client.Call_submit_ethereum_price (lit "1823.75").
Definition requested : State := start 8 (start 7 (block_call 7 (Signed 1) request (init []))).
Definition locked : State := drive reply 2 0 requested.
Definition published : State :=
  block_call 8 None_ (Runtime.Call_LightClient submission) (drive reply 18 0 requested).

Lemma requested_reachable : reachable (J := mini) Z.add false false [] requested.
Proof.
  unfold requested. do 2 (eapply rtc_r; [|apply step_spawn]). apply rtc_once, step_call; [done|].
  repeat split; vm_compute; reflexivity.
Qed.

Lemma workers_exclude_each_other_witness :
  (0%nat = 0%nat /\ lock locked = Some 0%nat).
Proof.
  assert (H : (fun th => held false (th_log th)) <$> threads locked !! 0%nat = Some true)
    by (vm_compute; reflexivity).
  apply fmap_Some in H as (th & Hth & Hh). symmetry in Hh.
  apply (workers_exclude_each_other Z.add false [] locked 0 0 th th); [|exact Hth|exact Hth|exact Hh|exact Hh].
  apply drive_reachable, requested_reachable.
Defined.

Lemma published_prices_were_requested_witness :
  exists th i who tr0,
    th ∈ threads published /\
    Client.Events (Runtime.LightClient (chain published)) !! i = Some (Client.UpdateEthereumPrice (Some who)) /\
    th_log th = tr0 ++ [obs (SubmitUnsigned submission) true].
Proof.
  destruct (published_prices_were_requested Z.add false [] published None (lit "1823.75"))
    as (th & i & who & h & f & t & tr0 & Hin & _ & He & Hl & _).
  - eapply rtc_r; [apply drive_reachable, requested_reachable|]. apply step_unsigned.
    + assert (pool (drive reply 18 0 requested) = [submission]) as -> by (vm_compute; reflexivity).
      apply list_elem_of_here.
    + repeat split; vm_compute; reflexivity.
  - assert (Client.Events (Runtime.LightClient (chain published)) =
      [Client.UpdateEthereumPrice (Some 1); Client.SubmitEthereumPrice None (lit "1823.75")]) as ->
      by (vm_compute; reflexivity).
    apply list_elem_of_further, list_elem_of_here.
  - exists th, i, who, tr0. split; [exact Hin|]. split; [exact He|exact Hl].
Defined.

End witnesses.
End System.
