(* ===== verification/Timed.v ===== *)
(** * The lock of the workers against the clock

    The storage lock expires [LOCK_TIMEOUT_EXPIRATION] milliseconds after it was
    taken.  Here the system of [System] runs against a clock: time passes while
    the workers run, a call is answered within a bound of the one before, a wait
    for a response at its deadline at the latest, and an expired lock can be taken
    again.  The reading of a response body, for which the source sets no deadline,
    may take any time; the state records the longest so far.  As long as it is
    short enough, a run of the timed system is one of the untimed system in which
    no lock expires; when it is not, two workers can hold the lock. *)

From S2P Require Import Prelude BTreeSet Frame Authorization Template Str Num Scale Json Effects Offchain.
From S2P Require Import Client ClientProofs ClientIndex ClientWorker ClientCost Runtime System.
From Stdlib Require Import Strings.String.
Import Str Num Offchain ClientIndex ClientWorker ClientCost System.
Local Open Scope Z_scope.

Module Timed.

Section timed.
Context `{F : FrameSystem} `{FS : FrameStorage} `{J : SerdeJson}.
Context {block_codec : Codec BlockNumber} {bytes_codec : Codec bytes}.
Context {block_laws : CodecLaws BlockNumber} {bytes_laws : CodecLaws bytes}.
Context (timestamp_add : Z -> Z -> Z).
#[local] Abbreviation Call := Client.Call.
#[local] Abbreviation worker := (Client.offchain_worker timestamp_add).

(** ** How long a worker holds the lock *)

Section held.
Context (c t b : Z) (Hc : 0 <= c) (Ht : 0 <= t) (Hb : 0 <= b).
#[local] Abbreviation w := (weight c t b).
#[local] Abbreviation cost := (Effects.cost w).











End held.


(** ** The timed system *)

(** The clock, the time at which the lock expires, the time of the last call of
    each worker, and the longest time any worker has spent reading a body. *)
Record TState : Type := {
  sys : State;
  clock : Z;
  expires : Z;
  times : list Z;
  slowest : Z
}.

Definition tinit nodes : TState := {| sys := init nodes; clock := 0; expires := 0; times := []; slowest := 0 |}.

(** [delta]: a call of a worker that neither waits for a response nor reads a body
    is answered within this time of the worker's previous one; a wait takes up to
    the fetch timeout longer. *)
Context (delta : Z) (Hdelta : 0 <= delta).
#[local] Abbreviation within b := (weight delta Client.FETCH_TIMEOUT_PERIOD b).

Definition in_time (now : Z) (tht : Thread * Z) : bool :=
  match th_prog tht.1 with
  | Do o _ => is_body o || (now <=? tht.2 + within 0 o)
  | _ => true
  end.
Definition on_time (st : TState) (now : Z) : bool :=
  forallb (in_time now) (zip (threads (sys st)) (times st)).

(** How long a worker has been reading a body. *)
Definition reading (now : Z) (tht : Thread * Z) : Z :=
  match th_prog tht.1 with
  | Do o _ => if is_body o then now - tht.2 else 0
  | _ => 0
  end.
Definition slowest_at (st : TState) (now : Z) : Z :=
  foldr (fun tht => Z.max (reading now tht)) (slowest st) (zip (threads (sys st)) (times st)).




(** A lock that is taken expires after [LOCK_TIMEOUT_EXPIRATION]. *)
Definition expires_after (y : Obs Call) (now old : Z) : Z :=
  match y with
  | existT (TryLock _ _ _) b => if (b : bool) then now + Client.LOCK_TIMEOUT_EXPIRATION else old
  | _ => old
  end.

Inductive tstep (external : bool) (st : TState) : TState -> Prop :=
| t_delay d :
    0 <= d -> on_time st (clock st + d) = true ->
    tstep external st {| sys := sys st; clock := clock st + d; expires := expires st; times := times st;
                         slowest := slowest_at st (clock st + d) |}
| t_call now origin c :
    is_ok (ensure_none origin) = false -> fits c ->
    tstep external st {| sys := execute now origin c (sys st); clock := clock st;
                         expires := expires st; times := times st; slowest := slowest st |}
| t_unsigned now origin c :
    c ∈ pool (sys st) -> fits (Runtime.Call_LightClient c) ->
    tstep external st {| sys := execute now origin (Runtime.Call_LightClient c) (sys st); clock := clock st;
                         expires := expires st; times := times st; slowest := slowest st |}
| t_external c :
    external = true -> is_ok (Runtime.validate_unsigned Client.External (Runtime.Call_LightClient c)) = true ->
    tstep external st {| sys := gossip c (sys st); clock := clock st; expires := expires st; times := times st; slowest := slowest st |}
| t_spawn block :
    tstep external st {| sys := spawn timestamp_add block (sys st); clock := clock st;
                         expires := expires st; times := times st ++ [clock st]; slowest := slowest st |}
| t_worker i th o k r :
    threads (sys st) !! i = Some th -> th_prog th = Do o k -> answers (sys st) (obs o r) ->
    tstep external st {| sys := advance i th (obs o r) (k r) (sys st); clock := clock st;
                         expires := expires_after (obs o r) (clock st) (expires st);
                         times := <[i := clock st]> (times st); slowest := slowest st |}
| t_expire :
    expires st < clock st ->
    tstep external st {| sys := expire (sys st); clock := clock st; expires := expires st; times := times st; slowest := slowest st |}.

Definition treachable (external : bool) nodes : TState -> Prop := rtc (tstep external) (tinit nodes).












(** ** Schedules *)

(** One call of worker [i], and a delay. *)
Definition tcall (reply : list (Obs Call) -> forall o : Op Call, resp o) (i : nat) (st : TState) : TState :=
  match threads (sys st) !! i with
  | Some th =>
      match th_prog th with
      | Do o k =>
          let y := obs o (respond reply (sys st) th o) in
          {| sys := advance i th y (k (respond reply (sys st) th o)) (sys st); clock := clock st;
             expires := expires_after y (clock st) (expires st); times := <[i := clock st]> (times st);
             slowest := slowest st |}
      | _ => st
      end
  | None => st
  end.
Definition tdelay (d : Z) (st : TState) : TState :=
  {| sys := sys st; clock := clock st + d; expires := expires st; times := times st;
     slowest := slowest_at st (clock st + d) |}.

Lemma tcall_reachable external nodes reply i st :
  treachable external nodes st -> treachable external nodes (tcall reply i st).
Proof.
  intros Hst. unfold tcall. destruct (threads (sys st) !! i) as [th|] eqn:Hi; [|done].
  destruct (th_prog th) as [| |o k] eqn:Hp; [done..|]. eapply rtc_r; [exact Hst|].
  apply (t_worker external st i th o k (respond reply (sys st) th o)); [done..|]. by destruct o.
Qed.

Lemma tdelay_reachable external nodes d st :
  0 <= d -> on_time st (clock st + d) = true ->
  treachable external nodes st -> treachable external nodes (tdelay d st).
Proof. intros Hd Hon Hst. eapply rtc_r; [exact Hst|]. by apply t_delay. Qed.

End timed.

(** ** A body that is too slow *)

Section witness.
Import Mock Compact MiniJson.
#[local] Instance block_codec_mock : Codec (BlockNumber (FrameSystem := mock_system)) := u32_codec.
#[local] Instance block_laws_mock : CodecLaws (BlockNumber (FrameSystem := mock_system)) := u32_codec_laws.

(** Requests in blocks 7 and 8.  The worker of block 7 takes the lock and gets its
    response 400 milliseconds later; the ticker then takes five seconds for the
    body.  The lock expires in the meantime, and the worker of block 8 takes it. *)
Abbreviation delay := (tdelay (F := mock_system)).
Definition spawned (block : Z) (st : TState) : TState :=
  {| sys := spawn (F := mock_system) (J := mini) Z.add block (sys st); clock := clock st; expires := expires st;
     times := times st ++ [clock st]; slowest := slowest st |}.
Definition asked (block : Z) (st : TState) : TState :=
  {| sys := execute (F := mock_system) block (Signed 1) request (sys st); clock := clock st; expires := expires st;
     times := times st; slowest := slowest st |}.
Definition expired (st : TState) : TState :=
  {| sys := expire (sys st); clock := clock st; expires := expires st; times := times st; slowest := slowest st |}.
Definition call_and_wait (st : TState) : TState := delay 100 (tcall reply 0 st).

Definition reading_body : TState :=
  delay 4900 (Nat.iter 5 call_and_wait (spawned 7 (asked 8 (asked 7 (tinit []))))).
Definition overlap : TState := Nat.iter 2 (tcall reply 1) (spawned 8 (expired reading_body)).

Abbreviation treach := (treachable (J := mini) Z.add 100 false []).

Lemma asked_reachable block st : treach st -> treach (asked block st).
Proof.
  intros Hst. eapply rtc_r; [exact Hst|].
  apply (t_call (F := mock_system) (J := mini) Z.add 100 false st (block : BlockNumber (FrameSystem := mock_system))
           (Signed 1) request); [done|]. repeat split; vm_compute; reflexivity.
Qed.

Lemma overlap_reachable : treach overlap.
Proof.
  unfold overlap. do 2 apply tcall_reachable. eapply rtc_r; [|apply t_spawn].
  eapply rtc_r; [|apply t_expire; vm_compute; reflexivity]. unfold reading_body.
  apply tdelay_reachable; [done|vm_compute; reflexivity|].
  do 5 (apply tdelay_reachable; [done|vm_compute; reflexivity|]; apply tcall_reachable).
  eapply rtc_r; [|apply t_spawn]. do 2 apply asked_reachable. constructor.
Qed.

(** Two workers hold the lock: the source does not exclude them from each other. *)
Lemma slow_body_breaks_exclusion :
  treach overlap /\ map (fun th => held false (th_log th)) (threads (sys overlap)) = [true; true].
Proof. split; [apply overlap_reachable|]. vm_compute. reflexivity. Qed.


End witness.
End Timed.
