(* ===== verification/Delivery.v ===== *)
(** * From a request to a price on chain

    The other direction of [System]: when the outside world does its part, a
    request that is accepted while the lock is free is served.  The worker of its
    block is driven to its end, one call at a time, in the shared state of the
    system; the price it fetched is cached, the transaction goes to the pool and
    its execution puts the price on chain. *)

From S2P Require Import Prelude BTreeSet Frame Authorization Template Str Num Scale Json Effects Offchain.
From S2P Require Import Client ClientProofs ClientIndex ClientWorker ClientCost Runtime System.
From Stdlib Require Import Strings.String.
Import Str Num Offchain ClientIndex ClientWorker System.
Local Open Scope Z_scope.

Module Delivery.

Section delivery.
Context `{F : FrameSystem} `{FS : FrameStorage} `{J : SerdeJson}.
Context {block_codec : Codec BlockNumber} {bytes_codec : Codec bytes}.
Context {block_laws : CodecLaws BlockNumber} {bytes_laws : CodecLaws bytes}.
Context (timestamp_add : Z -> Z -> Z).
Implicit Types (origin : Origin) (now block : BlockNumber).
#[local] Existing Instance Client.LightClient_codec.
#[local] Abbreviation Call := Client.Call.
#[local] Abbreviation worker := (Client.offchain_worker timestamp_add).

(** ** The world outside *)

(** Everything but the reads and the lock, which the state of the system
    answers, is answered by a cooperative host. *)
Definition well_served (answer : HttpRequest -> bytes)
    (reply : list (Obs Call) -> forall o : Op Call, resp o) : Prop :=
  forall log o,
    match o with
    | StorageGet _ | TryLock _ _ _ => True
    | _ => cooperates answer log (obs o (reply log o))
    end.

(** What a cooperative host answers depends on the requests and writes alone. *)
Lemma cooperates_ext answer b1 b2 (y : Obs Call) :
  sent b1 = sent b2 -> stored b1 = stored b2 -> cooperates answer b1 y -> cooperates answer b2 y.
Proof. intros Hs Ht. destruct y as [o r]. destruct o; simpl; rewrite ?Hs, ?Ht; done. Qed.

Lemma cooperative_takes answer b (tr : list (Obs Call)) :
  cooperative answer b tr -> takes tr = submitted tr.
Proof.
  revert b. induction tr as [|[o r] tr IH]; intros b; [done|]. intros [Hc Htr].
  change (taken (existT o r) ++ takes tr = submitted ([existT o r] ++ tr)).
  rewrite submitted_app, (IH _ Htr). destruct o; simpl in *; try done. by rewrite Hc.
Qed.

Lemma index_get_last w key v : index_get (w ++ [(key, v)]) key = Some v.
Proof. apply index_get_app. unfold index_get. rewrite filter_cons, decide_True by done. done. Qed.

(** ** Driving a worker to its end *)

Section drive.
Context (answer : HttpRequest -> bytes) (reply : list (Obs Call) -> forall o : Op Call, resp o).
Context (Hserved : well_served answer reply).
Context (i : nat) (block : BlockNumber) (pre : list (Obs Call)) (t0 : prog Call unit).
Context (Hpre : sent pre = [] /\ stored pre = []).
Context (Hrules : forall tr t, reach t0 tr t -> along lock_rules false tr).
Context (st0 : State).

(** Worker [i] has made the calls [pre ++ tr] and is left with [t]; nothing
    else has happened since [st0]. *)
Record driven (tr : list (Obs Call)) (t : prog Call unit) (st : State) : Prop := {
  dr_thread : threads st !! i = Some {| th_block := block; th_log := pre ++ tr; th_prog := t |};
  dr_reach : reach t0 tr t;
  dr_lock : lock st = if held false tr then Some i else None;
  dr_db : db st = db st0 ++ stored tr;
  dr_pool : pool st = pool st0 ++ takes tr;
  dr_chain : chain st = chain st0;
  dr_cooperative : cooperative answer [] tr
}.

(** The lock after one more call, which keeps the rules. *)
Lemma lock_after_call tr (y : Obs Call) l :
  along lock_rules false (tr ++ [y]) ->
  match y with existT (TryLock _ _ _) b => b = true | _ => True end ->
  l = (if held false tr then Some i else None) ->
  lock_after i y l = if held false (tr ++ [y]) then Some i else None.
Proof.
  intros [_ [Hy _]]%along_app Hb ->. rewrite held_snoc. destruct y as [o r]. destruct o; simpl in *; try done.
  by subst r.
Qed.

Lemma driven_step tr o k st :
  driven tr (Do o k) st ->
  exists r, drive reply 1 i st = advance i {| th_block := block; th_log := pre ++ tr; th_prog := Do o k |} (obs o r) (k r) st /\
    driven (tr ++ [obs o r]) (k r) (drive reply 1 i st).
Proof.
  intros [Hth Hr Hl Hdb Hpool Hch Hco]. set (th := {| th_block := block; th_log := pre ++ tr; th_prog := Do o k |}) in *.
  set (r := respond reply st th o). exists r.
  assert (Hd : drive reply 1 i st = advance i th (obs o r) (k r) st) by (cbn [drive]; by rewrite Hth).
  split; [exact Hd|]. rewrite Hd.
  assert (Hr' : reach t0 (tr ++ [obs o r]) (k r)) by by constructor.
  pose proof (Hrules _ _ Hr') as Hal.
  assert (Hans : cooperates answer tr (obs o r)).
  { apply (cooperates_ext answer (pre ++ tr)).
    - rewrite sent_app. by destruct Hpre as [-> _].
    - rewrite stored_app. by destruct Hpre as [_ ->].
    - pose proof (Hserved (pre ++ tr) o) as Hs. apply along_app in Hal as [_ [Hrule _]]. unfold r, respond.
      destruct o; simpl in *; try exact Hs.
      + rewrite stored_app. destruct Hpre as [_ ->]. simpl. rewrite Hdb. intros w. apply index_get_app.
      + rewrite Hl, Hrule. by apply bool_decide_true. }
  split; cbn [threads lock db pool chain advance].
  - rewrite list_lookup_insert_eq by (by eapply lookup_lt_Some). unfold th. cbn [th_block th_log]. by rewrite <-app_assoc.
  - exact Hr'.
  - apply lock_after_call; [exact Hal| |done]. destruct o; try done.
  - rewrite Hdb, stored_app. by rewrite app_assoc.
  - rewrite Hpool, takes_app. unfold takes at 2. simpl. by rewrite app_nil_r, app_assoc.
  - done.
  - rewrite cooperative_app. by split.
Qed.

Lemma drive_add n m st : drive reply (n + m) i st = drive reply m i (drive reply n i st).
Proof.
  revert st. induction n as [|n IH]; intros st; [done|]. cbn [drive Nat.add].
  destruct (threads st !! i) as [th|] eqn:Hi; [destruct (th_prog th) as [| |o k] eqn:Hp|].
  4: { destruct m; cbn [drive]; by rewrite ?Hi. }
  1,2: destruct m; cbn [drive]; by rewrite ?Hi, ?Hp.
  apply IH.
Qed.

(** It ends after as many calls as its trace has, whatever it is. *)
Lemma driven_to_end tr t st :
  driven tr t st ->
  exists tr' x t', traces t tr' x /\ driven (tr ++ tr') t' (drive reply (List.length tr') i st) /\
    (forall m, drive reply (List.length tr' + m) i st = drive reply (List.length tr') i st).
Proof.
  revert tr st. induction t as [a| |o k IH]; intros tr st Hd.
  - exists [], (Some a), (Done a). rewrite app_nil_r. split; [done|]. split; [done|]. intros [|m]; [done|].
    cbn [drive List.length Nat.add]. by rewrite (dr_thread _ _ _ Hd).
  - exists [], None, Panic. rewrite app_nil_r. split; [done|]. split; [done|]. intros [|m]; [done|].
    cbn [drive List.length Nat.add]. by rewrite (dr_thread _ _ _ Hd).
  - destruct (driven_step _ _ _ _ Hd) as (r & _ & Hd1).
    destruct (IH r _ _ Hd1) as (tr' & x & t' & Ht & Hd' & Hend).
    exists (obs o r :: tr'), x, t'. split; [by exists r, tr'|]. cbn [List.length].
    rewrite <-app_assoc in Hd'. split.
    + by rewrite (drive_add 1 (List.length tr')).
    + intros m. rewrite (drive_add 1 (List.length tr' + m)), (drive_add 1 (List.length tr')). apply Hend.
Qed.

End drive.

(** ** The worker of a request *)

Lemma worker_rules block v tr t :
  reach (Client.on_index timestamp_add v) tr t -> along lock_rules false tr.
Proof.
  intros Hr. apply reach_completes in Hr as (tr' & x & Ht); [|apply answer_any].
  assert (Hw : traces (worker block) (obs (StorageGet (Client.derived_key block)) v :: tr ++ tr') x)
    by by exists v, (tr ++ tr').
  apply worker_lock in Hw as [[_ Hal] _]. by apply along_app in Hal as [? _].
Qed.

Lemma worker_frees block v tr x :
  traces (Client.on_index timestamp_add v) tr x -> held false tr = false.
Proof.
  intros Ht. assert (Hw : traces (worker block) (obs (StorageGet (Client.derived_key block)) v :: tr) x)
    by by exists v, tr.
  by apply worker_lock in Hw as [_ Hh].
Qed.

Lemma cost_length (tr : list (Obs Call)) : cost (ClientCost.weight 1 0 1) tr = Z.of_nat (List.length tr).
Proof.
  induction tr as [|[o r] tr IH]; [done|]. change (ClientCost.weight 1 0 1 o + cost (ClientCost.weight 1 0 1) tr = Z.of_nat (S (List.length tr))).
  rewrite IH. unfold ClientCost.weight. destruct o; lia.
Qed.

(** What the ticker and the node have to answer for the price [d]. *)
Definition answers_with (answer : HttpRequest -> bytes) (host from to : bytes) (d : Client.LightClient) : Prop :=
  (forall t, parse_ticker (answer (get_ticker t)) = Ok d) /\
  encodable (Client.price d, Client.time d) /\
  exists f data gas text1 text2,
    parse_f32 (Client.price d) = Some f /\ Client.call_data (f32_as_u32 f) = Some data /\
    text_of (Client.ser_EstimateGasRequest (Client.gas_request data from to)) = Some text1 /\
    (forall t, gas_of (answer (Client.post_json Client.HTTP_ETHEREUM_HOST text1 t)) = Some gas) /\
    text_of (Client.ser_EthTransaction (Client.eth_transaction data from to gas)) = Some text2 /\
    (forall t, utf8_valid (answer (Client.post_json host text2 t)) = true).

Lemma update_delivers `{!SerdeJsonLaws J} answer host from to d tr x :
  answers_with answer host from to d ->
  traces (pbind (Client.update_ethereum_price_worker timestamp_add host from to) (fun _ => Done tt)) tr x ->
  cooperative answer [] tr ->
  (List.length tr <= 17)%nat /\
  submitted tr = [Client.Call_submit_ethereum_price (Client.price d)] /\
  stored tr = [(Client.INFO_KEY, encode d)].
Proof.
  intros (Htick & Henc & f & data & gas & text1 & text2 & Hf & Hdata & H1 & Hgas & H2 & Hrec) Ht Hc.
  apply traces_pbind in Ht as (tr1 & y & Ht & Hy).
  assert (tr = tr1) as ->.
  { destruct y; [destruct Hy as (? & -> & -> & _); by rewrite app_nil_r|by destruct Hy]. }
  split.
  - pose proof (traces_cost _ _ _ _ _ (ClientCost.worker_costs timestamp_add 1 0 1 ltac:(lia) ltac:(lia) ltac:(lia) host from to) Ht) as Hcost.
    rewrite cost_length in Hcost. lia.
  - destruct (worker_delivers timestamp_add answer host from to d f data gas text1 text2 tr1 y
      Htick Henc Hf Hdata H1 Hgas H2 Hrec Ht Hc) as (_ & Hs & Hst & _). done.
Qed.

(** The worker of block [now], just started, whose index entry is [c]'s. *)
Lemma first_call `{!CodecNonempty bytes} reply st now c :
  encodable_call c -> index_get (db st) (Client.derived_key now) = Some (index_value c) -> lock st = None ->
  let v := Some (index_value c) in
  let st1 := drive reply 1 (List.length (threads st)) (spawn timestamp_add now st) in
  forall answer,
  driven answer (List.length (threads st)) now [obs (StorageGet (Client.derived_key now)) v]
    (worker_for timestamp_add c) st1 [] (worker_for timestamp_add c) st1 /\
  chain st1 = chain st /\ db st1 = db st /\ pool st1 = pool st.
Proof.
  intros Henc Hix Hl v st1 answer. set (i := List.length (threads st)) in *.
  assert (Hi : threads (spawn timestamp_add now st) !! i =
    Some {| th_block := now; th_log := []; th_prog := worker now |}).
  { cbn [threads spawn]. unfold i. rewrite lookup_app_r, Nat.sub_diag by done. done. }
  assert (H1 : st1 = advance i {| th_block := now; th_log := []; th_prog := worker now |}
            (obs (StorageGet (Client.derived_key now)) v) (worker_for timestamp_add c) (spawn timestamp_add now st)).
  { unfold st1. cbn [drive]. rewrite Hi. cbn [th_prog Client.offchain_worker pbind Effects.call respond db spawn].
    rewrite Hix. unfold v. f_equal. exact (on_index_value timestamp_add c Henc). }
  assert (Hdb : db st1 = db st) by (rewrite H1; cbn [db advance spawn]; apply app_nil_r).
  assert (Hpool : pool st1 = pool st) by (rewrite H1; cbn [pool advance spawn]; apply app_nil_r).
  split; [|by rewrite H1 at 1].
  split; try (by rewrite ?app_nil_r); try done.
  - rewrite H1. cbn [threads advance]. by rewrite list_lookup_insert_eq by (by eapply lookup_lt_Some).
  - constructor.
  - by rewrite H1.
Qed.

(** A call of the light client that is accepted. *)
Lemma execute_accepted now origin c event st :
  event_of origin c = Some event ->
  let st' := execute now origin (Runtime.Call_LightClient c) st in
  Client.Events (Runtime.LightClient (chain st')) = Client.Events (Runtime.LightClient (chain st)) ++ [event] /\
  db st' = db st ++ [(Client.derived_key now, index_value c)].
Proof.
  intros He. unfold execute. cbn [chain db].
  rewrite (Runtime.dispatch_light_client now (Runtime.Call_LightClient c) origin (chain st)), client_dispatch, He.
  simpl. by rewrite drop_app_length.
Qed.

(** The worker of an index entry, driven to its end. *)
Lemma worker_served `{!SerdeJsonLaws J} `{!CodecNonempty bytes} answer reply st now h f t d :
  let c := Client.Call_update_ethereum_price h f t in
  well_served answer reply -> lock st = None -> encodable_call c ->
  index_get (db st) (Client.derived_key now) = Some (index_value c) ->
  answers_with answer (lit "0x" ++ from_utf8_or_error h) (lit "0x" ++ from_utf8_or_error f)
    (lit "0x" ++ from_utf8_or_error t) d ->
  let st' := drive reply 18 (List.length (threads st)) (spawn timestamp_add now st) in
  lock st' = None /\ db st' = db st ++ [(Client.INFO_KEY, encode d)] /\
  pool st' = pool st ++ [Client.Call_submit_ethereum_price (Client.price d)] /\ chain st' = chain st.
Proof.
  intros c Hserved Hlock Henc Hix Hans st'.
  destruct (first_call reply st now c Henc Hix Hlock answer) as (Hd0 & Hch1 & Hdb1 & Hpool1).
  set (i := List.length (threads st)) in *. set (pre := [_]) in Hd0.
  assert (Hrules : forall tr t, reach (worker_for timestamp_add c) tr t -> along lock_rules false tr).
  { intros tr t'. rewrite <-(on_index_value timestamp_add c Henc). apply (worker_rules now). }
  destruct (driven_to_end answer reply Hserved i now pre _ (conj eq_refl eq_refl) Hrules _ _ _ _ Hd0)
    as (tr & x & t' & Ht & Hd & Hend). rewrite app_nil_l in Hd.
  destruct (update_delivers answer _ _ _ d tr x Hans Ht (dr_cooperative _ _ _ _ _ _ _ _ _ Hd)) as (Hlen & Hsub & Hsto).
  assert (Hst' : st' = drive reply (List.length tr) i (drive reply 1 i (spawn timestamp_add now st))).
  { unfold st'. rewrite (drive_add reply i 1 17), <-(Hend (17 - List.length tr)%nat). f_equal. lia. }
  rewrite <-Hst' in Hd. destruct Hd as [_ _ Hl Hdb Hpool Hch Hco].
  rewrite (cooperative_takes _ _ _ Hco), Hsub, Hpool1 in Hpool. rewrite Hsto, Hdb1 in Hdb. rewrite Hch1 in Hch.
  assert (Hheld : held false tr = false).
  { apply (worker_frees now (Some (index_value c)) tr x). by rewrite (on_index_value timestamp_add c Henc). }
  by rewrite Hheld in Hl.
Qed.

(** C32: a request is served.  Take any reachable state in which the lock is free
    and a signed request with addresses that can be encoded.  If the ticker and
    the node answer and the host cooperates, then after at most 18 calls (the
    reading of a body counts as one) the worker of the request's block has ended and
    given back the lock, the price of the ticker is cached, exactly one transaction
    was added to the pool, and executing it puts exactly that price on chain after
    the event of the request.  All states on the way are reachable. *)
Theorem request_is_served `{!SerdeJsonLaws J} `{!CodecNonempty bytes} `{!FrameSystemLaws F}
    answer reply external expiry nodes st now origin who h f t d now' origin' :
  encodable (lit "submit_ethereum_price") ->
  well_served answer reply ->
  reachable timestamp_add external expiry nodes st -> lock st = None ->
  ensure_signed origin = Ok who -> encodable_call (Client.Call_update_ethereum_price h f t) ->
  answers_with answer (lit "0x" ++ from_utf8_or_error h) (lit "0x" ++ from_utf8_or_error f)
    (lit "0x" ++ from_utf8_or_error t) d ->
  ensure_none origin' = Ok tt ->
  let request := Runtime.Call_LightClient (Client.Call_update_ethereum_price h f t) in
  let submission := Client.Call_submit_ethereum_price (Client.price d) in
  let st1 := spawn timestamp_add now (execute now origin request st) in
  let st2 := drive reply 18 (List.length (threads st)) st1 in
  let st3 := execute now' origin' (Runtime.Call_LightClient submission) st2 in
  reachable timestamp_add external expiry nodes st2 /\ reachable timestamp_add external expiry nodes st3 /\
  lock st2 = None /\ index_get (db st2) Client.INFO_KEY = Some (encode d) /\
  pool st2 = pool st ++ [submission] /\
  Client.Events (Runtime.LightClient (chain st3)) =
    Client.Events (Runtime.LightClient (chain st)) ++
    [Client.UpdateEthereumPrice (Some who); Client.SubmitEthereumPrice None (Client.price d)].
Proof.
  intros Hname Hserved Hst Hlock Hwho Henc Hans Hnone request submission st1 st2 st3.
  set (c := Client.Call_update_ethereum_price h f t) in *.
  assert (He : event_of origin c = Some (Client.UpdateEthereumPrice (Some who))) by (simpl; by rewrite Hwho).
  destruct (execute_accepted now origin c _ st He) as [Hev Hdb].
  assert (Hix : index_get (db (execute now origin request st)) (Client.derived_key now) = Some (index_value c))
    by (unfold request; rewrite Hdb; apply index_get_last).
  assert (lock st2 = None /\ db st2 = db (execute now origin request st) ++ [(Client.INFO_KEY, encode d)] /\
    pool st2 = pool st ++ [submission] /\ chain st2 = chain (execute now origin request st))
    as (Hl2 & Hdb2 & Hpool2 & Hch2)
    by exact (worker_served answer reply (execute now origin request st) now h f t d Hserved Hlock Henc Hix Hans).
  assert (Hr2 : reachable timestamp_add external expiry nodes st2).
  { apply drive_reachable. eapply rtc_r; [|apply step_spawn]. eapply rtc_r; [exact Hst|]. apply step_call; [|exact Henc].
    destruct (ensure_none origin) as [u|] eqn:Hn; [|done]. by destruct (none_not_signed _ _ who Hn). }
  split; [exact Hr2|]. split.
  { eapply rtc_r; [exact Hr2|]. apply step_unsigned; [rewrite Hpool2; apply elem_of_app; right; left|].
    split; [exact Hname|]. apply Hans. }
  split; [done|]. split; [rewrite Hdb2; apply index_get_last|]. split; [done|].
  assert (He' : event_of origin' submission = Some (Client.SubmitEthereumPrice None (Client.price d)))
    by (simpl; by rewrite Hnone).
  destruct (execute_accepted now' origin' submission _ st2 He') as [Hev' _]. unfold st3. rewrite Hev', Hch2.
  unfold request. rewrite Hev. by rewrite <-app_assoc.
Qed.

End delivery.

(** ** Witness *)

Section witness.
Import Mock Compact MiniJson.
#[local] Instance block_codec_mock : Codec (BlockNumber (FrameSystem := mock_system)) := u32_codec.
#[local] Instance block_laws_mock : CodecLaws (BlockNumber (FrameSystem := mock_system)) := u32_codec_laws.
#[local] Existing Instance Client.LightClient_codec.

Abbreviation start := (spawn (F := mock_system) (FS := mock_storage) (J := mini) Z.add).
Abbreviation block_call := (execute (F := mock_system) (FS := mock_storage)).

(** The host of the worker's examples serves every call. *)
Lemma reply_serves : well_served ClientWorker.answer System.reply.
Proof.
  intros log o. destruct o; simpl; try done. intros q Hq. unfold System.reply. simpl. by rewrite Hq.
Qed.

Lemma ticker_answers :
  answers_with (J := mini) ClientWorker.answer host_url from_addr to_addr ticker.
Proof.
  assert (Hf : exists f, parse_f32 (Client.price ticker) = Some f /\ f32_as_u32 f = 1823)
    by (vm_compute; eexists; split; reflexivity).
  destruct Hf as (f & Hf & Hn).
  split; [intros t; vm_compute; reflexivity|]. split; [split; vm_compute; reflexivity|].
  exists f, the_data, (lit "0x5208"), gas_text, transaction_text.
  split; [exact Hf|]. split; [rewrite Hn; vm_compute; reflexivity|]. split; [vm_compute; reflexivity|].
  split; [intros t; vm_compute; reflexivity|]. split; [vm_compute; reflexivity|].
  intros t. vm_compute. reflexivity.
Qed.

Lemma request_is_served_witness :
  let st2 := drive System.reply 18 0 (start 7 (block_call 7 (Signed 1) System.request (init []))) in
  let st3 := block_call 8 None_ (Runtime.Call_LightClient System.submission) st2 in
  lock st2 = None /\ pool st2 = [System.submission] /\
  Client.Events (Runtime.LightClient (chain st3)) =
    [Client.UpdateEthereumPrice (F := mock_system) (Some 1); Client.SubmitEthereumPrice None (lit "1823.75")].
Proof.
  assert (Hname : encodable (lit "submit_ethereum_price")) by (vm_compute; reflexivity).
  assert (Henc : encodable_call (Client.Call_update_ethereum_price (lit "node") (lit "aa") (lit "bb")))
    by (repeat split; vm_compute; reflexivity).
  destruct (request_is_served (F := mock_system) (J := mini) Z.add ClientWorker.answer System.reply false false []
    (init []) (7 : BlockNumber (FrameSystem := mock_system)) (Signed 1 : Origin (FrameSystem := mock_system)) (1 : AccountId (FrameSystem := mock_system))
    (lit "node") (lit "aa") (lit "bb") ticker (8 : BlockNumber (FrameSystem := mock_system)) (None_ : Origin (FrameSystem := mock_system))
    Hname reply_serves (rtc_refl _ _) eq_refl eq_refl Henc ticker_answers eq_refl) as (_ & _ & Hl & _ & Hp & He).
  split; [exact Hl|]. split; [exact Hp|exact He].
Defined.

End witness.
End Delivery.
