(* ===== verification/Pallets.v ===== *)
(** * The pallets of the runtime (runtime/src/lib.rs, [construct_runtime!])

    The list the macro is given: the pallets in order, with the crate each is in
    and the parts of it the runtime uses. *)

From S2P Require Import Prelude Str.
From Stdlib Require Import Strings.String.
Import Str.

Module Pallets.

(** The parts of a pallet that [construct_runtime!] is told to use. *)
Variant Part := Module_ | Call_ | Config_ | Storage_ | Event_ | Inherent_ | ValidateUnsigned_.

#[export] Instance Part_eq_dec : EqDecision Part.
Proof. solve_decision. Defined.

Record Pallet : Type := { pallet_name : bytes; pallet_crate : bytes; parts : list Part }.

Definition pallets : list Pallet :=
  [{| pallet_name := lit "System"; pallet_crate := lit "frame_system";
      parts := [Module_; Call_; Config_; Storage_; Event_] |};
   {| pallet_name := lit "RandomnessCollectiveFlip"; pallet_crate := lit "pallet_randomness_collective_flip";
      parts := [Module_; Call_; Storage_] |};
   {| pallet_name := lit "Timestamp"; pallet_crate := lit "pallet_timestamp";
      parts := [Module_; Call_; Storage_; Inherent_] |};
   {| pallet_name := lit "Aura"; pallet_crate := lit "pallet_aura"; parts := [Module_; Config_] |};
   {| pallet_name := lit "Grandpa"; pallet_crate := lit "pallet_grandpa";
      parts := [Module_; Call_; Storage_; Config_; Event_] |};
   {| pallet_name := lit "Balances"; pallet_crate := lit "pallet_balances";
      parts := [Module_; Call_; Storage_; Config_; Event_] |};
   {| pallet_name := lit "TransactionPayment"; pallet_crate := lit "pallet_transaction_payment";
      parts := [Module_; Storage_] |};
   {| pallet_name := lit "Sudo"; pallet_crate := lit "pallet_sudo";
      parts := [Module_; Call_; Config_; Storage_; Event_] |};
   {| pallet_name := lit "TemplateModule"; pallet_crate := lit "pallet_template";
      parts := [Module_; Call_; Storage_; Event_] |};
   {| pallet_name := lit "LightClient"; pallet_crate := lit "client";
      parts := [Module_; Call_; Storage_; Event_; ValidateUnsigned_] |};
   {| pallet_name := lit "SupraAuthorization"; pallet_crate := lit "supra_authorization";
      parts := [Module_; Call_; Storage_; Event_; Config_] |}].

Definition has_part (x : Part) (p : Pallet) : bool := bool_decide (x ∈ parts p).

(** The pallets that have a part, by name. *)
Definition with_part (x : Part) : list bytes := map pallet_name (filter (fun p => has_part x p = true) pallets).

(** Of all pallets only the light client takes unsigned transactions, and the
    genesis has a field for six of them. *)
Lemma unsigned_pallets : with_part ValidateUnsigned_ = [lit "LightClient"].
Proof. vm_compute. reflexivity. Qed.
Lemma genesis_pallets : with_part Config_ =
  [lit "System"; lit "Aura"; lit "Grandpa"; lit "Balances"; lit "Sudo"; lit "SupraAuthorization"].
Proof. vm_compute. reflexivity. Qed.

End Pallets.
