(* ===== verification/Limits.v ===== *)
(** * Widths, weights and the capacity of a block (runtime/src/lib.rs)

    The integer types of the runtime and that its constants fit them, the
    limits it gives to [frame_system], and what they mean for the calls of the
    three pallets.  The constructors of the limits belong to [frame_system];
    they are parameters with the documented shares of the dispatch classes. *)

From S2P Require Import Prelude BTreeSet Frame Authorization AuthInvariants Template Str Num Scale Client Runtime.
Import Str Num.
Local Open Scope Z_scope.

Module Limits.

(** ** Widths *)

Variant UInt := u8 | u32 | u64 | u128.
Definition bits (t : UInt) : Z := match t with u8 => 8 | u32 => 32 | u64 => 64 | u128 => 128 end.
Definition fits (t : UInt) (z : Z) : bool := (0 <=? z) && (z <? 2 ^ bits t).

Definition BlockNumber : UInt := u32.
Definition AccountIndex : UInt := u32.
Definition Balance : UInt := u128.
Definition Index : UInt := u32.
Definition Moment : UInt := u64.
Definition Weight : UInt := u64.

(** Every constant with its declared type, the intermediate products of the
    computed ones included. *)
Definition constants : list (UInt * Z) :=
  [(u64, Runtime.MILLISECS_PER_BLOCK); (u64, Runtime.SLOT_DURATION);
   (BlockNumber, Runtime.MILLISECS_PER_BLOCK); (BlockNumber, 60_000); (BlockNumber, Runtime.MINUTES);
   (BlockNumber, Runtime.HOURS); (BlockNumber, Runtime.DAYS); (BlockNumber, Runtime.BlockHashCount);
   (u8, Runtime.SS58Prefix); (Moment, Runtime.MinimumPeriod); (u128, Runtime.ExistentialDeposit);
   (u32, Runtime.MaxLocks); (Balance, Runtime.TransactionByteFee);
   (u32, Runtime.MaxWellKnownNodes); (u32, Runtime.MaxPeerIdLength);
   (u32, Runtime.authoring_version Runtime.VERSION); (u32, Runtime.spec_version Runtime.VERSION);
   (u32, Runtime.impl_version Runtime.VERSION); (u32, Runtime.transaction_version Runtime.VERSION)].

Lemma constants_fit : Forall (fun c => fits c.1 c.2 = true) constants.
Proof. repeat constructor. Qed.

(** ** [frame_system::limits] *)

Class WeightLibrary : Type := {
  Perbill : Type;
  from_percent : Z -> Perbill;
  BlockWeights : Type;
  with_sensible_defaults : Z -> Perbill -> BlockWeights;
  max_total : BlockWeights -> Auth.DispatchClass -> Z;
  BlockLength : Type;
  max_with_normal_ratio : Z -> Perbill -> BlockLength;
  max_length : BlockLength -> Auth.DispatchClass -> Z;
  WEIGHT_PER_SECOND : Z;
  ExtrinsicBaseWeight : Z
}.

(** Normal extrinsics get the ratio of the maximum, operational ones all of it;
    a second is 10^12 units of weight and an empty extrinsic takes 125
    microseconds. *)
Class WeightLaws (W : WeightLibrary) : Prop := {
  weight_per_second : WEIGHT_PER_SECOND = 10 ^ 12;
  extrinsic_base_weight : ExtrinsicBaseWeight = 125 * 10 ^ 6;
  normal_weight w p : 0 <= p <= 100 ->
    max_total (with_sensible_defaults w (from_percent p)) Auth.Normal = w * p / 100;
  operational_weight w p : 0 <= p <= 100 ->
    max_total (with_sensible_defaults w (from_percent p)) Auth.Operational = w;
  normal_length m p : 0 <= p <= 100 ->
    max_length (max_with_normal_ratio m (from_percent p)) Auth.Normal = m * p / 100;
  operational_length m p : 0 <= p <= 100 ->
    max_length (max_with_normal_ratio m (from_percent p)) Auth.Operational = m
}.

Section limits.
Context `{W : WeightLibrary}.

Definition NORMAL_DISPATCH_RATIO : Perbill := from_percent 75.
Definition RuntimeBlockWeights : BlockWeights :=
  with_sensible_defaults (2 * WEIGHT_PER_SECOND) NORMAL_DISPATCH_RATIO.
Definition RuntimeBlockLength : BlockLength :=
  max_with_normal_ratio (5 * 1024 * 1024) NORMAL_DISPATCH_RATIO.

Lemma block_weight_limits `{!WeightLaws W} :
  max_total RuntimeBlockWeights Auth.Normal = 1_500_000_000_000 /\
  max_total RuntimeBlockWeights Auth.Operational = 2_000_000_000_000.
Proof.
  unfold RuntimeBlockWeights, NORMAL_DISPATCH_RATIO.
  rewrite normal_weight, operational_weight, weight_per_second by lia. done.
Qed.

Lemma block_length_limits `{!WeightLaws W} :
  max_length RuntimeBlockLength Auth.Normal = 3_932_160 /\
  max_length RuntimeBlockLength Auth.Operational = 5_242_880 /\ fits u32 (5 * 1024 * 1024) = true.
Proof.
  unfold RuntimeBlockLength, NORMAL_DISPATCH_RATIO. rewrite normal_length, operational_length by lia. done.
Qed.

Section calls.
Context `{F : FrameSystem} `{FS : FrameStorage}.
Context {block_codec : Codec (Frame.BlockNumber)} {bytes_codec : Codec bytes}.
Implicit Types (c : Runtime.Call) (cls : Auth.DispatchClass) (origin : Origin) (now : Frame.BlockNumber).
#[local] Existing Instance Runtime.authorization_config.

(** The weight and the class of a call; [Normal] is the default class. *)
Definition dispatch_info c : Z * Auth.DispatchClass :=
  match c with
  | Runtime.Call_TemplateModule c => (Poe.call_weight c, Auth.Normal)
  | Runtime.Call_LightClient c => (Client.call_weight c, Auth.Normal)
  | Runtime.Call_SupraAuthorization c => Auth.call_weight c
  end.

Definition extrinsic_weight c : Z := ExtrinsicBaseWeight + fst (dispatch_info c).

#[export] Instance DispatchClass_eq_dec : EqDecision Auth.DispatchClass.
Proof. solve_decision. Defined.

(** The calls of a class in a block, and the weight they take. *)
Definition of_class cls (calls : list Runtime.Call) : list Runtime.Call :=
  filter (fun c => snd (dispatch_info c) = cls) calls.
Definition class_weight cls calls : Z := foldr (fun c w => extrinsic_weight c + w) 0 (of_class cls calls).

(** No class exceeds its share of the block. *)
Definition within_limits (calls : list Runtime.Call) : Prop :=
  forall cls, class_weight cls calls <= max_total RuntimeBlockWeights cls.

Context `{WL : !WeightLaws W}.

Lemma extrinsic_weight_range c : 125_001_000 <= extrinsic_weight c <= 175_000_000.
Proof. unfold extrinsic_weight. rewrite extrinsic_base_weight. by destruct c as [[]|[]|[]]; simpl. Qed.

Lemma operational_extrinsic_weight c : snd (dispatch_info c) = Auth.Operational -> extrinsic_weight c = 175_000_000.
Proof. unfold extrinsic_weight. rewrite extrinsic_base_weight. by destruct c as [[]|[]|[]]; simpl. Qed.

Lemma sum_at_least (lo : Z) (calls : list Runtime.Call) :
  (forall c, c ∈ calls -> lo <= extrinsic_weight c) ->
  lo * Z.of_nat (List.length calls) <= foldr (fun c w => extrinsic_weight c + w) 0 calls.
Proof.
  induction calls as [|c calls IH]; intros Hlo; [simpl; lia|]. cbn [foldr List.length].
  pose proof (Hlo c ltac:(left)). specialize (IH ltac:(intros; apply Hlo; by right)). lia.
Qed.

Lemma of_class_length cls lo calls :
  (forall c, snd (dispatch_info c) = cls -> lo <= extrinsic_weight c) -> within_limits calls ->
  lo * Z.of_nat (List.length (of_class cls calls)) <= max_total RuntimeBlockWeights cls.
Proof.
  intros Hlo Hw. etransitivity; [|apply (Hw cls)]. apply sum_at_least.
  intros c [Hc _]%list_elem_of_filter. auto.
Qed.

(** What a block does to the claims of the proof-of-existence pallet. *)
Definition run_block now (calls : list (Origin * Runtime.Call)) (s : Runtime.Store) : Runtime.Store :=
  foldl (fun s oc => snd (Runtime.dispatch now oc.2 oc.1 s)) s calls.

Context `{L : !FrameStorageLaws FS}.
Definition claims (s : Runtime.Store) : gmap bytes (AccountId * Frame.BlockNumber) :=
  Poe.view (Runtime.TemplateModule s).

Lemma dispatch_claims now c origin s :
  (size (claims (snd (Runtime.dispatch now c origin s))) <=
   size (claims s) + (if decide (snd (dispatch_info c) = Auth.Normal) then 1 else 0))%nat.
Proof.
  unfold claims. destruct c as [c|c|c]; simpl.
  - pose proof (Poe.dispatch_outcome now c origin (Runtime.TemplateModule s)) as Hd.
    destruct (Poe.outcome _ _ _ _) as [[m e]|err] eqn:E; [|rewrite Hd; simpl; lia].
    destruct Hd as (t & -> & Hm & _). simpl. rewrite Hm. clear Hm. unfold Poe.outcome in E.
    repeat case_match; simplify_eq.
    + rewrite map_size_insert. case_match; simpl; lia.
    + rewrite map_size_delete. case_match; simpl; lia.
  - destruct (Client.dispatch _ _ _ _). simpl. lia.
  - destruct (Auth.dispatch _ _ _). simpl. lia.
Qed.

Lemma run_block_claims now calls s :
  (size (claims (run_block now calls s)) <=
   size (claims s) + List.length (of_class Auth.Normal (map snd calls)))%nat.
Proof.
  unfold run_block. revert s. induction calls as [|[o c] calls IH]; intros s; [simpl; lia|].
  cbn [foldl map fst snd]. etransitivity; [apply IH|]. pose proof (dispatch_claims now c o s).
  unfold of_class. rewrite filter_cons. repeat case_decide; simpl in *; lia.
Qed.

(** C39: the capacity of a block.  Any single call of the three pallets fits an
    empty block.  A block within its limits holds at most 11999 normal and
    11428 operational calls of these pallets, their weights do not overflow 64
    bits, and executing it adds at most 11999 claims to the storage. *)
Theorem block_capacity now (calls : list (Origin * Runtime.Call)) s :
  (forall c, within_limits [c]) /\
  (within_limits (map snd calls) ->
     Z.of_nat (List.length (of_class Auth.Normal (map snd calls))) <= 11_999 /\
     Z.of_nat (List.length (of_class Auth.Operational (map snd calls))) <= 11_428 /\
     fits Weight (class_weight Auth.Normal (map snd calls) + class_weight Auth.Operational (map snd calls)) = true /\
     Z.of_nat (size (claims (run_block now calls s))) <= Z.of_nat (size (claims s)) + 11_999).
Proof.
  destruct block_weight_limits as [Hn Ho]. split.
  - intros c cls. unfold class_weight, of_class. rewrite filter_cons, filter_nil.
    pose proof (extrinsic_weight_range c). destruct cls; rewrite ?Hn, ?Ho; case_decide; simpl; lia.
  - intros Hw.
    pose proof (of_class_length Auth.Normal 125_001_000 _ (fun c _ => proj1 (extrinsic_weight_range c)) Hw) as H1.
    pose proof (of_class_length Auth.Operational 175_000_000 _
      (fun c Hc => Z.eq_le_incl _ _ (eq_sym (operational_extrinsic_weight c Hc))) Hw) as H2.
    pose proof (run_block_claims now calls s) as Hcl. rewrite Hn in H1. rewrite Ho in H2.
    assert (Hpos : forall cls, 0 <= class_weight cls (map snd calls)).
    { intros cls. unfold class_weight. pose proof (sum_at_least 0 (of_class cls (map snd calls))) as H0.
      rewrite Z.mul_0_l in H0. apply H0. intros c _. pose proof (extrinsic_weight_range c). lia. }
    pose proof (Hpos Auth.Normal). pose proof (Hpos Auth.Operational).
    pose proof (Hw Auth.Normal) as Hwn. pose proof (Hw Auth.Operational) as Hwo. rewrite Hn in Hwn. rewrite Ho in Hwo.
    split_and!; try lia. unfold fits, Weight. simpl bits. apply andb_true_intro. lia.
Qed.

End calls.
End limits.

(** ** Witness *)

Section witness.
Import Mock Compact.
#[local] Instance block_codec_mock : Codec (Frame.BlockNumber (FrameSystem := mock_system)) := u32_codec.

(** The published values, with a percentage as its number. *)
#[local] Instance weights : WeightLibrary := {
  Perbill := Z; from_percent p := p;
  BlockWeights := Z * Z; with_sensible_defaults w p := (w * p / 100, w);
  max_total b cls := match cls with Auth.Normal => b.1 | Auth.Operational => b.2 end;
  BlockLength := Z * Z; max_with_normal_ratio m p := (m * p / 100, m);
  max_length b cls := match cls with Auth.Normal => b.1 | Auth.Operational => b.2 end;
  WEIGHT_PER_SECOND := 10 ^ 12; ExtrinsicBaseWeight := 125 * 10 ^ 6
}.
#[local] Instance weights_laws : WeightLaws weights.
Proof. by split. Qed.

Definition calls : list (Origin (FrameSystem := mock_system) * Runtime.Call) :=
  [(Signed 1 : Origin (FrameSystem := mock_system), Runtime.Call_TemplateModule (Poe.Call_create_claim [x01]))].

Lemma block_capacity_witness :
  within_limits (map snd calls) /\
  Z.of_nat (size (claims (run_block (F := mock_system) 5 calls (Runtime.genesis [])))) <=
  Z.of_nat (size (claims (Runtime.genesis (F := mock_system) []))) + 11_999.
Proof.
  destruct (block_capacity (F := mock_system) (5 : Frame.BlockNumber (FrameSystem := mock_system))
    calls (Runtime.genesis [])) as [H1 H2].
  pose proof (H1 (Runtime.Call_TemplateModule (Poe.Call_create_claim [x01]))) as Hw.
  split; [exact Hw|]. destruct (H2 Hw) as (_ & _ & _ & Hc). exact Hc.
Defined.

End witness.
End Limits.
