(* ===== verification/Fees.v ===== *)
(** * Fees (runtime/src/lib.rs)

    What a signed call of the three pallets costs.  The runtime configures
    [pallet_transaction_payment]; how the pallet puts a fee together is Substrate's,
    with its documented sum as a law: the base weight, the bytes and the weight of
    the call, each at its price, and the tip. *)

From S2P Require Import Prelude BTreeSet Frame Authorization AuthInvariants Template Str Num Scale Client Runtime Limits.
Import Str Num Limits.
Local Open Scope Z_scope.

Module Fees.

Class PaymentLibrary : Type := {
  IdentityFee : Z -> Z;
  (** [FeeMultiplierUpdate] in thousandths: the multiplier of the next block *)
  keep_multiplier : Z -> Z;
  initial_multiplier : Z;
  (** [compute_fee]: the configured prices, the multiplier, the length of the
      extrinsic, the weight of its call, and the tip *)
  compute_fee : (Z -> Z) -> Z -> Z -> Z -> Z -> Z -> Z
}.

(** Without saturation the fee is a sum; the update of [()] is the identity. *)
Class PaymentLaws (W : WeightLibrary) (P : PaymentLibrary) : Prop := {
  identity_fee w : IdentityFee w = w;
  multiplier_kept m : keep_multiplier m = m;
  multiplier_starts : initial_multiplier = 1_000;
  compute_fee_sum to_fee byte m len weight tip :
    let fee := to_fee ExtrinsicBaseWeight + byte * len + m * to_fee weight / 1_000 + tip in
    fits Balance fee = true -> 0 <= weight <= max_total RuntimeBlockWeights Auth.Operational ->
    compute_fee to_fee byte m len weight tip = fee
}.

Section fees.
Context `{W : WeightLibrary} `{P : PaymentLibrary} `{F : FrameSystem}.
Implicit Types (c : Runtime.Call) (n : nat) (len : Z).
#[local] Existing Instance Runtime.authorization_config.

(** The [Config] of the pallet. *)
Definition WeightToFee : Z -> Z := IdentityFee.
Definition FeeMultiplierUpdate : Z -> Z := keep_multiplier.

(** The multiplier at block [n]. *)
Definition multiplier n : Z := Nat.iter n FeeMultiplierUpdate initial_multiplier.
Definition fee n c len (tip : Z) : Z :=
  compute_fee WeightToFee Runtime.TransactionByteFee (multiplier n) len (fst (dispatch_info c)) tip.

Context `{WL : !WeightLaws W} `{PL : !PaymentLaws W P}.

Lemma multiplier_constant n : multiplier n = 1_000.
Proof.
  unfold multiplier. induction n as [|n IH]; simpl; [apply multiplier_starts|].
  unfold FeeMultiplierUpdate in *. by rewrite multiplier_kept.
Qed.

Lemma dispatch_weight_range c : 1_000 <= fst (dispatch_info c) <= 50_000_000.
Proof. by destruct c as [[]|[]|[]]. Qed.

(** The fee of a call is its weight with the base weight, its length and its
    tip, at every block. *)
Lemma fee_sum n c len tip :
  0 <= len <= max_length RuntimeBlockLength Auth.Operational -> fits u64 tip = true ->
  fee n c len tip = extrinsic_weight c + len + tip.
Proof.
  intros Hlen [Ht1%Z.leb_le Ht2%Z.ltb_lt]%andb_prop. unfold fee. rewrite multiplier_constant.
  destruct block_length_limits as (_ & Hl & _). destruct block_weight_limits as [_ Hw]. rewrite Hl in Hlen.
  pose proof (dispatch_weight_range c) as Hc. simpl bits in Ht2.
  assert (Hsum : WeightToFee ExtrinsicBaseWeight + Runtime.TransactionByteFee * len
                 + 1_000 * WeightToFee (fst (dispatch_info c)) / 1_000 + tip = extrinsic_weight c + len + tip).
  { unfold WeightToFee, extrinsic_weight, Runtime.TransactionByteFee. rewrite !identity_fee, (Z.mul_comm 1_000), Z.div_mul; lia. }
  rewrite compute_fee_sum; [exact Hsum| |rewrite Hw; lia]. rewrite Hsum.
  pose proof (extrinsic_weight_range c). unfold fits, Balance. simpl bits. apply andb_true_intro. lia.
Qed.

(** Prices.  Without a tip every call costs more than the existential deposit,
    so that an account that holds no more than it cannot call, and no call costs
    more than 180242880; the endowment of the development chains pays for at
    least 6396488474 calls. *)
Theorem fee_range n c len :
  0 <= len <= max_length RuntimeBlockLength Auth.Operational ->
  Runtime.ExistentialDeposit < fee n c len 0 <= 180_242_880 /\
  6_396_488_474 * fee n c len 0 <= 2 ^ 60.
Proof.
  intros Hlen. rewrite fee_sum by done. destruct block_length_limits as (_ & Hl & _). rewrite Hl in Hlen.
  pose proof (extrinsic_weight_range c). unfold Runtime.ExistentialDeposit. lia.
Qed.

End fees.

(** ** The published fee *)

Section example.
Import Mock.
#[local] Existing Instances Limits.weights Limits.weights_laws.

#[local] Instance payment : PaymentLibrary := {
  IdentityFee w := w; keep_multiplier m := m; initial_multiplier := 1_000;
  compute_fee to_fee byte m len weight tip :=
    to_fee ExtrinsicBaseWeight + byte * len + m * to_fee weight / 1_000 + tip
}.
#[local] Instance payment_laws : PaymentLaws Limits.weights payment.
Proof. by split. Qed.

(** A claim of 200 bytes, at any block. *)
Example fee_of_claim n :
  fee n (Runtime.Call_SupraAuthorization (F := mock_system) (Auth.Call_claim_node [x01])) 200 0 = 175_000_200.
Proof. rewrite fee_sum; done. Qed.

End example.
End Fees.
