(* ===== verification/TemplateMock.v ===== *)
(** * The mock runtime of the proof-of-existence pallet (pallets/template/src/mock.rs)

    The runtime the pallet's tests run in: its two pallets, its constants and
    the types it gives to [frame_system].  The tests of the repository call
    functions the pallet does not have; the examples here take the pallet
    through every branch of its two dispatchables in that runtime. *)

From S2P Require Import Prelude BTreeSet Frame Authorization Template Str Num Scale Client Runtime.
From S2P Require Import Pallets Limits.
From Stdlib Require Import Strings.String.
Import Str Pallets Mock.
Local Open Scope Z_scope.

Module TemplateMock.

(** [construct_runtime!] of [Test] *)
Definition Test_pallets : list Pallet :=
  [{| pallet_name := lit "System"; pallet_crate := lit "frame_system";
      parts := [Module_; Call_; Config_; Storage_; Event_] |};
   {| pallet_name := lit "TemplateModule"; pallet_crate := lit "pallet_template";
      parts := [Module_; Call_; Storage_; Event_] |}].

Definition BlockHashCount : Z := 250.
Definition SS58Prefix : Z := 42.

(** The integer types of [impl system::Config for Test]. *)
Record SystemConfig : Type := {
  cfg_Index : Limits.UInt;
  cfg_BlockNumber : Limits.UInt;
  cfg_AccountId : Limits.UInt;
  cfg_BlockHashCount : Z;
  cfg_SS58Prefix : Z
}.
Definition Test_config : SystemConfig := {|
  cfg_Index := Limits.u64;
  cfg_BlockNumber := Limits.u64;
  cfg_AccountId := Limits.u64;
  cfg_BlockHashCount := BlockHashCount;
  cfg_SS58Prefix := SS58Prefix
|}.

Lemma mock_constants_fit :
  Limits.fits (cfg_BlockNumber Test_config) (cfg_BlockHashCount Test_config) = true /\
  Limits.fits Limits.u8 (cfg_SS58Prefix Test_config) = true.
Proof. done. Qed.

(** The pallet is the same in both runtimes, with another number. *)
Lemma same_pallet :
  Test_pallets !! 1%nat = pallets !! 8%nat /\ Test_pallets !! 0%nat = pallets !! 0%nat.
Proof. done. Qed.

(** The genesis of [frame_system] leaves the storage of the pallet empty. *)
Definition new_test_ext : Poe.Store (F := mock_system) (FS := mock_storage) := Poe.absent_store.

(** ** Tests *)

(** The results of a list of calls, and the storage at the end. *)
Fixpoint execute_with (calls : list (Z * RawOrigin * Poe.Call)) (s : Poe.Store (F := mock_system) (FS := mock_storage)) :
    list (result unit (DispatchError Poe.Error)) * Poe.Store (F := mock_system) (FS := mock_storage) :=
  match calls with
  | [] => ([], s)
  | (now, o, c) :: calls' =>
      let (r, s1) := Poe.dispatch (F := mock_system) now c o s in
      let (rs, s2) := execute_with calls' s1 in (r :: rs, s2)
  end.

Definition proof : bytes := [x2a].
Definition noop (e : Poe.Error) : result unit (DispatchError Poe.Error) := Err (DispatchModule e).

(** A claim can be made once and revoked only by the account that made it. *)
Example claims_work :
  let r := execute_with
    [(1, Signed 1, Poe.Call_create_claim proof);
     (2, Signed 2, Poe.Call_create_claim proof);
     (2, Signed 2, Poe.Call_revoke_claim proof);
     (3, Signed 1, Poe.Call_revoke_claim proof);
     (3, Signed 1, Poe.Call_revoke_claim proof);
     (4, Signed 2, Poe.Call_create_claim proof)] new_test_ext in
  fst r = [Ok tt; noop Poe.ProofAlreadyClaimed; noop Poe.NotProofOwner; Ok tt; noop Poe.NoSuchProof; Ok tt] /\
  sm_get (Poe.Proofs (snd r)) proof = (2, 4) /\
  Poe.Events (snd r) = [Poe.ClaimCreated (F := mock_system) 1 proof; Poe.ClaimRevoked (F := mock_system) 1 proof;
                        Poe.ClaimCreated (F := mock_system) 2 proof].
Proof. vm_compute. repeat split. Qed.

(** Neither call works without a signature. *)
Example signature_needed :
  fst (execute_with [(1, Root, Poe.Call_create_claim proof); (1, None_, Poe.Call_revoke_claim proof)] new_test_ext) =
    [Err DispatchBadOrigin; Err DispatchBadOrigin].
Proof. vm_compute. reflexivity. Qed.

End TemplateMock.
