(* ===== verification/Extrinsic.v ===== *)
(** * Extrinsics and signatures (runtime/src/lib.rs)

    The runtime's extrinsics: a call, with the address, signature and extra data
    of its sender if it is signed.  A call is one of the three pallets, one of the
    sudo pallet or one of Substrate's other pallets.  Checking and applying
    extrinsics is Substrate's ([sp_runtime::generic] and [frame_executive]); the
    class [Library] has these functions and [LibraryLaws] what is documented of
    them: a signed extrinsic is checked against the payload of its own call and
    runs with the origin of the account its address denotes, an unsigned one runs
    only if the runtime validates it, the sudo pallet obeys its key, and the other
    pallets do not write what is not theirs.  The theorems say what follows for the
    storage of the three pallets: nothing changes hands without a signature of its
    owner or of the sudo key. *)

From S2P Require Import Prelude BTreeSet Frame Authorization AuthSpec AuthProofs AuthInvariants.
From S2P Require Import Template Str Num Scale Client ClientIndex Runtime.
Import Str Num AuthSpec AuthInvariants ClientIndex.
Local Open Scope Z_scope.

Module Extrinsic.
Section extrinsic.
Context `{F : FrameSystem} `{FS : FrameStorage}.
Context {block_codec : Codec BlockNumber} {bytes_codec : Codec bytes}.
Context {Era Public Signature Address SudoCall OtherCall : Type} (mortal : Z -> Z -> Era).
Implicit Types (origin : Origin) (now : BlockNumber) (who account : AccountId).
#[local] Abbreviation Extra := (Runtime.SignedExtra (Era := Era)).
#[local] Existing Instance Runtime.authorization_config.

(** The calls of all pallets of the runtime. *)
Inductive Call : Type :=
| Call_Own (c : Runtime.Call)
| Call_Sudo (c : SudoCall)
| Call_Substrate (c : OtherCall).

(** The storage of the three pallets and the key of the sudo pallet. *)
Record Chain : Type := { pallets : Runtime.Store; sudo_key : AccountId }.

Record UncheckedExtrinsic : Type := {
  signature : option (Address * Signature * Extra);
  function : Call
}.
Record CheckedExtrinsic : Type := {
  signed : option (AccountId * Extra);
  checked_function : Call
}.

Class Library : Type := {
  MultiAddress_Id : AccountId -> Address;
  lookup : Address -> option AccountId;
  into_account : Public -> AccountId;
  (** [SignedPayload::new] and its encoding *)
  payload : Call -> Extra -> option bytes;
  sign : bytes -> Public -> option Signature;
  verify : Signature -> bytes -> AccountId -> bool;
  signed_origin : AccountId -> Origin;
  none_origin : Origin;
  check : UncheckedExtrinsic -> option CheckedExtrinsic;
  apply : BlockNumber -> UncheckedExtrinsic -> Chain -> Chain
}.

(** What an extrinsic does that passed its check.  A call of the sudo pallet may
    do anything, if its sender is the key. *)
Definition runs `{Library} now (x : CheckedExtrinsic) (s s' : Chain) : Prop :=
  match checked_function x, signed x with
  | Call_Own c, Some (who, _) =>
      s' = {| pallets := snd (Runtime.dispatch now c (signed_origin who) (pallets s)); sudo_key := sudo_key s |}
  | Call_Own c, None =>
      is_ok (Runtime.validate_unsigned Client.InBlock c) = true /\
      s' = {| pallets := snd (Runtime.dispatch now c none_origin (pallets s)); sudo_key := sudo_key s |}
  | Call_Sudo _, Some (who, _) => who = sudo_key s \/ s' = s
  | _, _ => s' = s
  end.

(** A checked extrinsic keeps its call; the sender of a signed one is the account
    of its address, and the signature is one of the payload of that call. *)
Class LibraryLaws (Lib : Library) : Prop := {
  lookup_id account : lookup (MultiAddress_Id account) = Some account;
  verify_sign p public sig : sign p public = Some sig -> verify sig p (into_account public) = true;
  signed_origin_spec who : ensure_signed (signed_origin who) = Ok who;
  none_origin_spec : exists u, ensure_none none_origin = Ok u;
  check_unsigned c : check {| signature := None; function := c |} = Some {| signed := None; checked_function := c |};
  check_signed addr sig extra c x :
    check {| signature := Some (addr, sig, extra); function := c |} = Some x <->
    exists who p, lookup addr = Some who /\ payload c extra = Some p /\ verify sig p who = true /\
      x = {| signed := Some (who, extra); checked_function := c |};
  apply_runs now e s : apply now e s = s \/ exists x, check e = Some x /\ runs now x s (apply now e s)
}.

Context `{Lib : !Library} `{LL : !LibraryLaws Lib}.

(** ** Transactions the node signs itself *)

(** The transaction of [create_transaction] as an extrinsic. *)
Definition transaction (current : Z) (call : Runtime.Call) (public : Public) (index : Z) : option UncheckedExtrinsic :=
  '(call', sig) ←
    Runtime.create_transaction mortal (fun c => payload (Call_Own c)) sign MultiAddress_Id
      current call public (into_account public) index;
  Some {| signature := Some sig; function := Call_Own call' |}.

(** C8: what [create_transaction] builds passes the runtime's own check, as the
    same call of the account that signed it, with the nonce it was given, no tip,
    and mortal for 2400 blocks from the parent of the current block (block zero at
    the start); and it builds nothing only if the payload does not exist or the
    keystore does not sign it. *)
Theorem created_transaction_checks current call public index :
  match transaction current call public index with
  | Some e => exists extra,
      check e = Some {| signed := Some (into_account public, extra); checked_function := Call_Own call |} /\
      Runtime.extra_nonce extra = index /\ Runtime.extra_tip extra = 0 /\
      Runtime.extra_era extra = mortal 2400 (Z.max 0 (current - 1))
  | None =>
      forall p, payload (Call_Own call) {| Runtime.extra_era := mortal 2400 (Z.max 0 (current - 1));
                                Runtime.extra_nonce := index; Runtime.extra_tip := 0 |} = Some p ->
        sign p public = None
  end.
Proof.
  unfold transaction, Runtime.create_transaction. cbv zeta.
  destruct (payload (Call_Own call) _) as [p|] eqn:Hp; simpl; [|by intros].
  destruct (sign p public) as [sig|] eqn:Hs; simpl; [|by intros ? [= <-]].
  eexists. rewrite check_signed. split; [|].
  - exists (into_account public), p. split; [apply lookup_id|]. split; [exact Hp|].
    split; [by apply verify_sign|reflexivity].
  - done.
Qed.

(** ** Changes need signatures *)

(** The extrinsic carries a valid signature of [who] for its own call. *)
Definition signed_by_account (e : UncheckedExtrinsic) who : Prop :=
  exists addr sig extra p, signature e = Some (addr, sig, extra) /\ lookup addr = Some who /\
    payload (function e) extra = Some p /\ verify sig p who = true.

(** A call of the sudo pallet, signed with its key. *)
Definition by_sudo (e : UncheckedExtrinsic) (s : Chain) : Prop :=
  (exists c, function e = Call_Sudo c) /\ signed_by_account e (sudo_key s).

(** What any other extrinsic can do: nothing, a call of the account that signed
    it, or a price that was submitted without a signature. *)
Definition ordinary now (e : UncheckedExtrinsic) (s s' : Chain) : Prop :=
  sudo_key s' = sudo_key s /\
  (pallets s' = pallets s \/
   (exists c who, function e = Call_Own c /\ signed_by_account e who /\
      pallets s' = snd (Runtime.dispatch now c (signed_origin who) (pallets s))) \/
   (exists p, pallets s' =
      snd (Runtime.dispatch now (Runtime.Call_LightClient (Client.Call_submit_ethereum_price p)) none_origin (pallets s)))).

Lemma apply_cases now e s : by_sudo e s \/ ordinary now e s (apply now e s).
Proof.
  unfold ordinary. destruct (apply_runs now e s) as [-> | (x & Hx & Hr)]; [by auto|].
  destruct e as [[[[addr sig] extra]|] c].
  - apply check_signed in Hx as (who & p & Ha & Hp & Hv & ->).
    assert (Hsig : signed_by_account {| signature := Some (addr, sig, extra); function := c |} who)
      by by exists addr, sig, extra, p.
    destruct c as [c|c|c]; cbn [runs checked_function signed] in Hr.
    + right. rewrite Hr. split; [done|]. right. left. by exists c, who.
    + destruct Hr as [-> | ->]; [|by auto]. left. split; [by exists c|exact Hsig].
    + rewrite Hr. auto.
  - rewrite check_unsigned in Hx. apply (inj Some) in Hx as <-. cbn [runs checked_function signed] in Hr.
    right. destruct c as [c|c|c]; [|rewrite Hr; auto..]. destruct Hr as [Hval ->]. split; [done|].
    destruct c as [|[p|]|]; try done. right. right. by exists p.
Qed.

Context `{!FrameSystemLaws F} `{L : !FrameStorageLaws FS}.

Lemma signed_not_root who : is_ok (ensure_origin EnsureRoot (signed_origin who)) = false.
Proof.
  destruct (ensure_origin EnsureRoot (signed_origin who)) eqn:E; [|done].
  by destruct (root_not_signed _ _ who E (signed_origin_spec who)).
Qed.

(** A signed call of the authorization pallet is refused or one of the normal
    class. *)
Lemma signed_auth_cases c who s :
  AuthSpec.wf s ->
  snd (Auth.dispatch c (signed_origin who) s) = s \/
  required_origin c = None /\ step (view s) (signed_origin who) c (view (snd (Auth.dispatch c (signed_origin who) s))).
Proof.
  intros Hs. destruct (dispatch_cases c (signed_origin who) s Hs) as [Hst|?]; [|by left].
  destruct (required_origin c) as [eo|] eqn:Hc; [|by right].
  apply (step_operational _ _ _ _ eo) in Hst; [|done]. exfalso.
  assert (eo = EnsureRoot) as -> by (destruct c; simplify_eq/=; done).
  unfold permits in Hst. by rewrite signed_not_root in Hst.
Qed.

Definition auth_of (s : Chain) : AuthSpec.State := view (Runtime.SupraAuthorization (pallets s)).
Definition claims_of (s : Chain) : gmap bytes (AccountId * BlockNumber) := Poe.view (Runtime.TemplateModule (pallets s)).
Definition events_of (s : Chain) : list Client.Event := Client.Events (Runtime.LightClient (pallets s)).
Definition in_order (s : Chain) : Prop := AuthSpec.wf (Runtime.SupraAuthorization (pallets s)).

(** The effect of an extrinsic on the authorization pallet. *)
Lemma ordinary_auth now e s s' :
  in_order s -> ordinary now e s s' ->
  auth_of s' = auth_of s \/
  exists who c, signed_by_account e who /\ required_origin c = None /\
    step (auth_of s) (signed_origin who) c (auth_of s').
Proof.
  unfold auth_of. intros Hs [_ Hc].
  destruct Hc as [-> | [(c & who & _ & Hsig & ->)|(p & ->)]]; [by left| |].
  - rewrite Runtime.dispatch_authorization. destruct c as [c|c|c]; [by left..|].
    destruct (signed_auth_cases c who _ Hs) as [->|[Hc Hst]]; [by left|]. right. by exists who, c.
  - left. by rewrite Runtime.dispatch_authorization.
Qed.

(** ... on the claims ... *)
Lemma ordinary_claims now e s s' p who b :
  ordinary now e s s' -> claims_of s !! p = Some (who, b) -> claims_of s' !! p <> Some (who, b) ->
  function e = Call_Own (Runtime.Call_TemplateModule (Poe.Call_revoke_claim p)) /\ signed_by_account e who.
Proof.
  unfold claims_of. intros [_ Hc] Hp.
  destruct Hc as [-> | [(c & x & Hf & Hsig & ->)|(q & ->)]]; [done| |by rewrite Runtime.dispatch_template].
  rewrite Runtime.dispatch_template. destruct c as [c|c|c]; [|done..].
  pose proof (Poe.dispatch_outcome now c (signed_origin x) (Runtime.TemplateModule (pallets s))) as Hd.
  unfold Poe.outcome in Hd. rewrite signed_origin_spec in Hd. destruct c as [q|q].
  - destruct (Poe.view _ !! q) eqn:Hq; [rewrite Hd; simpl; congruence|].
    destruct Hd as (t & -> & Hv & _). simpl. rewrite Hv, lookup_insert. case_decide; [congruence|done].
  - destruct (Poe.view _ !! q) as [[owner b']|] eqn:Hq; [|rewrite Hd; simpl; congruence].
    case_bool_decide as Heq; [|rewrite Hd; simpl; congruence].
    destruct Hd as (t & -> & Hv & _). simpl. rewrite Hv, lookup_delete. case_decide; [|done].
    intros _. simplify_eq. done.
Qed.

(** ... and on the requests of the light client. *)
Lemma ordinary_requests now e s s' who :
  ordinary now e s s' -> events_of s' = events_of s ++ [Client.UpdateEthereumPrice (Some who)] ->
  signed_by_account e who.
Proof.
  assert (Hl : forall l : list Client.Event, l <> l ++ [Client.UpdateEthereumPrice (Some who)]).
  { intros l Hl. apply (f_equal List.length) in Hl. rewrite length_app in Hl. simpl in Hl. lia. }
  unfold events_of. intros [_ Hc].
  destruct Hc as [-> | [(c & x & _ & Hsig & ->)|(q & ->)]]; [by intros ?%Hl|..];
    rewrite Runtime.dispatch_light_client.
  - destruct c as [c|c|c]; [by intros ?%Hl| |by intros ?%Hl]. rewrite client_dispatch.
    destruct (event_of (signed_origin x) c) as [event|] eqn:He; [|by intros ?%Hl]. simpl. intros Heq%app_inv_head.
    simplify_eq. destruct c; simpl in He; [by destruct (ensure_none _)|]. rewrite signed_origin_spec in He.
    by simplify_eq.
  - rewrite client_dispatch. destruct none_origin_spec as [u Hu]. simpl. rewrite Hu. simpl.
    intros Heq%app_inv_head. simplify_eq.
Qed.

(** A chain of extrinsics, none of which is one of the sudo key [k]. *)
Definition run_extrinsics (es : list (BlockNumber * UncheckedExtrinsic)) (s : Chain) : Chain :=
  foldl (fun s ne => apply ne.1 ne.2 s) s es.
Definition without_sudo (k : AccountId) (es : list (BlockNumber * UncheckedExtrinsic)) : Prop :=
  Forall (fun ne => ~ ((exists c, function ne.2 = Call_Sudo c) /\ signed_by_account ne.2 k)) es.

Lemma ordinary_keeps now e s s' :
  in_order s -> ordinary now e s s' ->
  in_order s' /\ wkn (auth_of s') = wkn (auth_of s) /\ sudo_key s' = sudo_key s.
Proof.
  intros Hs Ho. pose proof (ordinary_auth now e s s' Hs Ho) as Ha. destruct Ho as [Hk Hc].
  split_and!; [| |done].
  - unfold in_order. destruct Hc as [-> | [(c & who & _ & _ & ->)|(p & ->)]]; [done|..];
      rewrite Runtime.dispatch_authorization; [|done]. destruct c as [c|c|c]; [done..|].
    destruct (AuthProofs.dispatch_implements c (signed_origin who) _ Hs) as [_ Himp].
    destruct (Auth.dispatch _ _ _) as [[]]; simpl in *; [by destruct Himp|by subst].
  - destruct Ha as [-> | (who & c & _ & Hc' & Hst)]; [done|].
    by destruct (step_normal_signed _ _ _ _ Hst Hc') as (_ & _ & ?).
Qed.

Lemma run_extrinsics_keeps es s :
  in_order s -> without_sudo (sudo_key s) es ->
  in_order (run_extrinsics es s) /\ wkn (auth_of (run_extrinsics es s)) = wkn (auth_of s) /\
  sudo_key (run_extrinsics es s) = sudo_key s.
Proof.
  unfold run_extrinsics. revert s. induction es as [|[now e] es IH]; intros s Hs Hno; [done|].
  apply Forall_cons in Hno as [He Hes]. cbn [foldl fst snd] in *.
  destruct (apply_cases now e s) as [?|Ho]; [done|].
  destruct (ordinary_keeps now e s _ Hs Ho) as (Hs' & Hw & Hk). rewrite <-Hw, <-Hk. apply IH; [done|].
  by rewrite Hk.
Qed.

(** The state of the chain at its genesis. *)
Definition genesis (nodes : list (Auth.PeerId * AccountId)) (k : AccountId) : Chain :=
  {| pallets := Runtime.genesis nodes; sudo_key := k |}.

(** C7: changes need signatures.  After any chain of extrinsics among which no
    call of the sudo pallet is signed with its key, the well known nodes and the
    key are those of the genesis; and the next extrinsic, unless it is such a call
    itself, can end the ownership of a node, change its connections, remove a
    claim or make a request for a price only with a signature that verifies, for
    exactly its own call, for the account concerned: the owner of the node, the
    account that made the claim, or the one the request is attributed to. *)
Theorem changes_need_signatures nodes k es now e :
  without_sudo k es ->
  let s := run_extrinsics es (genesis nodes k) in
  let s' := apply now e s in
  wkn (auth_of s) = list_to_set nodes.*1 /\ sudo_key s = k /\
  (by_sudo e s \/
   wkn (auth_of s') = wkn (auth_of s) /\
   (forall n owner, own (auth_of s) !! n = Some owner -> own (auth_of s') !! n <> Some owner ->
      signed_by_account e owner) /\
   (forall n, conn (auth_of s') !! n <> conn (auth_of s) !! n ->
      exists owner, own (auth_of s) !! n = Some owner /\ signed_by_account e owner) /\
   (forall p who b, claims_of s !! p = Some (who, b) -> claims_of s' !! p <> Some (who, b) ->
      function e = Call_Own (Runtime.Call_TemplateModule (Poe.Call_revoke_claim p)) /\ signed_by_account e who) /\
   (forall who, events_of s' = events_of s ++ [Client.UpdateEthereumPrice (Some who)] -> signed_by_account e who)).
Proof.
  intros Hes s s'. destruct (AuthProofs.genesis_view nodes) as [Hwf Hview].
  destruct (run_extrinsics_keeps es (genesis nodes k) Hwf Hes) as (Hs & Hw & Hk). fold s in Hs, Hw, Hk.
  split; [|split; [done|]].
  { rewrite Hw. change (auth_of (genesis nodes k)) with (view (Auth.genesis_build nodes)). by rewrite Hview. }
  destruct (apply_cases now e s) as [?|Ho]; [by left|]. right.
  pose proof (ordinary_auth now e s s' Hs Ho) as Ha. split; [by eapply ordinary_keeps|].
  split_and!; eauto using ordinary_claims, ordinary_requests.
  - intros n owner Hn Hn'. destruct Ha as [Heq|(who & c & Hsig & Hc & Hst)]; [by rewrite Heq in Hn'|].
    pose proof (step_ownership _ _ _ _ _ _ Hst Hc Hn Hn') as Hsg. unfold signed_by in Hsg.
    rewrite signed_origin_spec in Hsg. by simplify_eq.
  - intros n Hn. destruct Ha as [Heq|(who & c & Hsig & Hc & Hst)]; [by rewrite Heq in Hn|].
    destruct (step_connections _ _ _ _ _ Hst Hc Hn) as (owner & Hown & Hsg). exists owner. split; [done|].
    unfold signed_by in Hsg. rewrite signed_origin_spec in Hsg. by simplify_eq.
Qed.

End extrinsic.

(** ** A concrete library, and witnesses *)

Section witness.
Import Mock Compact.
#[local] Existing Instance Runtime.authorization_config.
#[local] Instance block_codec_mock : Codec (BlockNumber (FrameSystem := mock_system)) := u32_codec.
#[local] Instance account_codec_mock : Codec (AccountId (FrameSystem := mock_system)) := u32_codec.

Abbreviation OuterCall := (Call (F := mock_system) (SudoCall := Runtime.Call) (OtherCall := unit)).
Abbreviation Unchecked :=
  (UncheckedExtrinsic (F := mock_system) (Era := Z * Z) (Signature := Z * bytes) (Address := Z)
     (SudoCall := Runtime.Call) (OtherCall := unit)).
Abbreviation Checked :=
  (CheckedExtrinsic (F := mock_system) (Era := Z * Z) (SudoCall := Runtime.Call) (OtherCall := unit)).
Abbreviation MockChain := (Chain (F := mock_system) (FS := mock_storage)).
Definition account (n : Z) : AccountId (FrameSystem := mock_system) := n.

(** A key is its account; a signature names the key and what was signed, in which
    a call is told apart by its pallet.  The sudo pallet has the call [sudo], which
    runs a call as root. *)
Definition tag (c : Runtime.Call (F := mock_system)) : bytes :=
  match c with
  | Runtime.Call_TemplateModule _ => [x08]
  | Runtime.Call_LightClient _ => [x09]
  | Runtime.Call_SupraAuthorization _ => [x0a]
  end.
Definition demo_payload (c : OuterCall) (extra : Runtime.SignedExtra (Era := Z * Z)) : option bytes :=
  let body := match c with
              | Call_Own c => tag c
              | Call_Sudo c => x07 :: tag c
              | Call_Substrate _ => [x00]
              end in
  Some (body ++ le_bytes 4 (Runtime.extra_nonce extra)).
Definition demo_check (e : Unchecked) : option Checked :=
  match signature e with
  | None => Some {| signed := None; checked_function := function e |}
  | Some (addr, sig, extra) =>
      if bool_decide (Some sig = pair addr <$> demo_payload (function e) extra)
      then Some {| signed := Some (account addr, extra); checked_function := function e |}
      else None
  end.

Definition dispatch_as (now : BlockNumber (FrameSystem := mock_system)) (c : Runtime.Call)
    (o : RawOrigin) (s : MockChain) : MockChain :=
  {| pallets := snd (Runtime.dispatch (F := mock_system) now c o (pallets s)); sudo_key := sudo_key s |}.
Definition demo_apply (now : BlockNumber (FrameSystem := mock_system)) (e : Unchecked) (s : MockChain) : MockChain :=
  match demo_check e with
  | None => s
  | Some x =>
      match checked_function x, signed x with
      | Call_Own c, Some (who, _) => dispatch_as now c (Signed who) s
      | Call_Own c, None =>
          if is_ok (Runtime.validate_unsigned (F := mock_system) Client.InBlock c) then dispatch_as now c None_ s else s
      | Call_Sudo c, Some (who, _) => if bool_decide (who = sudo_key s) then dispatch_as now c Root s else s
      | _, _ => s
      end
  end.

#[local] Instance demo_library : Library (F := mock_system) (FS := mock_storage) (Era := Z * Z)
    (Public := Z) (Signature := Z * bytes) (Address := Z) (SudoCall := Runtime.Call) (OtherCall := unit) := {
  MultiAddress_Id account := account;
  lookup addr := Some addr;
  into_account public := public;
  payload := demo_payload;
  sign p public := Some (public, p);
  verify sig p who := bool_decide (sig = (who, p));
  signed_origin who := Signed who;
  none_origin := None_;
  check := demo_check;
  apply := demo_apply
}.

#[local] Instance demo_laws : LibraryLaws demo_library.
Proof.
  split; try done.
  - intros p public sig [= <-]. by apply bool_decide_true.
  - by exists tt.
  - intros addr sig extra c x. simpl. unfold demo_check. simpl. case_bool_decide as Hs; split.
    + intros [= <-]. eexists addr, _. split; [done|]. split; [done|]. split; [|done].
      apply bool_decide_true. by injection Hs.
    + intros (who & p & [= ->] & _ & _ & ->). done.
    + done.
    + intros (who & p & [= ->] & [= <-] & Hv%bool_decide_eq_true & _). destruct Hs. by rewrite Hv.
  - intros now e s. simpl. unfold demo_apply. destruct (demo_check e) as [x|] eqn:Hx; [|by left].
    unfold runs. destruct (checked_function x) as [c|c|c] eqn:Hf, (signed x) as [[who extra]|] eqn:Hsg; try (by left).
    + right. exists x. by rewrite Hf, Hsg.
    + destruct (is_ok _) eqn:Hok; [|by left]. right. exists x. by rewrite Hf, Hsg.
    + case_bool_decide; [|by left]. right. exists x. rewrite Hf, Hsg. by auto.
Qed.

(** Account 1, who owns the node of the genesis, gives it to account 2; the sudo
    key is account 9. *)
Definition give_away : Runtime.Call := Runtime.Call_SupraAuthorization (Auth.Call_transfer_node [x01] (account 2)).
Definition gift : option Unchecked := transaction (fun p c => (p, c)) 7 give_away 1 0.
Definition node_owner : list (Auth.PeerId * AccountId (FrameSystem := mock_system)) := [([x01], account 1)].

Lemma changes_need_signatures_witness :
  exists e, gift = Some e /\ signed_by_account e (account 1).
Proof.
  eexists. split; [reflexivity|].
  destruct (changes_need_signatures node_owner (account 9) [] (7 : BlockNumber (FrameSystem := mock_system))
    {| signature := Some (1, (1, default [] (demo_payload (Call_Own give_away)
         {| Runtime.extra_era := (2400, 6); Runtime.extra_nonce := 0; Runtime.extra_tip := 0 |})),
         {| Runtime.extra_era := (2400, 6); Runtime.extra_nonce := 0; Runtime.extra_tip := 0 |});
       function := Call_Own give_away |} (Forall_nil_2 _)) as (_ & _ & [[[c Hc] _]|(_ & Ho & _)]).
  - discriminate Hc.
  - apply (Ho [x01] (account 1)); [vm_compute; reflexivity|vm_compute; discriminate].
Defined.

Lemma created_transaction_checks_witness :
  exists e extra, gift = Some e /\
    check e = Some {| signed := Some (account 1, extra); checked_function := Call_Own give_away |}.
Proof.
  pose proof (created_transaction_checks (fun p c => (p, c)) 7 give_away 1 0) as H. fold gift in H.
  destruct gift as [e|] eqn:Hg; [|discriminate Hg]. destruct H as (extra & Hc & _). exists e, extra. by split.
Defined.

(** The sudo key can take the node out of the well known nodes. *)
Example sudo_removes :
  wkn (auth_of (apply (7 : BlockNumber (FrameSystem := mock_system))
    {| signature := Some (9, (9, default [] (demo_payload (Call_Sudo (Runtime.Call_SupraAuthorization
         (Auth.Call_remove_well_known_node [x01])))
         {| Runtime.extra_era := (2400, 6); Runtime.extra_nonce := 0; Runtime.extra_tip := 0 |})),
         {| Runtime.extra_era := (2400, 6); Runtime.extra_nonce := 0; Runtime.extra_tip := 0 |});
       function := Call_Sudo (Runtime.Call_SupraAuthorization (Auth.Call_remove_well_known_node [x01])) |}
    (genesis node_owner (account 9)))) = ∅.
Proof. vm_compute. reflexivity. Qed.

End witness.
End Extrinsic.
