(* ===== verification/RuntimeApi.v ===== *)
(** * The runtime interface (runtime/src/lib.rs, [impl_runtime_apis!])

    The entry points the node calls.  Most hand over to [frame_executive] and to
    pallets of Substrate, which are parameters: functions on a state [S] of the
    chain.  The time constants of the runtime and the benchmark dispatcher are
    its own. *)

From S2P Require Import Prelude BTreeSet Frame Authorization AuthSpec AuthProofs AuthInvariants.
From S2P Require Import Template Str Num Scale Client Runtime.
From Stdlib Require Import Strings.String.
Import Str Num.
Local Open Scope Z_scope.

Module RuntimeApi.

(** The entry points of [Executive], of the inherents and of the pallets. *)
Class Libraries (S Block Header Extrinsic : Type) : Type := {
  ApplyExtrinsicResult : Type;
  TransactionValidity : Type;
  InherentData : Type;
  CheckInherentsResult : Type;
  AuraId : Type;
  GrandpaAuthorityList : Type;
  GrandpaId : Type;
  EquivocationProof : Type;
  OpaqueKeyOwnershipProof : Type;
  Account : Type;
  DispatchInfo : Type;
  FeeDetails : Type;
  Executive_execute_block : Block -> S -> S;
  Executive_initialize_block : Header -> S -> S;
  Executive_apply_extrinsic : Extrinsic -> S -> ApplyExtrinsicResult * S;
  Executive_finalize_block : S -> Header * S;
  Executive_validate_transaction : Client.TransactionSource -> Extrinsic -> S -> TransactionValidity;
  Executive_offchain_worker : Header -> S -> S;
  Runtime_metadata : bytes;
  create_extrinsics : InherentData -> S -> list Extrinsic;
  check_extrinsics : InherentData -> Block -> S -> CheckInherentsResult;
  CollectiveFlip_random_seed : S -> bytes;
  Aura_slot_duration : Z -> Z;
  Aura_authorities : S -> list AuraId;
  Aura_generate_pair : option bytes -> S -> AuraId * S;
  Aura_to_raw_vec : AuraId -> bytes;
  Grandpa_generate_pair : option bytes -> S -> GrandpaId * S;
  Grandpa_to_raw_vec : GrandpaId -> bytes;
  Grandpa_grandpa_authorities : S -> GrandpaAuthorityList;
  System_account_nonce : Account -> S -> Z;
  TransactionPayment_query_info : Extrinsic -> Z -> S -> DispatchInfo;
  TransactionPayment_query_fee_details : Extrinsic -> Z -> S -> FeeDetails
}.

(** The Aura pallet doubles the minimum period of the timestamp pallet. *)
Class LibraryLaws {S Block Header Extrinsic} (L : Libraries S Block Header Extrinsic) : Prop :=
  slot_is_twice_the_period period : Aura_slot_duration period = 2 * period.

Section api.
Context {S Block Header Extrinsic : Type} `{L : Libraries S Block Header Extrinsic}.
Context {aura_codec : Codec AuraId} {grandpa_codec : Codec GrandpaId}.

(** [sp_version::NativeVersion]; the default of [can_author_with] is empty. *)
Record NativeVersion : Type := { runtime_version : Runtime.RuntimeVersion; can_author_with : list Z }.
Definition native_version : NativeVersion := {| runtime_version := Runtime.VERSION; can_author_with := [] |}.

Definition version : Runtime.RuntimeVersion := Runtime.VERSION.
Definition execute_block (block : Block) : S -> S := Executive_execute_block block.
Definition initialize_block (header : Header) : S -> S := Executive_initialize_block header.
Definition metadata : bytes := Runtime_metadata.
Definition apply_extrinsic (extrinsic : Extrinsic) : S -> ApplyExtrinsicResult * S :=
  Executive_apply_extrinsic extrinsic.
Definition finalize_block : S -> Header * S := Executive_finalize_block.
Definition inherent_extrinsics (data : InherentData) : S -> list Extrinsic := create_extrinsics data.
Definition check_inherents (block : Block) (data : InherentData) : S -> CheckInherentsResult :=
  check_extrinsics data block.
Definition random_seed : S -> bytes := CollectiveFlip_random_seed.
Definition validate_transaction (source : Client.TransactionSource) (tx : Extrinsic) : S -> TransactionValidity :=
  Executive_validate_transaction source tx.
Definition offchain_worker (header : Header) : S -> S := Executive_offchain_worker header.
(** [pallet_timestamp]'s [MinimumPeriod] is that of the runtime. *)
Definition slot_duration : Z := Aura_slot_duration Runtime.MinimumPeriod.
Definition authorities : S -> list AuraId := Aura_authorities.
(** [opaque::SessionKeys], with the functions [impl_opaque_keys!] gives it: a
    key pair per field in the keystore and the encoded public keys, and back
    to the raw keys with the key types of the fields. *)
Record SessionKeys : Type := { aura : AuraId; grandpa : GrandpaId }.
Definition AURA : bytes := lit "aura".
Definition GRANDPA : bytes := lit "gran".
Definition SessionKeys_generate (seed : option bytes) (s : S) : SessionKeys * S :=
  let (a, s1) := Aura_generate_pair seed s in
  let (g, s2) := Grandpa_generate_pair seed s1 in
  ({| aura := a; grandpa := g |}, s2).
Definition into_raw_public_keys (keys : SessionKeys) : list (bytes * bytes) :=
  [(Aura_to_raw_vec (aura keys), AURA); (Grandpa_to_raw_vec (grandpa keys), GRANDPA)].

Definition generate_session_keys (seed : option bytes) (s : S) : bytes * S :=
  let (keys, s') := SessionKeys_generate seed s in (encode (aura keys, grandpa keys), s').
Definition decode_session_keys (encoded : bytes) : option (list (bytes * bytes)) :=
  match decode encoded with
  | Some ((a, g), _) => Some (into_raw_public_keys {| aura := a; grandpa := g |})
  | None => None
  end.
Definition grandpa_authorities : S -> GrandpaAuthorityList := Grandpa_grandpa_authorities.
Definition submit_report_equivocation_unsigned_extrinsic
    (_ : EquivocationProof) (_ : OpaqueKeyOwnershipProof) : option unit := None.
Definition generate_key_ownership_proof (_ : Z) (_ : GrandpaId) : option OpaqueKeyOwnershipProof := None.
Definition account_nonce (account : Account) : S -> Z := System_account_nonce account.
Definition query_info (uxt : Extrinsic) (len : Z) : S -> DispatchInfo := TransactionPayment_query_info uxt len.
Definition query_fee_details (uxt : Extrinsic) (len : Z) : S -> FeeDetails :=
  TransactionPayment_query_fee_details uxt len.

(** A slot is a block: the period that is halved for the timestamp pallet is
    doubled again by Aura, and a minute is a whole number of slots. *)
Lemma slot_is_block_time `{!LibraryLaws L} :
  slot_duration = Runtime.MILLISECS_PER_BLOCK /\ Runtime.MINUTES * slot_duration = 60_000.
Proof. unfold slot_duration. rewrite slot_is_twice_the_period. done. Qed.

(** The session keys that were generated are the ones read back. *)
Lemma session_keys_roundtrip `{!CodecLaws AuraId, !CodecLaws GrandpaId} seed s keys s' :
  SessionKeys_generate seed s = (keys, s') -> encodable (aura keys) -> encodable (grandpa keys) ->
  generate_session_keys seed s = (encode (aura keys, grandpa keys), s') /\
  decode_session_keys (encode (aura keys, grandpa keys)) = Some (into_raw_public_keys keys).
Proof.
  intros Hg Ha Hb. unfold generate_session_keys, decode_session_keys. rewrite Hg. split; [done|].
  rewrite <-(app_nil_r (encode (aura keys, grandpa keys))), decode_encode by done. by destruct keys.
Qed.

End api.

(** ** Benchmarks *)

Section benchmarks.
(** [add_benchmark!] for a pallet: the batches so far with those it adds. *)
Context {Config Batch : Type}.
Context (add_benchmark : Config * list bytes -> list Batch -> bytes -> result (list Batch) bytes).

(** [hex_literal::hex!] *)
Fixpoint hex (digits : bytes) : bytes :=
  match digits with
  | a :: b :: rest => byte_of (16 * default 0 (hex_val a) + default 0 (hex_val b)) :: hex rest
  | _ => []
  end.

(** Block number, total issuance, execution phase, event count and events. *)
Definition whitelist : list bytes :=
  [hex (lit "26aa394eea5630e07c48ae0c9558cef702a5c1b19ab7a04f536c519aca4983ac");
   hex (lit "c2261276cc9d1f8598ea4b6a74b15c2f57c875e4cff74148e4628f264b974c80");
   hex (lit "26aa394eea5630e07c48ae0c9558cef7ff553b5a9862a516939d82b3d3d8661a");
   hex (lit "26aa394eea5630e07c48ae0c9558cef70a98fdbe9ce6c55837576c60c7af3850");
   hex (lit "26aa394eea5630e07c48ae0c9558cef780d41e5e16056765bc8461851072c9d7")].

Example whitelist_keys : map (fun k => List.length k) whitelist = [32; 32; 32; 32; 32]%nat.
Proof. vm_compute. reflexivity. Qed.

Definition rbind {A B E} (r : result A E) (k : A -> result B E) : result B E :=
  match r with Ok a => k a | Err e => Err e end.

Definition dispatch_benchmark (config : Config) : result (list Batch) bytes :=
  let params := (config, whitelist) in
  rbind (add_benchmark params [] (lit "frame_system")) (fun batches =>
  rbind (add_benchmark params batches (lit "pallet_balances")) (fun batches =>
  rbind (add_benchmark params batches (lit "pallet_timestamp")) (fun batches =>
  rbind (add_benchmark params batches (lit "pallet_template")) (fun batches =>
  match batches with
  | [] => Err (lit "Benchmark not found for this pallet.")
  | _ => Ok batches
  end)))).

(** A pallet appends its batches, which do not depend on the earlier ones. *)
Context (own : bytes -> Config -> result (list Batch) bytes).
Context (appends : forall config ws batches name,
  add_benchmark (config, ws) batches name = rbind (own name config) (fun new => Ok (batches ++ new))).

(** The dispatcher concatenates the batches of the four pallets; it is an error
    if one of them fails, the first one's, or if there are none. *)
Lemma dispatch_benchmark_spec config :
  dispatch_benchmark config =
    rbind (own (lit "frame_system") config) (fun b1 =>
    rbind (own (lit "pallet_balances") config) (fun b2 =>
    rbind (own (lit "pallet_timestamp") config) (fun b3 =>
    rbind (own (lit "pallet_template") config) (fun b4 =>
    if decide (b1 ++ b2 ++ b3 ++ b4 = []) then Err (lit "Benchmark not found for this pallet.")
    else Ok (b1 ++ b2 ++ b3 ++ b4))))).
Proof.
  unfold dispatch_benchmark. rewrite appends. destruct (own (lit "frame_system") config) as [b1|]; [|done]. cbn [rbind].
  rewrite appends. destruct (own (lit "pallet_balances") config) as [b2|]; [|done]. cbn [rbind].
  rewrite appends. destruct (own (lit "pallet_timestamp") config) as [b3|]; [|done]. cbn [rbind].
  rewrite appends. destruct (own (lit "pallet_template") config) as [b4|]; [|done]. cbn [rbind app].
  rewrite <-!app_assoc. by destruct (b1 ++ b2 ++ b3 ++ b4).
Qed.

End benchmarks.
End RuntimeApi.
