(* ===== verification/ChainSpec.v ===== *)
(** * Chain specifications (node/src/chain_spec.rs)

    The genesis configuration of the development chain and of the local test
    network.  Key derivation ([sp_core::Pair]), base 58 ([bs58]) and the
    embedded wasm are not part of the repository: they are parameters.  A
    panic ([expect], [unwrap], an index out of range) is [None]. *)

From S2P Require Import Prelude BTreeSet Frame Authorization AuthSpec AuthProofs AuthInvariants.
From S2P Require Import Template Str Scale Client Runtime.
From Stdlib Require Import Strings.String.
Import Str.
Local Open Scope Z_scope.

Module ChainSpec.

(** [TPublic::Pair]: a pair from a secret URI, and its public key. *)
Class PublicKey (TPublic : Type) : Type := {
  Pair : Type;
  from_string : bytes -> option Pair;
  public : Pair -> TPublic
}.

Variant ChainType := Development | Local.

Section chain_spec.
Context `{F : FrameSystem} {AuraId GrandpaId Sr25519Public : Type}.
Context `{PublicKey AuraId, PublicKey GrandpaId, PublicKey Sr25519Public}.
(** [AccountPublic::from(_).into_account()] and [bs58::decode(_).into_vec()] *)
Context (into_account : Sr25519Public -> AccountId) (bs58_decode : bytes -> option bytes).

Definition get_from_seed (TPublic : Type) `{PublicKey TPublic} (seed : bytes) : option TPublic :=
  public <$> from_string (lit "//" ++ seed).

Definition get_account_id_from_seed (seed : bytes) : option AccountId :=
  into_account <$> get_from_seed Sr25519Public seed.

Definition authority_keys_from_seed (s : bytes) : option (AuraId * GrandpaId) :=
  aura ← get_from_seed AuraId s;
  grandpa ← get_from_seed GrandpaId s;
  Some (aura, grandpa).

Record GenesisConfig : Type := {
  system_code : bytes;
  balances : list (AccountId * Z);
  aura_authorities : list AuraId;
  grandpa_authorities : list (GrandpaId * Z);
  sudo_key : AccountId;
  authorization_nodes : list (Auth.PeerId * AccountId)
}.

(** The well known nodes of every chain. *)
Definition NODE_1 : bytes := lit "12D3KooWBmAwcd4PJNJvfV89HwE48nwkRmAgo8Vy3uQEyNNHBox2".
Definition NODE_2 : bytes := lit "12D3KooWQYV9dGMFoRzNStwpXztXaBUjtPqi6aU76ZgUriHhKust".

Definition testnet_genesis (wasm_binary : bytes) (initial_authorities : list (AuraId * GrandpaId))
    (root_key : AccountId) (endowed_accounts : list AccountId) (enable_println : bool) :
    option GenesisConfig :=
  node1 ← bs58_decode NODE_1;
  owner1 ← endowed_accounts !! 0%nat;
  node2 ← bs58_decode NODE_2;
  owner2 ← endowed_accounts !! 1%nat;
  Some {|
    system_code := wasm_binary;
    balances := map (fun k => (k, Z.shiftl 1 60)) endowed_accounts;
    aura_authorities := map fst initial_authorities;
    grandpa_authorities := map (fun x => (snd x, 1)) initial_authorities;
    sudo_key := root_key;
    authorization_nodes := [(node1, owner1); (node2, owner2)]
  |}.

(** [GenericChainSpec] with its closure run; boot nodes, telemetry and the
    other optional parts are empty in both specifications. *)
Record ChainSpec : Type := {
  name : bytes;
  id : bytes;
  chain_type : ChainType;
  genesis : option GenesisConfig
}.

(** The closure of both configurations, for the seeds of its authorities and of
    its endowed accounts. *)
Definition genesis_of (wasm_binary : bytes) (authorities endowed : list bytes) : option GenesisConfig :=
  initial_authorities ← mapM authority_keys_from_seed authorities;
  root_key ← get_account_id_from_seed (lit "Alice");
  endowed_accounts ← mapM get_account_id_from_seed endowed;
  testnet_genesis wasm_binary initial_authorities root_key endowed_accounts true.

Definition dev_endowed : list bytes :=
  [lit "Alice"; lit "Bob"; lit "Alice//stash"; lit "Bob//stash"].

Definition local_endowed : list bytes :=
  [lit "Alice"; lit "Bob"; lit "Charlie"; lit "Dave"; lit "Eve"; lit "Ferdie";
   lit "Alice//stash"; lit "Bob//stash"; lit "Charlie//stash"; lit "Dave//stash";
   lit "Eve//stash"; lit "Ferdie//stash"].

Definition development_config (WASM_BINARY : option bytes) : result ChainSpec bytes :=
  match WASM_BINARY with
  | None => Err (lit "Development wasm not available")
  | Some wasm_binary => Ok {|
      name := lit "Development";
      id := lit "dev";
      chain_type := Development;
      genesis := genesis_of wasm_binary [lit "Alice"] dev_endowed
    |}
  end.

Definition local_testnet_config (WASM_BINARY : option bytes) : result ChainSpec bytes :=
  match WASM_BINARY with
  | None => Err (lit "Development wasm not available")
  | Some wasm_binary => Ok {|
      name := lit "Local Testnet";
      id := lit "local_testnet";
      chain_type := Local;
      genesis := genesis_of wasm_binary [lit "Alice"; lit "Bob"] local_endowed
    |}
  end.

(** ** Theorems *)

#[local] Existing Instance Runtime.authorization_config.
Context `{FS : FrameStorage} `{L : !FrameStorageLaws FS}.

(** What a good genesis of either chain has: the sudo key and the owners of the
    well known nodes are among the funded accounts, every funded account starts
    above the existential deposit, no more is issued than a [Balance] holds,
    the two consensus engines have the same number of authorities, and the
    authorization pallet starts from its invariant with exactly two nodes. *)
Record sound_genesis (wasm : bytes) (authorities : nat)
    (g : GenesisConfig) : Prop := {
  sg_code : system_code g = wasm;
  sg_sudo : exists amount, (sudo_key g, amount) ∈ balances g;
  sg_funded : Forall (fun b => Runtime.ExistentialDeposit <= snd b) (balances g);
  sg_issuance : foldr Z.add 0 (map snd (balances g)) < 2 ^ 128;
  sg_aura : List.length (aura_authorities g) = authorities;
  sg_grandpa : List.length (grandpa_authorities g) = authorities;
  sg_owners : Forall (fun n => exists amount, (snd n, amount) ∈ balances g) (authorization_nodes g);
  sg_nodes : AuthSpec.wkn (AuthSpec.view (Auth.genesis_build (authorization_nodes g))) =
             list_to_set (authorization_nodes g).*1;
  sg_count : List.length (authorization_nodes g) = 2%nat;
  sg_inv : AuthInvariants.inv (AuthSpec.view (Auth.genesis_build (authorization_nodes g)))
}.

(** The seeds whose keys [sp_core] derives: for an authority in both schemes of the
    consensus engines, for an account in that of the accounts. *)
Definition authority_seed (seed : bytes) : Prop :=
  is_Some (from_string (TPublic := AuraId) (lit "//" ++ seed)) /\
  is_Some (from_string (TPublic := GrandpaId) (lit "//" ++ seed)).
Definition account_seed (seed : bytes) : Prop :=
  is_Some (from_string (TPublic := Sr25519Public) (lit "//" ++ seed)).

(** Static values are valid: the keys of the literal seeds of this file can be
    derived and its two peer identifiers decode. *)
Record static_values : Prop := {
  sv_authorities : Forall authority_seed [lit "Alice"; lit "Bob"];
  sv_accounts : Forall account_seed local_endowed;
  sv_nodes : is_Some (bs58_decode NODE_1) /\ is_Some (bs58_decode NODE_2)
}.

Lemma account_derives seed : account_seed seed -> is_Some (get_account_id_from_seed seed).
Proof. unfold get_account_id_from_seed, get_from_seed. by rewrite !fmap_is_Some. Qed.

Lemma authority_derives seed : authority_seed seed -> is_Some (authority_keys_from_seed seed).
Proof. unfold authority_keys_from_seed, get_from_seed. intros [[p1 ->] [p2 ->]]. by eexists. Qed.

Lemma issuance_bound (accounts : list AccountId) :
  (List.length accounts <= 1000)%nat ->
  foldr Z.add 0 (map snd (map (fun k => (k, Z.shiftl 1 60)) accounts)) < 2 ^ 128.
Proof.
  intros Hlen. assert (foldr Z.add 0 (map snd (map (fun k => (k, Z.shiftl 1 60)) accounts)) =
    Z.of_nat (List.length accounts) * 2 ^ 60) as ->; [|lia].
  clear Hlen. induction accounts as [|a accounts IH]; [done|]. simpl. rewrite IH.
  change (Z.shiftl 1 60) with (2 ^ 60). lia.
Qed.

Lemma genesis_of_sound wasm authorities seed2 endowed :
  static_values -> Forall authority_seed authorities -> account_seed seed2 -> Forall account_seed endowed ->
  (List.length endowed <= 900)%nat ->
  exists g, genesis_of wasm authorities (lit "Alice" :: seed2 :: endowed) = Some g /\
    sound_genesis wasm (List.length authorities) g.
Proof.
  intros [_ Hstatic [[n1 Hn1] [n2 Hn2]]] Hauths Hseed2 Hendowed Hlen. unfold genesis_of.
  assert (is_Some (mapM authority_keys_from_seed authorities)) as [auths Ha].
  { apply mapM_is_Some. by eapply Forall_impl; [|apply authority_derives]. }
  assert (is_Some (mapM get_account_id_from_seed endowed)) as [accounts He].
  { apply mapM_is_Some. by eapply Forall_impl; [|apply account_derives]. }
  destruct (account_derives (lit "Alice")) as [alice Halice]; [by apply Forall_cons in Hstatic as [? _]|].
  destruct (account_derives seed2 Hseed2) as [bob Hbob].
  apply length_mapM in Ha as Hla. apply length_mapM in He as Hle.
  eexists. split.
  { rewrite Ha. cbn [mbind option_bind mapM]. rewrite Halice. cbn [mbind option_bind].
    rewrite Hbob. cbn [mbind option_bind]. rewrite He. cbn [mbind option_bind].
    unfold testnet_genesis. rewrite Hn1. cbn [mbind option_bind]. rewrite Hn2. reflexivity. }
  assert (Hin : forall k, k ∈ alice :: bob :: accounts ->
            (k, Z.shiftl 1 60) ∈ map (fun k => (k, Z.shiftl 1 60)) (alice :: bob :: accounts)).
  { intros k Hk. by apply (list_elem_of_fmap_2 (fun k => (k, Z.shiftl 1 60))). }
  split; cbn [system_code sudo_key balances aura_authorities grandpa_authorities authorization_nodes].
  - done.
  - eexists. apply Hin. left.
  - change (Forall (fun b : AccountId * Z => Runtime.ExistentialDeposit <= snd b)
              (map (fun k => (k, Z.shiftl 1 60)) (alice :: bob :: accounts))).
    by apply Forall_map, Forall_true.
  - apply (issuance_bound (alice :: bob :: accounts)). simpl. lia.
  - rewrite length_map. lia.
  - rewrite length_map. lia.
  - repeat constructor; eexists; apply Hin; [left|right; left].
  - match goal with |- AuthSpec.wkn (AuthSpec.view (Auth.genesis_build ?n)) = _ =>
      by destruct (AuthProofs.genesis_view n) as [_ ->] end.
  - done.
  - by apply AuthInvariants.genesis_inv.
Qed.

(** The two chains of the file. *)
Lemma dev_genesis_sound wasm :
  static_values -> exists g, genesis_of wasm [lit "Alice"] dev_endowed = Some g /\ sound_genesis wasm 1 g.
Proof.
  intros Hs. pose proof Hs as [[Ha _]%Forall_cons Hacc _]. repeat setoid_rewrite Forall_cons in Hacc.
  apply (genesis_of_sound wasm [lit "Alice"] (lit "Bob") (drop 2 dev_endowed) Hs); [by constructor|apply Hacc| |simpl; lia].
  repeat constructor; apply Hacc.
Qed.

Lemma local_genesis_sound wasm :
  static_values -> exists g, genesis_of wasm [lit "Alice"; lit "Bob"] local_endowed = Some g /\ sound_genesis wasm 2 g.
Proof.
  intros Hs. pose proof Hs as [Ha Hacc _].
  apply (genesis_of_sound wasm [lit "Alice"; lit "Bob"] (lit "Bob") (drop 2 local_endowed) Hs Ha); [| |simpl; lia].
  - by apply (Forall_lookup_1 _ local_endowed 1).
  - by apply Forall_drop.
Qed.

(** Both chain specifications yield a sound genesis when the wasm is
    available, and an error, not a panic, when it is not. *)
Theorem chains_start_sound wasm :
  static_values ->
  (exists spec g, development_config (Some wasm) = Ok spec /\ genesis spec = Some g /\ sound_genesis wasm 1 g) /\
  (exists spec g, local_testnet_config (Some wasm) = Ok spec /\ genesis spec = Some g /\ sound_genesis wasm 2 g) /\
  development_config None = Err (lit "Development wasm not available") /\
  local_testnet_config None = Err (lit "Development wasm not available").
Proof.
  intros Hstatic. split_and!; [| |done..].
  - destruct (dev_genesis_sound wasm Hstatic) as (g & Hg & Hs). eexists _, g. split; [reflexivity|]. by split.
  - destruct (local_genesis_sound wasm Hstatic) as (g & Hg & Hs). eexists _, g. split; [reflexivity|]. by split.
Qed.

End chain_spec.

(** ** Witness *)

Section witness.
Import Mock.

(** Keys are their own seeds; base 58 strings stand for themselves. *)
#[local] Instance demo_key : PublicKey bytes := {
  Pair := bytes; from_string uri := Some uri; public p := p
}.

Lemma chains_start_sound_witness :
  exists spec g,
    development_config (F := mock_system) (AuraId := bytes) (GrandpaId := bytes)
      (fun k : bytes => Z.of_nat (List.length k)) Some (Some [x00]) = Ok spec /\
    genesis spec = Some g /\ sound_genesis [x00] 1 g.
Proof.
  apply (chains_start_sound (F := mock_system) (AuraId := bytes) (GrandpaId := bytes)
           (Sr25519Public := bytes) (fun k : bytes => Z.of_nat (List.length k)) Some).
  split; [| |split; eexists; reflexivity]; repeat constructor; eexists; reflexivity.
Defined.

End witness.
End ChainSpec.
