(* ===== verification/Substrate.v ===== *)
(** * The services a node is assembled from

    The crate node/ configures and starts components of Substrate (sc_service,
    sc_cli, the Aura and Grandpa engines, the network), none of which is part of
    the repository.  Their handles are abstract types ([SubstrateTypes]); the
    parts the node itself builds and reads are records; the calls the node makes
    are the signature [Op] with the type [resp] of each response. *)

From S2P Require Import Prelude Effects.

Module Substrate.

(** Types of the libraries, and the accessors the node uses on them. *)
Class SubstrateTypes : Type := {
  Role : Type;
  Role_eq_dec :: EqDecision Role;
  Role_Light : Role;
  is_authority : Role -> bool;
  is_network_authority : Role -> bool;
  Hash : Type;
  display_hash : Hash -> bytes;
  SetConfig : Type;
  grandpa_peers_set_config : SetConfig;
  PoolOptions : Type;
  Registry : Type;
  DatabaseConfig : Type;
  ChainSpec : Type;
  Client : Type;
  Backend : Type;
  RemoteBlockchain : Type;
  remote_blockchain : Backend -> RemoteBlockchain;
  KeystoreContainer : Type;
  Keystore : Type;
  sync_keystore : KeystoreContainer -> Keystore;
  LocalKeystore : Type;
  set_remote_keystore : KeystoreContainer -> LocalKeystore -> KeystoreContainer;
  TaskManager : Type;
  GrandpaBlockImport : Type;
  GrandpaLink : Type;
  ImportQueue : Type;
  Pool : Type;
  Network : Type;
  NetworkStatusSinks : Type;
  SystemRpcTx : Type;
  NetworkStarter : Type;
  OnDemand : Type;
  TelemetryNotifier : Type;
  TelemetryStream : Type;
  on_connect_stream : TelemetryNotifier -> TelemetryStream;
  Task : Type;
  DenyUnsafe : Type;
  LibError : Type;
  InherentError : Type
}.

Section signature.
Context `{T : SubstrateTypes}.

(** The fields of [sc_service::Configuration] the node reads or writes. *)
Record NetworkConfiguration : Type := {
  node_name : bytes;
  extra_sets : list SetConfig;
  enable_dht_random_walk : bool
}.

Record Configuration : Type := {
  role : Role;
  keystore_remote : option bytes;
  force_authoring : bool;
  disable_grandpa : bool;
  offchain_worker_enabled : bool;
  transaction_pool : PoolOptions;
  prometheus_registry : option Registry;
  database : DatabaseConfig;
  chain_spec : ChainSpec;
  network : NetworkConfiguration
}.

Definition set_network (config : Configuration) (n : NetworkConfiguration) : Configuration := {|
  role := role config; keystore_remote := keystore_remote config;
  force_authoring := force_authoring config; disable_grandpa := disable_grandpa config;
  offchain_worker_enabled := offchain_worker_enabled config;
  transaction_pool := transaction_pool config; prometheus_registry := prometheus_registry config;
  database := database config; chain_spec := chain_spec config; network := n
|}.

(** [client.info()] *)
Record Info : Type := { finalized_number : Z; finalized_hash : Hash }.

(** [DataMap] of service.rs: a key and a value of the distributed hash table. *)
Record DataMap : Type := { dm_key : bytes; dm_value : bytes }.

(** [LongestChain::new(backend)] and [AuraBlockImport::new(import, client)] *)
Record LongestChain : Type := { lc_backend : Backend }.
Record AuraBlockImport : Type := { ab_inner : GrandpaBlockImport; ab_client : Client }.

(** [sp_consensus::CanAuthorWith] *)
Inductive CanAuthorWith : Type :=
| CanAuthorWithNativeVersion (client : Client)
| NeverCanAuthor.

Record ImportQueueParams : Type := {
  iq_slot_duration : Z;
  iq_block_import : AuraBlockImport;
  iq_justification_import : option GrandpaBlockImport;
  iq_client : Client;
  iq_providers : list DataMap;
  iq_registry : option Registry;
  iq_can_author_with : CanAuthorWith
}.

Record BuildNetworkParams : Type := {
  bn_config : Configuration;
  bn_client : Client;
  bn_pool : Pool;
  bn_import_queue : ImportQueue;
  bn_on_demand : option OnDemand
}.

(** The RPC handlers the node registers. *)
Inductive Delegate : Type :=
| SystemApi (client : Client) (pool : Pool) (deny_unsafe : DenyUnsafe)
| TransactionPaymentApi (client : Client).

Record SpawnTasksParams : Type := {
  st_network : Network;
  st_client : Client;
  st_keystore : Keystore;
  st_task_manager : TaskManager;
  st_pool : Pool;
  st_rpc_extensions_builder : DenyUnsafe -> list Delegate;
  st_on_demand : option OnDemand;
  st_remote_blockchain : option RemoteBlockchain;
  st_backend : Backend;
  st_network_status_sinks : NetworkStatusSinks;
  st_system_rpc_tx : SystemRpcTx;
  st_config : Configuration
}.

Record ProposerFactory : Type := {
  pf_client : Client;
  pf_pool : Pool;
  pf_registry : option Registry
}.

Record StartAuraParams : Type := {
  sa_slot_duration : Z;
  sa_client : Client;
  sa_select_chain : LongestChain;
  sa_block_import : AuraBlockImport;
  sa_proposer_factory : ProposerFactory;
  sa_network : Network;
  sa_providers : list DataMap;
  sa_force_authoring : bool;
  sa_backoff_authoring_blocks : option unit;
  sa_keystore : Keystore;
  sa_can_author_with : CanAuthorWith
}.

Record GrandpaConfig : Type := {
  gossip_duration : Z;
  justification_period : Z;
  gc_name : option bytes;
  observer_enabled : bool;
  gc_keystore : option Keystore;
  gc_is_authority : bool
}.

Record GrandpaParams : Type := {
  gp_config : GrandpaConfig;
  gp_link : GrandpaLink;
  gp_network : Network;
  gp_registry : option Registry;
  gp_telemetry_on_connect : option TelemetryStream
}.

(** [Subcommand] of cli.rs, without the options the libraries parse. *)
Inductive Subcommand : Type :=
| Key
| BuildSpec
| CheckBlock
| ExportBlocks
| ExportState
| ImportBlocks
| PurgeChain
| Revert
| Benchmark
| PeerID (public_key : bytes).

(** What the [run] method of a sub-command of sc_cli is given. *)
Inductive CommandArgs : Type :=
| WithNothing
| WithSpec (spec : ChainSpec) (network : NetworkConfiguration)
| WithQueue (client : Client) (import_queue : ImportQueue)
| WithDatabase (client : Client) (database : DatabaseConfig)
| WithChainSpec (client : Client) (spec : ChainSpec)
| WithBackend (client : Client) (backend : Backend)
| DatabaseOnly (database : DatabaseConfig)
| WithConfig (config : Configuration).

(** The calls of the node into the libraries. *)
Inductive Op : Type :=
| NewFullParts (config : Configuration)
| NewLightParts (config : Configuration)
| ClientInfo (client : Client)
| RegisterProvider (provider : DataMap)
| PoolNewFull (options : PoolOptions) (authority : bool) (registry : option Registry) (client : Client)
| PoolNewLight (options : PoolOptions) (registry : option Registry) (client : Client) (on_demand : OnDemand)
| NewGrandpaBlockImport (client : Client) (select_chain : LongestChain)
| SlotDuration (client : Client)
| NewImportQueue (params : ImportQueueParams)
| BuildNetwork (params : BuildNetworkParams)
| BuildOffchainWorkers (config : Configuration) (backend : Backend) (client : Client) (network : Network)
| PutValue (network : Network) (key value : bytes)
| GetValue (network : Network) (key : bytes)
| SpawnTasks (params : SpawnTasksParams)
| StartAura (params : StartAuraParams)
| RunGrandpaVoter (params : GrandpaParams)
| SpawnEssential (name : bytes) (task : Task)
| StartNetwork (starter : NetworkStarter)
| CreateRunner (sub : option Subcommand)
| RunCommand (sub : Subcommand) (args : CommandArgs) (task_manager : option TaskManager)
| RunUntilExit (task_manager : TaskManager)
| PrintLn (line : bytes).

Definition resp (o : Op) : Type :=
  match o with
  | NewFullParts _ => result (Client * Backend * KeystoreContainer * TaskManager) LibError
  | NewLightParts _ => result (Client * Backend * KeystoreContainer * TaskManager * OnDemand) LibError
  | ClientInfo _ => Info
  | RegisterProvider _ => result unit InherentError
  | PoolNewFull _ _ _ _ => Pool
  | PoolNewLight _ _ _ _ => Pool
  | NewGrandpaBlockImport _ _ => result (GrandpaBlockImport * GrandpaLink) LibError
  | SlotDuration _ => result Z LibError
  | NewImportQueue _ => result ImportQueue LibError
  | BuildNetwork _ => result (Network * NetworkStatusSinks * SystemRpcTx * NetworkStarter) LibError
  | BuildOffchainWorkers _ _ _ _ => unit
  | PutValue _ _ _ => unit
  | GetValue _ _ => unit
  | SpawnTasks _ => result (option TelemetryNotifier) LibError
  | StartAura _ => result Task LibError
  | RunGrandpaVoter _ => result Task LibError
  | SpawnEssential _ _ => unit
  | StartNetwork _ => unit
  | CreateRunner _ => result Configuration LibError
  | RunCommand _ _ _ => result unit LibError
  | RunUntilExit _ => result unit LibError
  | PrintLn _ => unit
  end.

(** [sc_service::Error]: an error of the node, of a library, or of the inherent
    data providers (through [sp_consensus::Error::InherentData]). *)
Inductive ServiceError : Type :=
| Other (message : bytes)
| Lib (e : LibError)
| InherentData (e : InherentError).

End signature.

Abbreviation node E := (Effects.W (resp (T := _)) E).
Abbreviation wcall o := (Effects.wcall (resp := resp) o).
Abbreviation obs o r := (Effects.obs (resp := resp) o r).
(** Every call of a trace satisfies [P]. *)
Abbreviation every P := (Forall (fun y : Effects.Obs resp => P (projT1 y))).

End Substrate.

(** ** A concrete node, for evaluation *)

Module NodeMock.
Import Substrate.

Variant role3 : Set := Full | Light | Authority.
#[export] Instance role3_eq_dec : EqDecision role3.
Proof. solve_decision. Defined.

#[export] Instance mock_types : SubstrateTypes := {
  Role := role3; Role_Light := Light;
  is_authority r := bool_decide (r = Authority);
  is_network_authority r := bool_decide (r = Authority);
  Hash := bytes; display_hash h := h;
  SetConfig := unit; grandpa_peers_set_config := tt;
  PoolOptions := unit; Registry := unit; DatabaseConfig := unit; ChainSpec := bytes;
  Client := unit; Backend := unit; RemoteBlockchain := unit; remote_blockchain b := b;
  KeystoreContainer := Z; Keystore := Z; sync_keystore k := k;
  LocalKeystore := Z; set_remote_keystore _ k := k;
  TaskManager := unit; GrandpaBlockImport := unit; GrandpaLink := unit; ImportQueue := unit;
  Pool := unit; Network := unit; NetworkStatusSinks := unit; SystemRpcTx := unit;
  NetworkStarter := unit; OnDemand := unit;
  TelemetryNotifier := unit; TelemetryStream := unit; on_connect_stream n := n;
  Task := unit; DenyUnsafe := bool; LibError := bytes; InherentError := unit
}.

(** A configuration with the given role, and an environment that finalises a
    block at each look at the client and never fails. *)
Definition mock_config (r : role3) (remote : option bytes) : Configuration := {|
  role := r; keystore_remote := remote; force_authoring := false; disable_grandpa := false;
  offchain_worker_enabled := true; transaction_pool := tt; prometheus_registry := None;
  database := tt; chain_spec := []; network := {| node_name := []; extra_sets := [];
                                                  enable_dht_random_walk := false |}
|}.

Definition mock_env (config : Configuration) : Effects.host resp Z := fun o n =>
  match o as o return resp o * Z with
  | NewFullParts _ => (Ok (tt, tt, 7%Z, tt), n)
  | NewLightParts _ => (Ok (tt, tt, 7%Z, tt, tt), n)
  | ClientInfo _ => ({| finalized_number := n; finalized_hash := [x61] |}, (n + 1)%Z)
  | RegisterProvider _ => (Ok tt, n)
  | PoolNewFull _ _ _ _ => (tt, n)
  | PoolNewLight _ _ _ _ => (tt, n)
  | NewGrandpaBlockImport _ _ => (Ok (tt, tt), n)
  | SlotDuration _ => (Ok 6000%Z, n)
  | NewImportQueue _ => (Ok tt, n)
  | BuildNetwork _ => (Ok (tt, tt, tt, tt), n)
  | BuildOffchainWorkers _ _ _ _ => (tt, n)
  | PutValue _ _ _ => (tt, n)
  | GetValue _ _ => (tt, n)
  | SpawnTasks _ => (Ok None, n)
  | StartAura _ => (Ok tt, n)
  | RunGrandpaVoter _ => (Ok tt, n)
  | SpawnEssential _ _ => (tt, n)
  | StartNetwork _ => (tt, n)
  | CreateRunner _ => (Ok config, n)
  | RunCommand _ _ _ => (Ok tt, n)
  | RunUntilExit _ => (Ok tt, n)
  | PrintLn _ => (tt, n)
  end.

End NodeMock.

(** Call a library, and return early with its error. *)
Notation "'try?' x := o 'in' k" :=
  (Effects.wbind (Effects.wcall (resp := Substrate.resp) o)
     (fun r => Effects.wbind (Effects.wresult Substrate.Lib r) (fun x => k)))
  (at level 10, x name, o at level 100, k at level 200) : supra_scope.
