(* ===== verification/Rpc.v ===== *)
(** * RPC extensions (node/src/rpc.rs)

    The handlers a full node adds to the RPC layer.  An [IoHandler] is the list
    of the delegates it was extended with. *)

From S2P Require Import Prelude Effects Substrate.
Import Substrate.

Module Rpc.
Section rpc.
Context `{T : SubstrateTypes}.

Record FullDeps : Type := {
  client : Client;
  pool : Pool;
  deny_unsafe : DenyUnsafe
}.

Definition IoHandler : Type := list Delegate.
Definition extend_with (d : Delegate) (io : IoHandler) : IoHandler := io ++ [d].

Definition create_full (deps : FullDeps) : IoHandler :=
  let io := [] in
  let io := extend_with (SystemApi (client deps) (pool deps) (deny_unsafe deps)) io in
  extend_with (TransactionPaymentApi (client deps)) io.

End rpc.
End Rpc.
