(* ===== verification/Service.v ===== *)
(** * The node service (node/src/service.rs)

    How a full and a light node are assembled and started, call by call, with
    the record the node publishes in the distributed hash table and the provider
    of inherent data built from it.  Handles are cloned freely in the source
    ([Arc]); logging is left out. *)

From S2P Require Import Prelude Str Num Effects Substrate Rpc.
From Stdlib Require Import Strings.String.
Import Str Num Effects Substrate.
Local Open Scope Z_scope.
Local Open Scope supra_scope.

Module Service.
Section service.
Context `{T : SubstrateTypes}.
Implicit Types config : Configuration.

(** ** The DHT record and its inherent data *)

Definition INHERENT_IDENTIFIER : bytes := lit "dhtdataM".

(** [DataMap::new]; a [Key] is the bytes it is made from. *)
Definition DataMap_new (key : bytes) : DataMap := {| dm_key := key; dm_value := [] |}.

(** [impl ProvideInherentData for DataMap].  [put_data] is [InherentData::put_data]
    with its SCALE encoding, [decode_error] and [into_string] those of
    [sp_inherents::Error]. *)
Definition on_register (self : DataMap) : result unit InherentError := Ok tt.
Definition inherent_identifier (self : DataMap) : bytes := INHERENT_IDENTIFIER.
Definition provide_inherent_data {D} (put_data : bytes -> bytes -> D -> result D InherentError)
    (self : DataMap) (inherent_data : D) : result D InherentError :=
  put_data INHERENT_IDENTIFIER (dm_value self) inherent_data.
Definition error_to_string (decode_error : bytes -> option InherentError)
    (into_string : InherentError -> bytes) (self : DataMap) (error : bytes) : option bytes :=
  into_string <$> decode_error error.

Definition build_inherent_data_providers (key : bytes) : W resp ServiceError (list DataMap) :=
  let provider := DataMap_new key in
  let? r := wcall (RegisterProvider provider) in
  run? wresult InherentData r in
  wret [provider].

(** ** The parts both services and the sub-commands share *)

Record PartialComponents : Type := {
  pc_client : Client;
  pc_backend : Backend;
  pc_task_manager : TaskManager;
  pc_import_queue : ImportQueue;
  pc_keystore_container : KeystoreContainer;
  pc_select_chain : LongestChain;
  pc_transaction_pool : Pool;
  pc_inherent_data_providers : list DataMap;
  pc_block_import : AuraBlockImport;
  pc_grandpa_link : GrandpaLink
}.

Definition REMOTE_KEYSTORES : bytes := lit "Remote Keystores are not supported.".

Definition new_partial config : W resp ServiceError PartialComponents :=
  run? (match keystore_remote config with
        | Some _ => wthrow (Other REMOTE_KEYSTORES)
        | None => wret tt
        end) in
  try? parts := NewFullParts config in
  let '(client, backend, keystore_container, task_manager) := parts in
  let? info := wcall (ClientInfo client) in
  let key := to_dec (finalized_number info) in
  let? inherent_data_providers := build_inherent_data_providers key in
  let select_chain := {| lc_backend := backend |} in
  let? transaction_pool :=
    wcall (PoolNewFull (transaction_pool config) (is_authority (role config))
             (prometheus_registry config) client) in
  try? grandpa := NewGrandpaBlockImport client select_chain in
  let (grandpa_block_import, grandpa_link) := grandpa in
  let aura_block_import := {| ab_inner := grandpa_block_import; ab_client := client |} in
  try? slot_duration := SlotDuration client in
  try? import_queue := NewImportQueue {|
    iq_slot_duration := slot_duration;
    iq_block_import := aura_block_import;
    iq_justification_import := Some grandpa_block_import;
    iq_client := client;
    iq_providers := inherent_data_providers;
    iq_registry := prometheus_registry config;
    iq_can_author_with := CanAuthorWithNativeVersion client
  |} in
  wret {|
    pc_client := client;
    pc_backend := backend;
    pc_task_manager := task_manager;
    pc_import_queue := import_queue;
    pc_keystore_container := keystore_container;
    pc_select_chain := select_chain;
    pc_transaction_pool := transaction_pool;
    pc_inherent_data_providers := inherent_data_providers;
    pc_block_import := aura_block_import;
    pc_grandpa_link := grandpa_link
  |}.

Definition remote_keystore (url : bytes) : result LocalKeystore bytes :=
  Err (lit "Remote Keystore not supported.").

(** [config.network.extra_sets.push(grandpa_peers_set_config())] *)
Definition push_grandpa_set config : Configuration :=
  let n := network config in
  set_network config {| node_name := node_name n;
                        extra_sets := extra_sets n ++ [grandpa_peers_set_config];
                        enable_dht_random_walk := enable_dht_random_walk n |}.

(** [config.network.enable_dht_random_walk = true] *)
Definition enable_random_walk config : Configuration :=
  let n := network config in
  set_network config {| node_name := node_name n; extra_sets := extra_sets n;
                        enable_dht_random_walk := true |}.

(** The record published at start-up; the hash and the number come from two
    calls of [client.info()]. *)
Definition dht_record (hash_info number_info : Info) : DataMap := {|
  dm_key := to_dec (finalized_number number_info);
  dm_value := display_hash (finalized_hash hash_info)
|}.

(** ** The full node *)

(** The authoring task of an authority. *)
Definition start_authoring config (pc : PartialComponents) (keystore_container : KeystoreContainer)
    (network : Network) : W resp ServiceError unit :=
  let client := pc_client pc in
  let proposer_factory := {| pf_client := client; pf_pool := pc_transaction_pool pc;
                             pf_registry := prometheus_registry config |} in
  try? slot_duration := SlotDuration client in
  try? aura := StartAura {|
    sa_slot_duration := slot_duration;
    sa_client := client;
    sa_select_chain := pc_select_chain pc;
    sa_block_import := pc_block_import pc;
    sa_proposer_factory := proposer_factory;
    sa_network := network;
    sa_providers := pc_inherent_data_providers pc;
    sa_force_authoring := force_authoring config;
    sa_backoff_authoring_blocks := None;
    sa_keystore := sync_keystore keystore_container;
    sa_can_author_with := CanAuthorWithNativeVersion client
  |} in
  wcall (SpawnEssential (lit "aura") aura).

Definition grandpa_config config (keystore_container : KeystoreContainer) : GrandpaConfig := {|
  gossip_duration := 333;
  justification_period := 512;
  gc_name := Some (node_name (network config));
  observer_enabled := false;
  gc_keystore := if is_authority (role config) then Some (sync_keystore keystore_container) else None;
  gc_is_authority := is_network_authority (role config)
|}.

(** The finality voter. *)
Definition start_grandpa config (pc : PartialComponents) (keystore_container : KeystoreContainer)
    (network : Network) (telemetry : option TelemetryNotifier) : W resp ServiceError unit :=
  try? voter := RunGrandpaVoter {|
    gp_config := grandpa_config config keystore_container;
    gp_link := pc_grandpa_link pc;
    gp_network := network;
    gp_registry := prometheus_registry config;
    gp_telemetry_on_connect := on_connect_stream <$> telemetry
  |} in
  wcall (SpawnEssential (lit "grandpa-voter") voter).

Definition new_full config : W resp ServiceError TaskManager :=
  let? pc := new_partial config in
  let? keystore_container :=
    match keystore_remote config with
    | Some url =>
        match remote_keystore url with
        | Ok k => wret (set_remote_keystore (pc_keystore_container pc) k)
        | Err e => wthrow (Other (lit "Error hooking up remote keystore for " ++ url ++ lit ": " ++ e))
        end
    | None => wret (pc_keystore_container pc)
    end in
  let config := push_grandpa_set config in
  let client := pc_client pc in
  try? built := BuildNetwork {|
    bn_config := config; bn_client := client; bn_pool := pc_transaction_pool pc;
    bn_import_queue := pc_import_queue pc; bn_on_demand := None
  |} in
  let '(network, network_status_sinks, system_rpc_tx, network_starter) := built in
  run? (if offchain_worker_enabled config
        then wcall (BuildOffchainWorkers config (pc_backend pc) client network)
        else wret tt) in
  let config := enable_random_walk config in
  let? hash_info := wcall (ClientInfo client) in
  let? number_info := wcall (ClientInfo client) in
  let data := dht_record hash_info number_info in
  run? wcall (PutValue network (dm_key data) (dm_value data)) in
  run? wcall (GetValue network (dm_key data)) in
  try? telemetry := SpawnTasks {|
    st_network := network;
    st_client := client;
    st_keystore := sync_keystore keystore_container;
    st_task_manager := pc_task_manager pc;
    st_pool := pc_transaction_pool pc;
    st_rpc_extensions_builder := fun deny_unsafe =>
      Rpc.create_full {| Rpc.client := client; Rpc.pool := pc_transaction_pool pc;
                         Rpc.deny_unsafe := deny_unsafe |};
    st_on_demand := None;
    st_remote_blockchain := None;
    st_backend := pc_backend pc;
    st_network_status_sinks := network_status_sinks;
    st_system_rpc_tx := system_rpc_tx;
    st_config := config
  |} in
  run? (if is_authority (role config) then start_authoring config pc keystore_container network else wret tt) in
  run? (if negb (disable_grandpa config)
        then start_grandpa config pc keystore_container network telemetry else wret tt) in
  run? wcall (StartNetwork network_starter) in
  wret (pc_task_manager pc).

(** ** The light node *)

Definition new_light config : W resp ServiceError TaskManager :=
  try? parts := NewLightParts config in
  let '(client, backend, keystore_container, task_manager, on_demand) := parts in
  let config := push_grandpa_set config in
  let select_chain := {| lc_backend := backend |} in
  let? pool := wcall (PoolNewLight (transaction_pool config) (prometheus_registry config) client on_demand) in
  try? grandpa := NewGrandpaBlockImport client select_chain in
  let grandpa_block_import := fst grandpa in
  let aura_block_import := {| ab_inner := grandpa_block_import; ab_client := client |} in
  try? slot_duration := SlotDuration client in
  try? import_queue := NewImportQueue {|
    iq_slot_duration := slot_duration;
    iq_block_import := aura_block_import;
    iq_justification_import := Some grandpa_block_import;
    iq_client := client;
    iq_providers := [];
    iq_registry := prometheus_registry config;
    iq_can_author_with := NeverCanAuthor
  |} in
  try? built := BuildNetwork {|
    bn_config := config; bn_client := client; bn_pool := pool;
    bn_import_queue := import_queue; bn_on_demand := Some on_demand
  |} in
  let '(network, network_status_sinks, system_rpc_tx, network_starter) := built in
  run? (if offchain_worker_enabled config
        then wcall (BuildOffchainWorkers config backend client network)
        else wret tt) in
  try? telemetry := SpawnTasks {|
    st_network := network;
    st_client := client;
    st_keystore := sync_keystore keystore_container;
    st_task_manager := task_manager;
    st_pool := pool;
    st_rpc_extensions_builder := fun _ => [];
    st_on_demand := Some on_demand;
    st_remote_blockchain := Some (remote_blockchain backend);
    st_backend := backend;
    st_network_status_sinks := network_status_sinks;
    st_system_rpc_tx := system_rpc_tx;
    st_config := config
  |} in
  run? wcall (StartNetwork network_starter) in
  wret task_manager.

End service.
End Service.
