(* ===== verification/ServiceTheorems.v ===== *)
(** * Properties of the node service

    What a node does on start-up, over every trace of [new_full], [new_light] and
    [new_partial], whatever the libraries answer. *)

From S2P Require Import Prelude Str Num Effects Substrate Rpc Service.
From Stdlib Require Import Strings.String.
Import Str Num Effects Substrate Service.
Local Open Scope Z_scope.
Local Open Scope supra_scope.

Module ServiceTheorems.
Section theorems.
Context `{T : SubstrateTypes}.
Implicit Types (config : Configuration) (tr : list (Obs resp)).

(** ** Observations *)

(** The essential tasks spawned, the networks started. *)
Definition essential tr : list bytes :=
  omap (fun y : Obs resp => match projT1 y with SpawnEssential name _ => Some name | _ => None end) tr.
Definition started tr : list NetworkStarter :=
  omap (fun y : Obs resp => match projT1 y with StartNetwork s => Some s | _ => None end) tr.

(** The tasks a full node is meant to run. *)
Definition start_plan config : list bytes :=
  (if is_authority (role config) then [lit "aura"] else []) ++
  (if disable_grandpa config then [] else [lit "grandpa-voter"]).

(** A service that started: the network was started once, as the last call. *)
Definition up tr : Prop := exists s, started tr = [s] /\ last tr = Some (obs (StartNetwork s) tt).

Lemma started_cons o (r : resp o) tr :
  started (obs o r :: tr) = match o with StartNetwork s => [s] | _ => [] end ++ started tr.
Proof. by destruct o. Qed.

Lemma up_cons o (r : resp o) tr :
  (forall s, o <> StartNetwork s) -> up tr -> up (obs o r :: tr).
Proof.
  intros Ho (s & Hs & Hl). exists s. rewrite started_cons, Hs. split; [by destruct o; try destruct (Ho starter)|].
  destruct tr; [done|]. by rewrite last_cons_cons.
Qed.

(** ** Traces of the shared parts *)

(** The calls that only prepare a service. *)
Definition prepares (o : Op) : Prop :=
  match o with
  | NewFullParts _ | ClientInfo _ | RegisterProvider _ | PoolNewFull _ _ _ _
  | NewGrandpaBlockImport _ _ | SlotDuration _ | NewImportQueue _ => True
  | _ => False
  end.

Abbreviation preparation := (every prepares).

Lemma essential_prep tr1 tr2 : preparation tr1 -> essential (tr1 ++ tr2) = essential tr2.
Proof. induction 1 as [|[o r] tr1 Ho _ IH]; [done|]. by destruct o. Qed.

Lemma started_prep tr1 tr2 : preparation tr1 -> started (tr1 ++ tr2) = started tr2.
Proof. induction 1 as [|[o r] tr1 Ho _ IH]; [done|]. by destruct o. Qed.

Lemma up_prep tr1 tr2 : preparation tr1 -> up tr2 -> up (tr1 ++ tr2).
Proof. induction 1 as [|[o r] tr1 Ho _ IH]; [done|]. intros Hup. apply up_cons; [by destruct o|auto]. Qed.

(** What [new_partial] hands over comes from one [new_full_parts]. *)
Definition parts_from config tr (pc : PartialComponents) : Prop :=
  obs (NewFullParts config)
    (Ok (pc_client pc, pc_backend pc, pc_keystore_container pc, pc_task_manager pc)) ∈ tr /\
  exists info, obs (ClientInfo (pc_client pc)) info ∈ tr /\
    pc_inherent_data_providers pc = [DataMap_new (to_dec (finalized_number info))].

Lemma new_partial_traces config tr x :
  traces (new_partial config) tr x ->
  match keystore_remote config with
  | Some _ => tr = [] /\ x = Some (Err (Other REMOTE_KEYSTORES))
  | None => preparation tr /\
      match x with
      | Some (Ok pc) => parts_from config tr pc
      | Some (Err _) => True
      | None => False
      end
  end.
Proof.
  unfold new_partial, build_inherent_data_providers. intros H. repeat exec H; [done|..];
    (split; [by repeat constructor|]); try done.
  split; [left|]. eexists. split; [right; left|done].
Qed.

(** The start-up of a full node after its shared parts. *)
Definition full_rest config (pc : PartialComponents) : W resp ServiceError TaskManager :=
  ltac:(let t := eval cbv beta delta [new_full] in (new_full config) in
        match t with Effects.wbind _ ?k => let b := eval cbv beta in (k pc) in exact b end).

Lemma new_full_traces config tr x :
  traces (new_full config) tr x ->
  match keystore_remote config with
  | Some _ => tr = [] /\ x = Some (Err (Other REMOTE_KEYSTORES))
  | None =>
      (preparation tr /\ exists e, x = Some (Err e)) \/
      exists tr1 tr2 pc, tr = tr1 ++ tr2 /\ preparation tr1 /\ parts_from config tr1 pc /\
        traces (full_rest config pc) tr2 x
  end.
Proof.
  intros H. change (new_full config) with (wbind (new_partial config) (full_rest config)) in H.
  apply (proj1 (traces_wbind _ _ _ _)) in H. destruct H as (tr1 & y & Hp & H).
  apply new_partial_traces in Hp. destruct (keystore_remote config).
  - destruct Hp as [-> ->]. by destruct H as [-> ->].
  - destruct Hp as [Hp Hy]. destruct y as [[pc|e]|]; [|destruct H as [-> ->]; eauto|done].
    destruct H as (tr2 & -> & H). right. by exists tr1, tr2, pc.
Qed.

(** The start-up follows the configuration it was given: its later updates only
    concern the network. *)
Ltac config_facts :=
  repeat match goal with
  | Hb : negb _ = true |- _ => apply negb_true_iff in Hb
  | Hb : negb _ = false |- _ => apply negb_false_iff in Hb
  | Hb : context [push_grandpa_set] |- _ =>
      lazymatch type of Hb with @eq bool _ _ => idtac end;
      progress cbn [role disable_grandpa offchain_worker_enabled enable_random_walk push_grandpa_set set_network] in Hb
  end.

Lemma full_rest_startup config pc tr x :
  keystore_remote config = None ->
  traces (full_rest config pc) tr x ->
  match x with
  | Some (Ok t) => t = pc_task_manager pc /\ essential tr = start_plan config /\ up tr
  | Some (Err _) => essential tr `prefix_of` start_plan config /\ started tr = []
  | None => False
  end.
Proof.
  intros Hk H. unfold full_rest, start_authoring, start_grandpa in H. rewrite Hk in H.
  repeat exec H; config_facts; unfold start_plan;
    repeat match goal with Hb : @eq bool _ _ |- _ => rewrite Hb; clear Hb end;
    repeat match goal with r : resp (StartNetwork _) |- _ => destruct r end;
    repeat split; eexists; first [split; reflexivity | reflexivity].
Qed.


(** ** What each call of a full node is given *)

(** The keystore of the container [new_full_parts] returned. *)
Definition own_keystore config tr (ks : Keystore) : Prop :=
  exists c b k t, obs (NewFullParts config) (Ok (c, b, k, t)) ∈ tr /\ ks = sync_keystore k.

Definition keys_ok config tr (o : Op) : Prop :=
  match o with
  | SpawnTasks p => own_keystore config tr (st_keystore p)
  | StartAura p => is_authority (role config) = true /\ own_keystore config tr (sa_keystore p)
  | RunGrandpaVoter p =>
      disable_grandpa config = false /\
      match gc_keystore (gp_config p) with
      | Some ks => is_authority (role config) = true /\ own_keystore config tr ks
      | None => is_authority (role config) = false
      end
  | _ => True
  end.

(** The network configuration the libraries see. *)
Definition network_ok config (o : Op) : Prop :=
  match o with
  | BuildNetwork p =>
      extra_sets (network (bn_config p)) = extra_sets (network config) ++ [grandpa_peers_set_config] /\
      enable_dht_random_walk (network (bn_config p)) = enable_dht_random_walk (network config)
  | BuildOffchainWorkers c _ _ _ =>
      offchain_worker_enabled config = true /\
      enable_dht_random_walk (network c) = enable_dht_random_walk (network config)
  | SpawnTasks p => enable_dht_random_walk (network (st_config p)) = true
  | _ => True
  end.

(** The record of the distributed hash table: its key and its value are read
    from the client one after the other. *)
Definition record_ok tr (o : Op) : Prop :=
  match o with
  | PutValue network key value =>
      exists c hash_info number_info tr1 tr2,
        tr = tr1 ++ obs (ClientInfo c) hash_info :: obs (ClientInfo c) number_info ::
               obs (PutValue network key value) tt :: obs (GetValue network key) tt :: tr2 /\
        key = to_dec (finalized_number number_info) /\
        (0 <= finalized_number number_info <= u32_max -> of_dec key = finalized_number number_info) /\
        value = display_hash (finalized_hash hash_info)
  | _ => True
  end.

(** The keys and values put in the hash table. *)
Definition published tr : list (bytes * bytes) :=
  omap (fun y : Obs resp => match projT1 y with PutValue _ k v => Some (k, v) | _ => None end) tr.

Lemma prep_every (P : Op -> Prop) tr : (forall o, prepares o -> P o) -> preparation tr -> every P tr.
Proof. intros HP Ht. apply (Forall_impl _ _ _ Ht). auto. Qed.

Lemma full_rest_keys config pc tr1 tr x :
  keystore_remote config = None -> parts_from config tr1 pc ->
  traces (full_rest config pc) tr x -> every (keys_ok config (tr1 ++ tr)) tr.
Proof.
  intros Hk [Hp _] H. assert (Hown : forall tr, own_keystore config (tr1 ++ tr) (sync_keystore (pc_keystore_container pc))).
  { intros tr'. repeat eexists. by apply elem_of_app; left. }
  unfold full_rest, start_authoring, start_grandpa in H. rewrite Hk in H.
  repeat exec H; config_facts; repeat (constructor; try done); cbn; try done;
    by destruct (is_authority (role config)).
Qed.

Lemma full_rest_network config pc tr x :
  keystore_remote config = None -> traces (full_rest config pc) tr x -> every (network_ok config) tr.
Proof.
  intros Hk H. unfold full_rest, start_authoring, start_grandpa in H. rewrite Hk in H.
  by repeat exec H; config_facts; repeat constructor.
Qed.

Lemma full_rest_record config pc tr1 tr x :
  keystore_remote config = None -> traces (full_rest config pc) tr x -> every (record_ok (tr1 ++ tr)) tr.
Proof.
  intros Hk H. unfold full_rest, start_authoring, start_grandpa in H. rewrite Hk in H.
  repeat exec H; repeat match goal with r : resp (PutValue _ _ _) |- _ => destruct r
    | r : resp (GetValue _ _) |- _ => destruct r end;
    repeat (constructor; try done);
    first [eexists _, _, _, (tr1 ++ [_]), _; split; [rewrite <-app_assoc; reflexivity|]
          |eexists _, _, _, (tr1 ++ [_; _]), _; split; [rewrite <-app_assoc; reflexivity|]];
    (split; [done|]); (split; [|done]); intros Hn; apply of_dec_to_dec; unfold u32_max in Hn; lia.
Qed.

Lemma published_prep tr1 tr2 : preparation tr1 -> published (tr1 ++ tr2) = published tr2.
Proof. induction 1 as [|[o r] tr1 Ho _ IH]; [done|]. by destruct o. Qed.

Lemma full_rest_published config pc tr x :
  keystore_remote config = None -> traces (full_rest config pc) tr x ->
  match x with Some (Ok _) => List.length (published tr) = 1%nat | _ => (List.length (published tr) <= 1)%nat end.
Proof.
  intros Hk H. unfold full_rest, start_authoring, start_grandpa in H. rewrite Hk in H.
  repeat exec H; cbn; lia.
Qed.

(** ** The full node *)

Lemma new_full_startup config tr x :
  traces (new_full config) tr x ->
  match x with
  | Some (Ok _) => essential tr = start_plan config /\ up tr
  | Some (Err _) => essential tr `prefix_of` start_plan config /\ started tr = []
  | None => False
  end.
Proof.
  intros H. apply new_full_traces in H. destruct (keystore_remote config) eqn:Hk.
  { destruct H as [-> ->]. split; [apply prefix_nil|done]. }
  destruct H as [[Hp [e ->]]|(tr1 & tr2 & pc & -> & Hp & _ & H)].
  { rewrite <-(app_nil_r tr), essential_prep, started_prep by done. split; [apply prefix_nil|done]. }
  apply full_rest_startup in H; [|done]. rewrite essential_prep, started_prep by done.
  destruct x as [[t|e]|]; [|done..]. destruct H as (_ & H & Hup). split; [done|]. by apply up_prep.
Qed.

(** A full node that starts has spawned exactly the essential tasks of its
    configuration, in order (Aura for an authority, the Grandpa voter unless it
    is disabled), and has then started the network, once; one that fails has not
    started the network and has spawned a prefix of those tasks; starting never
    panics. *)
Theorem full_node_startup config tr x :
  traces (new_full config) tr x ->
  match x with
  | Some (Ok _) => essential tr = start_plan config /\ up tr
  | Some (Err _) => essential tr `prefix_of` start_plan config /\ started tr = []
  | None => False
  end.
Proof. apply new_full_startup. Qed.

Lemma new_full_every (P : list (Obs resp) -> Op -> Prop) config tr x :
  (forall tr o, prepares o -> P tr o) ->
  (forall pc tr1 tr2, keystore_remote config = None -> parts_from config tr1 pc ->
     traces (full_rest config pc) tr2 x -> every (P (tr1 ++ tr2)) tr2) ->
  traces (new_full config) tr x -> every (P tr) tr.
Proof.
  intros Hprep Hrest H. apply new_full_traces in H. destruct (keystore_remote config) eqn:Hk.
  { destruct H as [-> _]. constructor. }
  destruct H as [[Hp _]|(tr1 & tr2 & pc & -> & Hp & Hparts & H)].
  { apply (prep_every (P tr)); auto. }
  apply Forall_app. split; [apply (prep_every (P (tr1 ++ tr2))); auto|by apply (Hrest pc)].
Qed.

(** C40: the keystore the node opened is the only one its tasks get; authoring
    runs on authorities only, and the Grandpa voter has a keystore exactly on an
    authority. *)
Theorem full_node_keys config tr x :
  traces (new_full config) tr x -> every (keys_ok config tr) tr.
Proof.
  apply (new_full_every (keys_ok config)); [by intros ? []|]. intros pc tr1 tr2. apply full_rest_keys.
Qed.

(** The network of a full node is built with the Grandpa peer set added and
    with the caller's setting of the DHT random walk (it is switched on only in
    the configuration handed to the tasks); off-chain workers run exactly when
    they are enabled. *)
Theorem full_node_network config tr x :
  traces (new_full config) tr x -> every (network_ok config) tr.
Proof.
  apply (new_full_every (fun _ => network_ok config)); [by intros ? []|].
  intros pc tr1 tr2 Hk _. by apply full_rest_network.
Qed.

(** C34: a full node that starts has published exactly one record, and one that
    fails at most one.  Its key is the decimal number of a finalised block, from
    which the number can be read back, and its value the printed hash of a
    finalised block, read by two consecutive looks at the client; the node asks
    for the same key right after. *)
Theorem full_node_record config tr x :
  traces (new_full config) tr x ->
  every (record_ok tr) tr /\
  match x with
  | Some (Ok _) => List.length (published tr) = 1%nat
  | _ => (List.length (published tr) <= 1)%nat
  end.
Proof.
  intros H. split.
  - revert H. apply (new_full_every record_ok); [by intros ? []|].
    intros pc tr1 tr2 Hk _. by apply full_rest_record.
  - apply new_full_traces in H. destruct (keystore_remote config) eqn:Hk.
    { destruct H as [-> ->]. cbn. lia. }
    destruct H as [[Hp [e ->]]|(tr1 & tr2 & pc & -> & Hp & _ & H)].
    { rewrite <-(app_nil_r tr), published_prep by done. cbn. lia. }
    rewrite published_prep by done. by apply full_rest_published in H.
Qed.

(** ** The light node *)

Definition light_ok config (o : Op) : Prop :=
  match o with
  | NewImportQueue p => iq_can_author_with p = NeverCanAuthor /\ iq_providers p = []
  | BuildNetwork p =>
      is_Some (bn_on_demand p) /\
      extra_sets (network (bn_config p)) = extra_sets (network config) ++ [grandpa_peers_set_config]
  | BuildOffchainWorkers _ _ _ _ => offchain_worker_enabled config = true
  | SpawnTasks p => forall deny_unsafe, st_rpc_extensions_builder p deny_unsafe = []
  | NewLightParts _ | PoolNewLight _ _ _ _ | NewGrandpaBlockImport _ _ | SlotDuration _
  | StartNetwork _ => True
  | _ => False
  end.

Lemma new_light_startup config tr x :
  traces (new_light config) tr x ->
  every (light_ok config) tr /\
  match x with
  | Some (Ok t) => up tr /\ exists c b k o, obs (NewLightParts config) (Ok (c, b, k, t, o)) ∈ tr
  | Some (Err _) => started tr = []
  | None => False
  end.
Proof.
  unfold new_light. intros H. repeat exec H; config_facts;
    repeat match goal with r : resp (StartNetwork _) |- _ => destruct r end;
    (split; [by repeat constructor|]); try done;
    (split; [by eexists; split; reflexivity|]); repeat eexists; left.
Qed.

(** C35: a light node never authors, votes, registers inherent data or writes to
    the hash table: it imports with [NeverCanAuthor], serves no extra RPC, and
    starts its network last and only on success, with the task manager of its
    parts. *)
Theorem light_node config tr x :
  traces (new_light config) tr x ->
  every (light_ok config) tr /\
  match x with
  | Some (Ok t) => up tr /\ exists c b k o, obs (NewLightParts config) (Ok (c, b, k, t, o)) ∈ tr
  | Some (Err _) => started tr = []
  | None => False
  end.
Proof. apply new_light_startup. Qed.

End theorems.

(** ** Witnesses *)

Section witnesses.
Import NodeMock.

Abbreviation outcome r := (run (mock_env (mock_config r None)) (new_full (mock_config r None)) 41 []).

(** An authority runs both tasks. *)
Lemma full_node_startup_witness :
  essential (snd (outcome Authority)) = [lit "aura"; lit "grandpa-voter"] /\ up (snd (outcome Authority)).
Proof.
  apply (full_node_startup (mock_config Authority None) (snd (outcome Authority)) (Some (Ok tt))).
  exact (run_traces (mock_env (mock_config Authority None)) (new_full (mock_config Authority None)) 41).
Defined.

Lemma full_node_keys_witness :
  Forall (fun y => keys_ok (mock_config Full None) (snd (outcome Full)) (projT1 y)) (snd (outcome Full)).
Proof.
  apply (full_node_keys (mock_config Full None) (snd (outcome Full)) (Some (Ok tt))).
  exact (run_traces (mock_env (mock_config Full None)) (new_full (mock_config Full None)) 41).
Defined.

Lemma full_node_network_witness :
  Forall (fun y => network_ok (mock_config Full None) (projT1 y)) (snd (outcome Full)).
Proof.
  apply (full_node_network (mock_config Full None) (snd (outcome Full)) (Some (Ok tt))).
  exact (run_traces (mock_env (mock_config Full None)) (new_full (mock_config Full None)) 41).
Defined.

(** A block was finalised between the two looks: the key is that of the later
    one. *)
Lemma full_node_record_witness :
  published (snd (outcome Full)) = [(lit "43", [x61])] /\ List.length (published (snd (outcome Full))) = 1%nat.
Proof.
  split; [reflexivity|].
  apply (full_node_record (mock_config Full None) (snd (outcome Full)) (Some (Ok tt))).
  exact (run_traces (mock_env (mock_config Full None)) (new_full (mock_config Full None)) 41).
Defined.

Lemma light_node_witness :
  up (snd (run (mock_env (mock_config Light None)) (new_light (mock_config Light None)) 41 [])).
Proof.
  apply (light_node (mock_config Light None) _ (Some (Ok tt))).
  exact (run_traces (mock_env (mock_config Light None)) (new_light (mock_config Light None)) 41).
Defined.

End witnesses.
End ServiceTheorems.
