(* ===== verification/PeerId.v ===== *)
(** * Supra sub-commands (node/src/supra_subcommands.rs)

    The command that prints the peer identifier of a node key.  The crates [hex],
    [bs58] and [libp2p_core] are parameters: the operations the command uses and,
    as laws, what they document about them. *)

From S2P Require Import Prelude Str Num Effects Substrate.
From Stdlib Require Import Strings.String.
Import Str Num Effects Substrate.
Local Open Scope Z_scope.
Local Open Scope supra_scope.

Module PeerId.

Class KeyTypes : Type := {
  hex_decode : bytes -> option bytes;
  hex_encode : bytes -> bytes;
  bs58_decode : bytes -> option bytes;
  SecretKey : Type;
  secret_from_bytes : bytes -> option SecretKey;
  secret_as_ref : SecretKey -> bytes;
  Keypair : Type;
  keypair_from : SecretKey -> Keypair;
  keypair_secret : Keypair -> SecretKey;
  PublicKey : Type;
  keypair_public : Keypair -> PublicKey;
  PeerId : Type;
  into_peer_id : PublicKey -> PeerId;
  to_bytes : PeerId -> bytes;
  to_base58 : PeerId -> bytes;
  to_string : PeerId -> bytes
}.

(** Encodings are inverted by their decoders; a key pair keeps its secret; a
    peer identifier is displayed in base 58. *)
Class KeyLaws (K : KeyTypes) : Prop := {
  hex_round b : hex_decode (hex_encode b) = Some b;
  base58_round p : bs58_decode (to_base58 p) = Some (to_bytes p);
  secret_kept s : keypair_secret (keypair_from s) = s;
  secret_bytes b s : secret_from_bytes b = Some s -> secret_as_ref s = b;
  display_base58 p : to_string p = to_base58 p
}.

(** [format!("{:?}", v)] of a vector of bytes. *)
Definition debug_bytes (v : bytes) : bytes :=
  lit "[" ++
  match v with
  | [] => []
  | b :: v' => foldl (fun out b => out ++ lit ", " ++ to_dec (byte_val b)) (to_dec (byte_val b)) v'
  end ++ lit "]".

Section command.
Context `{T : SubstrateTypes} `{K : KeyTypes}.

Record DecodePublicKeyCmd : Type := { public_key : bytes }.

Definition get_peerid {E} (self : DecodePublicKeyCmd) : W resp E unit :=
  let? key := wunwrap (hex_decode (public_key self)) in
  let? secret := wunwrap (secret_from_bytes key) in
  let keypair := keypair_from secret in
  let node_key := hex_encode (secret_as_ref (keypair_secret keypair)) in
  let peer_id := into_peer_id (keypair_public keypair) in
  let? vec_of_peer := wunwrap (bs58_decode (to_base58 peer_id)) in
  run? wcall (PrintLn (lit "Node Key: " ++ node_key)) in
  run? wcall (PrintLn (lit "PeerId: " ++ to_string peer_id)) in
  run? wcall (PrintLn (lit "PeerId Hex: " ++ hex_encode vec_of_peer)) in
  run? wcall (PrintLn (lit "PeerId Vector: " ++ debug_bytes vec_of_peer)) in
  wret tt.

(** ** Theorems *)

Definition printed (tr : list (Obs resp)) : list bytes :=
  omap (fun y : Obs resp => match projT1 y with PrintLn l => Some l | _ => None end) tr.

Context `{L : !KeyLaws K}.

Lemma get_peerid_traces {E} cmd tr (x : option (result unit E)) :
  traces (get_peerid cmd) tr x <->
  match hex_decode (public_key cmd) ≫= secret_from_bytes with
  | None => tr = [] /\ x = None
  | Some secret =>
      let peer_id := into_peer_id (keypair_public (keypair_from secret)) in
      tr = [obs (PrintLn (lit "Node Key: " ++ hex_encode (secret_as_ref secret))) tt;
            obs (PrintLn (lit "PeerId: " ++ to_base58 peer_id)) tt;
            obs (PrintLn (lit "PeerId Hex: " ++ hex_encode (to_bytes peer_id))) tt;
            obs (PrintLn (lit "PeerId Vector: " ++ debug_bytes (to_bytes peer_id))) tt] /\
      x = Some (Ok tt)
  end.
Proof.
  unfold get_peerid. rewrite traces_bind_unwrap. destruct (hex_decode _) as [key|]; [|done]. cbn [mbind option_bind].
  rewrite traces_bind_unwrap. destruct (secret_from_bytes key) as [secret|]; [|done].
  rewrite secret_kept, traces_bind_unwrap, base58_round, display_base58. split.
  - intros H. repeat exec H. repeat match goal with r : resp (PrintLn _) |- _ => destruct r end. done.
  - intros [-> ->]. by repeat eexists.
Qed.

(** The secret key a command line argument denotes. *)
Definition key_of (arg : bytes) : option SecretKey := hex_decode arg ≫= secret_from_bytes.

(** C19: the command panics exactly when its argument is not the hexadecimal form
    of a secret key, and then it has printed nothing.  If the argument denotes a
    key the command succeeds with four lines: the node key, which denotes the same
    bytes and so the same key, and for which the command does the same; the peer
    identifier of that key in base 58; its bytes in hexadecimal and as a list,
    both of which are what the base 58 form denotes. *)
Theorem get_peerid_prints {E} cmd tr (x : option (result unit E)) :
  traces (get_peerid cmd) tr x ->
  (x = None <-> key_of (public_key cmd) = None) /\
  match key_of (public_key cmd) with
  | None => tr = []
  | Some secret => x = Some (Ok tt) /\ exists key node_key id hex,
      let vec := to_bytes (into_peer_id (keypair_public (keypair_from secret))) in
      printed tr = [lit "Node Key: " ++ node_key; lit "PeerId: " ++ id;
                    lit "PeerId Hex: " ++ hex; lit "PeerId Vector: " ++ debug_bytes vec] /\
      hex_decode (public_key cmd) = Some key /\ hex_decode node_key = Some key /\
      key_of node_key = Some secret /\
      bs58_decode id = Some vec /\ hex_decode hex = Some vec /\
      traces (get_peerid (E := E) {| public_key := node_key |}) tr x
  end.
Proof.
  rewrite get_peerid_traces. unfold key_of.
  destruct (hex_decode (public_key cmd)) as [key|] eqn:Hkey; [|by intros [-> ->]].
  cbn [mbind option_bind]. destruct (secret_from_bytes key) as [secret|] eqn:Hs; [|by intros [-> ->]].
  intros [-> ->]. split; [done|]. split; [done|]. apply secret_bytes in Hs as Hb. subst key.
  eexists (secret_as_ref secret), _, _, _. cbv zeta. split; [reflexivity|].
  rewrite get_peerid_traces. cbn [public_key]. rewrite !hex_round, base58_round. cbn [mbind option_bind]. by rewrite Hs.
Qed.

End command.

(** ** Witness *)

Section witness.
Import NodeMock.

(** Encodings that keep the bytes, and a key that is its own peer identifier. *)
#[local] Instance mock_keys : KeyTypes := {
  hex_decode b := Some b; hex_encode b := b; bs58_decode b := Some b;
  SecretKey := bytes; secret_from_bytes b := if bool_decide (List.length b = 2%nat) then Some b else None;
  secret_as_ref s := s; Keypair := bytes; keypair_from s := s; keypair_secret s := s;
  PublicKey := bytes; keypair_public s := s; PeerId := bytes; into_peer_id s := s;
  to_bytes p := p; to_base58 p := p; to_string p := p
}.

#[local] Instance mock_key_laws : KeyLaws mock_keys.
Proof. split; try done. intros b s. simpl. case_bool_decide; congruence. Qed.

Lemma get_peerid_prints_witness :
  let out := run (mock_env (mock_config Full None)) (get_peerid (E := unit) {| public_key := [x00; x10] |}) 0 [] in
  printed (snd out) = [lit "Node Key: " ++ [x00; x10]; lit "PeerId: " ++ [x00; x10];
                       lit "PeerId Hex: " ++ [x00; x10]; lit "PeerId Vector: [0, 16]"] /\
  exists node_key, key_of node_key = Some [x00; x10] /\
    traces (get_peerid (E := unit) {| public_key := node_key |}) (snd out) (Some (Ok tt)).
Proof.
  intros out. split; [reflexivity|].
  destruct (get_peerid_prints (E := unit) {| public_key := [x00; x10] |} (snd out) (Some (Ok tt))) as [_ [_ H]].
  - exact (run_traces (mock_env (mock_config Full None)) (get_peerid {| public_key := [x00; x10] |}) 0).
  - destruct H as (key & node_key & id & hex & _ & _ & _ & Hk & _ & _ & H). exists node_key. by split.
Defined.

End witness.
End PeerId.
