(* ===== verification/Command.v ===== *)
(** * The command line (node/src/command.rs, cli.rs)

    The choice of a chain specification and what each sub-command runs.  Options
    are parsed by structopt and sc_cli; the runner they create hands over a
    [Configuration]. *)

From S2P Require Import Prelude BTreeSet Frame Authorization AuthSpec AuthProofs AuthInvariants.
From S2P Require Import Template Str Num Scale Client Runtime ChainSpec.
From S2P Require Import Effects Substrate Rpc Service ServiceTheorems PeerId.
From Stdlib Require Import Strings.String.
Import Str Num Effects Substrate.
Local Open Scope Z_scope.
Local Open Scope supra_scope.

Module Command.

(** ** [impl SubstrateCli for Cli] *)

Section meta.
(** The variables cargo sets for the build, as the macro [env!] reads them. *)
Context (env : bytes -> bytes).

Definition impl_name : bytes := lit "Supra Node".
Definition impl_version : bytes := env (lit "SUBSTRATE_CLI_IMPL_VERSION").
Definition description : bytes := env (lit "CARGO_PKG_DESCRIPTION").
Definition author : bytes := env (lit "CARGO_PKG_AUTHORS").
Definition support_url : bytes := lit "support.anonymous.an".
Definition copyright_start_year : Z := 2021.

End meta.

Section load_spec.
Context `{F : FrameSystem} {AuraId GrandpaId Sr25519Public : Type}.
Context `{ChainSpec.PublicKey AuraId, ChainSpec.PublicKey GrandpaId, ChainSpec.PublicKey Sr25519Public}.
Context (into_account : Sr25519Public -> AccountId) (bs58_decode : bytes -> option bytes).
Abbreviation Spec := (ChainSpec.ChainSpec (F := F) (AuraId := AuraId) (GrandpaId := GrandpaId)).

(** [from_json_file] is that of [GenericChainSpec]. *)
Definition load_spec (WASM_BINARY : option bytes) (from_json_file : bytes -> result Spec bytes) (id : bytes) :
    result Spec bytes :=
  if bool_decide (id = lit "dev") then ChainSpec.development_config into_account bs58_decode WASM_BINARY
  else if bool_decide (id = []) || bool_decide (id = lit "local")
  then ChainSpec.local_testnet_config into_account bs58_decode WASM_BINARY
  else from_json_file id.

End load_spec.

Definition native_runtime_version {Spec} (_ : Spec) : Runtime.RuntimeVersion := Runtime.VERSION.

(** ** [run] *)

Section run.
Context `{T : SubstrateTypes} `{K : PeerId.KeyTypes}.

(** [sc_cli::Error] *)
Inductive CliError : Type :=
| CliLib (e : LibError)
| CliService (e : ServiceError)
| Input (message : bytes).

(** The parsed command line; the options of [RunCmd] are in the configuration. *)
Record Cli : Type := { subcommand : option Subcommand }.

Abbreviation cli := (W resp CliError).

(** [cli.create_runner(cmd)?] and the configuration its closures get. *)
Definition create_runner (cmd : option Subcommand) : cli Configuration :=
  let? r := wcall (CreateRunner cmd) in wresult CliLib r.

(** [cmd.run(args)] within [sync_run], or as the future of [async_run]. *)
Definition run_command (cmd : Subcommand) (args : CommandArgs) (tm : option TaskManager) : cli unit :=
  let? r := wcall (RunCommand cmd args tm) in wresult CliLib r.

Definition sync_run (cmd : Subcommand) (args : Configuration -> CommandArgs) : cli unit :=
  let? config := create_runner (Some cmd) in
  run_command cmd (args config) None.

(** The closures of [async_run] start from the shared parts of the service. *)
Definition async_run (cmd : Subcommand)
    (args : Configuration -> Service.PartialComponents -> CommandArgs) : cli unit :=
  let? config := create_runner (Some cmd) in
  let? pc := wmap_err CliService (Service.new_partial config) in
  run_command cmd (args config pc) (Some (Service.pc_task_manager pc)).

Definition NO_BENCHMARKS : bytes :=
  lit "Benchmarking wasn't enabled when building the node. You can enable it with `--features runtime-benchmarks`.".

(** [runtime_benchmarks] is the feature of that name. *)
Definition run (runtime_benchmarks : bool) (self : Cli) : cli unit :=
  match subcommand self with
  | Some Key => run_command Key WithNothing None
  | Some BuildSpec => sync_run BuildSpec (fun config => WithSpec (chain_spec config) (network config))
  | Some CheckBlock =>
      async_run CheckBlock (fun _ pc => WithQueue (Service.pc_client pc) (Service.pc_import_queue pc))
  | Some ExportBlocks =>
      async_run ExportBlocks (fun config pc => WithDatabase (Service.pc_client pc) (database config))
  | Some ExportState =>
      async_run ExportState (fun config pc => WithChainSpec (Service.pc_client pc) (chain_spec config))
  | Some ImportBlocks =>
      async_run ImportBlocks (fun _ pc => WithQueue (Service.pc_client pc) (Service.pc_import_queue pc))
  | Some PurgeChain => sync_run PurgeChain (fun config => DatabaseOnly (database config))
  | Some Revert =>
      async_run Revert (fun _ pc => WithBackend (Service.pc_client pc) (Service.pc_backend pc))
  | Some Benchmark =>
      if runtime_benchmarks then sync_run Benchmark WithConfig else wthrow (Input NO_BENCHMARKS)
  | Some (PeerID key) => PeerId.get_peerid {| PeerId.public_key := key |}
  | None =>
      let? config := create_runner None in
      let? tm := wmap_err CliService
        (if decide (role config = Role_Light) then Service.new_light config else Service.new_full config) in
      let? r := wcall (RunUntilExit tm) in
      wresult CliLib r
  end.

(** [main] of main.rs. *)
Definition main (runtime_benchmarks : bool) (self : Cli) : cli unit := run runtime_benchmarks self.

(** ** Theorems *)

Import ServiceTheorems.

(** The sub-commands that open the chain of the node. *)
Definition opens_chain (cmd : Subcommand) : bool :=
  match cmd with
  | CheckBlock | ExportBlocks | ExportState | ImportBlocks | Revert => true
  | _ => false
  end.

(** The calls a sub-command may make. *)
Definition sub_call (cmd : Subcommand) (o : Op) : Prop :=
  match o with
  | CreateRunner c => c = Some cmd
  | RunCommand c _ tm => c = cmd /\ (is_Some tm <-> opens_chain cmd = true)
  | PrintLn _ => exists key, cmd = PeerID key
  | _ => opens_chain cmd = true /\ prepares o
  end.

Lemma new_partial_only (P : Op -> Prop) config :
  (forall o, prepares o -> P o) -> calls_only P (Service.new_partial config).
Proof.
  intros HP. unfold Service.new_partial, Service.build_inherent_data_providers.
  only_calls; by apply HP.
Qed.

Lemma sync_run_only cmd args :
  opens_chain cmd = false -> calls_only (sub_call cmd) (sync_run cmd args).
Proof.
  intros Hc. unfold sync_run, create_runner, run_command. rewrite <-not_true_iff_false in Hc.
  only_calls; [done|].
  split; [done|]. split; [by intros [? ?]|done].
Qed.

Lemma async_run_only cmd args :
  opens_chain cmd = true -> calls_only (sub_call cmd) (async_run cmd args).
Proof.
  intros Hc. unfold async_run, create_runner, run_command.
  only_calls; [done| |].
  - apply new_partial_only. by intros [].
  - split; [done|]. split; [done|by eexists].
Qed.

Lemma run_sub_only runtime_benchmarks cmd :
  calls_only (sub_call cmd) (run runtime_benchmarks {| subcommand := Some cmd |}).
Proof.
  unfold run. destruct cmd; cbn [subcommand];
    try (by apply async_run_only); try (by apply sync_run_only).
  - unfold run_command. only_calls. split; [done|]. split; [by intros [? ?]|done].
  - destruct runtime_benchmarks; [by apply sync_run_only|done].
  - unfold PeerId.get_peerid. only_calls; by eexists.
Qed.

(** C16: a sub-command creates at most its own runner, opens the chain only if
    it works on blocks, runs only itself, and never builds or starts a network,
    spawns a node task or writes to the hash table. *)
Theorem subcommands_stay_offline runtime_benchmarks cmd tr x :
  traces (run runtime_benchmarks {| subcommand := Some cmd |}) tr x -> every (sub_call cmd) tr.
Proof. apply traces_calls_only, run_sub_only. Qed.

(** A node that runs: its service, and then the wait for its exit. *)
Definition service config := if decide (role config = Role_Light) then Service.new_light config else Service.new_full config.

Lemma run_node_traces runtime_benchmarks tr x :
  traces (run runtime_benchmarks {| subcommand := None |}) tr x ->
  (exists e, tr = [obs (CreateRunner None) (Err e)] /\ x = Some (Err (CliLib e))) \/
  exists config tr1 y, traces (service config) tr1 y /\
    match y with
    | Some (Ok tm) => exists r, tr = obs (CreateRunner None) (Ok config) :: tr1 ++ [obs (RunUntilExit tm) r] /\
                        x = Some (map_err CliLib r)
    | Some (Err e) => tr = obs (CreateRunner None) (Ok config) :: tr1 /\ x = Some (Err (CliService e))
    | None => tr = obs (CreateRunner None) (Ok config) :: tr1 /\ x = None
    end.
Proof.
  unfold run, create_runner. cbn [subcommand]. intros H. do 3 exec H; [|by left; exists e].
  apply (proj1 (traces_wbind _ _ _ _)) in H. destruct H as (tr1 & z & Hs & H).
  apply traces_wmap_err in Hs. destruct Hs as (y & Hs & ->). right. exists v, tr1, y. split; [done|].
  destruct y as [[tm|e]|]; [|by destruct H as [-> ->]..]. cbn in H. destruct H as (tr2 & -> & r & tr3 & -> & H).
  exists r. by destruct r; destruct H as [-> ->].
Qed.

(** The essential tasks of a running node. *)
Definition node_tasks config : list bytes :=
  if decide (role config = Role_Light) then [] else start_plan config.

Lemma service_startup config tr x :
  traces (service config) tr x ->
  match x with
  | Some (Ok _) => essential tr = node_tasks config /\ up tr
  | Some (Err _) => started tr = []
  | None => False
  end.
Proof.
  unfold service, node_tasks. case_decide; intros Ht.
  - apply new_light_startup in Ht. destruct Ht as [Hl Hx].
    destruct x as [[t|e]|]; try done. split; [|by destruct Hx]. clear Hx.
    induction Hl as [|[o r] tr Ho _ IH]; [done|]. by destruct o.
  - apply new_full_startup in Ht. by destruct x as [[t|e]|]; destruct Ht.
Qed.

(** C31: without a sub-command the program waits for the exit of a node exactly
    when the service of its role started: then the network is up, the essential
    tasks are those of the role and the configuration (none on a light node), and
    the result is that of the node.  Otherwise it ends with an error and no
    network was started.  It never panics. *)
Theorem run_node runtime_benchmarks tr x :
  traces (run runtime_benchmarks {| subcommand := None |}) tr x ->
  (exists config tr1 tm r,
     tr = obs (CreateRunner None) (Ok config) :: tr1 ++ [obs (RunUntilExit tm) r] /\
     up tr1 /\ essential tr1 = node_tasks config /\ x = Some (map_err CliLib r)) \/
  (started tr = [] /\ exists e, x = Some (Err e)).
Proof.
  intros H. apply run_node_traces in H. destruct H as [(e & -> & ->)|(config & tr1 & y & Hs & Hy)].
  { right. split; [done|by eexists]. }
  apply service_startup in Hs. destruct y as [[tm|e]|]; [..|done].
  - destruct Hy as (r & -> & ->). destruct Hs. left. by exists config, tr1, tm, r.
  - destruct Hy as [-> ->]. right. split; [done|by eexists].
Qed.

(** The answers to [create_runner] of equal observations are equal. *)
Definition runner_answer (y : Obs resp) : option (result Configuration LibError) :=
  match y with
  | existT o r =>
      match o as o' return resp o' -> option (result Configuration LibError) with
      | CreateRunner _ => Some
      | _ => fun _ => None
      end r
  end.

Lemma runner_answer_inj c (r r' : resp (CreateRunner c)) tr tr' :
  obs (CreateRunner c) r :: tr = obs (CreateRunner c) r' :: tr' -> r = r' /\ tr = tr'.
Proof. intros [Ho ->]%(inj2 cons). by apply (f_equal runner_answer), (inj Some) in Ho. Qed.

(** C15: a remote keystore is refused before anything is opened, with the same
    error, by every sub-command that opens the chain and by a node that is not a
    light client. *)
Theorem remote_keystore_refused runtime_benchmarks self config url tr x :
  match subcommand self with Some cmd => opens_chain cmd = true | None => role config <> Role_Light end ->
  keystore_remote config = Some url ->
  traces (run runtime_benchmarks self) (obs (CreateRunner (subcommand self)) (Ok config) :: tr) x ->
  tr = [] /\ x = Some (Err (CliService (Other Service.REMOTE_KEYSTORES))).
Proof.
  intros Hcmd Hurl H. destruct self as [[cmd|]]; cbn [subcommand] in *.
  - assert (exists args, run runtime_benchmarks {| subcommand := Some cmd |} = async_run cmd args) as [args Heq]
      by (by destruct cmd; first [discriminate|eexists]).
    rewrite Heq in H. unfold async_run, create_runner in H.
    apply (proj1 (traces_bind_bind _ _ _ _ _)), (proj1 (traces_bind_call _ _ _ _)) in H.
    destruct H as (r & t & Ho & H). apply runner_answer_inj in Ho as [<- <-].
    apply (proj1 (traces_bind_result _ _ _ _ _)) in H.
    apply (proj1 (traces_wbind _ _ _ _)) in H. destruct H as (tr1 & z & Hs & H).
    apply traces_wmap_err in Hs. destruct Hs as (y & Hs & ->). apply new_partial_traces in Hs.
    rewrite Hurl in Hs. destruct Hs as [-> ->]. by destruct H as [-> ->].
  - apply run_node_traces in H. destruct H as [(e & He & _)|(c & tr1 & y & Hs & Hy)].
    { apply runner_answer_inj in He as [He _]. congruence. }
    assert (c = config) as ->.
    { destruct y as [[]|]; [destruct Hy as (? & Ho & _)|destruct Hy as [Ho _]..];
        apply runner_answer_inj in Ho as [Ho _]; congruence. }
    unfold service in Hs. rewrite decide_False in Hs by done. apply new_full_traces in Hs.
    rewrite Hurl in Hs. destruct Hs as [-> ->]. destruct Hy as [Ho ->].
    by apply runner_answer_inj in Ho as [_ ->].
Qed.

End run.

Section load_spec_theorems.
Context `{F : FrameSystem} {AuraId GrandpaId Sr25519Public : Type}.
Context `{ChainSpec.PublicKey AuraId, ChainSpec.PublicKey GrandpaId, ChainSpec.PublicKey Sr25519Public}.
Context (into_account : Sr25519Public -> AccountId) (bs58_decode : bytes -> option bytes).
Context `{FS : FrameStorage} `{L : !FrameStorageLaws FS}.

(** The chains known by name: their identifier and number of authorities. *)
Definition known_chain (id : bytes) : option (bytes * nat) :=
  if bool_decide (id = lit "dev") then Some (lit "dev", 1%nat)
  else if bool_decide (id = [] \/ id = lit "local") then Some (lit "local_testnet", 2%nat)
  else None.

(** C14: the chain specification of every identifier.  A known name needs the
    embedded wasm and then gives its own chain with a sound genesis, whatever
    files there are, if the keys of the literal seeds can be derived and the two
    literal peer identifiers decode; the default is the local network; any other
    name is read as a file, and what that answers is the result. *)
Theorem load_spec_total WASM_BINARY
    (from_json_file : bytes -> result (ChainSpec.ChainSpec (AuraId := AuraId) (GrandpaId := GrandpaId)) bytes) id :
  ChainSpec.static_values (AuraId := AuraId) (GrandpaId := GrandpaId) (Sr25519Public := Sr25519Public) bs58_decode ->
  let spec := load_spec into_account bs58_decode WASM_BINARY from_json_file id in
  match known_chain id, WASM_BINARY with
  | Some (name, authorities), Some wasm =>
      exists s g, spec = Ok s /\ ChainSpec.id s = name /\ ChainSpec.genesis s = Some g /\
        ChainSpec.sound_genesis wasm authorities g
  | Some _, None => spec = Err (lit "Development wasm not available")
  | None, _ => spec = from_json_file id
  end.
Proof.
  intros Hstatic. unfold known_chain, load_spec.
  case_bool_decide as Hdev; [|rewrite <-bool_decide_or; case_bool_decide as Hloc].
  - destruct WASM_BINARY as [wasm|]; [|done].
    destruct (ChainSpec.dev_genesis_sound into_account bs58_decode wasm Hstatic) as (g & Hg & Hs).
    eexists _, g. by split_and!.
  - destruct WASM_BINARY as [wasm|]; [|done].
    destruct (ChainSpec.local_genesis_sound into_account bs58_decode wasm Hstatic) as (g & Hg & Hs).
    eexists _, g. by split_and!.
  - done.
Qed.

End load_spec_theorems.

(** ** Witnesses *)

Section witnesses.
Import NodeMock ServiceTheorems.

#[local] Instance mock_keys : PeerId.KeyTypes := {
  PeerId.hex_decode _ := None; PeerId.hex_encode b := b; PeerId.bs58_decode _ := None;
  PeerId.SecretKey := unit; PeerId.secret_from_bytes _ := None; PeerId.secret_as_ref _ := [];
  PeerId.Keypair := unit; PeerId.keypair_from s := s; PeerId.keypair_secret s := s;
  PeerId.PublicKey := unit; PeerId.keypair_public s := s; PeerId.PeerId := unit;
  PeerId.into_peer_id s := s; PeerId.to_bytes _ := []; PeerId.to_base58 _ := []; PeerId.to_string _ := []
}.

Abbreviation exec_run self config := (Effects.run (mock_env config) (run false self) 41 []).

Lemma subcommands_stay_offline_witness :
  every (sub_call Revert) (snd (exec_run {| subcommand := Some Revert |} (mock_config Full None))).
Proof.
  apply (subcommands_stay_offline false Revert _ (Some (Ok tt))).
  exact (run_traces (mock_env (mock_config Full None)) (run false {| subcommand := Some Revert |}) 41).
Defined.

Lemma run_node_witness :
  let out := exec_run {| subcommand := None |} (mock_config Light None) in
  fst (fst out) = Some (Ok tt) /\
  ((exists config tr1 tm r,
     snd out = obs (CreateRunner None) (Ok config) :: tr1 ++ [obs (RunUntilExit tm) r] /\
     up tr1 /\ essential tr1 = node_tasks config /\ Some (Ok tt) = Some (map_err CliLib r)) \/
   (started (snd out) = [] /\ exists e, Some (Ok tt) = Some (Err (A := unit) (E := CliError) e))).
Proof.
  intros out. split; [reflexivity|]. apply (run_node false (snd out) (Some (Ok tt))).
  exact (run_traces (mock_env (mock_config Light None)) (run false {| subcommand := None |}) 41).
Defined.

Lemma remote_keystore_refused_witness :
  fst (fst (exec_run {| subcommand := Some CheckBlock |} (mock_config Full (Some [])))) =
    Some (Err (CliService (Other Service.REMOTE_KEYSTORES))).
Proof.
  apply (remote_keystore_refused false {| subcommand := Some CheckBlock |} (mock_config Full (Some [])) [] []);
    [reflexivity..|].
  exact (run_traces (mock_env (mock_config Full (Some []))) (run false {| subcommand := Some CheckBlock |}) 41).
Defined.

(** A light node is not stopped by the setting. *)
Example light_ignores_remote_keystore :
  fst (fst (exec_run {| subcommand := None |} (mock_config Light (Some [])))) = Some (Ok tt).
Proof. reflexivity. Qed.

Import Mock.
#[local] Instance demo_key : ChainSpec.PublicKey bytes := {
  ChainSpec.Pair := bytes; ChainSpec.from_string uri := Some uri; ChainSpec.public p := p
}.

Lemma load_spec_total_witness :
  exists s g,
    load_spec (F := mock_system) (AuraId := bytes) (GrandpaId := bytes)
      (fun k : bytes => Z.of_nat (List.length k)) Some (Some [x00]) (fun _ => Err []) [] = Ok s /\
    ChainSpec.id s = lit "local_testnet" /\ ChainSpec.genesis s = Some g /\ ChainSpec.sound_genesis [x00] 2 g.
Proof.
  refine (load_spec_total (F := mock_system) (AuraId := bytes) (GrandpaId := bytes) (Sr25519Public := bytes)
           (fun k : bytes => Z.of_nat (List.length k)) Some (Some [x00]) (fun _ => Err []) [] _).
  split; [| |split; eexists; reflexivity]; repeat constructor; eexists; reflexivity.
Defined.

End witnesses.
End Command.
